(* ===== verification/_CoqProject ===== *)
-Q . S2P
Prelude.v
Machine.v
Sequence.v
BlockEngine.v
BlockEngineSwap.v
BlockEngineSpec.v
Api.v
Candle.v
Backend.v
Attention.v
CacheEngine.v
Scheduler.v
SchedulerGroups.v
SchedulerInv.v
SchedulerWaiting.v
SchedulerSpec.v
SchedulerTrace.v
SchedulerDecode.v
Llama.v
Sampling.v
Conversation.v
Server.v
Dialogue.v
Engine.v
EngineSpec.v
EngineRound.v
Handler.v
Serving.v
ServingSpec.v
Streaming.v
Pipeline.v
Startup.v
Build.v
