(* ===== verification/Prelude.v ===== *)
(** * candle-vllm: a verification development

    [candle-vllm] serves a language model over an OpenAI-style HTTP interface.  A
    request becomes a group of sequences; a scheduler decides, step by step, which
    groups run and hands out the pages of a paged key/value cache; an engine turns
    what is scheduled into the inputs of the model, runs it, and gives the sampled
    tokens back to the sequences.  The development translates the Rust code under
    [src/src] definition by definition and proves what the parts promise, what
    they promise together, and where the code falls short of what it means.

    ** The parts, and the files that model them

    Shared ground.
    - [Prelude] (this file): outcomes ([Done], [Panic], [Hang]), the state monad
      with its loops, total ([wp]) and partial ([wlp]) correctness and total
      correctness up to a panic ([wp_or]), [usize] arithmetic, [HashMap] order, hint databases and tactics.
    - [Machine]: the heap of objects behind [Arc<Mutex<_>>], their locks as scopes,
      [f32].

    Sequences and memory ([src/scheduler/]).
    - [Sequence]: [sequence.rs] and the logical blocks of [block_engine.rs].
    - [BlockEngine]: the allocators and [BlockEngine], all of [block_engine.rs],
      with the reference-count invariant [engine_inv]; [BlockEngineSwap] what each
      operation does to it; [BlockEngineSpec] the properties.
    - [CacheEngine]: [cache_engine.rs], the configuration, shapes and allocation of
      the caches and the moves between them.
    - [Scheduler]: [mod.rs], the three queues and [schedule].  [SchedulerInv] has the
      invariant [sched_inv], for a [Cover] that says how much of its pages the table of
      a running sequence covers, and the loop over the running queue,
      [SchedulerWaiting] the specification [admission] and the loop that implements
      it, [SchedulerSpec] the properties, [SchedulerTrace] the relation [call] of
      one call of the engine and the states that calls reach, [SchedulerDecode]
      the specification [decode] of the second part of [schedule],
      [SchedulerGroups] what becomes of groups of several sequences.

    The device ([src/backend/], [src/paged_attention/], [src/openai/models/]).
    - [Candle]: the interface to the tensor library and the CUDA driver.
    - [Backend]: [backend/*.rs], the guards, ranges and launches of the kernels.
    - [Attention]: the metadata, attention biases and masks, [PagedAttention].
    - [Llama]: [models/llama.rs], configurations, loading, and the forward pass.

    Requests ([src/openai/]).
    - [Api]: [requests.rs], [responses.rs]; [Sampling]: [sampling_params.rs];
      [Conversation]: [conversation/]; [Server]: the part of [openai_server.rs]
      before the engine, [Dialogue] the prompt of a dialogue.
    - [Engine]: [pipelines/llm_engine.rs] and [pipelines/mod.rs]; [EngineSpec] its
      properties; [EngineRound] a round of generation over scheduler and sequences.
    - [Handler]: [chat_completions], the whole path of a request; [Serving]: the
      handlers of several requests, their turns on the shared engine in any order,
      and [ServingSpec] the service they come down to; [Streaming]: [streaming.rs],
      the thread that feeds a stream and its client, and the clock of [utils.rs].
    - [Pipeline]: [pipelines/llama.rs], sampling and the instance of
      [ModulePipeline]; [Startup]: [main.rs], [lib.rs] and the loader.

    The build.
    - [Build]: [build.rs], the compute capability and the compilation of the kernels,
      alone or by threads.

    The parts meet in five interfaces.  The block engine promises [engine_inv] and
    the lemmas of [BlockEngineSwap] to the scheduler; the scheduler promises
    [sched_inv] to the engine, and is proved against the class [Cover], with the
    instances [pages_cover] (a block per page: one round, whose tokens have room) and
    [loose_cover] (a block if there is a page: any tokens); the class [Conversation] with [ConversationLaws] is
    what the server knows of a conversation, and [DefaultConversation] discharges
    it; the class [ModulePipeline] with [PipelineLaws] is what the engine knows of a
    model, and [LlamaPipeline_module] with [LlamaPipeline_laws] discharges it.

    ** What is modelled how

    State is explicit.  The scheduler and the engine are records passed through;
    what the code shares behind an [Arc<Mutex<_>>], physical blocks and sequences,
    lives in the [World] under addresses, so that two tables can hold the same
    block.  Taking a lock that is held is [Hang]: every lock of the source is taken
    by spinning on [try_lock], and one request is handled at a time.  A panic is
    [Panic]; an error of type [APIError] is a value.  The storage of tensors is
    [Memory], a state of its own ([on_device] in [Engine]).

    Concurrency.  Inside the engine there is none: the engine is behind one mutex,
    and a critical section of the server is one atomic step.  Above it, [Serving]
    has a step relation of arrivals and turns, with the poison flag of the standard
    mutex; [Streaming] has one for a thread and the client it feeds; [Build] has one
    for the threads of the build script, in which starting [nvcc] and waiting for it
    are steps of their own.

    Machine integers.  Counts of objects in memory are [nat]; numbers that come
    from a request, and subtractions that can fall below zero, are kept at their
    width in [Z], and [checks] is the compiler's overflow checks, so that both
    build profiles are covered.  Floats are IEEE 754 through [SpecFloat].

    Fuel.  The loops over the queues take the length of their queue, which
    [calls_terminate] proves to be enough in every reachable state; the loop of
    [generate] has free fuel, and what is said of it holds for every amount.

    Parameters, for code that is not in the repository: [Candle] and [TensorOps]
    (tensors, devices, kernels) with the laws [CandleLaws] and [TensorLaws] (which
    element types and dimensions a result has), [NN] (the layers of [candle_nn]),
    [Sampler] (tokenizer and logits processor), [Host] (files, environment and the
    model hub), [BuildHost] (the processes and the directory of the build), the
    [bind] and [run] of the HTTP server (arguments of [main]), [Channel] with
    [ChannelLaws] (the channel of [tokio], a bounded queue) and [StreamHost] (its
    runtime, and how an error is written), [LogprobsSig], [DynFormat] ([dyn_fmt]),
    [FloatDisplay] (how a float prints) and [HashOrder] (the order a [HashMap] is iterated in, any order).  The
    [plain_] instances of the witnesses are concrete implementations that satisfy
    the laws.

    ** What the theorems show

    - The pages of a sequence ([Sequence]): adding a token keeps them well formed
      and they implement the list of tokens.
    - The block engine ([BlockEngineSpec]): what every operation does on every
      branch, for counts that equal the references; allocation and freeing undo
      each other; and where the code goes wrong (admission by the wrong
      comparison, tables shared by the sequences of a group, swapping).
    - The scheduler ([SchedulerSpec], [SchedulerTrace], [SchedulerDecode]):
      [schedule] implements two specifications on sizes alone, [admission] for
      the waiting queue and [decode] for the running queue; decoding never panics;
      preemption takes the earliest arrivals, and nobody when the blocks are there;
      in the states that the relation [call] reaches from [Scheduler::new], the pool is
      accounted for, no request is lost, the loops terminate and an idle scheduler
      admits the front of the waiting queue.
    - Rounds ([EngineRound]): scheduling, applying any tokens or finish reasons,
      and freeing keep the invariant, and its steps, like [add_request], are [call]s;
      the first token after a prompt that fills
      its last page is the one the table has no block for.
    - The inputs of the model ([EngineSpec]): the slots of a prompt are valid,
      distinct and the ones the pages name.
    - Requests ([Sampling], [Conversation], [Server], [Dialogue], [Handler]): which
      parameters the code accepts (not those its comments promise), how a prompt grows,
      the closed form of the text this code makes of a dialogue, which lengths are
      accepted, and what the handler answers.
    - Requests in flight ([Serving], [ServingSpec]): the server implements a service
      without engine, scheduler or heap; in every
      interleaving they end, nobody gets stuck and nobody gets a choice; one prompt
      poisons the engine for everybody, and prompts leak between requests while none
      has a system message.  That the turns of a request alone add up to
      [chat_completions] ([handler_alone]) is a check of the model, not a property.
    - Streams ([Streaming]): in every interleaving the thread never waits for its
      client, and the client receives the body; on an idle engine it is empty.
    - The device ([Attention], [Llama], [CacheEngine], [Backend]): the intervals of
      a batch, and what of the device code can return at all.
    - The whole ([Pipeline], [Startup]): what a token of the sampler becomes, and
      that neither the engine with the Llama pipeline nor the program gets to an
      answer in the state the code is in.
    - The build ([Build]): which capability is accepted, that the threads share out
      the kernels and compile each once in every interleaving, that the build ends,
      and that failures in threads are lost.

    Groups have one sequence in the scheduler's theorems, as [add_request] builds
    them; with several, the scheduler cannot get rid of a group any more
    ([SchedulerGroups]).  [_Sequence::new] panics for every prompt with a token
    ([sequence_new_panics]), so that what [add_request] enqueues has no page yet.  The
    relation [call] takes any well-formed sequence ([seq_wf]), those without a page and
    those [_Sequence::new] was meant to build, and adds tokens as the engine does,
    whether or not the last page has room; what depends on that is said where it
    matters (a decoding step can panic on a running sequence without a page, and the
    table of a sequence is not claimed to cover its pages).  The theorems about one
    step and one round ([SchedulerSpec], [SchedulerDecode], [EngineRound]) are about
    sequences whose tables cover their pages ([pages_cover]).

    ** Not modelled

    The CUDA kernels (device code in C++); the HTTP server behind [main] (actix),
    command line parsing (clap) and serialisation (serde), which are libraries; logging, tracing spans and the
    lines the build script prints for cargo; the end of [paged_attention.rs], C++
    code in a comment.

    ** Order of work

    Sequences, block engine and scheduler came first, then requests and the
    engine, then the device, the pipeline and the reachable states, then requests
    in flight with their streams, the program entry and the build script.  What is left: an invariant
    for schedulers whose groups have several sequences, which is weaker than the
    one here from [allocate] on, and with it the queue of swapped-out groups. *)

From Stdlib Require Import ZArith Lia.
From stdpp Require Import base gmap sets strings sorting countable list.

Declare Scope cvllm_scope.
Delimit Scope cvllm_scope with cvllm.

(** ** Outcomes and the state monad

    A call of the modelled code returns ([Done]), panics ([Panic]: an
    [unwrap] of [None], a failed [assert!], an index out of range, an
    [unreachable!], [todo!] or [panic!]) or never returns ([Hang]: the spin
    loops [loop { if let Ok(v) = self.0.try_lock() { return v; } }] on a lock
    the same thread holds). *)

Inductive outcome (S A : Type) : Type :=
  | Done (a : A) (s : S)
  | Panic
  | Hang.
Arguments Done {S A} a s.
Arguments Panic {S A}.
Arguments Hang {S A}.

Definition St (S A : Type) : Type := S → outcome S A.

Section Monad.
  Context {S : Type}.

Definition st_ret {A} (a : A) : St S A := λ s, Done a s.

Definition st_bind {A B} (m : St S A) (k : A → St S B) : St S B := λ s,
    match m s with
    | Done a s' => k a s'
    | Panic => Panic
    | Hang => Hang
    end.

Definition st_panic {A} : St S A := λ _, Panic.

Definition st_hang {A} : St S A := λ _, Hang.

Definition st_get {A} (f : S → A) : St S A := λ s, Done (f s) s.

Definition st_modify (f : S → S) : St S unit := λ s, Done tt (f s).

  (** [o.unwrap()] *)
Definition st_unwrap {A} (o : option A) : St S A :=
    match o with Some a => st_ret a | None => st_panic end.

  (** [assert!(b)] *)
Definition st_assert (b : bool) : St S unit :=
    if b then st_ret tt else st_panic.

  (** [for x in l { acc = f(acc, x) }] *)
Fixpoint st_fold {A B} (f : B → A → St S B) (acc : B) (l : list A) : St S B :=
    match l with
    | [] => st_ret acc
    | x :: l' => st_bind (f acc x) (λ acc', st_fold f acc' l')
    end.

  (** [l.iter().map(f).collect()], and the loops that push one element per turn *)
Fixpoint st_map {A B} (f : A → St S B) (l : list A) : St S (list B) :=
    match l with
    | [] => st_ret []
    | x :: l' => st_bind (f x) (λ y, st_bind (st_map f l') (λ ys, st_ret (y :: ys)))
    end.

  (** [l.iter().all(f)], which stops at the first [false] *)
Fixpoint st_all {A} (f : A → St S bool) (l : list A) : St S bool :=
    match l with
    | [] => st_ret true
    | x :: l' => st_bind (f x) (λ b, if b : bool then st_all f l' else st_ret false)
    end.

  (** Total correctness: from [s] the call returns, and its result and final
      state satisfy [Q]. *)
Definition wp {A} (m : St S A) (Q : A → S → Prop) (s : S) : Prop :=
    match m s with Done a s' => Q a s' | _ => False end.

  (** Partial correctness: if the call returns, [Q] holds. *)
Definition wlp {A} (m : St S A) (Q : A → S → Prop) (s : S) : Prop :=
    match m s with Done a s' => Q a s' | _ => True end.

  (** Total correctness but for panics, which happen only if [P]. *)
Definition wp_or {A} (P : Prop) (m : St S A) (Q : A → S → Prop) (s : S) : Prop :=
    match m s with Done a s' => Q a s' | Panic => P | Hang => False end.

End Monad.

Notation "'let!' x ':=' m 'in' k" := (st_bind m (fun x => k))
  (at level 10, x pattern, m at level 100, k at level 200,
   format "'[v' 'let!'  x  ':='  m  'in' '/' k ']'") : cvllm_scope.
Open Scope cvllm_scope.

(** ** [usize] arithmetic

    A [usize] that counts objects the program holds is a [nat].  The ones that
    come from a request, or whose subtraction may go below zero, are kept at
    their width as a [Z] in [0, 2^64); [checks] is the compiler's
    [overflow-checks] (on in the debug profile: a panic, off in the release
    profile: two's complement wrap-around). *)

Definition usize_modulus : Z := (2 ^ 64)%Z.

Definition usize_wrap (z : Z) : Z := (z mod usize_modulus)%Z.

Definition is_usize (z : Z) : Prop := (0 ≤ z < usize_modulus)%Z.

Definition usize_add (checks : bool) (a b : Z) : option Z :=
  if (a + b <? usize_modulus)%Z then Some (a + b)%Z
  else if checks then None else Some (usize_wrap (a + b)).

Definition usize_sub (checks : bool) (a b : Z) : option Z :=
  if (b <=? a)%Z then Some (a - b)%Z
  else if checks then None else Some (usize_wrap (a - b)).

(** ** Vectors *)

(** [Vec::pop]: the last element and the rest. *)
Fixpoint vec_pop {A} (l : list A) : option (A * list A) :=
  match l with
  | [] => None
  | [x] => Some (x, [])
  | x :: l' => match vec_pop l' with
               | Some (y, r) => Some (y, x :: r)
               | None => None
               end
  end.

(** The order in which a [HashMap] is iterated: unspecified by the standard
    library, so a parameter.  A map that is not modified iterates in the same
    order every time. *)
Class HashOrder := {
  hash_iter : ∀ {A : Type}, gmap nat A → list (nat * A);
  hash_iter_perm : ∀ {A : Type} (m : gmap nat A), hash_iter m ≡ₚ map_to_list m;
}.

Definition hash_keys `{HashOrder} {A} (m : gmap nat A) : list nat := (hash_iter m).*1.

Definition hash_values `{HashOrder} {A} (m : gmap nat A) : list A := (hash_iter m).*2.

(** The order used by the witnesses. *)
Definition canonical_order : HashOrder :=
  {| hash_iter A m := map_to_list m; hash_iter_perm A m := Permutation_refl _ |}.

(** ** Lemmas: the weakest precondition *)

Create HintDb cvllm.
Create Rewrite HintDb cvllm_rew.

Section WpLemmas.
  Context {S : Type}.
  Implicit Types s : S.

Lemma wp_done {A} (m : St S A) Q s :
    wp m Q s ↔ ∃ a s', m s = Done a s' ∧ Q a s'.
  Proof.
    unfold wp. split.
    - destruct (m s); [eauto | done | done].
    - intros (a & s' & -> & HQ). exact HQ.
  Qed.

  (** Stepping through a bind whose first call is known. *)
Lemma st_bind_done {A B} (m : St S A) (k : A → St S B) s a s' :
    m s = Done a s' → st_bind m k s = k a s'.
  Proof. unfold st_bind. by intros ->. Qed.

Lemma st_bind_Done {A B} (m : St S A) (k : A → St S B) s b s' :
    st_bind m k s = Done b s' → ∃ a s1, m s = Done a s1 ∧ k a s1 = Done b s'.
  Proof. unfold st_bind. destruct (m s) as [a s1| |]; [eauto | done | done]. Qed.

Lemma st_bind_panic {A B} (m : St S A) (k : A → St S B) s :
    m s = Panic → st_bind m k s = Panic.
  Proof. unfold st_bind. by intros ->. Qed.

Lemma st_bind_hang {A B} (m : St S A) (k : A → St S B) s :
    m s = Hang → st_bind m k s = Hang.
  Proof. unfold st_bind. by intros ->. Qed.

Lemma wp_ret {A} (a : A) (Q : A → S → Prop) s : Q a s → wp (st_ret a) Q s.
  Proof. done. Qed.

Lemma wp_bind {A B} (m : St S A) (k : A → St S B) Q s :
    wp m (λ a s', wp (k a) Q s') s → wp (st_bind m k) Q s.
  Proof. unfold wp, st_bind. by destruct (m s). Qed.

Lemma wp_mono {A} (m : St S A) (P Q : A → S → Prop) s :
    wp m P s → (∀ a s', P a s' → Q a s') → wp m Q s.
  Proof. unfold wp. destruct (m s); auto. Qed.

  (** Two postconditions of one call. *)
Lemma wp_and {A} (m : St S A) (P Q : A → S → Prop) s :
    wp m P s → wp m Q s → wp m (λ a s', P a s' ∧ Q a s') s.
  Proof. unfold wp. by destruct (m s). Qed.

Lemma wp_get {A} (f : S → A) (Q : A → S → Prop) s : Q (f s) s → wp (st_get f) Q s.
  Proof. done. Qed.

Lemma wp_modify (f : S → S) (Q : unit → S → Prop) s : Q tt (f s) → wp (st_modify f) Q s.
  Proof. done. Qed.

Lemma wp_unwrap {A} (o : option A) (a : A) (Q : A → S → Prop) s :
    o = Some a → Q a s → wp (st_unwrap o) Q s.
  Proof. by intros ->. Qed.

Lemma wp_assert (b : bool) (Q : unit → S → Prop) s :
    b = true → Q tt s → wp (st_assert b) Q s.
  Proof. by intros ->. Qed.

  (** A loop that keeps an invariant over the elements still to visit. *)
Lemma wp_fold {A B} (f : B → A → St S B) (I : B → list A → S → Prop) acc l s :
    (∀ acc x l' s, I acc (x :: l') s → wp (f acc x) (λ acc' s', I acc' l' s') s) →
    I acc l s →
    wp (st_fold f acc l) (λ acc' s', I acc' [] s') s.
  Proof.
    intros Hstep. revert acc s. induction l as [|x l IH]; intros acc s HI; simpl.
    - by apply wp_ret.
    - apply wp_bind. eapply wp_mono; [by apply Hstep |]. auto.
  Qed.

  (** A read-only loop: every turn returns a value fixed by the state. *)
Lemma wp_map_pure {A B} (f : A → St S B) (g : A → B) l s :
    (∀ x, x ∈ l → f x s = Done (g x) s) → st_map f l s = Done (g <$> l) s.
  Proof.
    induction l as [|x l IH]; intros Hf; [done |].
    simpl. unfold st_bind at 1. rewrite Hf by set_solver.
    unfold st_bind at 1. rewrite IH by set_solver. done.
  Qed.

Lemma wp_or_ret {A} P (a : A) (Q : A → S → Prop) s : Q a s → wp_or P (st_ret a) Q s.
  Proof. done. Qed.

Lemma wp_or_bind {A B} P (m : St S A) (k : A → St S B) Q s :
    wp_or P m (λ a s', wp_or P (k a) Q s') s → wp_or P (st_bind m k) Q s.
  Proof. unfold wp_or, st_bind. by destruct (m s). Qed.

Lemma wp_or_mono {A} (P P' : Prop) (m : St S A) (Q Q' : A → S → Prop) s :
    wp_or P m Q s → (P → P') → (∀ a s', Q a s' → Q' a s') → wp_or P' m Q' s.
  Proof. unfold wp_or. destruct (m s); auto. Qed.

Lemma wp_or_intro {A} P (m : St S A) (Q : A → S → Prop) s : wp m Q s → wp_or P m Q s.
  Proof. unfold wp, wp_or. by destruct (m s). Qed.

Lemma wp_or_elim {A} P (m : St S A) (Q : A → S → Prop) s : wp_or P m Q s → ¬ P → wp m Q s.
  Proof. unfold wp, wp_or. by destruct (m s). Qed.

Lemma wp_or_wlp {A} P (m : St S A) (Q : A → S → Prop) s : wp_or P m Q s → wlp m Q s.
  Proof. unfold wlp, wp_or. by destruct (m s). Qed.

Lemma wlp_ret {A} (a : A) (Q : A → S → Prop) s : Q a s → wlp (st_ret a) Q s.
  Proof. done. Qed.

Lemma wlp_bind {A B} (m : St S A) (k : A → St S B) Q s :
    wlp m (λ a s', wlp (k a) Q s') s → wlp (st_bind m k) Q s.
  Proof. unfold wlp, st_bind. by destruct (m s). Qed.

Lemma wlp_mono {A} (m : St S A) (P Q : A → S → Prop) s :
    wlp m P s → (∀ a s', P a s' → Q a s') → wlp m Q s.
  Proof. unfold wlp. destruct (m s); auto. Qed.

Lemma wlp_unwrap {A} (o : option A) (Q : A → S → Prop) s :
    (∀ a, o = Some a → Q a s) → wlp (st_unwrap o) Q s.
  Proof. destruct o; simpl; [intros HQ; by apply HQ | done]. Qed.

Lemma wlp_fold {A B} (f : B → A → St S B) (I : B → list A → S → Prop) acc l s :
    (∀ acc x l' s, I acc (x :: l') s → wlp (f acc x) (λ acc' s', I acc' l' s') s) →
    I acc l s →
    wlp (st_fold f acc l) (λ acc' s', I acc' [] s') s.
  Proof.
    intros Hstep. revert acc s. induction l as [|x l IH]; intros acc s HI; simpl.
    - by apply wlp_ret.
    - apply wlp_bind. eapply wlp_mono; [by apply Hstep |]. auto.
  Qed.

Lemma wlp_done {A} (m : St S A) Q s a s' : wlp m Q s → m s = Done a s' → Q a s'.
  Proof. unfold wlp. intros HQ E. by rewrite E in HQ. Qed.

Lemma st_fold_app {A B} (f : B → A → St S B) acc l1 l2 s :
    st_fold f acc (l1 ++ l2) s =
    st_bind (st_fold f acc l1) (λ acc', st_fold f acc' l2) s.
  Proof.
    revert acc s. induction l1 as [|x l1 IH]; intros acc s; [done |].
    simpl. unfold st_bind in *. destruct (f acc x s); auto.
  Qed.

End WpLemmas.

(** ** Lemmas: vectors, permutations and counts *)

Lemma vec_pop_snoc {A} (l : list A) x : vec_pop (l ++ [x]) = Some (x, l).
Proof.
  induction l as [|y l IH]; [done |]. simpl. rewrite IH. by destruct l.
Qed.

Lemma vec_pop_None {A} (l : list A) : vec_pop l = None ↔ l = [].
Proof.
  split; [| by intros ->]. destruct l as [|x l _] using rev_ind; [done |].
  by rewrite vec_pop_snoc.
Qed.

Lemma vec_pop_Some {A} (l : list A) x r : vec_pop l = Some (x, r) ↔ l = r ++ [x].
Proof.
  split; [| intros ->; apply vec_pop_snoc].
  destruct l as [|y l _] using rev_ind; [done |].
  rewrite vec_pop_snoc. by intros [= -> ->].
Qed.

(** How often [p] occurs in [l]. *)
Abbreviation occ p l := (count_occ Nat.eq_dec l p).

#[export] Instance occ_proper : Proper ((≡ₚ) ==> (=) ==> (=)) (count_occ Nat.eq_dec).
Proof. intros l1 l2 Hp p q <-. by apply (Permutation_count_occ Nat.eq_dec). Qed.

Lemma occ_app p (l1 l2 : list nat) : occ p (l1 ++ l2) = occ p l1 + occ p l2.
Proof. apply count_occ_app. Qed.

Lemma occ_cons p q (l : list nat) :
  occ p (q :: l) = (if decide (p = q) then 1 else 0) + occ p l.
Proof.
  simpl. destruct (Nat.eq_dec q p), (decide (p = q)); congruence || done.
Qed.

Lemma occ_not_elem p (l : list nat) : occ p l = 0 ↔ p ∉ l.
Proof. rewrite list_elem_of_In. symmetry. apply count_occ_not_In. Qed.

Lemma occ_NoDup p (l : list nat) : NoDup l → p ∈ l → occ p l = 1.
Proof.
  intros Hnd Hin. apply NoDup_ListNoDup in Hnd. apply list_elem_of_In in Hin.
  pose proof (proj1 (count_occ_In Nat.eq_dec l p) Hin).
  pose proof (proj1 (NoDup_count_occ Nat.eq_dec l) Hnd p). lia.
Qed.

Lemma alter_is_insert {A} (f : A → A) i (m : gmap nat A) x :
  m !! i = Some x → alter f i m = <[i:=f x]> m.
Proof.
  intros Hi. apply map_eq. intros j. rewrite lookup_alter, lookup_insert.
  case_decide; [subst; by rewrite Hi | done].
Qed.

(** Concatenating the values of a map, one entry apart. *)
Lemma concat_values_insert (m : gmap nat (list nat)) i t :
  m !! i = None →
  concat (map_to_list (<[i:=t]> m)).*2 ≡ₚ t ++ concat (map_to_list m).*2.
Proof. intros Hi. by rewrite map_to_list_insert. Qed.

Lemma concat_values_delete (m : gmap nat (list nat)) i t :
  m !! i = Some t →
  concat (map_to_list m).*2 ≡ₚ t ++ concat (map_to_list (delete i m)).*2.
Proof.
  intros Hi. rewrite <- (insert_delete_id m i t) at 1 by done.
  apply concat_values_insert, lookup_delete_eq.
Qed.

(** One element of a sum replaced. *)
Lemma sum_list_fmap_insert {A} (f : A → nat) l i x y :
  l !! i = Some x → sum_list (f <$> <[i:=y]> l) + f x = sum_list (f <$> l) + f y.
Proof.
  revert i. induction l as [|z l IH]; intros [|i] Hi; csimpl in *; try done; unfold id in *.
  - injection Hi as ->. lia.
  - specialize (IH i Hi). lia.
Qed.

#[export] Hint Rewrite @occ_app @occ_cons @vec_pop_snoc : cvllm_rew.

(** Unfolds one bind of a weakest precondition. *)
Ltac wp_step :=
  first [ apply wp_bind
        | apply wp_ret
        | apply wp_get
        | apply wp_modify
        | eapply wp_unwrap; [eassumption |]
        | apply wp_assert; [done |] ].

(** A closed decidable proposition, by evaluating its decision procedure. *)
Ltac by_compute := apply (bool_decide_unpack _); vm_compute; exact I.
