(* ===== verification/Machine.v ===== *)
(** * The machine state: shared objects and their locks

    The data that the code shares behind [Arc<Mutex<_>>]: the physical token
    blocks ([scheduler/block_engine.rs]) and the sequences
    ([scheduler/sequence.rs]).  An [Arc] is an address of the [World]; cloning
    it is copying the address.  A [MutexGuard] is a scope ([with_guard]): Rust
    drops the guard of a temporary at the end of the enclosing statement (or of
    the [match]/[if let] whose scrutinee it is in, [else] branch included, in
    edition 2021), so the scopes below close where the statements of the source
    end.  Every [deref]/[deref_mut] of the source is the same spin loop on
    [try_lock]; nothing else runs while a request is handled (the engine is
    behind one more mutex), so a lock that is taken when the loop starts is held
    by the caller itself and the loop never ends ([Hang]). *)

From Stdlib Require Import ZArith SpecFloat Lia.
From stdpp Require Import base gmap sets strings countable list.
From S2P Require Import Prelude.

(** ** Single-precision floats

    [f32] is IEEE 754 binary32; [SpecFloat] gives the operations of a binary
    format by its precision and its largest exponent. *)

Abbreviation f32 := spec_float.

Definition f32_prec : Z := 24.

Definition f32_emax : Z := 128.

Definition f32_add : f32 → f32 → f32 := SFadd f32_prec f32_emax.

Definition f32_sub : f32 → f32 → f32 := SFsub f32_prec f32_emax.

Definition f32_zero : f32 := S754_zero false.

(** [f64::from(f32)], exact. *)
Definition f64_of_f32 (x : f32) : spec_float :=
  match x with
  | S754_finite s m e => binary_normalize 53 1024 (if s then Zneg m else Zpos m) e s
  | _ => x
  end.

(** ** Log probabilities

    [Logprobs] is a struct of the [candle-sampling] crate; the code reads its
    public fields [token] and [logprob], and keeps the rest opaque. *)
Class LogprobsSig := {
  Logprobs : Type;
  token : Logprobs → nat;
  logprob : Logprobs → f32;
}.

(** The instance of the witnesses. *)
Definition plain_logprobs : LogprobsSig :=
  {| Logprobs := nat * f32; token := fst; logprob := snd |}.

(** ** Data *)

Record LogicalTokenBlock := {
  ltb_tokens : list nat;
  ltb_block_size : nat;
  ltb_num_tokens : nat;
}.

Record _PhysicalTokenBlock := {
  block_id : nat;
  ptb_block_size : nat;
  refcount : nat;
  is_gpu : bool;
}.

Inductive SequenceStatus :=
  | FinishedIgnored
  | Waiting
  | Running
  | Swapped
  | FinishedAborted
  | Finished (reason : string).

#[export] Instance SequenceStatus_eq_dec : EqDecision SequenceStatus.
Proof. solve_decision. Defined.

Section Data.
  Context `{LogprobsSig}.

Record SequenceData := {
    prompt_token_ids : list nat;
    output_token_ids : list Logprobs;
    cumulative_logprob : f32;
    status : SequenceStatus;
  }.

Record _Sequence := {
    data : SequenceData;
    seq_id : nat;
    logical_token_blocks : list LogicalTokenBlock;
    seq_block_size : nat;
  }.

End Data.

(** [Arc<PhysicalTokenBlock>] and [Arc<Sequence>]. *)
Abbreviation block_ptr := nat (only parsing).
Abbreviation seq_ptr := nat (only parsing).

(** ** Locks *)

(** The mutexes: of a physical block, of a [Sequence] around its [_Sequence],
    and of a [_Sequence] around its [SequenceData]. *)
Inductive lock :=
  | LBlock (p : nat)
  | LSeq (p : nat)
  | LData (p : nat).

#[export] Instance lock_eq_dec : EqDecision lock.
Proof. solve_decision. Defined.

#[export] Instance lock_countable : Countable lock.
Proof.
  refine (inj_countable'
    (λ l, match l with LBlock p => (0, p) | LSeq p => (1, p) | LData p => (2, p) end)
    (λ c, match c with (0, p) => LBlock p | (1, p) => LSeq p | (_, p) => LData p end) _).
  by intros [].
Defined.

(** ** The world *)

Section World.
  Context `{LogprobsSig}.

Record World := mkWorld {
    w_blocks : gmap nat _PhysicalTokenBlock;
    w_seqs : gmap nat _Sequence;
    w_held : gset lock;
  }.

Definition set_blocks (f : gmap nat _PhysicalTokenBlock → gmap nat _PhysicalTokenBlock)
    (w : World) : World := mkWorld (f (w_blocks w)) (w_seqs w) (w_held w).

Definition set_seqs (f : gmap nat _Sequence → gmap nat _Sequence) (w : World) : World :=
    mkWorld (w_blocks w) (f (w_seqs w)) (w_held w).

Definition set_held (f : gset lock → gset lock) (w : World) : World :=
    mkWorld (w_blocks w) (w_seqs w) (f (w_held w)).

Definition M (A : Type) : Type := St World A.

  (** [let g = m.lock_by_spinning(); k], the guard dropped after [k]. *)
Definition with_guard {A} (l : lock) (k : M A) : M A := λ w,
    if decide (l ∈ w_held w) then Hang
    else match k (set_held (λ h, {[l]} ∪ h) w) with
         | Done a w' => Done a (set_held (λ h, h ∖ {[l]}) w')
         | Panic => Panic
         | Hang => Hang
         end.

  (** What a guard gives access to.  An [Arc] never dangles; the look-up of an
      address the world does not have is a [Panic], so that the proofs that
      nothing panics also prove that no address dangles. *)
Definition block_get (p : nat) : M _PhysicalTokenBlock := λ w,
    st_unwrap (w_blocks w !! p) w.

Definition block_put (p : nat) (b : _PhysicalTokenBlock) : M unit :=
    st_modify (set_blocks <[p:=b]>).

Definition seq_get (p : nat) : M _Sequence := λ w, st_unwrap (w_seqs w !! p) w.

Definition seq_put (p : nat) (q : _Sequence) : M unit := st_modify (set_seqs <[p:=q]>).

  (** [block.deref_mut().field], as a statement of its own *)
Definition block_read (p : nat) : M _PhysicalTokenBlock :=
    with_guard (LBlock p) (block_get p).

  (** [block.deref_mut().field = ..], as a statement of its own *)
Definition block_write (p : nat) (f : _PhysicalTokenBlock → _PhysicalTokenBlock) : M unit :=
    with_guard (LBlock p) (let! b := block_get p in block_put p (f b)).

  (** [Arc::new(PhysicalTokenBlock(..))]: an address not used before. *)
Definition block_alloc (b : _PhysicalTokenBlock) : M nat := λ w,
    let p := fresh (dom (w_blocks w)) in Done p (set_blocks <[p:=b]> w).

  (** [Arc::new(Sequence(..))] *)
Definition seq_alloc (q : _Sequence) : M nat := λ w,
    let p := fresh (dom (w_seqs w)) in Done p (set_seqs <[p:=q]> w).

Definition empty_world : World := mkWorld ∅ ∅ ∅.

End World.

(** ** Lemmas *)

Section WorldLemmas.
  Context `{LogprobsSig}.
  Implicit Types w : World.

Lemma world_ext w w' :
    w_blocks w = w_blocks w' → w_seqs w = w_seqs w' → w_held w = w_held w' → w = w'.
  Proof. destruct w, w'; simpl; congruence. Qed.

Lemma held_restore (l : lock) (h : gset lock) : l ∉ h → ({[l]} ∪ h) ∖ {[l]} = h.
  Proof. set_solver. Qed.

  (** A guard taken while it is free; [k] must give the other locks back. *)
Lemma wp_guard {A} (l : lock) (k : M A) (Q : A → World → Prop) w :
    l ∉ w_held w →
    wp k (λ a w', Q a (set_held (λ h, h ∖ {[l]}) w')) (set_held (λ h, {[l]} ∪ h) w) →
    wp (with_guard l k) Q w.
  Proof.
    intros Hl Hk. unfold wp, with_guard in *. rewrite decide_False by done.
    by destruct (k _).
  Qed.

  (** A guard taken twice by the same statement never comes back. *)
Lemma guard_hang {A} (l : lock) (k : M A) w :
    l ∈ w_held w → with_guard l k w = Hang.
  Proof. intros Hl. unfold with_guard. by rewrite decide_True. Qed.

Lemma block_read_eq p w b :
    LBlock p ∉ w_held w → w_blocks w !! p = Some b → block_read p w = Done b w.
  Proof.
    intros Hl Hp. unfold block_read, with_guard, block_get.
    rewrite decide_False by done. simpl. rewrite Hp. simpl. f_equal.
    apply world_ext; simpl; auto using held_restore.
  Qed.

Lemma block_write_eq p f w b :
    LBlock p ∉ w_held w → w_blocks w !! p = Some b →
    block_write p f w = Done tt (set_blocks <[p:=f b]> w).
  Proof.
    intros Hl Hp. unfold block_write, with_guard, st_bind, block_get, block_put.
    rewrite decide_False by done. simpl. rewrite Hp. simpl. f_equal.
    apply world_ext; simpl; auto using held_restore.
  Qed.

Lemma wp_block_read p w b (Q : _ → World → Prop) :
    LBlock p ∉ w_held w → w_blocks w !! p = Some b → Q b w → wp (block_read p) Q w.
  Proof. intros ?? HQ. unfold wp. by erewrite block_read_eq. Qed.

Lemma wp_block_write p f w b (Q : _ → World → Prop) :
    LBlock p ∉ w_held w → w_blocks w !! p = Some b → Q tt (set_blocks <[p:=f b]> w) →
    wp (block_write p f) Q w.
  Proof. intros ?? HQ. unfold wp. by erewrite block_write_eq. Qed.

End WorldLemmas.
