(* ===== verification/Sequence.v ===== *)
(** * Sequences and sequence groups

    [LogicalTokenBlock] of [scheduler/block_engine.rs] and all of
    [scheduler/sequence.rs].  A method of [_Sequence] that only touches its own
    fields is a function on the struct; one that locks the inner
    [Mutex<SequenceData>] is an operation of the world on the address of the
    [Sequence].  [on_seq p m] is [p.deref_mut().m()] as a statement. *)

From Stdlib Require Import ZArith SpecFloat Lia.
From stdpp Require Import base gmap sets strings countable list.
From S2P Require Import Prelude Machine.

(** ** LogicalTokenBlock *)

Definition LogicalTokenBlock_new (block_size : nat) : LogicalTokenBlock :=
  {| ltb_tokens := replicate block_size 0; ltb_block_size := block_size; ltb_num_tokens := 0 |}.

Definition LogicalTokenBlock_is_full (self : LogicalTokenBlock) : bool :=
  ltb_num_tokens self =? ltb_block_size self.

(** [None] is a panic: the assertion, or the index out of range. *)
Definition LogicalTokenBlock_append_token_id (self : LogicalTokenBlock) (tok : nat)
  : option LogicalTokenBlock :=
  if LogicalTokenBlock_is_full self then None
  else if ltb_num_tokens self <? length (ltb_tokens self) then
    Some {| ltb_tokens := <[ltb_num_tokens self := tok]> (ltb_tokens self);
            ltb_block_size := ltb_block_size self;
            ltb_num_tokens := ltb_num_tokens self + 1 |}
  else None.

Fixpoint LogicalTokenBlock_append_tokens (self : LogicalTokenBlock) (tokens : list nat)
  : option LogicalTokenBlock :=
  match tokens with
  | [] => Some self
  | tok :: tokens' =>
      match LogicalTokenBlock_append_token_id self tok with
      | Some self' => LogicalTokenBlock_append_tokens self' tokens'
      | None => None
      end
  end.

(** ** SequenceData and _Sequence *)

Section Sequences.
  Context `{LogprobsSig}.

Definition SequenceData_new (prompt : list nat) : SequenceData :=
    {| prompt_token_ids := prompt; output_token_ids := [];
       cumulative_logprob := f32_zero; status := Waiting |}.

Definition SequenceData_append_token_id (self : SequenceData) (logprobs : Logprobs)
    : SequenceData :=
    {| prompt_token_ids := prompt_token_ids self;
       output_token_ids := output_token_ids self ++ [logprobs];
       cumulative_logprob := f32_add (cumulative_logprob self) (logprob logprobs);
       status := status self |}.

Definition SequenceData_set_status (st : SequenceStatus) (self : SequenceData)
    : SequenceData :=
    {| prompt_token_ids := prompt_token_ids self;
       output_token_ids := output_token_ids self;
       cumulative_logprob := cumulative_logprob self;
       status := st |}.

Definition set_logical_token_blocks (self : _Sequence) (bl : list LogicalTokenBlock)
    : _Sequence :=
    {| data := data self; seq_id := seq_id self; logical_token_blocks := bl;
       seq_block_size := seq_block_size self |}.

Definition set_data (f : SequenceData → SequenceData) (self : _Sequence) : _Sequence :=
    {| data := f (data self); seq_id := seq_id self;
       logical_token_blocks := logical_token_blocks self;
       seq_block_size := seq_block_size self |}.

  (** [!last.is_some_and(|last| last.is_full())] *)
Definition has_space (last : option LogicalTokenBlock) : bool :=
    negb (match last with Some b => LogicalTokenBlock_is_full b | None => false end).

  (** [None] is a panic.  In the first branch [last.unwrap()] is reached with
      [last = None] too. *)
Definition _Sequence_append_token_to_blocks (self : _Sequence) (tok : nat)
    : option _Sequence :=
    match vec_pop (logical_token_blocks self) with
    | Some (last, init) =>
        if has_space (Some last) then
          match LogicalTokenBlock_append_token_id last tok with
          | Some last' => Some (set_logical_token_blocks self (init ++ [last']))
          | None => None
          end
        else
          match LogicalTokenBlock_append_token_id
                  (LogicalTokenBlock_new (seq_block_size self)) tok with
          | Some new => Some (set_logical_token_blocks self
                                (logical_token_blocks self ++ [new]))
          | None => None
          end
    | None =>
        if has_space None then None
        else
          match LogicalTokenBlock_append_token_id
                  (LogicalTokenBlock_new (seq_block_size self)) tok with
          | Some new => Some (set_logical_token_blocks self [new])
          | None => None
          end
    end.

Fixpoint _Sequence_append_tokens_to_blocks (self : _Sequence) (tokens : list nat)
    : option _Sequence :=
    match tokens with
    | [] => Some self
    | tok :: tokens' =>
        match _Sequence_append_token_to_blocks self tok with
        | Some self' => _Sequence_append_tokens_to_blocks self' tokens'
        | None => None
        end
    end.

Definition _Sequence_new (prompt : list nat) (id block_size : nat) : option _Sequence :=
    _Sequence_append_tokens_to_blocks
      {| data := SequenceData_new prompt; seq_id := id; logical_token_blocks := [];
         seq_block_size := block_size |} prompt.

Definition _Sequence_blocks_to_add_new_tok (self : _Sequence) : nat :=
    if has_space (last (logical_token_blocks self)) then 0 else 1.

Definition _Sequence_get_logical_token_blocks (self : _Sequence) : nat :=
    length (logical_token_blocks self).

Definition _Sequence_get_id (self : _Sequence) : nat := seq_id self.

  (** *** The methods that lock the data *)

  (** [self.deref()] and the fields read through the guard, in [k]. *)
Definition with_data {A} (p : seq_ptr) (k : SequenceData → M A) : M A :=
    with_guard (LData p) (let! q := seq_get p in k (data q)).

Definition update_data (p : seq_ptr) (f : SequenceData → SequenceData) : M unit :=
    with_guard (LData p) (let! q := seq_get p in seq_put p (set_data f q)).

Definition _Sequence_add_token (p : seq_ptr) (logprobs : Logprobs) : M unit :=
    let! q := seq_get p in
    let! q' := st_unwrap (_Sequence_append_token_to_blocks q (token logprobs)) in
    let! _ := seq_put p q' in
    update_data p (λ d, SequenceData_append_token_id d logprobs).

Definition _Sequence_is_prompt (p : seq_ptr) : M bool :=
    with_data p (λ d, st_ret (match output_token_ids d with [] => true | _ => false end)).

Definition _Sequence_get_prompt_len (p : seq_ptr) : M nat :=
    with_data p (λ d, st_ret (length (prompt_token_ids d))).

  (** One expression, two guards: the first one lives to its end. *)
Definition _Sequence_get_len (p : seq_ptr) : M nat :=
    with_data p (λ d1,
      let a := length (prompt_token_ids d1) in
      with_data p (λ d2, st_ret (a + length (output_token_ids d2)))).

Definition _Sequence_get_token_ids (p : seq_ptr) : M (list nat) :=
    let! res := with_data p (λ d, st_ret (prompt_token_ids d)) in
    let! out := with_data p (λ d, st_ret (token <$> output_token_ids d)) in
    st_ret (res ++ out).

Definition _Sequence_get_last_token_id (p : seq_ptr) : M nat :=
    let! is_empty := with_data p (λ d,
      st_ret (match output_token_ids d with [] => true | _ => false end)) in
    if is_empty : bool then
      with_data p (λ d, st_unwrap (last (prompt_token_ids d)))
    else
      with_data p (λ d, st_unwrap (token <$> last (output_token_ids d))).

Definition status_is_finished (st : SequenceStatus) : bool :=
    match st with
    | FinishedAborted | FinishedIgnored | Finished _ => true
    | _ => false
    end.

Definition _Sequence_is_finished (p : seq_ptr) : M bool :=
    with_data p (λ d, st_ret (status_is_finished (status d))).

Definition _Sequence_get_cumulative_logprob (p : seq_ptr) : M f32 :=
    with_data p (λ d, st_ret (cumulative_logprob d)).

Definition _Sequence_set_finish_reason (p : seq_ptr) (finish_reason : string) : M unit :=
    update_data p (SequenceData_set_status (Finished finish_reason)).

Definition _Sequence_get_finish_reason (p : seq_ptr) : M string :=
    with_data p (λ d,
      match status d with
      | Finished state => st_ret state
      | FinishedAborted => st_ret "abort"%string
      | FinishedIgnored => st_ret "length"%string
      | _ => st_panic
      end).

Definition _Sequence_get_output_tokens (p : seq_ptr) : M (list Logprobs) :=
    with_data p (λ d, st_ret (output_token_ids d)).

  (** [seq.deref_mut().m()], the guard of the outer mutex around the call. *)
Definition on_seq {A} (p : seq_ptr) (m : M A) : M A := with_guard (LSeq p) m.

  (** The same for a method of the struct. *)
Definition on_seq_pure {A} (p : seq_ptr) (f : _Sequence → A) : M A :=
    on_seq p (let! q := seq_get p in st_ret (f q)).

  (** ** SequenceGroup *)

Record SequenceGroup := {
    seqs : gmap nat seq_ptr;
    arrival_time : nat;
    group_id : nat;
    request_id : string;
    created : nat;
  }.

Definition SequenceGroup_new (sqs : list seq_ptr) (arrival : nat) (gid : nat)
    (req : string) (crt : nat) : M SequenceGroup :=
    let! seq_map := st_fold (λ (m : gmap nat seq_ptr) p,
      let! id := on_seq_pure p _Sequence_get_id in st_ret (<[id:=p]> m)) ∅ sqs in
    st_ret {| seqs := seq_map; arrival_time := arrival; group_id := gid;
              request_id := req; created := crt |}.

  Context `{HashOrder}.

Definition SequenceGroup_set_status (self : SequenceGroup) (st : SequenceStatus) : M unit :=
    st_fold (λ _ p, on_seq p (update_data p (SequenceData_set_status st)))
      tt (hash_values (seqs self)).

Definition SequenceGroup_total_blocks_to_add_new_tok (self : SequenceGroup) : M nat :=
    let! ns := st_map (λ p, on_seq_pure p _Sequence_blocks_to_add_new_tok)
                 (hash_values (seqs self)) in
    st_ret (sum_list ns).

Definition SequenceGroup_get_prompt_len (self : SequenceGroup) : nat := size (seqs self).

Definition SequenceGroup_get_total_logical_token_blocks (self : SequenceGroup) : M nat :=
    let! ns := st_map (λ p, on_seq_pure p _Sequence_get_logical_token_blocks)
                 (hash_values (seqs self)) in
    st_ret (sum_list ns).

Definition SequenceGroup_is_finished (self : SequenceGroup) : M bool :=
    st_all (λ p, on_seq p (_Sequence_is_finished p)) (hash_values (seqs self)).

End Sequences.

(** ** Well-formedness *)

(** The tokens a logical block holds. *)
Definition ltb_content (b : LogicalTokenBlock) : list nat :=
  take (ltb_num_tokens b) (ltb_tokens b).

Record ltb_wf (bs : nat) (b : LogicalTokenBlock) : Prop := {
  ltb_wf_size : ltb_block_size b = bs;
  ltb_wf_len : length (ltb_tokens b) = bs;
  ltb_wf_num : ltb_num_tokens b ≤ bs;
}.

(** A paged sequence of tokens: every block is full, but the last one, which
    holds at least one token. *)
Inductive blocks_wf (bs : nat) : list LogicalTokenBlock → Prop :=
  | blocks_wf_nil : blocks_wf bs []
  | blocks_wf_last b : ltb_wf bs b → 0 < ltb_num_tokens b → blocks_wf bs [b]
  | blocks_wf_cons b bl :
      ltb_wf bs b → ltb_num_tokens b = bs → bl ≠ [] → blocks_wf bs bl → blocks_wf bs (b :: bl).

Definition blocks_content (bl : list LogicalTokenBlock) : list nat :=
  concat (ltb_content <$> bl).

(** The token at position [i], found through the pages. *)
Definition paged_lookup (bs : nat) (bl : list LogicalTokenBlock) (i : nat) : option nat :=
  match bl !! (i / bs) with
  | Some b => ltb_content b !! (i mod bs)
  | None => None
  end.

Section SequenceWf.
  Context `{LogprobsSig}.

Definition token_ids (d : SequenceData) : list nat :=
    prompt_token_ids d ++ (token <$> output_token_ids d).

  (** The logical blocks hold the tokens of the sequence, in order. *)
Record seq_wf (q : _Sequence) : Prop := {
    seq_wf_bs : 0 < seq_block_size q;
    seq_wf_blocks : blocks_wf (seq_block_size q) (logical_token_blocks q);
    seq_wf_content : blocks_content (logical_token_blocks q) = token_ids (data q);
  }.

End SequenceWf.

(** ** Lemmas: one logical block *)

Lemma ltb_content_length bs b : ltb_wf bs b → length (ltb_content b) = ltb_num_tokens b.
Proof. intros [? Hl ?]. unfold ltb_content. rewrite length_take. lia. Qed.

Lemma is_full_spec bs b : ltb_wf bs b → LogicalTokenBlock_is_full b = (ltb_num_tokens b =? bs).
Proof. intros [<- _ _]. done. Qed.

Lemma LogicalTokenBlock_new_wf bs : ltb_wf bs (LogicalTokenBlock_new bs).
Proof. split; simpl; [done | apply length_replicate | lia]. Qed.

Lemma append_token_id_step bs b t :
  ltb_wf bs b → ltb_num_tokens b < bs →
  ∃ b', LogicalTokenBlock_append_token_id b t = Some b' ∧ ltb_wf bs b' ∧
        ltb_num_tokens b' = ltb_num_tokens b + 1 ∧
        ltb_content b' = ltb_content b ++ [t].
Proof.
  intros Hwf Hlt. pose proof Hwf as [Hs Hl Hn]. unfold LogicalTokenBlock_append_token_id.
  rewrite (is_full_spec bs) by done.
  destruct (Nat.eqb_spec (ltb_num_tokens b) bs) as [|_]; [lia |].
  destruct (Nat.ltb_spec (ltb_num_tokens b) (length (ltb_tokens b))) as [Hin|]; [| lia].
  eexists. split; [done |]. split; [split; simpl; rewrite ?length_insert; lia |].
  split; [done |]. unfold ltb_content; simpl. rewrite Nat.add_1_r.
  rewrite (take_S_r _ _ t) by (by rewrite list_lookup_insert_eq).
  by rewrite take_insert_ge by lia.
Qed.

Lemma append_token_id_full b t :
  LogicalTokenBlock_is_full b = true → LogicalTokenBlock_append_token_id b t = None.
Proof. intros Hf. unfold LogicalTokenBlock_append_token_id. by rewrite Hf. Qed.

(** ** Lemmas: paged sequences of blocks *)

Lemma blocks_content_app l1 l2 :
  blocks_content (l1 ++ l2) = blocks_content l1 ++ blocks_content l2.
Proof. unfold blocks_content. by rewrite fmap_app, concat_app. Qed.

Lemma blocks_wf_snoc bs bl b :
  blocks_wf bs (bl ++ [b]) ↔
  Forall (λ x, ltb_wf bs x ∧ ltb_num_tokens x = bs) bl ∧ ltb_wf bs b ∧ 0 < ltb_num_tokens b.
Proof.
  split.
  - induction bl as [|x bl IH]; simpl; intros Hwf.
    + inversion Hwf as [|? Hb Hn|]; subst; [done | congruence].
    + inversion Hwf as [|? ? ? Heq|? ? Hx Hf ? Hwf']; subst; [by destruct bl |].
      destruct (IH Hwf') as (? & ? & ?). auto.
  - intros (Hall & Hb & Hn). induction Hall as [|x bl [Hx Hf] Hall IH]; simpl.
    + by apply blocks_wf_last.
    + apply blocks_wf_cons; [done .. | | done]. by destruct bl.
Qed.

Lemma blocks_wf_forall bs bl : blocks_wf bs bl → Forall (ltb_wf bs) bl.
Proof. induction 1; auto. Qed.

Lemma div_mod_sub i bs :
  0 < bs → bs ≤ i → i / bs = S ((i - bs) / bs) ∧ i mod bs = (i - bs) mod bs.
Proof.
  intros Hbs Hi. assert (Hi' : i = (i - bs) + 1 * bs) by lia. split.
  - rewrite Hi' at 1. rewrite Nat.div_add by lia. lia.
  - rewrite Hi' at 1. by rewrite Nat.Div0.mod_add.
Qed.

(** A page table finds every token of the sequence where it is. *)
Lemma paged_lookup_content bs bl i :
  0 < bs → blocks_wf bs bl → paged_lookup bs bl i = blocks_content bl !! i.
Proof.
  intros Hbs Hwf. revert i. induction Hwf as [|b Hb Hn|b bl Hb Hfull Hne Hwf IH]; intros i;
    unfold paged_lookup, blocks_content; simpl.
  - done.
  - rewrite app_nil_r. pose proof (ltb_content_length _ _ Hb) as Hlen.
    destruct (decide (i < bs)) as [Hi|Hi].
    + by rewrite Nat.div_small, Nat.mod_small by done.
    + destruct Hb. rewrite (lookup_ge_None_2 (ltb_content b)) by lia.
      destruct (i / bs) as [|k] eqn:Hk; [| done].
      apply Nat.div_small_iff in Hk; lia.
  - pose proof (ltb_content_length _ _ Hb) as Hlen.
    destruct (decide (i < bs)) as [Hi|Hi].
    + rewrite Nat.div_small, Nat.mod_small by done. simpl.
      by rewrite lookup_app_l by lia.
    + rewrite lookup_app_r by lia. rewrite Hlen, Hfull.
      destruct (div_mod_sub i bs) as [-> ->]; [lia .. |]. apply (IH (i - bs)).
Qed.

Lemma blocks_content_length bs bl b :
  blocks_wf bs (bl ++ [b]) →
  length (blocks_content (bl ++ [b])) = length bl * bs + ltb_num_tokens b.
Proof.
  rewrite blocks_wf_snoc. intros (Hall & Hb & _).
  rewrite blocks_content_app, length_app. unfold blocks_content at 2; simpl.
  rewrite app_nil_r, (ltb_content_length bs) by done. f_equal.
  induction Hall as [|x bl' [Hx Hf] Hall IH]; [done |].
  unfold blocks_content in *. csimpl. rewrite length_app, (ltb_content_length bs) by done. lia.
Qed.

(** As many blocks as the tokens need: the quotient, rounded up. *)
Lemma blocks_count bs bl :
  0 < bs → blocks_wf bs bl → length bl = (length (blocks_content bl) + bs - 1) / bs.
Proof.
  intros Hbs Hwf. destruct bl as [|b bl _] using rev_ind.
  { simpl. symmetry. apply Nat.div_small. lia. }
  rewrite (blocks_content_length bs) by done. apply blocks_wf_snoc in Hwf as (_ & Hb & Hn).
  destruct Hb. rewrite length_app. simpl.
  replace (length bl * bs + ltb_num_tokens b + bs - 1)
    with ((ltb_num_tokens b - 1) + (length bl + 1) * bs) by lia.
  rewrite Nat.div_add by lia. rewrite Nat.div_small by lia. lia.
Qed.

(** The blocks have room for the tokens. *)
Lemma seq_wf_capacity `{LogprobsSig} q :
  seq_wf q → length (token_ids (data q)) ≤ seq_block_size q * length (logical_token_blocks q).
Proof.
  intros [Hbs Hwf Hc]. rewrite <- Hc.
  destruct (logical_token_blocks q) as [|b bl _] using rev_ind; [simpl; lia |].
  rewrite (blocks_content_length (seq_block_size q)) by done.
  apply blocks_wf_snoc in Hwf as (_ & [] & _). rewrite length_app. simpl. nia.
Qed.

(** ** Lemmas: appending tokens *)

Section AppendLemmas.
  Context `{LogprobsSig}.
  Implicit Types q : _Sequence.

  (** The invariant of the append: what it keeps and what it adds. *)
Record appended (q q' : _Sequence) (t : nat) : Prop := {
    app_data : data q' = data q;
    app_id : seq_id q' = seq_id q;
    app_bs : seq_block_size q' = seq_block_size q;
    app_wf : blocks_wf (seq_block_size q) (logical_token_blocks q');
    app_content :
      blocks_content (logical_token_blocks q') = blocks_content (logical_token_blocks q) ++ [t];
    app_count :
      length (logical_token_blocks q') =
      length (logical_token_blocks q) + _Sequence_blocks_to_add_new_tok q;
  }.

Lemma append_to_last q bl b t :
    logical_token_blocks q = bl ++ [b] →
    blocks_wf (seq_block_size q) (bl ++ [b]) →
    LogicalTokenBlock_is_full b = false →
    ∃ q', _Sequence_append_token_to_blocks q t = Some q' ∧ appended q q' t.
  Proof.
    intros Hq Hwf Hf. apply blocks_wf_snoc in Hwf as (Hall & Hb & Hn).
    pose proof Hf as Hf'. rewrite (is_full_spec (seq_block_size q)) in Hf' by done.
    apply Nat.eqb_neq in Hf'. pose proof (ltb_wf_num _ _ Hb).
    destruct (append_token_id_step (seq_block_size q) b t) as (b' & Ha & Hb' & Hn' & Hc);
      [done | lia |].
    eexists. unfold _Sequence_append_token_to_blocks. rewrite Hq, vec_pop_snoc.
    unfold has_space. rewrite Hf. simpl. rewrite Ha. split; [done |].
    split; simpl; try done.
    - apply blocks_wf_snoc. split; [done |]. split; [done | lia].
    - rewrite Hq, !blocks_content_app. unfold blocks_content at 2 4; simpl.
      by rewrite Hc, !app_nil_r, app_assoc.
    - unfold _Sequence_blocks_to_add_new_tok, has_space. rewrite Hq, last_snoc, Hf. simpl.
      rewrite !length_app. simpl. lia.
  Qed.

Lemma append_new_block q bl b t :
    0 < seq_block_size q →
    logical_token_blocks q = bl ++ [b] →
    blocks_wf (seq_block_size q) (bl ++ [b]) →
    LogicalTokenBlock_is_full b = true →
    ∃ q', _Sequence_append_token_to_blocks q t = Some q' ∧ appended q q' t.
  Proof.
    intros Hbs Hq Hwf Hf. pose proof (proj1 (blocks_wf_snoc _ _ _) Hwf) as (Hall & Hb & Hn).
    pose proof Hf as Hf'. rewrite (is_full_spec (seq_block_size q)) in Hf' by done.
    apply Nat.eqb_eq in Hf'.
    destruct (append_token_id_step (seq_block_size q)
                (LogicalTokenBlock_new (seq_block_size q)) t) as (b' & Ha & Hb' & Hn' & Hc);
      [apply LogicalTokenBlock_new_wf | simpl; lia |].
    eexists. unfold _Sequence_append_token_to_blocks. rewrite Hq, vec_pop_snoc.
    unfold has_space. rewrite Hf. simpl. rewrite Ha. split; [done |].
    split; simpl; try done.
    - apply blocks_wf_snoc. split; [| split; [done | lia]].
      apply Forall_app. split; [done |]. by apply Forall_singleton.
    - rewrite Hq, blocks_content_app. f_equal. unfold blocks_content; simpl.
      rewrite Hc. by unfold ltb_content.
    - unfold _Sequence_blocks_to_add_new_tok, has_space. rewrite Hq, last_snoc, Hf. simpl.
      by rewrite !length_app.
  Qed.

Lemma append_token_to_blocks_ok q t :
    0 < seq_block_size q →
    blocks_wf (seq_block_size q) (logical_token_blocks q) →
    logical_token_blocks q ≠ [] →
    ∃ q', _Sequence_append_token_to_blocks q t = Some q' ∧ appended q q' t.
  Proof.
    intros Hbs Hwf Hne.
    destruct (logical_token_blocks q) as [|b bl _] eqn:Hq using rev_ind; [done |].
    destruct (LogicalTokenBlock_is_full b) eqn:Hf.
    - by eapply append_new_block.
    - by eapply append_to_last.
  Qed.

Lemma append_token_no_blocks q t :
    logical_token_blocks q = [] → _Sequence_append_token_to_blocks q t = None.
  Proof. intros Hq. unfold _Sequence_append_token_to_blocks. by rewrite Hq. Qed.

End AppendLemmas.

(** ** Lemmas: operations that lock a sequence *)

Section LockLemmas.
  Context `{LogprobsSig}.
  Implicit Types w : World.

  (** Neither mutex of the sequence at [p] is held. *)
Definition seq_unlocked (p : seq_ptr) (w : World) : Prop :=
    LSeq p ∉ w_held w ∧ LData p ∉ w_held w.

Lemma with_data_eq {A} p (k : SequenceData → M A) w q (a : A) :
    LData p ∉ w_held w → w_seqs w !! p = Some q →
    (∀ w', k (data q) w' = Done a w') →
    with_data p k w = Done a w.
  Proof.
    intros Hl Hq Hk. unfold with_data, with_guard, st_bind, seq_get.
    rewrite decide_False by done. simpl. rewrite Hq. simpl. rewrite Hk. f_equal.
    apply world_ext; simpl; auto using held_restore.
  Qed.

Lemma update_data_eq p f w q :
    LData p ∉ w_held w → w_seqs w !! p = Some q →
    update_data p f w = Done tt (set_seqs <[p:=set_data f q]> w).
  Proof.
    intros Hl Hq. unfold update_data, with_guard, st_bind, seq_get, seq_put.
    rewrite decide_False by done. simpl. rewrite Hq. simpl. f_equal.
    apply world_ext; simpl; auto using held_restore.
  Qed.

  (** A call through the outer mutex: the call itself runs with the lock taken,
      and may touch the sequences only. *)
Lemma on_seq_eq {A} p (m : M A) w (a : A) f :
    LSeq p ∉ w_held w →
    m (set_held (λ h, {[LSeq p]} ∪ h) w) =
      Done a (set_seqs f (set_held (λ h, {[LSeq p]} ∪ h) w)) →
    on_seq p m w = Done a (set_seqs f w).
  Proof.
    intros Hl Hm. unfold on_seq, with_guard. rewrite decide_False by done. rewrite Hm.
    f_equal. apply world_ext; simpl; auto using held_restore.
  Qed.

Lemma set_seqs_id w : set_seqs (λ m, m) w = w.
  Proof. by destruct w. Qed.

Lemma on_seq_read {A} p (m : M A) w (a : A) :
    LSeq p ∉ w_held w →
    m (set_held (λ h, {[LSeq p]} ∪ h) w) = Done a (set_held (λ h, {[LSeq p]} ∪ h) w) →
    on_seq p m w = Done a w.
  Proof.
    intros Hl Hm. rewrite <- (set_seqs_id w) at 2. apply on_seq_eq; [done |].
    by rewrite Hm, set_seqs_id.
  Qed.

Lemma on_seq_pure_eq {A} p (f : _Sequence → A) w q :
    LSeq p ∉ w_held w → w_seqs w !! p = Some q → on_seq_pure p f w = Done (f q) w.
  Proof.
    intros Hl Hq. apply on_seq_read; [done |].
    unfold st_bind, seq_get. simpl. by rewrite Hq.
  Qed.

Lemma on_seq_data_eq {A} p (k : SequenceData → M A) w q (a : A) :
    seq_unlocked p w → w_seqs w !! p = Some q →
    (∀ w', k (data q) w' = Done a w') →
    on_seq p (with_data p k) w = Done a w.
  Proof.
    intros [Hs Hd] Hq Hk. apply on_seq_read; [done |].
    apply (with_data_eq p k _ q); simpl; [set_solver | done | done].
  Qed.

Lemma on_seq_update_eq p f w q :
    seq_unlocked p w → w_seqs w !! p = Some q →
    on_seq p (update_data p f) w = Done tt (set_seqs <[p:=set_data f q]> w).
  Proof.
    intros [Hs Hd] Hq. apply on_seq_eq; [done |].
    apply update_data_eq; simpl; [set_solver | done].
  Qed.

Lemma is_finished_eq p w q :
    seq_unlocked p w → w_seqs w !! p = Some q →
    on_seq p (_Sequence_is_finished p) w = Done (status_is_finished (status (data q))) w.
  Proof. intros Hl Hq. by apply (on_seq_data_eq p _ w q). Qed.

Lemma get_len_hang p w q : w_seqs w !! p = Some q → _Sequence_get_len p w = Hang.
  Proof.
    intros Hq. unfold _Sequence_get_len, with_data at 1, with_guard.
    case_decide; [done |]. unfold st_bind at 1, seq_get at 1. simpl. rewrite Hq. simpl.
    unfold with_data. rewrite guard_hang; simpl; [done | set_solver].
  Qed.

End LockLemmas.

(** ** Lemmas: sequence groups *)

Section GroupLemmas.
  Context `{LogprobsSig} `{HashOrder}.
  Implicit Types w : World.
  Implicit Types g : SequenceGroup.

  (** Every sequence of the group is there under its own id, its locks free. *)
Definition group_ok g w : Prop :=
    ∀ id p, seqs g !! id = Some p →
      seq_unlocked p w ∧ ∃ q, w_seqs w !! p = Some q ∧ seq_id q = id.

  (** The value of a field of the sequence at [p]; [d] if there is none. *)
Definition seq_field {A} (d : A) (f : _Sequence → A) w (p : seq_ptr) : A :=
    match w_seqs w !! p with Some q => f q | None => d end.

Lemma elem_of_hash_values {A} (m : gmap nat A) v :
    v ∈ hash_values m ↔ ∃ i, m !! i = Some v.
  Proof.
    unfold hash_values. rewrite hash_iter_perm, list_elem_of_fmap. split.
    - intros ([i v'] & -> & Hin). exists i. by apply elem_of_map_to_list.
    - intros [i Hi]. exists (i, v). split; [done |]. by apply elem_of_map_to_list.
  Qed.

Lemma hash_iter_singleton {A} i (v : A) : hash_iter {[i := v]} = [(i, v)].
  Proof.
    apply Permutation_singleton_r. rewrite hash_iter_perm. by rewrite map_to_list_singleton.
  Qed.

Lemma sum_fields_eq g w (f : _Sequence → nat) :
    group_ok g w →
    st_bind (st_map (λ p, on_seq_pure p f) (hash_values (seqs g)))
      (λ ns, st_ret (sum_list ns)) w =
    Done (sum_list (seq_field 0 f w <$> hash_values (seqs g))) w.
  Proof.
    intros Hok. unfold st_bind.
    rewrite (wp_map_pure _ (seq_field 0 f w)); [done |].
    intros p [id Hp]%elem_of_hash_values. destruct (Hok id p Hp) as [[Hl _] (q & Hq & _)].
    unfold seq_field. rewrite Hq. by apply on_seq_pure_eq.
  Qed.

Lemma total_blocks_to_add_eq g w :
    group_ok g w →
    SequenceGroup_total_blocks_to_add_new_tok g w =
    Done (sum_list (seq_field 0 _Sequence_blocks_to_add_new_tok w <$> hash_values (seqs g))) w.
  Proof. apply sum_fields_eq. Qed.

Lemma total_logical_blocks_eq g w :
    group_ok g w →
    SequenceGroup_get_total_logical_token_blocks g w =
    Done (sum_list (seq_field 0 _Sequence_get_logical_token_blocks w <$> hash_values (seqs g))) w.
  Proof. apply sum_fields_eq. Qed.

Lemma group_is_finished_eq g w :
    group_ok g w →
    SequenceGroup_is_finished g w =
    Done (forallb (seq_field false (λ q, status_is_finished (status (data q))) w)
            (hash_values (seqs g))) w.
  Proof.
    intros Hok. unfold SequenceGroup_is_finished.
    assert (Hall : ∀ p, p ∈ hash_values (seqs g) → ∃ id, seqs g !! id = Some p)
      by (intros p; apply elem_of_hash_values).
    induction (hash_values (seqs g)) as [|p l IH]; [done |].
    destruct (Hall p) as [id Hp]; [set_solver |].
    destruct (Hok id p Hp) as [Hl (q & Hq & _)]. cbn [st_all forallb].
    unfold st_bind. rewrite (is_finished_eq p w q Hl Hq).
    unfold seq_field at 1. rewrite Hq.
    destruct (status_is_finished (status (data q))); [| done]. apply IH. set_solver.
  Qed.

  (** The store after every sequence of [l] got the status [st]. *)
Definition with_status (st : SequenceStatus) (l : list seq_ptr) (m : gmap nat _Sequence)
    : gmap nat _Sequence :=
    foldl (λ m p, alter (set_data (SequenceData_set_status st)) p m) m l.

Lemma with_status_lookup st l m p :
    with_status st l m !! p =
    (if decide (p ∈ l) then set_data (SequenceData_set_status st) <$> m !! p else m !! p).
  Proof.
    unfold with_status. revert m. induction l as [|p' l IH]; intros m; [done |].
    simpl. rewrite IH. destruct (decide (p = p')) as [->|Hne].
    - rewrite lookup_alter_eq, (decide_True (P := p' ∈ p' :: l)) by set_solver.
      case_decide; [| done]. by destruct (m !! p').
    - rewrite lookup_alter_ne by done. repeat case_decide; set_solver.
  Qed.

Lemma set_status_eq g st w :
    group_ok g w →
    SequenceGroup_set_status g st w =
    Done tt (set_seqs (with_status st (hash_values (seqs g))) w).
  Proof.
    intros Hok. unfold SequenceGroup_set_status.
    assert (Hall : ∀ p, p ∈ hash_values (seqs g) → seq_unlocked p w ∧ is_Some (w_seqs w !! p)).
    { intros p [id Hp]%elem_of_hash_values. destruct (Hok id p Hp) as [? (q & ? & _)]. eauto. }
    clear Hok. revert w Hall. induction (hash_values (seqs g)) as [|p l IH]; intros w Hall.
    - simpl. by rewrite set_seqs_id.
    - cbn [st_fold]. unfold st_bind. destruct (Hall p) as [Hl [q Hq]]; [set_solver |].
      rewrite (on_seq_update_eq _ _ _ q) by done. rewrite IH.
      + f_equal. apply world_ext; [done | | done]. simpl. f_equal.
        unfold with_status. simpl. by rewrite (alter_is_insert _ p _ q).
      + intros p' Hp'. destruct (Hall p') as [Hl' Hs']; [set_solver |]. split; [done |].
        simpl. rewrite lookup_insert_is_Some. destruct (decide (p = p')); auto.
  Qed.

End GroupLemmas.

#[export] Hint Resolve append_token_to_blocks_ok on_seq_pure_eq is_finished_eq : cvllm.

(** ** Properties *)

Section SequenceProperties.
  Context `{LogprobsSig}.
  Implicit Types w : World.

  (** [add_token], under the outer mutex. *)
Lemma add_token_appended p w q lp :
    seq_unlocked p w → w_seqs w !! p = Some q → seq_wf q → logical_token_blocks q ≠ [] →
    ∃ q1, appended q q1 (token lp) ∧
      on_seq p (_Sequence_add_token p lp) w =
      Done tt (set_seqs <[p:=set_data (λ d, SequenceData_append_token_id d lp) q1]> w).
  Proof.
    intros [Hs Hd] Hq [Hbs Hwf Hc] Hne.
    destruct (append_token_to_blocks_ok q (token lp)) as (q1 & Ha & Happ); [done .. |].
    exists q1. split; [done |].
    apply on_seq_eq; [done |]. unfold _Sequence_add_token, st_bind, seq_get. simpl.
    rewrite Hq. simpl. rewrite Ha. simpl.
    rewrite (update_data_eq p _ _ q1); simpl; [| set_solver | by rewrite lookup_insert_eq].
    f_equal. apply world_ext; simpl; [done | | done]. by rewrite insert_insert_eq.
  Qed.

Lemma add_token_ok p w q lp :
    seq_unlocked p w → w_seqs w !! p = Some q → seq_wf q → logical_token_blocks q ≠ [] →
    ∃ q', on_seq p (_Sequence_add_token p lp) w = Done tt (set_seqs <[p:=q']> w) ∧
      seq_wf q' ∧ seq_id q' = seq_id q ∧ status (data q') = status (data q) ∧
      token_ids (data q') = token_ids (data q) ++ [token lp] ∧
      length (logical_token_blocks q') =
        length (logical_token_blocks q) + _Sequence_blocks_to_add_new_tok q.
  Proof.
    intros Hl Hq Hwf Hne.
    destruct (add_token_appended p w q lp Hl Hq Hwf Hne) as (q1 & [E1 E2 E3 Hwf1 Hc1 Hn1] & E).
    destruct Hwf as [Hbs _ Hc]. exists (set_data (λ d, SequenceData_append_token_id d lp) q1).
    split_and!; [done | | done | simpl; by rewrite E1 | | done].
    - split; simpl; [by rewrite E3 | by rewrite E3 |].
      rewrite Hc1, Hc, E1. unfold token_ids; simpl. by rewrite fmap_app, app_assoc.
    - simpl. rewrite E1. unfold token_ids; simpl. by rewrite fmap_app, app_assoc.
  Qed.

  (** Without a page there is nowhere to put a token. *)
Lemma add_token_pageless p w q lp :
    seq_unlocked p w → w_seqs w !! p = Some q → logical_token_blocks q = [] →
    on_seq p (_Sequence_add_token p lp) w = Panic.
  Proof.
    intros [Hl _] Hq Hn. unfold on_seq, with_guard. rewrite decide_False by done.
    unfold _Sequence_add_token. rewrite (st_bind_done _ _ _ q (set_held (λ h, {[LSeq p]} ∪ h) w)).
    - by rewrite append_token_no_blocks.
    - unfold seq_get. simpl. by rewrite Hq.
  Qed.

  (** A new page is due exactly when the pages are full. *)
Lemma blocks_to_add_spec q :
    seq_wf q → logical_token_blocks q ≠ [] →
    _Sequence_blocks_to_add_new_tok q =
    if decide (length (token_ids (data q)) = seq_block_size q * length (logical_token_blocks q))
    then 1 else 0.
  Proof.
    intros [Hbs Hwf <-] Hne. unfold _Sequence_blocks_to_add_new_tok, has_space.
    destruct (logical_token_blocks q) as [|b bl _] using rev_ind; [done |].
    rewrite last_snoc, (blocks_content_length (seq_block_size q)) by done.
    apply blocks_wf_snoc in Hwf as (_ & Hb & _). pose proof (ltb_wf_num _ _ Hb).
    rewrite (is_full_spec (seq_block_size q)) by done. rewrite length_app. simpl.
    destruct (Nat.eqb_spec (ltb_num_tokens b) (seq_block_size q)); simpl; case_decide; done || nia.
  Qed.

  (** C9: a sequence that already holds a token accepts one more: [add_token],
      called through the outer mutex, returns, the pages stay well formed, the
      token goes to the end of the token ids and of the pages, and the number of
      logical blocks grows by exactly what [blocks_to_add_new_tok] announced. *)
Theorem add_token_keeps_pages p w q lp :
    seq_unlocked p w → w_seqs w !! p = Some q → seq_wf q → logical_token_blocks q ≠ [] →
    ∃ q', on_seq p (_Sequence_add_token p lp) w = Done tt (set_seqs <[p:=q']> w) ∧
      seq_wf q' ∧ seq_id q' = seq_id q ∧ status (data q') = status (data q) ∧
      token_ids (data q') = token_ids (data q) ++ [token lp] ∧
      length (logical_token_blocks q') =
        length (logical_token_blocks q) + _Sequence_blocks_to_add_new_tok q.
  Proof. apply add_token_ok. Qed.

  (** C16: the logical pages implement the token list: position [i] of the
      sequence is slot [i mod block_size] of logical block [i / block_size] (and
      nothing is there past the end), and there are exactly
      [ceil(len / block_size)] blocks. *)
Theorem pages_implement_tokens q :
    seq_wf q →
    (∀ i, paged_lookup (seq_block_size q) (logical_token_blocks q) i = token_ids (data q) !! i) ∧
    _Sequence_get_logical_token_blocks q =
      (length (token_ids (data q)) + seq_block_size q - 1) / seq_block_size q.
  Proof.
    intros [Hbs Hwf <-]. split.
    - intros i. by apply paged_lookup_content.
    - by apply blocks_count.
  Qed.

  (** The constructor panics on every prompt but the empty one, whatever the
      block size: with no logical block yet, [append_token_to_blocks] takes the
      branch "if we have space" and unwraps the missing last block. *)
Theorem sequence_new_panics prompt id bs :
    _Sequence_new prompt id bs =
    match prompt with
    | [] => Some {| data := SequenceData_new []; seq_id := id;
                    logical_token_blocks := []; seq_block_size := bs |}
    | _ :: _ => None
    end.
  Proof.
    destruct prompt as [|t prompt]; [done |]. unfold _Sequence_new.
    cbn [_Sequence_append_tokens_to_blocks]. by rewrite append_token_no_blocks.
  Qed.

  (** A finish reason set on an unlocked sequence is the one read back, and
      makes the sequence finished; its tokens and its pages are untouched. *)
Theorem finish_reason_roundtrip p w q r :
    seq_unlocked p w → w_seqs w !! p = Some q →
    ∃ w', on_seq p (_Sequence_set_finish_reason p r) w = Done tt w' ∧
      on_seq p (_Sequence_get_finish_reason p) w' = Done r w' ∧
      on_seq p (_Sequence_is_finished p) w' = Done true w' ∧
      ∃ q', w_seqs w' !! p = Some q' ∧ token_ids (data q') = token_ids (data q) ∧
            logical_token_blocks q' = logical_token_blocks q.
  Proof.
    intros Hl Hq. eexists. split; [by apply on_seq_update_eq |].
    pose proof (lookup_insert_eq (w_seqs w) p
                  (set_data (SequenceData_set_status (Finished r)) q)) as Hq'.
    split_and!.
    - by eapply on_seq_data_eq.
    - exact (is_finished_eq p (set_seqs _ w) _ Hl Hq').
    - by eexists.
  Qed.

End SequenceProperties.

(** *** Witnesses *)

Section SequenceExamples.

  #[local] Existing Instance plain_logprobs.

  (** A prompt of three tokens in pages of two, as [_Sequence_new] would lay it
      out if it did not panic. *)
Definition ex_pages (prompt : list nat) (id bs : nat) (bl : list LogicalTokenBlock) : _Sequence :=
    {| data := SequenceData_new prompt; seq_id := id;
       logical_token_blocks := bl; seq_block_size := bs |}.

Definition ex_seq : _Sequence :=
    ex_pages [5; 6; 7] 0 2
      [{| ltb_tokens := [5; 6]; ltb_block_size := 2; ltb_num_tokens := 2 |};
       {| ltb_tokens := [7; 0]; ltb_block_size := 2; ltb_num_tokens := 1 |}].

Definition ex_seq_world : World := mkWorld ∅ {[0 := ex_seq]} ∅.

Lemma ex_seq_wf : seq_wf ex_seq.
  Proof.
    split; [simpl; lia | | done]. simpl.
    apply blocks_wf_cons; [by split | done | done |].
    apply blocks_wf_last; [split; simpl; lia | simpl; lia].
  Qed.

Lemma ex_seq_unlocked : seq_unlocked 0 ex_seq_world.
  Proof. split; apply not_elem_of_empty. Qed.

Lemma add_token_keeps_pages_witness :
    ∃ q', on_seq 0 (_Sequence_add_token 0 (9, f32_zero)) ex_seq_world =
            Done tt (set_seqs <[0:=q']> ex_seq_world) ∧
          token_ids (data q') = [5; 6; 7; 9] ∧ length (logical_token_blocks q') = 2.
  Proof.
    destruct (add_token_keeps_pages 0 ex_seq_world ex_seq (9, f32_zero)
                ex_seq_unlocked eq_refl ex_seq_wf ltac:(discriminate))
      as (q' & E & _ & _ & _ & Ht & Hn).
    exists q'. split; [exact E |]. split; [exact Ht | exact Hn].
  Defined.

Lemma pages_implement_tokens_witness :
    paged_lookup 2 (logical_token_blocks ex_seq) 2 = Some 7 ∧
    _Sequence_get_logical_token_blocks ex_seq = 2.
  Proof.
    split; [exact (proj1 (pages_implement_tokens ex_seq ex_seq_wf) 2)
           | exact (proj2 (pages_implement_tokens ex_seq ex_seq_wf))].
  Defined.

Lemma finish_reason_roundtrip_witness :
    ∃ w', on_seq 0 (_Sequence_set_finish_reason 0 "stop") ex_seq_world = Done tt w' ∧
          on_seq 0 (_Sequence_get_finish_reason 0) w' = Done "stop"%string w'.
  Proof.
    destruct (finish_reason_roundtrip 0 ex_seq_world ex_seq "stop"
                ex_seq_unlocked eq_refl) as (w' & E1 & E2 & _).
    exists w'. split; [exact E1 | exact E2].
  Defined.

End SequenceExamples.
