(* ===== verification/BlockEngine.v ===== *)
(** * The block engine

    The physical blocks, their two allocators and the [BlockEngine] of
    [scheduler/block_engine.rs].  A [Vec<Arc<PhysicalTokenBlock>>] is a list of
    addresses, [push] and [pop] work at its end.  The engine is passed and
    returned; the blocks it points to are in the [World], where the other
    holders of the same [Arc] see every update. *)

From Stdlib Require Import ZArith SpecFloat Lia.
From stdpp Require Import base gmap sets strings countable list.
From S2P Require Import Prelude Machine Sequence.

(** ** Allocators *)

Record Allocator := { free_blocks : list block_ptr }.

Section AllocatorOps.
  Context `{LogprobsSig}.

Definition set_refcount (f : nat → nat) (b : _PhysicalTokenBlock) : _PhysicalTokenBlock :=
    {| block_id := block_id b; ptb_block_size := ptb_block_size b;
       refcount := f (refcount b); is_gpu := is_gpu b |}.

Definition Allocator_allocate (self : Allocator) : M (block_ptr * Allocator) :=
    let! (block, rest) := st_unwrap (vec_pop (free_blocks self)) in
    let! _ := block_write block (set_refcount (λ _, 1)) in
    st_ret (block, {| free_blocks := rest |}).

Definition Allocator_free_block (self : Allocator) (block : block_ptr) : M Allocator :=
    let! b := block_read block in
    if refcount b =? 0 then
      let! _ := block_read block in st_panic
    else
      let! _ := block_write block (set_refcount (λ n, n - 1)) in
      let! b := block_read block in
      if refcount b =? 0 then st_ret {| free_blocks := free_blocks self ++ [block] |}
      else st_ret self.

Definition GPUAllocator_new (block_size num_blocks : nat) : M Allocator :=
    let! l := st_fold (λ l id,
      let! p := block_alloc {| block_id := id; ptb_block_size := block_size;
                               refcount := 0; is_gpu := true |} in
      st_ret (l ++ [p])) [] (seq 0 num_blocks) in
    st_ret {| free_blocks := l |}.

Definition GPUAllocator_get_num_free_blocks (self : Allocator) : nat :=
    length (free_blocks self).

  (** The blocks of the CPU allocator are built with [is_gpu: true] as well. *)
Definition CPUAllocator_new (block_size num_blocks : nat) : M Allocator :=
    let! l := st_fold (λ l id,
      let! p := block_alloc {| block_id := id; ptb_block_size := block_size;
                               refcount := 0; is_gpu := true |} in
      st_ret (l ++ [p])) [] (seq 0 num_blocks) in
    st_ret {| free_blocks := l |}.

  (** [self == other] on two [Arc<PhysicalTokenBlock>]: both guards are held
      while the structs are compared. *)
Definition PhysicalTokenBlock_eq (p q : block_ptr) : M bool :=
    with_guard (LBlock p) (let! a := block_get p in
      with_guard (LBlock q) (let! b := block_get q in
        st_ret ((block_id a =? block_id b) && (ptb_block_size a =? ptb_block_size b) &&
                (refcount a =? refcount b) && Bool.eqb (is_gpu a) (is_gpu b)))).

End AllocatorOps.

(** ** The engine *)

Inductive AllocStatus :=
  | AllocStatus_Ok
  | AllocStatus_Later
  | AllocStatus_Impossible.

Record BlockEngine := mkBlockEngine {
  num_gpu_blocks : nat;
  gpu_allocator : Allocator;
  cpu_allocator : Allocator;
  block_tables : gmap nat (list block_ptr);
}.

Section BlockEngineOps.
  Context `{LogprobsSig} `{HashOrder}.

Definition set_gpu (self : BlockEngine) (a : Allocator) : BlockEngine :=
    mkBlockEngine (num_gpu_blocks self) a (cpu_allocator self) (block_tables self).

Definition set_cpu (self : BlockEngine) (a : Allocator) : BlockEngine :=
    mkBlockEngine (num_gpu_blocks self) (gpu_allocator self) a (block_tables self).

Definition set_tables (self : BlockEngine) (t : gmap nat (list block_ptr)) : BlockEngine :=
    mkBlockEngine (num_gpu_blocks self) (gpu_allocator self) (cpu_allocator self) t.

Definition BlockEngine_new (block_size num_gpu num_cpu : nat) : M BlockEngine :=
    let! gpu := GPUAllocator_new block_size num_gpu in
    let! cpu := CPUAllocator_new block_size num_cpu in
    st_ret (mkBlockEngine num_gpu gpu cpu ∅).

Definition BlockEngine_can_allocate (self : BlockEngine) (seq_group : SequenceGroup)
    : M AllocStatus :=
    let! num_required_blocks := SequenceGroup_get_total_logical_token_blocks seq_group in
    let num_free_gpu_blocks := GPUAllocator_get_num_free_blocks (gpu_allocator self) in
    st_ret (if num_free_gpu_blocks + num_required_blocks <? num_gpu_blocks self
            then AllocStatus_Later
            else if num_gpu_blocks self <? num_required_blocks
            then AllocStatus_Impossible
            else AllocStatus_Ok).

  (** One turn of the loop of [allocate]. *)
Definition alloc_turn (acc : BlockEngine * list block_ptr) (_ : nat)
    : M (BlockEngine * list block_ptr) :=
    let '(self, block_table) := acc in
    let! (block, gpu) := Allocator_allocate (gpu_allocator self) in
    st_ret (set_gpu self gpu, block_table ++ [block]).

Definition BlockEngine_allocate (self : BlockEngine) (seq_group : SequenceGroup)
    : M BlockEngine :=
    let! n := SequenceGroup_get_total_logical_token_blocks seq_group in
    let! (self, block_table) := st_fold alloc_turn (self, []) (seq 0 n) in
    st_ret (foldl (λ self seq_id, set_tables self (<[seq_id:=block_table]> (block_tables self)))
              self (hash_keys (seqs seq_group))).

Definition BlockEngine_can_append_token_to_seq (self : BlockEngine) (seq_group : SequenceGroup)
    : M bool :=
    let free_blocks := GPUAllocator_get_num_free_blocks (gpu_allocator self) in
    let! n := SequenceGroup_total_blocks_to_add_new_tok seq_group in
    st_ret (n <=? free_blocks).

  (** One turn of the loop of [free_sequence]. *)
Definition free_table_block (self : BlockEngine) (block : block_ptr) : M BlockEngine :=
    let! b := block_read block in
    if is_gpu b then
      let! gpu := Allocator_free_block (gpu_allocator self) block in st_ret (set_gpu self gpu)
    else
      let! cpu := Allocator_free_block (cpu_allocator self) block in st_ret (set_cpu self cpu).

Definition BlockEngine_free_sequence (self : BlockEngine) (sequence : seq_ptr)
    : M BlockEngine :=
    let! id := on_seq_pure sequence _Sequence_get_id in
    let! block_table := st_unwrap (block_tables self !! id) in
    let! self := st_fold free_table_block self block_table in
    let! id := on_seq_pure sequence _Sequence_get_id in
    st_ret (set_tables self (delete id (block_tables self))).

  (** The blocks of the tables of a group, each table counted in full. *)
Definition group_table_blocks (self : BlockEngine) (seq_group : SequenceGroup) : nat :=
    sum_list ((λ e, length e.2) <$>
      filter (λ e, is_Some (seqs seq_group !! e.1)) (hash_iter (block_tables self))).

Definition BlockEngine_can_swap_out_seq_group (self : BlockEngine)
    (seq_group : SequenceGroup) : bool :=
    let blocks_required := group_table_blocks self seq_group in
    blocks_required <=? length (free_blocks (cpu_allocator self)).

  (** [new_mapping.iter().map(|(k, v)| (k, v.deref_mut().block_id)).collect()] *)
Definition collect_number (m : gmap nat nat) (kv : nat * block_ptr) : M (gmap nat nat) :=
    let! b := block_read kv.2 in st_ret (<[kv.1:=block_id b]> m).

  (** One turn of the inner loop of [swap_out].  The guard of the scrutinee
      [new_mapping.entry(gpu_block.deref_mut().block_id)] lives through both
      branches of the [if let]; the [else] branch locks the same block again. *)
Definition swap_out_block (acc : BlockEngine * gmap nat block_ptr * list block_ptr)
    (gpu_block : block_ptr) : M (BlockEngine * gmap nat block_ptr * list block_ptr) :=
    let '(self, new_mapping, new_block_table) := acc in
    let! (self, new_mapping, cpu_block) := with_guard (LBlock gpu_block)
      (let! b := block_get gpu_block in
       match new_mapping !! block_id b with
       | None =>
           let! (cpu_block, cpu) := Allocator_allocate (cpu_allocator self) in
           st_ret (set_cpu self cpu, <[block_id b:=cpu_block]> new_mapping, cpu_block)
       | Some _ =>
           let! b' := block_read gpu_block in
           let! cpu_block := st_unwrap (new_mapping !! block_id b') in
           let! _ := block_write cpu_block (set_refcount (λ n, n + 1)) in
           st_ret (self, new_mapping, cpu_block)
       end) in
    let new_block_table := new_block_table ++ [cpu_block] in
    let! gpu := Allocator_free_block (gpu_allocator self) gpu_block in
    st_ret (set_gpu self gpu, new_mapping, new_block_table).

  (** One turn of the outer loop, over the sequences of the group. *)
Definition swap_out_seq (acc : BlockEngine * gmap nat block_ptr) (seq_id : nat)
    : M (BlockEngine * gmap nat block_ptr) :=
    let '(self, new_mapping) := acc in
    let! block_table := st_unwrap (block_tables self !! seq_id) in
    let! (self, new_mapping, new_block_table) :=
      st_fold swap_out_block (self, new_mapping, []) block_table in
    st_ret (set_tables self (<[seq_id:=new_block_table]> (block_tables self)), new_mapping).

Definition BlockEngine_swap_out (self : BlockEngine) (seq_group : SequenceGroup)
    : M (gmap nat nat * BlockEngine) :=
    let! (self, new_mapping) :=
      st_fold swap_out_seq (self, ∅) (hash_keys (seqs seq_group)) in
    let! numbers := st_fold collect_number ∅ (hash_iter new_mapping) in
    st_ret (numbers, self).

Definition BlockEngine_append_token_slot_to_seq (self : BlockEngine) (sequence : seq_ptr)
    : M (option (nat * nat) * BlockEngine) :=
    let! id := on_seq_pure sequence _Sequence_get_id in
    let! table := st_unwrap (block_tables self !! id) in
    on_seq sequence
      (let! q := seq_get sequence in
       match _Sequence_blocks_to_add_new_tok q with
       | 1 =>
           let! (block, gpu) := Allocator_allocate (gpu_allocator self) in
           st_ret (None, set_tables (set_gpu self gpu)
                           (<[id:=table ++ [block]]> (block_tables self)))
       | 0 =>
           let! (last_block, init) := st_unwrap (vec_pop table) in
           let! b := block_read last_block in
           let! _ := st_assert (is_gpu b) in
           let! b := block_read last_block in
           if refcount b =? 1 then st_ret (None, self)
           else
             let! (new_block, gpu) := Allocator_allocate (gpu_allocator self) in
             let! gpu := Allocator_free_block gpu last_block in
             let! old := block_read last_block in
             let! new := block_read new_block in
             st_ret (Some (block_id old, block_id new),
                     set_tables (set_gpu self gpu)
                       (<[id:=init ++ [new_block]]> (block_tables self)))
       | _ => st_panic
       end).

Definition BlockEngine_can_swap_in_seq_group (self : BlockEngine)
    (seq_group : SequenceGroup) : bool :=
    let blocks_required := group_table_blocks self seq_group in
    blocks_required <=? length (free_blocks (gpu_allocator self)).

  (** One turn of the inner loop of [swap_in]: the new block comes from
      [self.cpu_allocator], the old one goes to [self.gpu_allocator]. *)
Definition swap_in_block (acc : BlockEngine * gmap nat block_ptr * list block_ptr)
    (cpu_block : block_ptr) : M (BlockEngine * gmap nat block_ptr * list block_ptr) :=
    let '(self, new_mapping, new_block_table) := acc in
    let! (self, new_mapping, gpu_block) := with_guard (LBlock cpu_block)
      (let! b := block_get cpu_block in
       match new_mapping !! block_id b with
       | None =>
           let! (gpu_block, cpu) := Allocator_allocate (cpu_allocator self) in
           st_ret (set_cpu self cpu, <[block_id b:=gpu_block]> new_mapping, gpu_block)
       | Some _ =>
           let! b' := block_read cpu_block in
           let! gpu_block := st_unwrap (new_mapping !! block_id b') in
           let! _ := block_write gpu_block (set_refcount (λ n, n + 1)) in
           st_ret (self, new_mapping, gpu_block)
       end) in
    let new_block_table := new_block_table ++ [gpu_block] in
    let! gpu := Allocator_free_block (gpu_allocator self) cpu_block in
    st_ret (set_gpu self gpu, new_mapping, new_block_table).

  (** One turn of the outer loop, over the sequences of the group. *)
Definition swap_in_seq (acc : BlockEngine * gmap nat block_ptr) (seq_id : nat)
    : M (BlockEngine * gmap nat block_ptr) :=
    let '(self, new_mapping) := acc in
    let! block_table := st_unwrap (block_tables self !! seq_id) in
    let! (self, new_mapping, new_block_table) :=
      st_fold swap_in_block (self, new_mapping, []) block_table in
    st_ret (set_tables self (<[seq_id:=new_block_table]> (block_tables self)), new_mapping).

Definition BlockEngine_swap_in (self : BlockEngine) (seq_group : SequenceGroup)
    : M (gmap nat nat * BlockEngine) :=
    let! (self, new_mapping) :=
      st_fold swap_in_seq (self, ∅) (hash_keys (seqs seq_group)) in
    let! numbers := st_fold collect_number ∅ (hash_iter new_mapping) in
    st_ret (numbers, self).

End BlockEngineOps.

(** ** The reference-count invariant *)

Section Invariant.
  Context `{LogprobsSig}.

  (** [R] is the multiset of references to blocks held by the block tables,
      [fl] and [other] the free lists of the two allocators.  A block's count is
      the number of its references, a block is free exactly when its count is
      zero, and no block is free twice. *)
Record heap_inv (R fl other : list block_ptr) (B : gmap nat _PhysicalTokenBlock) : Prop := {
    bi_ref : ∀ p b, B !! p = Some b → refcount b = occ p R;
    bi_dom : ∀ p, p ∈ R → is_Some (B !! p);
    bi_free : ∀ p, p ∈ fl ++ other ↔ ∃ b, B !! p = Some b ∧ refcount b = 0;
    bi_nodup : NoDup (fl ++ other);
  }.

Definition blocks_inv (R fl other : list block_ptr) (w : World) : Prop :=
    heap_inv R fl other (w_blocks w).

  (** What no operation of the engine changes: the sequences, the locks, and of
      a block everything but its count. *)
Definition block_static (b : _PhysicalTokenBlock) : nat * nat * bool :=
    (block_id b, ptb_block_size b, is_gpu b).

Record same_frame (w w' : World) : Prop := {
    sf_seqs : w_seqs w' = w_seqs w;
    sf_held : w_held w' = w_held w;
    sf_static : ∀ p, block_static <$> w_blocks w' !! p = block_static <$> w_blocks w !! p;
  }.

Definition blocks_unlocked (w : World) : Prop := ∀ p, LBlock p ∉ w_held w.

Definition table_refs (e : BlockEngine) : list block_ptr :=
    concat (map_to_list (block_tables e)).*2.

Definition gpu_free (e : BlockEngine) : list block_ptr := free_blocks (gpu_allocator e).

Definition cpu_free (e : BlockEngine) : list block_ptr := free_blocks (cpu_allocator e).

  (** Every block is flagged as a GPU block, as [new] leaves them all. *)
Definition all_flagged_gpu (w : World) : Prop :=
    ∀ p b, w_blocks w !! p = Some b → is_gpu b = true.

Record engine_inv (e : BlockEngine) (w : World) : Prop := {
    ei_blocks : blocks_inv (table_refs e) (gpu_free e) (cpu_free e) w;
    ei_flags : all_flagged_gpu w;
    ei_unlocked : blocks_unlocked w;
  }.

End Invariant.

(** ** Lemmas: the invariant *)

Section InvariantLemmas.
  Context `{LogprobsSig}.
  Implicit Types w : World.

#[export] Instance same_frame_preorder : PreOrder same_frame.
  Proof.
    split; [by intros w; split |].
    intros w1 w2 w3 [E1 E2 E3] [E4 E5 E6]. split; [congruence .. |].
    intros p. by rewrite E6.
  Qed.

Lemma frame_flags w w' : same_frame w w' → all_flagged_gpu w → all_flagged_gpu w'.
  Proof.
    intros [_ _ Hst] Hf p b Hp. specialize (Hst p). rewrite Hp in Hst. simpl in Hst.
    destruct (w_blocks w !! p) as [b'|] eqn:Hp'; [| done].
    simpl in Hst. injection Hst as _ _ Hg. rewrite Hg. by eapply Hf.
  Qed.

Lemma frame_unlocked w w' : same_frame w w' → blocks_unlocked w → blocks_unlocked w'.
  Proof. intros [_ Hh _] Hu p. rewrite Hh. apply Hu. Qed.

Lemma frame_block w w' p b :
    same_frame w w' → w_blocks w !! p = Some b →
    ∃ b', w_blocks w' !! p = Some b' ∧ block_id b' = block_id b.
  Proof.
    intros [_ _ Hst] Hp. specialize (Hst p). rewrite Hp in Hst. simpl in Hst.
    destruct (w_blocks w' !! p) as [b'|]; [| done]. simpl in Hst.
    injection Hst as Hid _ _. by exists b'.
  Qed.

Lemma frame_set_refcount w p f b :
    w_blocks w !! p = Some b → same_frame w (set_blocks <[p:=set_refcount f b]> w).
  Proof.
    intros Hp. split; [done | done |]. intros q. simpl. rewrite lookup_insert.
    case_decide; [subst; by rewrite Hp | done].
  Qed.

#[export] Instance blocks_inv_proper :
    Proper ((≡ₚ) ==> (=) ==> (=) ==> (=) ==> iff) blocks_inv.
  Proof.
    assert (Hone : ∀ R R' fl other w, R ≡ₚ R' → blocks_inv R fl other w →
                     blocks_inv R' fl other w).
    { intros R R' fl other w HR [H1 H2 H3 H4]. split; [| | done | done].
      - intros p b Hp. rewrite <- HR. by apply H1.
      - intros p Hp. apply H2. by rewrite HR. }
    intros R R' HR fl ? <- other ? <- w ? <-. split; by apply Hone.
  Qed.

  (** The invariants look at the blocks only. *)
Lemma flags_blocks w w' :
    w_blocks w' = w_blocks w → all_flagged_gpu w → all_flagged_gpu w'.
  Proof. unfold all_flagged_gpu. by intros ->. Qed.

Lemma blocks_inv_swap R fl other w : blocks_inv R fl other w → blocks_inv R other fl w.
  Proof.
    intros [H1 H2 H3 H4]. split; [done | done | |].
    - intros p. rewrite <- H3, !elem_of_app. tauto.
    - by rewrite (Permutation_app_comm other fl).
  Qed.

Lemma free_not_referenced R fl other w p :
    blocks_inv R fl other w → p ∈ fl ++ other → p ∉ R.
  Proof.
    intros HI Hin. apply (bi_free _ _ _ _ HI) in Hin as (b & Hb & H0).
    rewrite (bi_ref _ _ _ _ HI _ _ Hb) in H0. by apply occ_not_elem.
  Qed.

Lemma referenced_block R fl other w p :
    blocks_inv R fl other w → p ∈ R →
    ∃ b, w_blocks w !! p = Some b ∧ refcount b = occ p R ∧ 0 < refcount b.
  Proof.
    intros HI Hin. destruct (bi_dom _ _ _ _ HI p Hin) as [b Hb]. exists b.
    pose proof (bi_ref _ _ _ _ HI _ _ Hb) as Hr. split_and!; [done | done |].
    rewrite Hr. destruct (occ p R) eqn:E; [by apply occ_not_elem in E | lia].
  Qed.

  (** Changing one count along with the references and the free lists. *)
Lemma blocks_inv_update R R' fl fl' other w p b n :
    blocks_inv R fl other w → w_blocks w !! p = Some b →
    (∀ q, q ≠ p → occ q R' = occ q R) → occ p R' = n →
    (∀ q, q ∈ fl' ++ other ↔ (if decide (q = p) then n = 0 else q ∈ fl ++ other)) →
    NoDup (fl' ++ other) →
    blocks_inv R' fl' other (set_blocks <[p:=set_refcount (λ _, n) b]> w).
  Proof.
    intros [H1 H2 H3 H4] Hp Hocc Hn Hfree Hnd. split; simpl.
    - intros q b'. rewrite lookup_insert. case_decide as E.
      + intros [= <-]. subst q. simpl. congruence.
      + intros Hb. rewrite Hocc by done. by apply H1.
    - intros q Hq. rewrite lookup_insert_is_Some.
      destruct (decide (p = q)) as [|Hne]; [by left | right]. split; [done |].
      apply H2. destruct (decide (q ∈ R)) as [|Hni]; [done |].
      apply occ_not_elem in Hni. rewrite <- (Hocc q) in Hni by done.
      by apply occ_not_elem in Hni.
    - intros q. rewrite Hfree, lookup_insert. case_decide as E.
      + subst q. rewrite decide_True by done. split; [by eexists |].
        intros (b' & [= <-] & Hb'). exact Hb'.
      + rewrite decide_False by done. apply H3.
    - done.
  Qed.

  (** The number of the block at [p]. *)
Definition number_of w (p : block_ptr) : nat :=
    match w_blocks w !! p with Some b => block_id b | None => 0 end.

Lemma frame_number w w' p : same_frame w w' → number_of w' p = number_of w p.
  Proof.
    intros [_ _ Hst]. specialize (Hst p). unfold number_of.
    destruct (w_blocks w !! p), (w_blocks w' !! p); simplify_eq/=; congruence.
  Qed.

Lemma frame_numbers w w' (t : list block_ptr) :
    same_frame w w' → number_of w' <$> t = number_of w <$> t.
  Proof. intros Hfr. apply list_fmap_ext. intros _ p _. by apply frame_number. Qed.

End InvariantLemmas.

(** ** Lemmas: the allocators *)

Section AllocatorLemmas.
  Context `{LogprobsSig}.
  Implicit Types w : World.

Lemma allocate_spec R fl p other w :
    blocks_inv R (fl ++ [p]) other w → LBlock p ∉ w_held w →
    wp (Allocator_allocate {| free_blocks := fl ++ [p] |})
      (λ '(p', a) w', p' = p ∧ a = {| free_blocks := fl |} ∧
         blocks_inv (p :: R) fl other w' ∧ same_frame w w') w.
  Proof.
    intros HI Hl.
    assert (Hin : p ∈ (fl ++ [p]) ++ other) by set_solver.
    pose proof (free_not_referenced _ _ _ _ _ HI Hin) as Hnr.
    destruct (proj1 (bi_free _ _ _ _ HI p) Hin) as (b & Hb & H0).
    unfold Allocator_allocate. simpl. rewrite vec_pop_snoc.
    apply wp_bind, wp_ret, wp_bind. eapply wp_block_write; [done | done |].
    apply wp_ret. split_and!; [done | done | | by apply frame_set_refcount].
    pose proof (bi_nodup _ _ _ _ HI) as Hnd. rewrite <- app_assoc in Hnd.
    simpl in Hnd. rewrite <- Permutation_middle in Hnd. apply NoDup_cons in Hnd as [Hni Hnd].
    eapply blocks_inv_update; [done .. | | | | done].
    - intros q Hq. rewrite occ_cons, decide_False by done. done.
    - rewrite occ_cons, decide_True by done. apply occ_not_elem in Hnr. lia.
    - intros q. case_decide; [subst; simpl in Hni; split; [done | lia] |]. set_solver.
  Qed.

Lemma allocate_empty w : Allocator_allocate {| free_blocks := [] |} w = Panic.
  Proof. done. Qed.

Lemma free_spec R fl p other w :
    blocks_inv (p :: R) fl other w → LBlock p ∉ w_held w →
    wp (Allocator_free_block {| free_blocks := fl |} p)
      (λ a w', a = {| free_blocks := if decide (p ∈ R) then fl else fl ++ [p] |} ∧
         blocks_inv R (free_blocks a) other w' ∧ same_frame w w') w.
  Proof.
    intros HI Hl.
    destruct (referenced_block (p :: R) fl other w p HI) as (b & Hb & Hr & Hpos); [set_solver |].
    rewrite occ_cons, decide_True in Hr by done.
    assert (Hnf : p ∉ fl ++ other).
    { intros Hf. apply (free_not_referenced _ _ _ _ _ HI Hf). set_solver. }
    unfold Allocator_free_block. apply wp_bind. eapply wp_block_read; [done | done |].
    destruct (Nat.eqb_spec (refcount b) 0) as [|_]; [lia |].
    apply wp_bind. eapply wp_block_write; [done | done |].
    apply wp_bind. eapply wp_block_read; [done | apply lookup_insert_eq |]. simpl.
    assert (Hfr : same_frame w (set_blocks <[p:=set_refcount (λ n, n - 1) b]> w))
      by by apply frame_set_refcount.
    replace (set_refcount (λ n, n - 1) b) with (set_refcount (λ _, occ p R) b) in *
      by (unfold set_refcount; f_equal; lia).
    replace (refcount b - 1) with (occ p R) by lia.
    assert (Hocc : ∀ q, q ≠ p → occ q R = occ q (p :: R)).
    { intros q Hq. by rewrite occ_cons, decide_False. }
    pose proof (bi_nodup _ _ _ _ HI) as Hnd.
    destruct (Nat.eqb_spec (occ p R) 0) as [H0|H0]; apply wp_ret.
    - rewrite decide_False by by apply occ_not_elem.
      split_and!; [done | | done]. simpl.
      eapply blocks_inv_update; [done .. | |].
      + intros q. case_decide; [subst; set_solver |]. set_solver.
      + rewrite <- app_assoc. simpl. rewrite <- Permutation_middle. by apply NoDup_cons.
    - rewrite decide_True by (apply dec_stable; by rewrite <- occ_not_elem).
      split_and!; [done | | done]. simpl.
      eapply blocks_inv_update; [done .. | | done].
      intros q. case_decide; [subst; set_solver | done].
  Qed.

  (** Freeing a block nobody refers to. *)
Lemma double_free_panics fl p w b :
    LBlock p ∉ w_held w → w_blocks w !! p = Some b → refcount b = 0 →
    Allocator_free_block {| free_blocks := fl |} p w = Panic.
  Proof.
    intros Hl Hb H0. unfold Allocator_free_block, st_bind at 1.
    rewrite (block_read_eq p w b) by done. rewrite H0. simpl.
    unfold st_bind. by rewrite (block_read_eq p w b).
  Qed.

End AllocatorLemmas.

#[export] Hint Resolve allocate_spec free_spec frame_flags frame_unlocked : cvllm.

(** ** Lemmas: the operations of the engine *)

Section EngineLemmas.
  Context `{LogprobsSig} `{HashOrder}.
  Implicit Types w : World.
  Implicit Types e : BlockEngine.

Lemma table_refs_insert e e' id t :
    block_tables e !! id = None → block_tables e' = <[id:=t]> (block_tables e) →
    table_refs e' ≡ₚ t ++ table_refs e.
  Proof. unfold table_refs. intros Hid ->. by apply concat_values_insert. Qed.

Lemma table_refs_delete e e' id t :
    block_tables e !! id = Some t → block_tables e' = delete id (block_tables e) →
    table_refs e ≡ₚ t ++ table_refs e'.
  Proof. unfold table_refs. intros Hid ->. by apply concat_values_delete. Qed.

  (** Replacing a table: [e1] is the engine without it. *)
Lemma table_refs_replace e e' e1 id t' :
    block_tables e1 = delete id (block_tables e) →
    block_tables e' = <[id:=t']> (block_tables e) →
    table_refs e' ≡ₚ t' ++ table_refs e1.
  Proof.
    unfold table_refs. intros -> ->. rewrite <- insert_delete_eq.
    apply concat_values_insert, lookup_delete_eq.
  Qed.

  (** The loop of [allocate]. *)
Lemma alloc_loop l e tab R w :
    blocks_inv R (gpu_free e) (cpu_free e) w → blocks_unlocked w →
    length l ≤ length (gpu_free e) →
    wp (st_fold alloc_turn (e, tab) l)
      (λ '(e', tab') w', ∃ new rest, tab' = tab ++ new ∧ length new = length l ∧
         gpu_free e = rest ++ reverse new ∧ e' = set_gpu e {| free_blocks := rest |} ∧
         blocks_inv (new ++ R) rest (cpu_free e) w' ∧ same_frame w w') w.
  Proof.
    revert e tab R w. induction l as [|x l IH]; intros e tab R w HI Hu Hn; simpl.
    - apply wp_ret. exists [], (gpu_free e). rewrite !app_nil_r.
      destruct e as [? [?] ? ?]. by split_and!.
    - destruct (gpu_free e) as [|p fl _] eqn:Hg using rev_ind; [simpl in Hn; lia |].
      rewrite length_app in Hn. simpl in Hn.
      apply wp_bind, wp_bind. unfold gpu_free in Hg.
      destruct (gpu_allocator e) as [gf] eqn:Ea. simpl in Hg. subst gf.
      eapply wp_mono; [by eapply allocate_spec |].
      intros [p' a] w1 (-> & -> & HI1 & Hf1). apply wp_ret.
      eapply wp_mono; [apply (IH (set_gpu e {| free_blocks := fl |}) (tab ++ [p]) (p :: R)) |].
      + done.
      + by eapply frame_unlocked.
      + unfold gpu_free; simpl. lia.
      + intros [e' tab'] w' (new & rest & -> & Hl & Hg & -> & HI' & Hf').
        exists (p :: new), rest. simpl in Hg. unfold gpu_free in *; simpl in Hg.
        split_and!; [by rewrite <- app_assoc | simpl; lia | | done | | by etrans].
        * by rewrite Hg, reverse_cons, app_assoc.
        * by rewrite <- Permutation_middle in HI'.
  Qed.

Lemma alloc_loop_panics l e tab w :
    blocks_unlocked w → (∀ p, p ∈ gpu_free e → is_Some (w_blocks w !! p)) →
    length (gpu_free e) < length l →
    st_fold alloc_turn (e, tab) l w = Panic.
  Proof.
    revert e tab w. induction l as [|x l IH]; intros e tab w Hu Hd Hn; simpl in Hn; [lia |].
    cbn [st_fold alloc_turn]. unfold st_bind at 1 2.
    unfold gpu_free in *. destruct (gpu_allocator e) as [gf] eqn:Ea. simpl in *.
    destruct gf as [|p fl _] using rev_ind; [done |].
    unfold Allocator_allocate. simpl. rewrite vec_pop_snoc. unfold st_bind at 1; simpl.
    destruct (Hd p) as [b Hb]; [set_solver |].
    unfold st_bind. rewrite (block_write_eq p _ _ b) by done. simpl.
    apply IH; simpl; [done | | rewrite length_app in Hn; simpl in Hn; lia].
    intros q Hq. rewrite lookup_insert_is_Some. destruct (decide (p = q)); [by left | right].
    split; [done |]. apply Hd. set_solver.
  Qed.

Lemma allocate_unfold e g w n :
    SequenceGroup_get_total_logical_token_blocks g w = Done n w →
    BlockEngine_allocate e g w =
    st_bind (st_fold alloc_turn (e, []) (seq 0 n)) (λ '(self, block_table), st_ret
      (foldl (λ self seq_id, set_tables self (<[seq_id:=block_table]> (block_tables self)))
         self (hash_keys (seqs g)))) w.
  Proof. intros Hn. unfold BlockEngine_allocate. unfold st_bind at 1. by rewrite Hn. Qed.

End EngineLemmas.

(** ** Lemmas: groups of one sequence

    The engine only ever builds groups of one sequence ([add_request]); the
    invariant is about these. *)

Section SingleLemmas.
  Context `{LogprobsSig} `{HashOrder}.
  Implicit Types w : World.
  Implicit Types e : BlockEngine.

  (** [g] is the group of the one sequence [q] at [p]. *)
Record single (g : SequenceGroup) (p : seq_ptr) (q : _Sequence) (w : World) : Prop := {
    single_seqs : seqs g = {[seq_id q := p]};
    single_lookup : w_seqs w !! p = Some q;
    single_unlocked : seq_unlocked p w;
  }.

Lemma single_ok g p q w : single g p q w → group_ok g w.
  Proof.
    intros [Hs Hq Hl] id p'. rewrite Hs. intros [<- <-]%lookup_singleton_Some. eauto.
  Qed.

Lemma single_values g p q w : single g p q w → hash_values (seqs g) = [p].
  Proof. intros [Hs _ _]. unfold hash_values. by rewrite Hs, hash_iter_singleton. Qed.

Lemma single_keys g p q w : single g p q w → hash_keys (seqs g) = [seq_id q].
  Proof. intros [Hs _ _]. unfold hash_keys. by rewrite Hs, hash_iter_singleton. Qed.

Lemma single_frame g p q w w' : same_frame w w' → single g p q w → single g p q w'.
  Proof.
    intros [Hs Hh _] [H1 H2 [H3 H4]]. split; [done | by rewrite Hs |].
    split; by rewrite Hh.
  Qed.

Lemma single_logical_blocks g p q w :
    single g p q w →
    SequenceGroup_get_total_logical_token_blocks g w =
    Done (length (logical_token_blocks q)) w.
  Proof.
    intros Hs. rewrite total_logical_blocks_eq by by eapply single_ok.
    rewrite (single_values _ _ _ _ Hs). simpl. unfold seq_field.
    rewrite (single_lookup _ _ _ _ Hs). unfold _Sequence_get_logical_token_blocks.
    by rewrite Nat.add_0_r.
  Qed.

Lemma single_blocks_to_add g p q w :
    single g p q w →
    SequenceGroup_total_blocks_to_add_new_tok g w =
    Done (_Sequence_blocks_to_add_new_tok q) w.
  Proof.
    intros Hs. rewrite total_blocks_to_add_eq by by eapply single_ok.
    rewrite (single_values _ _ _ _ Hs). simpl. unfold seq_field.
    rewrite (single_lookup _ _ _ _ Hs). by rewrite Nat.add_0_r.
  Qed.

Lemma allocate_single e g p q w :
    engine_inv e w → single g p q w → block_tables e !! seq_id q = None →
    length (logical_token_blocks q) ≤ length (gpu_free e) →
    wp (BlockEngine_allocate e g) (λ e' w',
      ∃ new rest, length new = length (logical_token_blocks q) ∧
        gpu_free e = rest ++ reverse new ∧
        e' = set_tables (set_gpu e {| free_blocks := rest |})
               (<[seq_id q:=new]> (block_tables e)) ∧
        engine_inv e' w' ∧ same_frame w w') w.
  Proof.
    intros [HI Hf Hu] Hs Hid Hn. unfold wp.
    rewrite (allocate_unfold e g w _ (single_logical_blocks _ _ _ _ Hs)).
    apply wp_bind. eapply wp_mono; [by eapply alloc_loop; rewrite ?length_seq |].
    intros [e' tab] w' (new & rest & -> & Hl & Hg & -> & HI' & Hfr). apply wp_ret.
    rewrite (single_keys _ _ _ _ Hs). simpl. rewrite length_seq in Hl.
    exists new, rest. split_and!; [done .. | | done]. split.
    - by rewrite (table_refs_insert e _ (seq_id q) new).
    - by eapply frame_flags.
    - by eapply frame_unlocked.
  Qed.

  (** The blocks of [t] that come back to the free list when the references of
      [t] are dropped one by one, [R] being all the others. *)
Fixpoint freed_of (R t : list block_ptr) : list block_ptr :=
    match t with
    | [] => []
    | p :: t' => if decide (p ∈ t' ++ R) then freed_of R t' else p :: freed_of R t'
    end.

Lemma freed_of_disjoint R t : NoDup t → (∀ p, p ∈ t → p ∉ R) → freed_of R t = t.
  Proof.
    induction t as [|p t IH]; simpl; [done |]. intros [Hp Hnd]%NoDup_cons Hdis.
    rewrite decide_False by set_solver. rewrite IH; [done | done | set_solver].
  Qed.

Lemma free_loop e R t w :
    blocks_inv (t ++ R) (gpu_free e) (cpu_free e) w → all_flagged_gpu w → blocks_unlocked w →
    wp (st_fold free_table_block e t) (λ e' w',
      e' = set_gpu e {| free_blocks := gpu_free e ++ freed_of R t |} ∧
      blocks_inv R (gpu_free e') (cpu_free e') w' ∧ same_frame w w') w.
  Proof.
    revert e w. induction t as [|p t IH]; intros e w HI Hf Hu; simpl.
    - apply wp_ret. destruct e as [? [?] ? ?]. unfold gpu_free; simpl. by rewrite app_nil_r.
    - rewrite <- app_comm_cons in HI.
      apply wp_bind. unfold free_table_block at 1. apply wp_bind.
      destruct (referenced_block _ _ _ _ p HI) as (b & Hb & _); [set_solver |].
      eapply wp_block_read; [done | done |]. rewrite (Hf _ _ Hb).
      apply wp_bind. destruct (gpu_allocator e) as [gf] eqn:Ea.
      assert (Eg : gpu_free e = gf) by (unfold gpu_free; by rewrite Ea). rewrite Eg in *.
      eapply wp_mono; [by eapply free_spec |].
      intros a w1 (-> & HI1 & Hf1). apply wp_ret.
      eapply wp_mono; [apply IH |].
      + done.
      + by eapply frame_flags.
      + by eapply frame_unlocked.
      + intros e' w' (-> & HI' & Hf'). split_and!; [| done | by etrans].
        unfold set_gpu, gpu_free; simpl. do 2 f_equal.
        case_decide; [done | by rewrite <- app_assoc].
  Qed.

Lemma free_sequence_spec e p q t w :
    engine_inv e w → seq_unlocked p w → w_seqs w !! p = Some q →
    block_tables e !! seq_id q = Some t →
    let e1 := set_tables e (delete (seq_id q) (block_tables e)) in
    wp (BlockEngine_free_sequence e p) (λ e' w',
      e' = set_gpu e1 {| free_blocks := gpu_free e ++ freed_of (table_refs e1) t |} ∧
      engine_inv e' w' ∧ same_frame w w') w.
  Proof.
    intros [HI Hf Hu] [Hl _] Hq Ht e1. unfold BlockEngine_free_sequence.
    apply wp_bind. unfold wp at 1. rewrite (on_seq_pure_eq p _ w q) by done.
    apply wp_bind. eapply wp_unwrap; [done |]. apply wp_bind.
    rewrite (table_refs_delete e e1 (seq_id q) t) in HI by done.
    eapply wp_mono; [by apply free_loop |].
    intros e' w' (-> & HI' & Hfr). apply wp_bind. unfold wp at 1.
    rewrite (on_seq_pure_eq p _ w' q)
      by (rewrite ?(sf_held _ _ Hfr), ?(sf_seqs _ _ Hfr); done).
    apply wp_ret. split_and!; [done | | done]. split.
    - exact HI'.
    - by eapply frame_flags.
    - by eapply frame_unlocked.
  Qed.

End SingleLemmas.

(** ** Lemmas: the constructors *)

Section NewLemmas.
  Context `{LogprobsSig}.
  Implicit Types w : World.

  (** The blocks [ps], numbered from [k], and nothing else new. *)
Definition new_blocks (bs : nat) (w : World) (l ps : list nat) (w' : World) : Prop :=
    w_seqs w' = w_seqs w ∧ w_held w' = w_held w ∧ NoDup ps ∧
    (∀ p, p ∈ ps → w_blocks w !! p = None) ∧
    length ps = length l ∧
    ∀ p b, w_blocks w' !! p = Some b ↔
      w_blocks w !! p = Some b ∨
      ∃ i k, ps !! i = Some p ∧ l !! i = Some k ∧
             b = {| block_id := k; ptb_block_size := bs; refcount := 0; is_gpu := true |}.

Lemma new_loop bs (l acc : list nat) w :
    wp (st_fold (λ l id,
          let! p := block_alloc {| block_id := id; ptb_block_size := bs;
                                   refcount := 0; is_gpu := true |} in
          st_ret (l ++ [p])) acc l)
      (λ ps' w', ∃ ps, ps' = acc ++ ps ∧ new_blocks bs w l ps w') w.
  Proof.
    revert acc w. induction l as [|k l IH]; intros acc w; cbn [st_fold].
    - apply wp_ret. exists []. rewrite app_nil_r. split; [done |]. split_and!; try done.
      + constructor.
      + set_solver.
      + intros p b. split; [by left |]. by intros [|(? & ? & ? & _)].
    - apply wp_bind, wp_bind. unfold block_alloc at 1, wp at 1. simpl. apply wp_ret.
      set (p0 := fresh (dom (w_blocks w))).
      assert (Hp0 : w_blocks w !! p0 = None) by (apply not_elem_of_dom, is_fresh).
      eapply wp_mono; [apply IH |].
      intros ps' w' (ps & -> & Hs & Hh & Hnd & Hfresh & Hl & Hbl). simpl in *.
      exists (p0 :: ps). rewrite <- app_assoc. split; [done |].
      assert (Hni : p0 ∉ ps).
      { intros Hin. specialize (Hfresh _ Hin). by rewrite lookup_insert_eq in Hfresh. }
      split_and!; [done | done | by apply NoDup_cons | | simpl; lia |].
      + intros p [->|Hp]%elem_of_cons; [done |].
        by apply Hfresh, lookup_insert_None in Hp as [? _].
      + intros p b. rewrite Hbl. destruct (decide (p = p0)) as [->|Hne].
        * rewrite lookup_insert_eq. split.
          -- intros [[= <-]|(i & j & Hi & _)]; [| by apply list_elem_of_lookup_2 in Hi].
             right. by exists 0, k.
          -- intros [Hb|([|i] & j & Hi & Hj & ->)]; [congruence | |].
             ++ simpl in Hj. left. congruence.
             ++ simpl in Hi. by apply list_elem_of_lookup_2 in Hi.
        * rewrite lookup_insert_ne by done. split.
          -- intros [Hb|(i & j & Hi & Hj & ->)]; [by left | right]. by exists (S i), j.
          -- intros [Hb|([|i] & j & Hi & Hj & ->)]; [by left | simpl in Hi; congruence |].
             right. by exists i, j.
  Qed.

Lemma new_blocks_at bs w n ps w' i p :
    new_blocks bs w (seq 0 n) ps w' → ps !! i = Some p →
    w_blocks w' !! p =
      Some {| block_id := i; ptb_block_size := bs; refcount := 0; is_gpu := true |}.
  Proof.
    intros (_ & _ & _ & _ & Hl & Hb) Hi. apply Hb. right. exists i, i.
    split_and!; [done | | done]. apply lookup_seq. apply lookup_lt_Some in Hi.
    rewrite length_seq in Hl. lia.
  Qed.

Lemma new_blocks_keep bs w l ps w' p b :
    new_blocks bs w l ps w' → w_blocks w !! p = Some b → w_blocks w' !! p = Some b.
  Proof. intros (_ & _ & _ & _ & _ & Hb) Hp. apply Hb. by left. Qed.

Lemma new_blocks_inv bs w l ps w' p b :
    new_blocks bs w l ps w' → w_blocks w' !! p = Some b →
    w_blocks w !! p = Some b ∨ (p ∈ ps ∧ refcount b = 0 ∧ is_gpu b = true).
  Proof.
    intros (_ & _ & _ & _ & _ & Hb) Hp.
    apply Hb in Hp as [Hp|(i & k & Hi & _ & ->)]; [by left | right].
    split_and!; [by eapply list_elem_of_lookup_2 | done | done].
  Qed.

Lemma numbers_of_fresh w n (l : list block_ptr) bs :
    length l = n →
    (∀ i p, l !! i = Some p → w_blocks w !! p =
       Some {| block_id := i; ptb_block_size := bs; refcount := 0; is_gpu := true |}) →
    number_of w <$> l = seq 0 n.
  Proof.
    intros <- Hl. eapply list_eq_same_length; [done | by rewrite length_seq, length_fmap |].
    intros i x y Hi Hx Hy. rewrite list_lookup_fmap in Hx.
    destruct (l !! i) as [p|] eqn:Hp; [| done]. simpl in Hx. injection Hx as <-.
    unfold number_of. rewrite (Hl _ _ Hp). apply lookup_seq in Hy as [-> _]. simpl. lia.
  Qed.

Lemma new_engine bs ng nc w :
    w_blocks w = ∅ → blocks_unlocked w →
    wp (BlockEngine_new bs ng nc) (λ e w',
      engine_inv e w' ∧ block_tables e = ∅ ∧ num_gpu_blocks e = ng ∧
      number_of w' <$> gpu_free e = seq 0 ng ∧ number_of w' <$> cpu_free e = seq 0 nc ∧
      w_seqs w' = w_seqs w) w.
  Proof.
    intros Hw Hu. unfold BlockEngine_new, GPUAllocator_new, CPUAllocator_new.
    apply wp_bind, wp_bind. eapply wp_mono; [apply new_loop |].
    intros ? w1 (gs & -> & H1). apply wp_ret, wp_bind, wp_bind.
    eapply wp_mono; [apply new_loop |]. intros ? w2 (cs & -> & H2). apply wp_ret, wp_ret. simpl.
    assert (Hg1 := λ i p Hi, new_blocks_at _ _ _ _ _ i p H1 Hi).
    assert (Hg := λ i p Hi, new_blocks_keep _ _ _ _ _ _ _ H2 (Hg1 i p Hi)).
    assert (Hc := λ i p Hi, new_blocks_at _ _ _ _ _ i p H2 Hi).
    assert (Hall : ∀ p b, w_blocks w2 !! p = Some b →
              refcount b = 0 ∧ is_gpu b = true ∧ p ∈ gs ++ cs).
    { intros p b Hp. destruct (new_blocks_inv _ _ _ _ _ _ _ H2 Hp) as [Hp1|(? & ? & ?)];
        [| set_solver].
      destruct (new_blocks_inv _ _ _ _ _ _ _ H1 Hp1) as [Hp0|(? & ? & ?)]; [| set_solver].
      by rewrite Hw, lookup_empty in Hp0. }
    destruct H1 as (Hs1 & Hh1 & Hnd1 & _ & Hl1 & _).
    destruct H2 as (Hs2 & Hh2 & Hnd2 & Hfr2 & Hl2 & Hb2). rewrite length_seq in Hl1, Hl2.
    assert (Hz : ∀ p, p ∈ gs ++ cs → ∃ b, w_blocks w2 !! p = Some b ∧ refcount b = 0).
    { intros p [Hp|Hp]%elem_of_app; apply list_elem_of_lookup in Hp as [i Hi];
        [rewrite (Hg _ _ Hi) | rewrite (Hc _ _ Hi)]; by eexists. }
    split_and!; [| done | done | by eapply numbers_of_fresh | by eapply numbers_of_fresh
                 | congruence].
    split; [split | |].
    - intros p b Hb. by destruct (Hall _ _ Hb).
    - intros p Hp. by apply elem_of_nil in Hp.
    - intros p. split; [apply Hz |]. intros (b & Hb & _). by apply Hall in Hb as (_ & _ & ?).
    - apply NoDup_app. split_and!; [done | | done]. intros p Hp Hp'.
      specialize (Hfr2 _ Hp'). apply list_elem_of_lookup in Hp as [i Hi].
      by rewrite (Hg1 _ _ Hi) in Hfr2.
    - intros p b Hb. by destruct (Hall _ _ Hb) as (_ & ? & _).
    - intros p. rewrite Hh2, Hh1. apply Hu.
  Qed.

End NewLemmas.

(** ** Lemmas: groups of several sequences *)

Section SharedLemmas.
  Context `{LogprobsSig} `{HashOrder}.
  Implicit Types w : World.
  Implicit Types e : BlockEngine.

Lemma foldl_tables e t ids :
    let e' := foldl (λ self id, set_tables self (<[id:=t]> (block_tables self))) e ids in
    gpu_allocator e' = gpu_allocator e ∧ cpu_allocator e' = cpu_allocator e ∧
    ∀ id, block_tables e' !! id = if decide (id ∈ ids) then Some t else block_tables e !! id.
  Proof.
    revert e. induction ids as [|i ids IH]; intros e; simpl; [done |].
    destruct (IH (set_tables e (<[i:=t]> (block_tables e)))) as (-> & -> & Ht).
    split_and!; [done | done |]. intros id. rewrite Ht. simpl.
    destruct (decide (id ∈ ids)) as [Hin|Hni].
    - rewrite decide_True by set_solver. done.
    - destruct (decide (i = id)) as [->|Hne].
      + rewrite lookup_insert_eq, decide_True by set_solver. done.
      + rewrite lookup_insert_ne, decide_False by set_solver. done.
  Qed.

Lemma elem_of_hash_keys {A} (m : gmap nat A) i : i ∈ hash_keys m ↔ is_Some (m !! i).
  Proof.
    unfold hash_keys. rewrite hash_iter_perm, list_elem_of_fmap. split.
    - intros ([j v] & -> & Hin). exists v. by apply elem_of_map_to_list.
    - intros [v Hv]. exists (i, v). split; [done |]. by apply elem_of_map_to_list.
  Qed.

  (** [allocate] for a group of any size: one list of new blocks, the sum of the
      logical blocks long, is the table of every sequence. *)
Lemma allocate_group e g w e1 w1 :
    blocks_inv (table_refs e) (gpu_free e) (cpu_free e) w → blocks_unlocked w →
    group_ok g w → BlockEngine_allocate e g w = Done e1 w1 →
    ∃ new rest,
      length new = sum_list (seq_field 0 _Sequence_get_logical_token_blocks w
                               <$> hash_values (seqs g)) ∧
      gpu_free e = rest ++ reverse new ∧ cpu_free e1 = cpu_free e ∧ gpu_free e1 = rest ∧
      (∀ id, is_Some (seqs g !! id) → block_tables e1 !! id = Some new) ∧
      blocks_inv (new ++ table_refs e) rest (cpu_free e) w1 ∧ same_frame w w1.
  Proof.
    intros HI Hu Hok Ha. pose proof (total_logical_blocks_eq g w Hok) as Hn.
    rewrite (allocate_unfold e g w _ Hn) in Ha.
    set (n := sum_list _) in *. destruct (decide (n ≤ length (gpu_free e))) as [Hle|Hgt].
    - destruct (proj1 (wp_done _ _ _)
        (alloc_loop (seq 0 n) e [] (table_refs e) w HI Hu ltac:(by rewrite length_seq)))
        as ([e' t'] & w' & E & new & rest & -> & Hl & Hg & -> & HI' & Hf).
      unfold st_bind in Ha. rewrite E in Ha. simpl in Ha. injection Ha as <- <-.
      destruct (foldl_tables (set_gpu e {| free_blocks := rest |}) new (hash_keys (seqs g)))
        as (Eg & Ec & Ht).
      exists new, rest. rewrite length_seq in Hl. unfold cpu_free, gpu_free at 2.
      rewrite Eg, Ec. split_and!; [done .. | | done | done].
      intros id Hid. rewrite Ht, decide_True; [done | by apply elem_of_hash_keys].
    - unfold st_bind in Ha. rewrite alloc_loop_panics in Ha; [done | done | | rewrite length_seq; lia].
      intros p Hp. destruct (proj1 (bi_free _ _ _ _ HI p)) as (b & Hb & _); [set_solver |].
      by eexists.
  Qed.

Lemma sum_fields_pos g (f : _Sequence → nat) w id p q :
    seqs g !! id = Some p → w_seqs w !! p = Some q →
    0 = sum_list (seq_field 0 f w <$> hash_values (seqs g)) → f q = 0.
  Proof.
    intros Hid Hq. assert (Hin : p ∈ hash_values (seqs g)) by (apply elem_of_hash_values; eauto).
    apply elem_of_Permutation in Hin as [l Hp]. rewrite Hp. csimpl. unfold seq_field at 1. rewrite Hq. lia.
  Qed.

Lemma frame_known w w' p :
    same_frame w w' → is_Some (w_blocks w !! p) → is_Some (w_blocks w' !! p).
  Proof. intros Hf [b Hb]. destruct (frame_block _ _ _ _ Hf Hb) as (b' & ? & _). by eexists. Qed.

  (** Freeing a table whose first block nobody refers to any more. *)
Lemma free_unreferenced_panics e R x t w :
    blocks_inv R (gpu_free e) (cpu_free e) w → all_flagged_gpu w ∧ blocks_unlocked w →
    x ∉ R ∧ is_Some (w_blocks w !! x) →
    st_fold free_table_block e (x :: t) w = Panic.
  Proof.
    intros HI [Hf Hu] [Hx [b Hb]]. cbn [st_fold]. unfold free_table_block at 1, st_bind.
    rewrite (block_read_eq x w b) by done. rewrite (Hf _ _ Hb).
    destruct (gpu_allocator e) as [fl].
    rewrite (double_free_panics fl x w b); [done | done | done |].
    rewrite (bi_ref _ _ _ _ HI _ _ Hb). by apply occ_not_elem.
  Qed.

End SharedLemmas.
