(* ===== verification/BlockEngineSwap.v ===== *)
(** * The block engine: slots and swapping

    Lemmas on [append_token_slot_to_seq], [swap_out] and [swap_in] of
    [BlockEngine]: the branches of the slot, the loops of the swap with what a
    turn that returns guarantees, and the swap of a group of one sequence. *)

From Stdlib Require Import ZArith SpecFloat Lia.
From stdpp Require Import base gmap sets strings countable list.
From S2P Require Import Prelude Machine Sequence BlockEngine.

(** ** Lemmas: appending a slot *)

Section SlotLemmas.
  Context `{LogprobsSig} `{HashOrder}.
  Implicit Types w : World.
  Implicit Types e : BlockEngine.

Definition acquire (l : lock) (w : World) : World := set_held (λ h, {[l]} ∪ h) w.

Definition release (l : lock) (w : World) : World := set_held (λ h, h ∖ {[l]}) w.

Lemma frame_release l w w' :
    l ∉ w_held w → same_frame (acquire l w) w' → same_frame w (release l w').
  Proof.
    intros Hl [E1 E2 E3]. split; simpl in *; [done | | done].
    rewrite E2. by apply held_restore.
  Qed.

Lemma acquire_unlocked p w : blocks_unlocked w → blocks_unlocked (acquire (LSeq p) w).
  Proof. intros Hu q. simpl. specialize (Hu q). set_solver. Qed.

Lemma table_refs_push e e' id t n :
    block_tables e !! id = Some t → block_tables e' = <[id:=t ++ [n]]> (block_tables e) →
    table_refs e' ≡ₚ n :: table_refs e.
  Proof.
    intros Ht He. set (e1 := set_tables e (delete id (block_tables e))).
    rewrite (table_refs_replace e e' e1 id (t ++ [n])) by done.
    rewrite (table_refs_delete e e1 id t) by done.
    by rewrite Permutation_middle, <- app_assoc.
  Qed.

Lemma table_refs_swap_last e e' id t l n :
    block_tables e !! id = Some (t ++ [l]) →
    block_tables e' = <[id:=t ++ [n]]> (block_tables e) →
    l :: table_refs e' ≡ₚ n :: table_refs e.
  Proof.
    intros Ht He. set (e1 := set_tables e (delete id (block_tables e))).
    rewrite (table_refs_replace e e' e1 id (t ++ [n])) by done.
    rewrite (table_refs_delete e e1 id (t ++ [l])) by done.
    rewrite <- !app_assoc. simpl. rewrite <- !Permutation_middle. apply Permutation_swap.
  Qed.

  (** Opening the call: what is left is the body of the [match], under the guard. *)
Lemma wp_append_slot e p q t w (Q : option (nat * nat) * BlockEngine → World → Prop) :
    seq_unlocked p w → w_seqs w !! p = Some q → block_tables e !! seq_id q = Some t →
    wp (match _Sequence_blocks_to_add_new_tok q with
        | 1 =>
            let! (block, gpu) := Allocator_allocate (gpu_allocator e) in
            st_ret (None, set_tables (set_gpu e gpu)
                            (<[seq_id q:=t ++ [block]]> (block_tables e)))
        | 0 =>
            let! (last_block, init) := st_unwrap (vec_pop t) in
            let! b := block_read last_block in
            let! _ := st_assert (is_gpu b) in
            let! b := block_read last_block in
            if refcount b =? 1 then st_ret (None, e)
            else
              let! (new_block, gpu) := Allocator_allocate (gpu_allocator e) in
              let! gpu := Allocator_free_block gpu last_block in
              let! old := block_read last_block in
              let! new := block_read new_block in
              st_ret (Some (block_id old, block_id new),
                      set_tables (set_gpu e gpu)
                        (<[seq_id q:=init ++ [new_block]]> (block_tables e)))
        | _ => st_panic
        end) (λ a w', Q a (release (LSeq p) w')) (acquire (LSeq p) w) →
    wp (BlockEngine_append_token_slot_to_seq e p) Q w.
  Proof.
    intros [Hl _] Hq Ht HQ. unfold BlockEngine_append_token_slot_to_seq.
    apply wp_bind. unfold wp at 1. rewrite (on_seq_pure_eq p _ w q) by done.
    apply wp_bind. eapply wp_unwrap; [done |]. apply wp_guard; [done |].
    apply wp_bind. unfold seq_get. by apply wp_unwrap with q.
  Qed.

  (** A full last block: one more physical block. *)
Lemma append_slot_new e p q t w :
    engine_inv e w → seq_unlocked p w → w_seqs w !! p = Some q →
    block_tables e !! seq_id q = Some t →
    _Sequence_blocks_to_add_new_tok q = 1 → gpu_free e ≠ [] →
    wp (BlockEngine_append_token_slot_to_seq e p) (λ '(r, e') w', ∃ new rest,
      r = None ∧ gpu_free e = rest ++ [new] ∧
      e' = set_tables (set_gpu e {| free_blocks := rest |})
             (<[seq_id q:=t ++ [new]]> (block_tables e)) ∧
      engine_inv e' w' ∧ same_frame w w') w.
  Proof.
    intros [HI Hf Hu] Hl Hq Ht Hadd Hne.
    eapply wp_append_slot; [done .. |]. rewrite Hadd. apply wp_bind.
    unfold gpu_free in *. destruct (gpu_allocator e) as [gf] eqn:Ea. simpl in *.
    destruct gf as [|new rest _] using rev_ind; [done |].
    eapply wp_mono; [eapply (allocate_spec (table_refs e)) |].
    - exact HI.
    - by apply acquire_unlocked.
    - intros [n a] w' (-> & -> & HI' & Hfr). apply wp_ret. exists new, rest.
      apply frame_release in Hfr; [| apply Hl]. split_and!; [done .. | | done]. split.
      + rewrite (table_refs_push e _ (seq_id q) t new) by done. exact HI'.
      + by eapply frame_flags.
      + by eapply frame_unlocked.
  Qed.

  (** A table without a block has no last one. *)
Lemma append_slot_no_table e p q w :
    seq_unlocked p w → w_seqs w !! p = Some q → block_tables e !! seq_id q = Some [] →
    _Sequence_blocks_to_add_new_tok q = 0 →
    BlockEngine_append_token_slot_to_seq e p w = Panic.
  Proof.
    intros [Hl _] Hq Ht Hadd. unfold BlockEngine_append_token_slot_to_seq.
    rewrite (st_bind_done _ _ _ _ _ (on_seq_pure_eq p _ w q Hl Hq)). unfold _Sequence_get_id.
    rewrite Ht. rewrite (st_bind_done _ _ _ [] w) by done.
    unfold on_seq, with_guard. rewrite decide_False by done. unfold seq_get.
    rewrite (st_bind_done _ _ _ q (acquire (LSeq p) w)); [by rewrite Hadd |]. simpl. by rewrite Hq.
  Qed.

  (** Space in a last block of its own: nothing to do. *)
Lemma append_slot_space e p q t l w :
    engine_inv e w → seq_unlocked p w → w_seqs w !! p = Some q →
    block_tables e !! seq_id q = Some (t ++ [l]) →
    _Sequence_blocks_to_add_new_tok q = 0 → occ l (table_refs e) = 1 →
    BlockEngine_append_token_slot_to_seq e p w = Done (None, e) w.
  Proof.
    intros [HI Hf Hu] Hl Hq Ht Hadd Hocc.
    assert (Hwp : wp (BlockEngine_append_token_slot_to_seq e p)
                    (λ a w', a = (None, e) ∧ w' = w) w).
    { eapply wp_append_slot; [done .. |]. rewrite Hadd, vec_pop_snoc. apply wp_bind, wp_ret.
      destruct (referenced_block _ _ _ _ l HI) as (b & Hb & Hr & Hpos).
      { apply dec_stable. rewrite <- occ_not_elem. lia. }
      pose proof (acquire_unlocked p w Hu l).
      apply wp_bind. eapply wp_block_read; [done | done |].
      apply wp_bind, wp_assert; [by eapply Hf |].
      apply wp_bind. eapply wp_block_read; [done | done |].
      rewrite Hr, Hocc. apply wp_ret. split; [done |].
      apply world_ext; [done | done |]. simpl. apply held_restore, Hl. }
    apply wp_done in Hwp as (a & w' & E & -> & ->). exact E.
  Qed.

  (** A shared last block: the sequence gets a copy of its own. *)
Lemma append_slot_cow e p q t l w :
    engine_inv e w → seq_unlocked p w → w_seqs w !! p = Some q →
    block_tables e !! seq_id q = Some (t ++ [l]) →
    _Sequence_blocks_to_add_new_tok q = 0 → 1 < occ l (table_refs e) → gpu_free e ≠ [] →
    wp (BlockEngine_append_token_slot_to_seq e p) (λ '(r, e') w', ∃ new rest old_b new_b,
      gpu_free e = rest ++ [new] ∧
      w_blocks w !! l = Some old_b ∧ w_blocks w !! new = Some new_b ∧
      r = Some (block_id old_b, block_id new_b) ∧
      e' = set_tables (set_gpu e {| free_blocks := rest |})
             (<[seq_id q:=t ++ [new]]> (block_tables e)) ∧
      engine_inv e' w' ∧ same_frame w w') w.
  Proof.
    intros [HI Hf Hu] Hl Hq Ht Hadd Hocc Hne.
    eapply wp_append_slot; [done .. |]. rewrite Hadd, vec_pop_snoc. apply wp_bind, wp_ret.
    destruct (referenced_block _ _ _ _ l HI) as (b & Hb & Hr & Hpos).
    { apply dec_stable. rewrite <- occ_not_elem. lia. }
    pose proof (acquire_unlocked p w Hu) as Hu'.
    apply wp_bind. eapply wp_block_read; [done | done |].
    apply wp_bind, wp_assert; [by eapply Hf |].
    apply wp_bind. eapply wp_block_read; [done | done |].
    rewrite Hr. destruct (Nat.eqb_spec (occ l (table_refs e)) 1) as [|_]; [lia |].
    unfold gpu_free in *. destruct (gpu_allocator e) as [gf] eqn:Ea. simpl in *.
    destruct gf as [|new rest _] using rev_ind; [done |].
    apply wp_bind. eapply wp_mono; [by eapply (allocate_spec (table_refs e)) |].
    intros [n a] w1 (-> & -> & HI1 & Hf1).
    set (e' := set_tables (set_gpu e {| free_blocks := rest |})
                 (<[seq_id q:=t ++ [new]]> (block_tables e))).
    rewrite <- (table_refs_swap_last e e' (seq_id q) t l new) in HI1
      by done.
    assert (Hin : l ∈ table_refs e').
    { apply dec_stable. rewrite <- occ_not_elem.
      assert (HR : occ l (l :: table_refs e') = occ l (new :: table_refs e))
        by by rewrite (table_refs_swap_last e e' (seq_id q) t l new).
      rewrite !occ_cons, decide_True in HR by done. case_decide; lia. }
    apply wp_bind. eapply wp_mono; [apply free_spec; [exact HI1 |] |].
    { by eapply frame_unlocked. }
    intros a w2 (-> & HI2 & Hf2). rewrite decide_True in * by done.
    assert (Hf12 : same_frame (acquire (LSeq p) w) w2) by by etrans.
    destruct (frame_block _ _ l b Hf12 Hb) as (b2 & Hb2 & Hid2).
    destruct (proj1 (bi_free _ _ _ _ HI new)) as (nb & Hnb & _); [set_solver |].
    destruct (frame_block _ _ new nb Hf12 Hnb) as (nb2 & Hnb2 & Hnid2).
    pose proof (frame_unlocked _ _ Hf12 Hu') as Hu2.
    apply wp_bind. eapply wp_block_read; [done | done |].
    apply wp_bind. eapply wp_block_read; [done | done |]. apply wp_ret.
    apply frame_release in Hf12; [| apply Hl]. exists new, rest, b, nb.
    split_and!; [done .. | by rewrite Hid2, Hnid2 | done | | done]. split.
    - exact HI2.
    - by eapply frame_flags.
    - by eapply frame_unlocked.
  Qed.

End SlotLemmas.

(** ** Lemmas: swapping *)

Section SwapLemmas.
  Context `{LogprobsSig} `{HashOrder}.
  Implicit Types w : World.
  Implicit Types e : BlockEngine.

Lemma frame_acquire l w w' :
    w_held w' = w_held w → same_frame w (release l w') → same_frame w w'.
  Proof. intros E [E1 E2 E3]. by split. Qed.

  (** *** If the calls return *)

Lemma wlp_block_write p f w (Q : unit → World → Prop) :
    (∀ b, w_blocks w !! p = Some b → Q tt (set_blocks <[p:=f b]> w)) →
    wlp (block_write p f) Q w.
  Proof.
    intros HQ. unfold wlp. destruct (decide (LBlock p ∈ w_held w)) as [Hl|Hl].
    { unfold block_write. by rewrite guard_hang. }
    destruct (w_blocks w !! p) as [b|] eqn:Hb.
    - rewrite (block_write_eq p f w b) by done. by apply HQ.
    - unfold block_write, with_guard. rewrite decide_False by done.
      unfold st_bind, block_get. simpl. by rewrite Hb.
  Qed.

Lemma wlp_block_read p w (Q : _ → World → Prop) :
    (∀ b, w_blocks w !! p = Some b → Q b w) → wlp (block_read p) Q w.
  Proof.
    intros HQ. unfold wlp. destruct (decide (LBlock p ∈ w_held w)) as [Hl|Hl].
    { unfold block_read. by rewrite guard_hang. }
    destruct (w_blocks w !! p) as [b|] eqn:Hb.
    - rewrite (block_read_eq p w b) by done. by apply HQ.
    - unfold block_read, with_guard. rewrite decide_False by done.
      unfold block_get. simpl. by rewrite Hb.
  Qed.

Lemma wlp_allocate a w : wlp (Allocator_allocate a) (λ _ w', same_frame w w') w.
  Proof.
    unfold Allocator_allocate. apply wlp_bind, wlp_unwrap. intros [p r] _.
    apply wlp_bind, wlp_block_write. intros b Hb. by apply wlp_ret, frame_set_refcount.
  Qed.

Lemma wlp_free a p w : wlp (Allocator_free_block a p) (λ _ w', same_frame w w') w.
  Proof.
    unfold Allocator_free_block. apply wlp_bind, wlp_block_read. intros b Hb.
    case_match; [by apply wlp_bind, wlp_block_read |].
    apply wlp_bind, wlp_block_write. intros b' Hb'.
    apply wlp_bind, wlp_block_read. intros b'' _.
    case_match; by apply wlp_ret, frame_set_refcount.
  Qed.

  (** A turn of the inner loop that returns has met a block number for the first
      time: the second time, its own guard stops it. *)
Lemma wlp_swap_out_block e m t x w :
    wlp (swap_out_block (e, m, t) x) (λ '(e', m', _) w',
      block_tables e' = block_tables e ∧
      m !! number_of w x = None ∧ (∃ c, m' = <[number_of w x:=c]> m) ∧ same_frame w w') w.
  Proof.
    unfold swap_out_block. apply wlp_bind. unfold wlp at 1, with_guard.
    case_decide as Hl; [done |]. fold (acquire (LBlock x) w).
    unfold st_bind at 1, block_get at 1. simpl.
    destruct (w_blocks w !! x) as [b|] eqn:Hb; simpl; [| done].
    assert (En : number_of w x = block_id b) by (unfold number_of; by rewrite Hb).
    destruct (m !! block_id b) eqn:Hm.
    - unfold st_bind at 1, block_read. rewrite guard_hang; [done |]. simpl. set_solver.
    - unfold st_bind at 1.
      pose proof (wlp_allocate (cpu_allocator e) (acquire (LBlock x) w)) as Ha.
      unfold wlp in Ha. destruct (Allocator_allocate _ _) as [[c cpu] w1| |]; [| done ..].
      simpl. apply frame_release in Ha; [| done]. apply wlp_bind.
      eapply wlp_mono; [apply wlp_free |]. intros a w2 Hf. apply wlp_ret.
      rewrite En. split_and!; [done | done | by exists c | by etrans].
  Qed.

Lemma wlp_swap_table e m t (x : list block_ptr) w :
    wlp (st_fold swap_out_block (e, m, t) x) (λ '(e', m', _) w',
      block_tables e' = block_tables e ∧ NoDup (number_of w <$> x) ∧
      (∀ k, k ∈ number_of w <$> x → m !! k = None) ∧
      (∀ k, is_Some (m' !! k) ↔ is_Some (m !! k) ∨ k ∈ number_of w <$> x) ∧
      same_frame w w') w.
  Proof.
    revert e m t w. induction x as [|p x IH]; intros e m t w; cbn [st_fold].
    - apply wlp_ret. split_and!; [done | constructor | set_solver | set_solver | done].
    - apply wlp_bind. eapply wlp_mono; [apply wlp_swap_out_block |].
      intros [[e1 m1] t1] w1 (Ht1 & Hm & [c ->] & Hf1).
      eapply wlp_mono; [apply IH |].
      intros [[e2 m2] t2] w2 (Ht2 & Hnd & Hfresh & Hdom & Hf2).
      rewrite (frame_numbers w w1 x Hf1) in *. rewrite fmap_cons. split_and!.
      + congruence.
      + apply NoDup_cons. split; [| done]. intros Hin. specialize (Hfresh _ Hin).
        by rewrite lookup_insert_eq in Hfresh.
      + intros k [->|Hk]%elem_of_cons; [done |]. specialize (Hfresh _ Hk).
        by apply lookup_insert_None in Hfresh as [? _].
      + intros k. rewrite Hdom, lookup_insert_is_Some, elem_of_cons.
        destruct (decide (number_of w p = k)) as [<-|]; naive_solver.
      + by etrans.
  Qed.

Definition table_of e (id : nat) : list block_ptr := default [] (block_tables e !! id).

  (** The block numbers of the tables of [ids], table after table. *)
Definition table_numbers e w (ids : list nat) : list nat :=
    concat ((λ id, number_of w <$> table_of e id) <$> ids).

Lemma table_numbers_ext e e' w w' ids :
    (∀ id, id ∈ ids → block_tables e' !! id = block_tables e !! id) → same_frame w w' →
    table_numbers e' w' ids = table_numbers e w ids.
  Proof.
    intros Ht Hf. unfold table_numbers. f_equal. apply list_fmap_ext.
    intros i id Hi. unfold table_of. rewrite Ht by by eapply list_elem_of_lookup_2.
    by apply frame_numbers.
  Qed.

Lemma wlp_swap_seqs e m ids w :
    NoDup ids →
    wlp (st_fold swap_out_seq (e, m) ids) (λ _ _,
      NoDup (table_numbers e w ids) ∧
      (∀ k, k ∈ table_numbers e w ids → m !! k = None)) w.
  Proof.
    revert e m w. induction ids as [|id ids IH]; intros e m w Hnd; cbn [st_fold].
    - apply wlp_ret. split; [constructor | set_solver].
    - apply NoDup_cons in Hnd as [Hid Hnd]. apply wlp_bind. unfold swap_out_seq at 1.
      apply wlp_bind, wlp_unwrap. intros x Hx. apply wlp_bind.
      eapply wlp_mono; [apply wlp_swap_table |].
      intros [[e1 m1] t1] w1 (Ht1 & Hnd1 & Hfr1 & Hdom1 & Hf1). apply wlp_ret.
      eapply wlp_mono; [by apply IH |]. intros _ _ [Hnd2 Hfr2].
      rewrite (table_numbers_ext e _ w w1) in Hnd2, Hfr2; try done;
        try (intros j Hj; simpl; rewrite Ht1, lookup_insert_ne; [done | by intros ->]).
      unfold table_numbers in *. rewrite fmap_cons. simpl. fold (table_numbers e w ids) in *.
      assert (table_of e id = x) as -> by (unfold table_of; by rewrite Hx). split.
      + apply NoDup_app. split_and!; [done | | done]. intros k Hk Hk'.
        specialize (Hfr2 _ Hk'). apply eq_None_not_Some in Hfr2. apply Hfr2, Hdom1. by right.
      + intros k [Hk|Hk]%elem_of_app; [by apply Hfr1 |].
        specialize (Hfr2 _ Hk). apply eq_None_not_Some. apply eq_None_not_Some in Hfr2.
        intros Hs. apply Hfr2, Hdom1. by left.
  Qed.

Lemma NoDup_hash_keys {A} (m : gmap nat A) : NoDup (hash_keys m).
  Proof. unfold hash_keys. rewrite hash_iter_perm. apply NoDup_fst_map_to_list. Qed.

  (** *** The calls return *)

Lemma swap_block_ok e m nt x c fl R w :
    blocks_inv (x :: R) (gpu_free e) (cpu_free e) w → blocks_unlocked w → NoDup (x :: R) →
    m !! number_of w x = None → cpu_free e = fl ++ [c] →
    wp (swap_out_block (e, m, nt) x) (λ '(e', m', nt') w',
      e' = set_gpu (set_cpu e {| free_blocks := fl |})
             {| free_blocks := gpu_free e ++ [x] |} ∧
      m' = <[number_of w x:=c]> m ∧ nt' = nt ++ [c] ∧ c ∉ x :: R ∧
      blocks_inv (c :: R) (gpu_free e') (cpu_free e') w' ∧ same_frame w w') w.
  Proof.
    intros HI Hu Hnd Hm Hc. unfold swap_out_block. apply wp_bind. apply wp_guard; [done |].
    destruct (referenced_block _ _ _ _ x HI) as (b & Hb & _); [set_solver |].
    assert (En : number_of w x = block_id b) by (unfold number_of; by rewrite Hb).
    rewrite En in *. fold (acquire (LBlock x) w).
    apply wp_bind. unfold block_get. apply wp_unwrap with b; [done |]. rewrite Hm.
    apply wp_bind. unfold gpu_free, cpu_free in *.
    destruct (cpu_allocator e) as [cf] eqn:Ec. simpl in Hc. subst cf. simpl in HI.
    assert (Hcx : c ∉ x :: R).
    { eapply free_not_referenced; [exact HI | set_solver]. }
    apply blocks_inv_swap in HI.
    eapply wp_mono; [eapply (allocate_spec (x :: R)) |].
    { exact HI. }
    { simpl. specialize (Hu c). set_solver. }
    intros [c' cpu] w1 (-> & -> & HI1 & Hf1). apply wp_ret. fold (release (LBlock x) w1).
    apply frame_release in Hf1; [| done]. apply wp_bind.
    apply blocks_inv_swap in HI1. rewrite Permutation_swap in HI1. simpl.
    destruct (gpu_allocator e) as [gf] eqn:Eg. simpl in *.
    eapply wp_mono; [eapply (free_spec (c :: R)) |].
    { exact HI1. }
    { by eapply frame_unlocked. }
    intros a w2 (-> & HI2 & Hf2). apply wp_ret.
    apply NoDup_cons in Hnd as [Hx _]. rewrite decide_False in * by set_solver.
    split_and!; [done .. | by etrans].
  Qed.

  (** The relation between a table and the one that replaces it, through the
      mapping of block numbers. *)
Record swapped (w : World) (t nt : list block_ptr) (m : gmap nat block_ptr) : Prop := {
    sw_length : length nt = length t;
    sw_map : ∀ i p c, t !! i = Some p → nt !! i = Some c → m !! number_of w p = Some c;
    sw_dom : ∀ k, is_Some (m !! k) ↔ k ∈ number_of w <$> t;
  }.

Lemma swapped_snoc w t nt m p c :
    swapped w t nt m → number_of w p ∉ number_of w <$> t →
    swapped w (t ++ [p]) (nt ++ [c]) (<[number_of w p:=c]> m).
  Proof.
    intros [Hl Hm Hd] Hn. split.
    - rewrite !length_app. simpl. lia.
    - intros i p' c' Hp Hc. destruct (decide (i < length t)) as [Hi|Hi].
      + rewrite lookup_app_l in Hp, Hc by lia. rewrite lookup_insert_ne by
          (intros E; apply Hn; rewrite E; apply list_elem_of_fmap_2; by eapply list_elem_of_lookup_2).
        by eapply Hm.
      + rewrite lookup_app_r in Hp, Hc by lia. rewrite Hl in Hc.
        destruct (i - length t) as [|k]; simpl in Hp, Hc; [| done]. simplify_eq.
        apply lookup_insert_eq.
    - intros k. rewrite lookup_insert_is_Some, fmap_app, elem_of_app. simpl.
      rewrite list_elem_of_singleton, Hd. destruct (decide (number_of w p = k)); naive_solver.
  Qed.

Lemma swapped_frame w w' t nt m : same_frame w w' → swapped w t nt m → swapped w' t nt m.
  Proof.
    intros Hf [Hl Hm Hd]. split; [done | |].
    - intros i p c. rewrite (frame_number w w' p Hf). apply Hm.
    - intros k. by rewrite (frame_numbers w w' t Hf).
  Qed.

  (** [pr] is the part of the table already swapped into [nt]. *)
Lemma swap_table_ok e m pr nt x R w :
    blocks_inv (x ++ nt ++ R) (gpu_free e) (cpu_free e) w → blocks_unlocked w →
    NoDup (x ++ nt ++ R) → NoDup (number_of w <$> pr ++ x) → swapped w pr nt m →
    length x ≤ length (cpu_free e) →
    wp (st_fold swap_out_block (e, m, nt) x) (λ '(e', m', nt') w',
      ∃ new rest, nt' = nt ++ new ∧ length new = length x ∧
        cpu_free e = rest ++ reverse new ∧
        e' = set_gpu (set_cpu e {| free_blocks := rest |})
               {| free_blocks := gpu_free e ++ x |} ∧
        swapped w' (pr ++ x) nt' m' ∧ NoDup (nt' ++ R) ∧
        blocks_inv (nt' ++ R) (gpu_free e') (cpu_free e') w' ∧ same_frame w w') w.
  Proof.
    revert e m pr nt w. induction x as [|p x IH]; intros e m pr nt w HI Hu Hnd Hids Hsw Hn;
      cbn [st_fold].
    - apply wp_ret. exists [], (cpu_free e). rewrite !app_nil_r.
      destruct e as [? [?] [?] ?]. by split_and!.
    - destruct (cpu_free e) as [|c fl _] eqn:Hc using rev_ind; [simpl in Hn; lia |].
      rewrite length_app in Hn. simpl in Hn. rewrite <- Hc in HI. apply wp_bind.
      assert (Hm : number_of w p ∉ number_of w <$> pr).
      { rewrite fmap_app, fmap_cons in Hids. apply NoDup_app in Hids as (_ & Hdis & _).
        intros Hin. apply (Hdis _ Hin). set_solver. }
      eapply wp_mono; [eapply swap_block_ok; [exact HI | done | done | | done] |].
      { apply eq_None_not_Some. by rewrite (sw_dom _ _ _ _ Hsw). }
      intros [[e1 m1] nt1] w1 (-> & -> & -> & Hcn & HI1 & Hf1).
      rewrite <- app_comm_cons in Hnd. apply NoDup_cons in Hnd as [Hp Hnd].
      assert (HR : c :: x ++ nt ++ R ≡ₚ x ++ (nt ++ [c]) ++ R)
        by (rewrite <- app_assoc; simpl; by rewrite !Permutation_middle).
      rewrite HR in HI1.
      eapply wp_mono; [apply (IH _ _ (pr ++ [p])) |].
      + exact HI1.
      + by eapply frame_unlocked.
      + rewrite <- HR. apply NoDup_cons. split; [set_solver | done].
      + rewrite <- app_assoc. simpl. by rewrite (frame_numbers w w1 _ Hf1).
      + rewrite <- (frame_number w w1 p Hf1). apply swapped_snoc; [by eapply swapped_frame |].
        by rewrite (frame_numbers w w1 _ Hf1), (frame_number w w1 p Hf1).
      + unfold cpu_free; simpl. lia.
      + intros [[e2 m2] nt2] w2 (new & rest & -> & Hl & Hcpu & -> & Hsw2 & Hnd2 & HI2 & Hf2).
        exists (c :: new), rest. unfold cpu_free, gpu_free in *. simpl in *.
        rewrite <- !app_assoc in *. simpl in *.
        split_and!; [done | lia | | done .. | by etrans].
        by rewrite Hcpu, reverse_cons, app_assoc.
  Qed.

End SwapLemmas.

Section SwapGroup.
  Context `{LogprobsSig} `{HashOrder}.
  Implicit Types w : World.
  Implicit Types e : BlockEngine.

Lemma collect_loop (l : list (nat * block_ptr)) m w :
    blocks_unlocked w → (∀ k p, (k, p) ∈ l → is_Some (w_blocks w !! p)) →
    st_fold collect_number m l w =
    Done (foldl (λ m kv, <[kv.1:=number_of w kv.2]> m) m l) w.
  Proof.
    revert m. induction l as [|[k p] l IH]; intros m Hu Hd; [done |].
    cbn [st_fold]. unfold collect_number at 1. unfold st_bind at 1 2. simpl.
    destruct (Hd k p) as [b Hb]; [set_solver |].
    assert (Hn : number_of w p = block_id b) by (unfold number_of; by rewrite Hb).
    rewrite (block_read_eq p w b) by done. simpl. rewrite IH; [| done | set_solver].
    by rewrite Hn.
  Qed.

Lemma foldl_insert_lookup {A B} (f : A → B) (l : list (nat * A)) (m : gmap nat B) k :
    NoDup l.*1 →
    foldl (λ m kv, <[kv.1:=f kv.2]> m) m l !! k =
    match (list_to_map l : gmap nat A) !! k with Some v => Some (f v) | None => m !! k end.
  Proof.
    revert m. induction l as [|[i v] l IH]; intros m Hnd; [done |].
    apply NoDup_cons in Hnd as [Hi Hnd]. simpl. rewrite IH by done.
    destruct (decide (i = k)) as [<-|Hne].
    - rewrite (not_elem_of_list_to_map_1 l i) by done. by rewrite !lookup_insert_eq.
    - by rewrite !lookup_insert_ne.
  Qed.

Lemma collect_numbers (m : gmap nat block_ptr) w :
    blocks_unlocked w → (∀ k p, m !! k = Some p → is_Some (w_blocks w !! p)) →
    st_fold collect_number ∅ (hash_iter m) w = Done (number_of w <$> m) w.
  Proof.
    intros Hu Hd. rewrite collect_loop; [| done |].
    - f_equal. apply map_eq. intros k. rewrite foldl_insert_lookup by apply NoDup_hash_keys.
      rewrite (list_to_map_proper (hash_iter m) (map_to_list m))
        by (apply NoDup_hash_keys || apply hash_iter_perm).
      rewrite list_to_map_to_list, lookup_fmap. by destruct (m !! k).
    - intros k p. rewrite hash_iter_perm, elem_of_map_to_list. apply Hd.
  Qed.

  (** The new table of a swapped sequence, and the pools it comes from and the
      old one goes to. *)
Record swap_result (e : BlockEngine) (w : World) (id : nat) (t : list block_ptr)
      (numbers : gmap nat nat) (e' : BlockEngine) (w' : World) : Prop := {
    sr_table : ∃ new, block_tables e' = <[id:=new]> (block_tables e) ∧
      length new = length t ∧ cpu_free e = cpu_free e' ++ reverse new ∧
      (∀ i p c, t !! i = Some p → new !! i = Some c →
         numbers !! number_of w p = Some (number_of w c));
    sr_dom : ∀ k, is_Some (numbers !! k) ↔ k ∈ number_of w <$> t;
    sr_gpu : gpu_free e' = gpu_free e ++ t;
    sr_num : num_gpu_blocks e' = num_gpu_blocks e;
    sr_nodup : NoDup (table_refs e');
    sr_inv : engine_inv e' w';
    sr_frame : same_frame w w';
  }.

Lemma swap_out_single e g p q t w :
    engine_inv e w → NoDup (table_refs e) → single g p q w →
    block_tables e !! seq_id q = Some t → NoDup (number_of w <$> t) →
    length t ≤ length (cpu_free e) →
    wp (BlockEngine_swap_out e g)
      (λ '(numbers, e') w', swap_result e w (seq_id q) t numbers e' w') w.
  Proof.
    intros [HI Hf Hu] Hnd Hs Ht Hids Hn. unfold BlockEngine_swap_out.
    rewrite (single_keys _ _ _ _ Hs). cbn [st_fold]. apply wp_bind, wp_bind.
    unfold swap_out_seq. apply wp_bind. eapply wp_unwrap; [done |]. apply wp_bind.
    set (e1 := set_tables e (delete (seq_id q) (block_tables e))).
    pose proof (table_refs_delete e e1 (seq_id q) t Ht eq_refl) as HR. rewrite HR in HI, Hnd.
    eapply wp_mono.
    { apply (swap_table_ok e ∅ [] [] t (table_refs e1)); [done .. | | done].
      split; [done | done |]. intros k. rewrite lookup_empty.
      split; [by intros [? ?] | set_solver]. }
    intros [[e2 m2] nt] w1 (new & rest & -> & Hl & Hcpu & -> & Hsw & Hnd1 & HI1 & Hf1).
    simpl in *. apply wp_ret, wp_ret, wp_bind.
    set (e3 := set_tables _ _).
    assert (HR3 : table_refs e3 ≡ₚ new ++ table_refs e1) by by eapply (table_refs_replace e).
    pose proof (frame_unlocked _ _ Hf1 Hu) as Hu1.
    destruct Hsw as [_ Hmap Hdom].
    unfold wp at 1. rewrite collect_numbers; [| done |].
    - apply wp_ret. split; simpl.
      + exists new. split_and!; [done .. |]. intros i p' c Hp Hc.
        rewrite lookup_fmap, <- (frame_number w w1 p' Hf1), (Hmap i p' c) by done.
        simpl. by rewrite (frame_number w w1 c Hf1).
      + intros k. by rewrite lookup_fmap, fmap_is_Some, Hdom, (frame_numbers w w1 t Hf1).
      + done.
      + done.
      + by rewrite HR3.
      + split; [| by eapply frame_flags | done]. by rewrite HR3.
      + done.
    - intros k c Hk. assert (Hc : c ∈ new).
      { pose proof (proj1 (Hdom k) (mk_is_Some _ _ Hk)) as Hin.
        apply list_elem_of_fmap in Hin as (p' & -> & Hp').
        apply list_elem_of_lookup in Hp' as [i Hi].
        destruct (lookup_lt_is_Some_2 new i) as [c' Hc'].
        { rewrite Hl. by eapply lookup_lt_Some. }
        rewrite (Hmap i p' c') in Hk by done. injection Hk as <-.
        by eapply list_elem_of_lookup_2. }
      apply (bi_dom _ _ _ _ HI1). set_solver.
  Qed.

End SwapGroup.
