(* ===== verification/BlockEngineSpec.v ===== *)
(** * The block engine: properties

    What the operations of [BlockEngine] promise, with a witness for each. *)

From Stdlib Require Import ZArith SpecFloat Lia.
From stdpp Require Import base gmap sets strings countable list.
From S2P Require Import Prelude Machine Sequence BlockEngine BlockEngineSwap.

(** ** Properties *)

Section BlockEngineProperties.
  Context `{LogprobsSig} `{HashOrder}.
  Implicit Types w : World.
  Implicit Types e : BlockEngine.

Lemma engine_alloc_free_known e w p :
    engine_inv e w → p ∈ gpu_free e → is_Some (w_blocks w !! p).
  Proof.
    intros [HI _ _] Hp. destruct (proj1 (bi_free _ _ _ _ HI p)) as (b & Hb & _); [set_solver |].
    by eexists.
  Qed.

  (** C14: [allocate] for a group of one new sequence, on both branches: with
      enough free blocks it takes as many as the sequence has logical blocks, from
      the end of the free list, gives them to the sequence in that order, keeps
      every other table and preserves the invariant; with fewer it panics. *)
Theorem allocate_takes_blocks e g p q w :
    engine_inv e w → single g p q w → block_tables e !! seq_id q = None →
    if decide (length (logical_token_blocks q) ≤ length (gpu_free e)) then
      ∃ e' w' new, BlockEngine_allocate e g w = Done e' w' ∧
        length new = length (logical_token_blocks q) ∧
        gpu_free e = gpu_free e' ++ reverse new ∧ cpu_free e' = cpu_free e ∧
        block_tables e' = <[seq_id q:=new]> (block_tables e) ∧ engine_inv e' w'
    else BlockEngine_allocate e g w = Panic.
  Proof.
    intros HI Hs Hid. case_decide as Hn.
    - destruct (proj1 (wp_done _ _ _) (allocate_single e g p q w HI Hs Hid Hn))
        as (e' & w' & E & new & rest & Hl & Hg & -> & HI' & _).
      exists (set_tables (set_gpu e {| free_blocks := rest |})
                (<[seq_id q:=new]> (block_tables e))), w', new. by split_and!.
    - rewrite (allocate_unfold e g w _ (single_logical_blocks _ _ _ _ Hs)).
      unfold st_bind. rewrite alloc_loop_panics; [done | apply HI | | rewrite length_seq; lia].
      intros x. by apply engine_alloc_free_known.
  Qed.

  (** C6: freeing a sequence gives each block of its table back to the free list
      unless another table still refers to it, removes the table and preserves the
      invariant: no block is leaked, none is freed twice. *)
Theorem free_sequence_keeps_invariant e p q t w :
    engine_inv e w → seq_unlocked p w → w_seqs w !! p = Some q →
    block_tables e !! seq_id q = Some t →
    ∃ e' w', BlockEngine_free_sequence e p w = Done e' w' ∧ engine_inv e' w' ∧
      block_tables e' = delete (seq_id q) (block_tables e) ∧
      gpu_free e' = gpu_free e ++ freed_of (table_refs e') t.
  Proof.
    intros HI Hl Hq Ht.
    destruct (proj1 (wp_done _ _ _) (free_sequence_spec e p q t w HI Hl Hq Ht))
      as (e' & w' & E & -> & HI' & _). eexists _, w'. by split_and!.
  Qed.

  (** C30: allocating a new sequence and freeing it again is the identity on the
      tables and on the free blocks, up to their order in the list. *)
Theorem allocate_free_roundtrip e g p q w :
    engine_inv e w → single g p q w → block_tables e !! seq_id q = None →
    length (logical_token_blocks q) ≤ length (gpu_free e) →
    ∃ e1 w1 e2 w2, BlockEngine_allocate e g w = Done e1 w1 ∧
      BlockEngine_free_sequence e1 p w1 = Done e2 w2 ∧ engine_inv e2 w2 ∧
      block_tables e2 = block_tables e ∧ gpu_free e2 ≡ₚ gpu_free e ∧
      cpu_free e2 = cpu_free e.
  Proof.
    intros HI Hs Hid Hn.
    destruct (proj1 (wp_done _ _ _) (allocate_single e g p q w HI Hs Hid Hn))
      as (e1 & w1 & E1 & new & rest & Hl & Hg & He1 & HI1 & Hf1).
    pose proof (single_frame _ _ _ _ _ Hf1 Hs) as [_ Hq1 Hl1].
    assert (Ht : block_tables e1 !! seq_id q = Some new)
      by (rewrite He1; apply lookup_insert_eq).
    destruct (proj1 (wp_done _ _ _) (free_sequence_spec e1 p q new w1 HI1 Hl1 Hq1 Ht))
      as (e2 & w2 & E2 & He2 & HI2 & _).
    exists e1, w1, e2, w2. split_and!; [done | done | done | | |].
    - rewrite He2, He1. simpl. by apply delete_insert_id.
    - rewrite He2. unfold gpu_free at 1; simpl. rewrite freed_of_disjoint.
      + rewrite Hg, He1. unfold gpu_free; simpl. by rewrite reverse_Permutation.
      + pose proof (bi_nodup _ _ _ _ (ei_blocks _ _ HI)) as Hnd.
        rewrite Hg, <- app_assoc in Hnd. apply NoDup_app in Hnd as (_ & _ & Hnd).
        apply NoDup_app in Hnd as (Hnd & _ & _). by rewrite reverse_Permutation in Hnd.
      + intros x Hx.
        assert (HR : table_refs (set_tables e1 (delete (seq_id q) (block_tables e1))) =
                     table_refs e).
        { unfold table_refs. rewrite He1. simpl. by rewrite delete_insert_id. }
        rewrite HR. eapply free_not_referenced; [by apply HI |].
        rewrite Hg, !elem_of_app, elem_of_reverse. tauto.
    - by rewrite He2, He1.
  Qed.

  (** C7: [append_token_slot_to_seq], on all its branches: a sequence whose last
      logical block is full gets one more physical block; one with space in a
      block of its own keeps its table; one with space in a shared block gets a
      fresh copy and reports the pair of numbers to copy.  Each branch preserves
      the invariant, and the shared block loses exactly one reference. *)
Theorem append_slot_branches e p q t l w :
    engine_inv e w → seq_unlocked p w → w_seqs w !! p = Some q →
    block_tables e !! seq_id q = Some (t ++ [l]) → gpu_free e ≠ [] →
    ∃ r e' w', BlockEngine_append_token_slot_to_seq e p w = Done (r, e') w' ∧
      engine_inv e' w' ∧
      if decide (_Sequence_blocks_to_add_new_tok q = 1) then
        r = None ∧ ∃ new, gpu_free e = gpu_free e' ++ [new] ∧
          block_tables e' = <[seq_id q:=(t ++ [l]) ++ [new]]> (block_tables e)
      else if decide (occ l (table_refs e) = 1) then
        r = None ∧ e' = e ∧ w' = w
      else
        ∃ new, r = Some (number_of w l, number_of w new) ∧
          gpu_free e = gpu_free e' ++ [new] ∧
          block_tables e' = <[seq_id q:=t ++ [new]]> (block_tables e) ∧
          occ l (table_refs e') + 1 = occ l (table_refs e).
  Proof.
    intros HI Hl Hq Ht Hne.
    assert (Hocc : 0 < occ l (table_refs e)).
    { destruct (occ l (table_refs e)) eqn:E; [| lia]. apply occ_not_elem in E. destruct E.
      rewrite (table_refs_delete e (set_tables e (delete (seq_id q) (block_tables e))) _ _ Ht)
        by done. set_solver. }
    case_decide as Hadd; [| assert (Hadd0 : _Sequence_blocks_to_add_new_tok q = 0)].
    - destruct (proj1 (wp_done _ _ _) (append_slot_new e p q _ w HI Hl Hq Ht Hadd Hne))
        as ([r e'] & w' & E & new & rest & -> & Hg & -> & HI' & _).
      eexists _, _, w'. split_and!; [done .. |]. exists new. by split.
    - unfold _Sequence_blocks_to_add_new_tok in *. by destruct (has_space _).
    - case_decide as Hone.
      + exists None, e, w. split_and!; try done. by eapply append_slot_space.
      + destruct (proj1 (wp_done _ _ _) (append_slot_cow e p q t l w HI Hl Hq Ht Hadd0
          ltac:(lia) Hne)) as ([r e'] & w' & E & new & rest & ob & nb & Hg & Hob & Hnb & -> & He'
          & HI' & _).
        exists (Some (block_id ob, block_id nb)), e', w'. split_and!; [done | done |].
        exists new. unfold number_of. rewrite Hob, Hnb.
        split_and!; [done | by rewrite He' | by rewrite He' |].
        assert (HR : occ l (l :: table_refs e') = occ l (new :: table_refs e))
          by (rewrite (table_refs_swap_last e e' (seq_id q) t l new); [done | done | by rewrite He']).
        assert (new ∉ table_refs e).
        { eapply free_not_referenced; [by apply HI |]. rewrite Hg. set_solver. }
        rewrite !occ_cons, decide_True, decide_False in HR by
          (done || (intros ->; apply occ_not_elem in H1; lia)). lia.
  Qed.

  (** "ok" does not mean that [allocate] will do: whenever at least as many
      blocks are needed as are in use, but more than are free, [can_allocate]
      says ok and [allocate] panics on the empty free list. *)
Theorem can_allocate_ok_then_panic e g p q w :
    engine_inv e w → single g p q w →
    num_gpu_blocks e ≤ length (gpu_free e) + length (logical_token_blocks q) →
    length (logical_token_blocks q) ≤ num_gpu_blocks e →
    length (gpu_free e) < length (logical_token_blocks q) →
    BlockEngine_can_allocate e g w = Done AllocStatus_Ok w ∧
    BlockEngine_allocate e g w = Panic.
  Proof.
    intros HI Hs H1 H2 H3. split.
    - unfold BlockEngine_can_allocate, st_bind.
      rewrite (single_logical_blocks _ _ _ _ Hs). unfold GPUAllocator_get_num_free_blocks.
      fold (gpu_free e). unfold st_ret. f_equal.
      destruct (Nat.ltb_spec (length (gpu_free e) + length (logical_token_blocks q))
                  (num_gpu_blocks e)); [lia |].
      destruct (Nat.ltb_spec (num_gpu_blocks e) (length (logical_token_blocks q))); [lia | done].
    - rewrite (allocate_unfold e g w _ (single_logical_blocks _ _ _ _ Hs)).
      unfold st_bind. rewrite alloc_loop_panics; [done | apply HI | | rewrite length_seq; lia].
      intros x. by apply engine_alloc_free_known.
  Qed.

  (** What [allocate] leaves to a group of several sequences: one table [t] for all
      of them, whose blocks are counted once. *)
Record shares_table e g (t R : list block_ptr) w : Prop := {
    sh_blocks : blocks_inv (t ++ R) (gpu_free e) (cpu_free e) w;
    sh_flags : all_flagged_gpu w;
    sh_unlocked : blocks_unlocked w;
    sh_nonempty : t ≠ [];
    sh_apart : ∀ x, x ∈ t → x ∉ R;
    sh_tables : ∀ id, is_Some (seqs g !! id) → block_tables e !! id = Some t;
    sh_group : group_ok g w;
  }.

Lemma allocate_shares e g id p q w e1 w1 :
    engine_inv e w → group_ok g w → seqs g !! id = Some p → w_seqs w !! p = Some q →
    logical_token_blocks q ≠ [] → BlockEngine_allocate e g w = Done e1 w1 →
    ∃ t R, shares_table e1 g t R w1.
  Proof.
    intros [HI Hf Hu] Hok Hg Hq Hb Ha.
    destruct (allocate_group e g w e1 w1 HI Hu Hok Ha)
      as (new & rest & Hln & Hgpu & Hcpu & Hgf & Hall & HI1 & Hf1).
    exists new, (table_refs e). split.
    - by rewrite Hgf, Hcpu.
    - by eapply frame_flags.
    - by eapply frame_unlocked.
    - intros ->. apply (sum_fields_pos g _ w _ p q Hg) in Hln; [| done].
      by apply nil_length_inv in Hln.
    - intros x Hx. eapply free_not_referenced; [exact HI |]. rewrite Hgpu. set_solver.
    - done.
    - intros id' p' Hp'. destruct (Hok _ _ Hp') as [[Hl1 Hl2] (q' & Hq' & Hid')].
      split; [split; by rewrite (sf_held _ _ Hf1) |]. exists q'. by rewrite (sf_seqs _ _ Hf1).
  Qed.

  (** Freeing one sequence of such a group, and then another. *)
Lemma shared_free_twice e g t R id1 id2 p1 p2 w :
    shares_table e g t R w → id1 ≠ id2 → seqs g !! id1 = Some p1 → seqs g !! id2 = Some p2 →
    ∃ e2 w2, BlockEngine_free_sequence e p1 w = Done e2 w2 ∧
             BlockEngine_free_sequence e2 p2 w2 = Panic.
  Proof.
    intros [HI Hf Hu Ht Hap Htab Hok] Hne Hg1 Hg2.
    destruct (Hok _ _ Hg1) as [Hl1 (q1 & Hq1 & Hid1)].
    destruct (Hok _ _ Hg2) as [Hl2 (q2 & Hq2 & Hid2)].
    destruct (proj1 (wp_done _ _ _) (free_loop e R t w HI Hf Hu))
      as (e2 & w2 & E2 & He2 & HI2 & Hf2).
    exists (set_tables e2 (delete id1 (block_tables e2))), w2. split.
    - unfold BlockEngine_free_sequence, st_bind.
      rewrite (on_seq_pure_eq p1 _ w q1) by (done || apply Hl1). unfold _Sequence_get_id at 1.
      rewrite Hid1, (Htab id1) by by eexists. simpl. rewrite E2.
      rewrite (on_seq_pure_eq p1 _ w2 q1); [unfold _Sequence_get_id; by rewrite Hid1 | |].
      + rewrite (sf_held _ _ Hf2). apply Hl1.
      + by rewrite (sf_seqs _ _ Hf2).
    - unfold BlockEngine_free_sequence, st_bind.
      rewrite (on_seq_pure_eq p2 _ w2 q2);
        [| rewrite (sf_held _ _ Hf2); apply Hl2 | by rewrite (sf_seqs _ _ Hf2)].
      unfold _Sequence_get_id at 1. rewrite Hid2. simpl.
      rewrite lookup_delete_ne by done. assert (Et : block_tables e2 = block_tables e) by by rewrite He2.
      rewrite Et, (Htab id2) by by eexists. rewrite <- Et. simpl. clear Et He2.
      destruct t as [|x t]; [done |].
      rewrite (free_unreferenced_panics (set_tables e2 (delete id1 (block_tables e2))) R x t w2);
        [done | exact HI2 | |].
      + split; [by eapply frame_flags | by eapply frame_unlocked].
      + split; [apply Hap; set_solver |].
        apply (frame_known _ _ _ Hf2), (bi_dom _ _ _ _ HI). set_solver.
  Qed.

  (** A group of two sequences is given one table with counts of one: after
      [allocate], the first of them can be freed, the second one panics (a double
      free). *)
Theorem shared_table_double_free e g id1 id2 p1 p2 q1 q2 w e1 w1 :
    engine_inv e w → group_ok g w → id1 ≠ id2 →
    seqs g !! id1 = Some p1 → seqs g !! id2 = Some p2 →
    w_seqs w !! p1 = Some q1 → w_seqs w !! p2 = Some q2 →
    logical_token_blocks q1 ≠ [] →
    BlockEngine_allocate e g w = Done e1 w1 →
    ∃ e2 w2, BlockEngine_free_sequence e1 p1 w1 = Done e2 w2 ∧
             BlockEngine_free_sequence e2 p2 w2 = Panic.
  Proof.
    intros HE Hok Hne Hg1 Hg2 Hq1 _ Hb Ha.
    destruct (allocate_shares e g id1 p1 q1 w e1 w1 HE Hok Hg1 Hq1 Hb Ha) as (t & R & Hsh).
    by eapply shared_free_twice.
  Qed.

  (** C15: swapping a group of one sequence out moves its table, block by block, to
      blocks taken from the end of the CPU free list, gives every GPU block back,
      returns the mapping of the old block numbers to the new ones, and preserves
      the invariant. *)
Theorem swap_out_moves_table e g p q t w :
    engine_inv e w → NoDup (table_refs e) → single g p q w →
    block_tables e !! seq_id q = Some t → NoDup (number_of w <$> t) →
    length t ≤ length (cpu_free e) →
    ∃ numbers e' w', BlockEngine_swap_out e g w = Done (numbers, e') w' ∧
      swap_result e w (seq_id q) t numbers e' w'.
  Proof.
    intros HI Hnd Hs Ht Hids Hn.
    destruct (proj1 (wp_done _ _ _) (swap_out_single e g p q t w HI Hnd Hs Ht Hids Hn))
      as ([numbers e'] & w' & E & HR). eauto.
  Qed.

  (** [swap_in] draws on the same pools in the same direction: it needs the
      blocks to be free in the CPU pool, takes the new table from its end, and
      pushes the old blocks onto the GPU free list, whatever [can_swap_in_seq_group]
      found there. *)
Theorem swap_in_draws_on_cpu_pool e g p q t w :
    engine_inv e w → NoDup (table_refs e) → single g p q w →
    block_tables e !! seq_id q = Some t → NoDup (number_of w <$> t) →
    length t ≤ length (cpu_free e) →
    ∃ numbers e' w' new, BlockEngine_swap_in e g w = Done (numbers, e') w' ∧
      block_tables e' = <[seq_id q:=new]> (block_tables e) ∧ length new = length t ∧
      cpu_free e = cpu_free e' ++ reverse new ∧ gpu_free e' = gpu_free e ++ t.
  Proof.
    intros HI Hnd Hs Ht Hids Hn.
    destruct (proj1 (wp_done _ _ _) (swap_out_single e g p q t w HI Hnd Hs Ht Hids Hn))
      as ([numbers e'] & w' & E & [(new & ? & ? & ? & _) _ ? _ _ _ _]).
    exists numbers, e', w', new. by split_and!.
  Qed.

  (** [swap_out] only returns for groups whose tables mention every block
      number once.  A number met again is looked up under the guard that the
      [if let] still holds, so a group that shares a block spins forever. *)
Theorem swap_out_returns_only_unshared e g w numbers e' w' :
    BlockEngine_swap_out e g w = Done (numbers, e') w' →
    NoDup (table_numbers e w (hash_keys (seqs g))).
  Proof.
    intros E. unfold BlockEngine_swap_out in E.
    pose proof (wlp_swap_seqs e ∅ (hash_keys (seqs g)) w (NoDup_hash_keys _)) as Hw.
    unfold wlp in Hw. unfold st_bind at 1 in E.
    destruct (st_fold swap_out_seq _ _ w) as [a w1| |]; [apply Hw | done ..].
  Qed.

End BlockEngineProperties.

(** *** Witnesses *)

Section BlockEngineExamples.

  #[local] Existing Instance plain_logprobs.
  #[local] Existing Instance canonical_order.

Definition no_engine : BlockEngine :=
    mkBlockEngine 0 {| free_blocks := [] |} {| free_blocks := [] |} ∅.

Definition result_of {A} (d : A) (o : outcome World A) : A :=
    match o with Done a _ => a | _ => d end.

Definition world_of {A} (o : outcome World A) : World :=
    match o with Done _ w => w | _ => empty_world end.

Lemma wp_result {A} (d : A) (m : M A) Q w :
    wp m Q w → m w = Done (result_of d (m w)) (world_of (m w)) ∧
               Q (result_of d (m w)) (world_of (m w)).
  Proof. unfold wp. by destruct (m w). Qed.

  (** Four GPU and four CPU blocks of two tokens, and the sequence [ex_seq], which
      needs two of them. *)
Definition ex_e0 : BlockEngine := result_of no_engine (BlockEngine_new 2 4 4 ex_seq_world).

Definition ex_w0 : World := world_of (BlockEngine_new 2 4 4 ex_seq_world).

Definition ex_group : SequenceGroup :=
    {| seqs := {[0 := 0]}; arrival_time := 0; group_id := 0; request_id := "cmpl";
       created := 0 |}.

Lemma ex_seq_world_unlocked : blocks_unlocked ex_seq_world.
  Proof. intros p. apply not_elem_of_empty. Qed.

Lemma ex_inv0 : engine_inv ex_e0 ex_w0.
  Proof.
    pose proof (new_engine 2 4 4 ex_seq_world eq_refl ex_seq_world_unlocked) as Hwp.
    unfold ex_e0, ex_w0, wp in *. destruct (BlockEngine_new _ _ _ _); [apply Hwp | done ..].
  Qed.

Lemma ex_w0_seqs : w_seqs ex_w0 = {[0 := ex_seq]} ∧ w_held ex_w0 = ∅.
  Proof. by vm_compute. Qed.

Lemma ex_single0 : single ex_group 0 ex_seq ex_w0.
  Proof.
    destruct ex_w0_seqs as [Hs Hh]. split; [done | by rewrite Hs |].
    split; rewrite Hh; apply not_elem_of_empty.
  Qed.

Definition ex_e1 : BlockEngine := result_of no_engine (BlockEngine_allocate ex_e0 ex_group ex_w0).

Definition ex_w1 : World := world_of (BlockEngine_allocate ex_e0 ex_group ex_w0).

Lemma ex_allocated :
    engine_inv ex_e1 ex_w1 ∧ single ex_group 0 ex_seq ex_w1 ∧
    block_tables ex_e1 !! 0 = Some [3; 2] ∧ table_refs ex_e1 = [3; 2].
  Proof.
    pose proof (allocate_single ex_e0 ex_group 0 ex_seq ex_w0 ex_inv0 ex_single0
                  ltac:(by vm_compute) ltac:(vm_compute; lia)) as Hwp.
    unfold wp in Hwp. split_and!; [| | by vm_compute | by vm_compute].
    - unfold ex_e1, ex_w1. destruct (BlockEngine_allocate _ _ _); [| done ..].
      destruct Hwp as (? & ? & _ & _ & _ & ? & _). done.
    - unfold ex_w1. destruct (BlockEngine_allocate _ _ _); [| done ..].
      destruct Hwp as (? & ? & _ & _ & _ & _ & ?). by eapply single_frame, ex_single0.
  Qed.

Lemma allocate_takes_blocks_witness :
    ∃ e' w' new, BlockEngine_allocate ex_e0 ex_group ex_w0 = Done e' w' ∧
      length new = 2 ∧ gpu_free ex_e0 = gpu_free e' ++ reverse new.
  Proof.
    pose proof (allocate_takes_blocks ex_e0 ex_group 0 ex_seq ex_w0 ex_inv0 ex_single0
                  ltac:(by vm_compute)) as HT.
    rewrite decide_True in HT by (vm_compute; lia).
    destruct HT as (e' & w' & new & ? & ? & ? & _). eauto 10.
  Defined.

Lemma free_sequence_keeps_invariant_witness :
    ∃ e' w', BlockEngine_free_sequence ex_e1 0 ex_w1 = Done e' w' ∧ engine_inv e' w'.
  Proof.
    destruct ex_allocated as (HI & [Hs Hq Hl] & Ht & _).
    destruct (free_sequence_keeps_invariant ex_e1 0 ex_seq [3; 2] ex_w1 HI Hl Hq Ht)
      as (e' & w' & ? & ? & _). eauto.
  Defined.

Lemma allocate_free_roundtrip_witness :
    ∃ e1 w1 e2 w2, BlockEngine_allocate ex_e0 ex_group ex_w0 = Done e1 w1 ∧
      BlockEngine_free_sequence e1 0 w1 = Done e2 w2 ∧ gpu_free e2 ≡ₚ gpu_free ex_e0.
  Proof.
    destruct (allocate_free_roundtrip ex_e0 ex_group 0 ex_seq ex_w0 ex_inv0 ex_single0
                ltac:(by vm_compute) ltac:(vm_compute; lia))
      as (e1 & w1 & e2 & w2 & ? & ? & _ & _ & ? & _). eauto 10.
  Defined.

Lemma append_slot_branches_witness :
    ∃ r e' w', BlockEngine_append_token_slot_to_seq ex_e1 0 ex_w1 = Done (r, e') w' ∧
      engine_inv e' w'.
  Proof.
    destruct ex_allocated as (HI & [Hs Hq Hl] & Ht & _).
    destruct (append_slot_branches ex_e1 0 ex_seq [3] 2 ex_w1 HI Hl Hq Ht
                ltac:(by vm_compute)) as (r & e' & w' & ? & ? & _). eauto.
  Defined.

  (** Three of the four GPU blocks are in use. *)
Definition ex_seq3 : _Sequence :=
    ex_pages [1; 2; 3; 4; 5] 1 2
      [{| ltb_tokens := [1; 2]; ltb_block_size := 2; ltb_num_tokens := 2 |};
       {| ltb_tokens := [3; 4]; ltb_block_size := 2; ltb_num_tokens := 2 |};
       {| ltb_tokens := [5; 0]; ltb_block_size := 2; ltb_num_tokens := 1 |}].

Definition ex_group3 : SequenceGroup :=
    {| seqs := {[1 := 1]}; arrival_time := 1; group_id := 1; request_id := "cmpl";
       created := 1 |}.

Definition ex_w2 : World := set_seqs <[1:=ex_seq3]> ex_w1.

Lemma ex_inv2 : engine_inv ex_e1 ex_w2.
  Proof.
    destruct ex_allocated as ([HI Hf Hu] & _). split; [exact HI | exact Hf | exact Hu].
  Qed.

Lemma ex_single3 : single ex_group3 1 ex_seq3 ex_w2.
  Proof.
    destruct ex_allocated as (_ & [_ _ [Hl1 Hl2]] & _). split; [done | by vm_compute |].
    assert (Hh : w_held ex_w2 = ∅) by by vm_compute.
    split; rewrite Hh; apply not_elem_of_empty.
  Qed.

Lemma can_allocate_ok_then_panic_witness :
    BlockEngine_can_allocate ex_e1 ex_group3 ex_w2 = Done AllocStatus_Ok ex_w2 ∧
    BlockEngine_allocate ex_e1 ex_group3 ex_w2 = Panic.
  Proof.
    exact (can_allocate_ok_then_panic ex_e1 ex_group3 1 ex_seq3 ex_w2 ex_inv2 ex_single3
             ltac:(vm_compute; lia) ltac:(vm_compute; lia) ltac:(vm_compute; lia)).
  Defined.

  (** Two sequences of the same prompt, as [n = 2] would make them. *)
Definition ex_pair : SequenceGroup :=
    {| seqs := <[0:=0]> {[1 := 1]}; arrival_time := 0; group_id := 0; request_id := "cmpl";
       created := 0 |}.

Definition ex_seq_twin : _Sequence :=
    ex_pages [5; 6; 7] 1 2 (logical_token_blocks ex_seq).

Definition ex_w_pair : World := set_seqs <[1:=ex_seq_twin]> ex_w0.

Lemma ex_pair_ok : engine_inv ex_e0 ex_w_pair ∧ group_ok ex_pair ex_w_pair.
  Proof.
    destruct ex_inv0 as [HI Hf Hu]. split; [split; [exact HI | exact Hf | exact Hu] |].
    assert (Hh : w_held ex_w_pair = ∅) by by vm_compute.
    intros id p Hid. split; [split; rewrite Hh; apply not_elem_of_empty |].
    unfold ex_pair in Hid. simpl in Hid. apply lookup_insert_Some in Hid as [[<- <-]|[_ Hid]].
    - exists ex_seq. by vm_compute.
    - apply lookup_singleton_Some in Hid as [<- <-]. exists ex_seq_twin. by vm_compute.
  Qed.

Lemma shared_table_double_free_witness :
    let e1 := result_of no_engine (BlockEngine_allocate ex_e0 ex_pair ex_w_pair) in
    let w1 := world_of (BlockEngine_allocate ex_e0 ex_pair ex_w_pair) in
    BlockEngine_allocate ex_e0 ex_pair ex_w_pair = Done e1 w1 ∧
    ∃ e2 w2, BlockEngine_free_sequence e1 0 w1 = Done e2 w2 ∧
             BlockEngine_free_sequence e2 1 w2 = Panic.
  Proof.
    intros e1 w1. assert (E : BlockEngine_allocate ex_e0 ex_pair ex_w_pair = Done e1 w1)
      by by vm_compute.
    split; [exact E |]. destruct ex_pair_ok as [HI Hok].
    exact (shared_table_double_free ex_e0 ex_pair 0 1 0 1 ex_seq ex_seq_twin ex_w_pair e1 w1
             HI Hok ltac:(done) ltac:(by vm_compute) ltac:(by vm_compute)
             ltac:(by vm_compute) ltac:(by vm_compute) ltac:(done) E).
  Defined.

Lemma swap_out_moves_table_witness :
    ∃ numbers e' w', BlockEngine_swap_out ex_e1 ex_group ex_w1 = Done (numbers, e') w' ∧
      swap_result ex_e1 ex_w1 0 [3; 2] numbers e' w'.
  Proof.
    destruct ex_allocated as (HI & Hs & Ht & HR).
    refine (swap_out_moves_table ex_e1 ex_group 0 ex_seq [3; 2] ex_w1 HI _ Hs Ht _ _).
    - rewrite HR. by apply (bool_decide_unpack _); vm_compute.
    - apply (bool_decide_unpack _). by vm_compute.
    - vm_compute. lia.
  Defined.

Lemma swap_in_draws_on_cpu_pool_witness :
    ∃ numbers e' w' new, BlockEngine_swap_in ex_e1 ex_group ex_w1 = Done (numbers, e') w' ∧
      block_tables e' = <[0:=new]> (block_tables ex_e1) ∧ length new = 2 ∧
      cpu_free ex_e1 = cpu_free e' ++ reverse new ∧ gpu_free e' = gpu_free ex_e1 ++ [3; 2].
  Proof.
    destruct ex_allocated as (HI & Hs & Ht & HR).
    refine (swap_in_draws_on_cpu_pool ex_e1 ex_group 0 ex_seq [3; 2] ex_w1 HI _ Hs Ht _ _).
    - rewrite HR. by apply (bool_decide_unpack _); vm_compute.
    - apply (bool_decide_unpack _). by vm_compute.
    - vm_compute. lia.
  Defined.

Lemma swap_out_returns_only_unshared_witness :
    let o := BlockEngine_swap_out ex_e1 ex_group ex_w1 in
    o = Done (result_of (∅, no_engine) o) (world_of o) ∧
    NoDup (table_numbers ex_e1 ex_w1 [0]).
  Proof.
    intros o. assert (E : o = Done (result_of (∅, no_engine) o) (world_of o)) by by vm_compute.
    split; [exact E |].
    destruct (result_of (∅, no_engine) o) as [numbers e'].
    exact (swap_out_returns_only_unshared ex_e1 ex_group ex_w1 numbers e' (world_of o) E).
  Defined.

End BlockEngineExamples.
