(* ===== verification/Api.v ===== *)
(** * Requests, responses and errors

    [src/openai/requests.rs] and [src/openai/responses.rs]: the data the server
    exchanges, and the [Result] of the fallible calls. *)

From Stdlib Require Import ZArith SpecFloat Lia.
From stdpp Require Import base gmap sets strings pretty countable list.
From S2P Require Import Prelude Machine.

(** ** Errors *)

Record APIError := APIError_new { api_data : string }.

(** [APIError::new_str], and [APIError::from] of a value by its text
    ([value.to_string()]). *)
Definition APIError_new_str (data : string) : APIError := APIError_new data.

Definition APIError_from (text : string) : APIError := APIError_new text.

(** [Result<T, APIError>] *)
Inductive result (A : Type) : Type :=
  | Ok (a : A)
  | Err (e : APIError).
Arguments Ok {A} a.
Arguments Err {A} e.

(** The [?] operator and [try_api!]. *)
Definition res_bind {A B} (m : result A) (k : A → result B) : result B :=
  match m with Ok a => k a | Err e => Err e end.

Notation "'let?' x ':=' m 'in' k" := (res_bind m (fun x => k))
  (at level 10, x pattern, m at level 100, k at level 200,
   format "'[v' 'let?'  x  ':='  m  'in' '/' k ']'") : cvllm_scope.

Definition is_ok {A} (r : result A) : bool := match r with Ok _ => true | Err _ => false end.

(** [if b { return Err(APIError::new(data)); }], before the rest [k]. *)
Definition reject_if {A} (b : bool) (data : string) (k : result A) : result A :=
  if b then Err (APIError_new data) else k.

Lemma reject_if_Ok {A} b data (k : result A) a : reject_if b data k = Ok a ↔ b = false ∧ k = Ok a.
Proof. destruct b; simpl; naive_solver. Qed.

(** A call that may panic, return an error or a value. *)
Definition fallible (A : Type) : Type := option (result A).

(** ** Requests *)

Inductive Messages :=
  | Messages_Map (messages : list (gmap string string))
  | Messages_Literal (msg : string).

Inductive StopTokens :=
  | StopTokens_Multi (l : list string)
  | StopTokens_Single (s : string).

(** The numbers of a request are machine integers of any size: [usize] and
    [isize] are kept as [Z]. *)
Record ChatCompletionRequest := {
  req_model : string;
  req_messages : Messages;
  req_temperature : option f32;
  req_top_p : option f32;
  req_n : option Z;
  req_max_tokens : option Z;
  req_stop : option StopTokens;
  req_stream : option bool;
  req_presence_penalty : option f32;
  req_frequency_penalty : option f32;
  req_logit_bias : option (gmap string f32);
  req_user : option string;
  req_top_k : option Z;
  req_best_of : option Z;
  req_use_beam_search : option bool;
  req_ignore_eos : option bool;
  req_skip_special_tokens : option bool;
  req_stop_token_ids : option (list nat);
}.

(** ** Responses *)

Record ChatCompletionUsageResponse := mkUsage {
  completion_tokens : nat;
  prompt_tokens : nat;
  total_tokens : nat;
}.

Record ChatChoiceData := mkChoiceData {
  content : option string;
  role : string;
}.

Section Choices.
  Context `{LogprobsSig}.

Record WrapperLogprobs := mkWrapperLogprobs { wl_content : list Logprobs }.

Record ChatChoice := mkChoice {
  message : ChatChoiceData;
  finish_reason : option string;
  index : nat;
  logprobs : option WrapperLogprobs;
}.

Record ChatCompletionResponse := mkResponse {
  resp_id : string;
  resp_choices : list ChatChoice;
  resp_created : nat;
  resp_model : string;
  resp_object : string;
  resp_usage : ChatCompletionUsageResponse;
}.

End Choices.

(** The parts of a streamed response.  Nothing builds them: a streaming request is
    answered with errors only. *)
Record StreamingChoiceData := mkStreamingChoiceData {
  sc_content : option string;
  sc_role : string;
}.

Record StreamingChoice := mkStreamingChoice {
  sc_delta : StreamingChoiceData;
  sc_finish_reason : option string;
  sc_index : nat;
}.

Record StreamingChatCompletionResponse := mkStreamingResponse {
  st_id : string;
  st_choices : list StreamingChoice;
  st_created : nat;
  st_model : string;
  st_object : string;
}.
