(* ===== verification/Candle.v ===== *)
(** * The interface to the tensor library

    What the program uses of [candle] and of the CUDA driver below it: code that
    is not part of the repository, so a class.  A tensor is a handle; what it
    points to is in [Memory]. *)

From Stdlib Require Import ZArith SpecFloat Lia.
From stdpp Require Import base gmap sets strings pretty countable list.
From S2P Require Import Prelude Machine Api.

(** What the program sees of a [Device] by matching on it; the ordinal is
    [CudaDevice::ordinal()]. *)
Inductive DeviceLocation :=
  | OnCuda (ordinal : nat)
  | OnCpu
  | OnOther (name : string).

(** candle's [DType]; the program matches on all of its constructors. *)
Inductive DType := U8 | U32 | I64 | BF16 | F16 | F32 | F64.

#[export] Instance DType_eq_dec : EqDecision DType.
Proof. solve_decision. Defined.

(** cudarc's [LaunchConfig], and the parameters of a kernel: a device address, a
    number by value, or the address of a vector of the host. *)
Record LaunchConfig := mkLaunchConfig {
  grid_dim : nat * nat * nat;
  block_dim : nat * nat * nat;
  shared_mem_bytes : nat;
}.

Inductive KernelArg :=
  | ArgPtr (address : nat)
  | ArgNum (value : nat)
  | ArgHost (vector : list nat).

Class Candle := {
  Tensor : Type;
  (** [DType::size_in_bytes] and [{:?}] *)
  size_in_bytes : DType → nat;
  show_dtype : DType → string;
  (** the handles *)
  t_dtype : Tensor → DType;
  t_dims : Tensor → list nat;
  t_stride : Tensor → list nat;
  t_start_offset : Tensor → nat;
  (** [Device]: [t.device()], the constructor, [same_device], [{:?}], [Device::Cpu]
      and [Device::new_cuda(0)] *)
  Device : Type;
  t_device : Tensor → Device;
  location : Device → DeviceLocation;
  same_device : Device → Device → bool;
  show_device : Device → string;
  Cpu : Device;
  new_cuda_0 : result Device;
  (** [Tensor::zeros], [Tensor::from_vec], [Tensor::cat(_, 0)] *)
  t_zeros : list nat → DType → Device → result Tensor;
  t_from_vec : list Z → Device → result Tensor;
  t_cat : list Tensor → result Tensor;
  (** [t.to_device(&d)] and [t.i(0)] *)
  t_to_device : Tensor → Device → result Tensor;
  t_index_0 : Tensor → result Tensor;
  (** [storage.as_cuda_slice::<T>()?.device_ptr()] of a tensor on a GPU, with the
      [DType] of [T], and the length of [storage.as_slice::<u8>()?] of a host
      tensor *)
  cuda_ptr : DType → Tensor → result nat;
  host_len : Tensor → result nat;
  (** the contents of the devices, and the two copies *)
  Memory : Type;
  dtod_copy : ∀ (src dst len : nat), St Memory (result unit);
  htod_copy : ∀ (src : Tensor) (off dst len : nat), St Memory (result unit);
  (** the kernels of a CUDA device: [dev.fork_default_stream()],
      [dev.get_or_load_func(kernel, ptx_file)] and [launch_on_stream] *)
  CudaStream : Type;
  CudaFunction : Type;
  fork_default_stream : Device → St Memory (result CudaStream);
  device_get_or_load_func : Device → string → string → St Memory (result CudaFunction);
  launch_on_stream : CudaFunction → CudaStream → LaunchConfig → list KernelArg →
                     St Memory (result unit);
}.

(** Storage is typed: it is only seen as a slice of its own element type, and a
    tensor of zeros has the element type that was asked for. *)
Class CandleLaws `{Candle} := {
  zeros_dtype : ∀ dims d dev t, t_zeros dims d dev = Ok t → t_dtype t = d;
  cuda_ptr_dtype : ∀ d t p, cuda_ptr d t = Ok p → t_dtype t = d;
}.

(** A call that is tried: [try_api!] and [?] in the state monad. *)
Definition st_try {S A B} (m : St S (result A)) (k : A → St S (result B)) : St S (result B) :=
  st_bind m (λ r, match r with Ok a => k a | Err e => st_ret (Err e) end).

Notation "'let!?' x ':=' m 'in' k" := (st_try m (fun x => k))
  (at level 10, x pattern, m at level 100, k at level 200,
   format "'[v' 'let!?'  x  ':='  m  'in' '/' k ']'") : cvllm_scope.

Lemma st_try_done {S A B} (m : St S (result A)) (k : A → St S (result B)) s a s' :
  m s = Done (Ok a) s' → st_try m k s = k a s'.
Proof. unfold st_try. intros E. by rewrite (st_bind_done _ _ _ _ _ E). Qed.

Lemma st_try_panic {S A B} (m : St S (result A)) (k : A → St S (result B)) s :
  m s = Panic → st_try m k s = Panic.
Proof. apply st_bind_panic. Qed.

(** [for x in l { f(x)?; }] *)
Fixpoint st_try_each {S A} (f : A → St S (result unit)) (l : list A) : St S (result unit) :=
  match l with
  | [] => st_ret (Ok tt)
  | x :: l => let!? _ := f x in st_try_each f l
  end.

(** [for x in l { v.push(f(x)?); }] *)
Fixpoint st_try_map {S A B} (f : A → St S (result B)) (l : list A) : St S (result (list B)) :=
  match l with
  | [] => st_ret (Ok [])
  | x :: l => let!? y := f x in let!? ys := st_try_map f l in st_ret (Ok (y :: ys))
  end.

(** [for x in l { acc = f(acc, x)?; }] *)
Fixpoint st_try_fold {S A B} (f : B → A → St S (result B)) (acc : B) (l : list A)
  : St S (result B) :=
  match l with
  | [] => st_ret (Ok acc)
  | x :: l => let!? acc := f acc x in st_try_fold f acc l
  end.

(** A call that returns a value, as opposed to an error. *)
Definition succeeds {S A} (m : St S (result A)) (s : S) : Prop := ∃ a s', m s = Done (Ok a) s'.

Lemma st_try_succeeds {S A B} (m : St S (result A)) (k : A → St S (result B)) s :
  succeeds (st_try m k) s → ∃ a s', m s = Done (Ok a) s' ∧ succeeds (k a) s'.
Proof.
  intros (b & s' & E). unfold st_try, st_bind in E.
  destruct (m s) as [[a|?] s1| |] eqn:Em; [| done ..]. exists a, s1. split; [done |].
  by exists b, s'.
Qed.

Lemma st_bind_succeeds {S A B} (m : St S A) (k : A → St S (result B)) s :
  succeeds (st_bind m k) s → ∃ a s', m s = Done a s' ∧ succeeds (k a) s'.
Proof.
  intros (b & s' & E). unfold st_bind in E.
  destruct (m s) as [a s1| |] eqn:Em; [| done ..]. exists a, s1. split; [done |].
  by exists b, s'.
Qed.

(** A loop that succeeds, succeeds in its first turn. *)
Lemma try_map_first {S A B} (f : A → St S (result B)) x l s :
  succeeds (st_try_map f (x :: l)) s → succeeds (f x) s.
Proof. intros (y & s' & E & _)%st_try_succeeds. by exists y, s'. Qed.

Lemma try_each_first {S A} (f : A → St S (result unit)) x l s :
  succeeds (st_try_each f (x :: l)) s → succeeds (f x) s.
Proof. intros (y & s' & E & _)%st_try_succeeds. by exists y, s'. Qed.

Lemma try_fold_first {S A B} (f : B → A → St S (result B)) acc x l s :
  succeeds (st_try_fold f acc (x :: l)) s → succeeds (f acc x) s.
Proof. intros (y & s' & E & _)%st_try_succeeds. by exists y, s'. Qed.

(** [ConfigLike], of [src/openai/models/mod.rs]; the head size is the default
    method. *)
Record ConfigLike := {
  get_num_kv_heads : nat;
  get_hidden_size : nat;
  get_num_hidden_layers : nat;
  get_num_attention_heads : nat;
  get_vocab_size : nat;
  get_sliding_window : option nat;
}.

(** [a / b]: [None] is the panic of a division by zero. *)
Definition nat_div (a b : nat) : option nat := if b =? 0 then None else Some (a / b).

Definition ConfigLike_get_head_size (self : ConfigLike) : option nat :=
  nat_div (get_hidden_size self) (get_num_attention_heads self).

(** The location of a tensor. *)
Definition t_location `{Candle} (t : Tensor) : DeviceLocation := location (t_device t).

(** ** A plain instance

    Tensors as lists of numbers with their dimensions, all of one element type and
    on one GPU; the memory is the log of the copies.  Used by the witnesses. *)
Definition typed_candle (dt : DType) : Candle := {|
  Tensor := list nat * list Z;
  size_in_bytes d := match d with U8 => 1 | F16 | BF16 => 2 | U32 | F32 => 4 | _ => 8 end;
  show_dtype _ := "dtype";
  t_dtype _ := dt;
  t_dims := fst;
  t_stride t := foldr (λ d l, d * default 1 (head l) :: l) [1] (tail t.1);
  t_start_offset _ := 0;
  Device := bool;
  t_device _ := true;
  location d := if d : bool then OnCuda 0 else OnCpu;
  same_device := eqb;
  show_device _ := "device";
  Cpu := false;
  new_cuda_0 := Ok true;
  t_zeros dims d _ := if decide (dt = d) then Ok (dims, []) else Err (APIError_new "dtype");
  t_from_vec l _ := Ok ([length l], l);
  t_cat l := Ok ([sum_list (length <$> l.*2)], concat l.*2);
  t_to_device t _ := Ok t;
  t_index_0 t := Ok (tail t.1, t.2);
  cuda_ptr d _ := if decide (dt = d) then Ok 0 else Err (APIError_new "unexpected dtype");
  host_len _ := Ok 0;
  Memory := list (nat * nat * nat);
  dtod_copy src dst len := λ m, Done (Ok tt) (m ++ [(src, dst, len)]);
  htod_copy _ off dst len := λ m, Done (Ok tt) (m ++ [(off, dst, len)]);
  CudaStream := unit;
  CudaFunction := string;
  fork_default_stream _ := λ m, Done (Ok tt) m;
  device_get_or_load_func _ kernel _ := λ m, Done (Ok kernel) m;
  launch_on_stream _ _ conf _ := λ m, Done (Ok tt)
    (m ++ [((grid_dim conf).1.1, (grid_dim conf).1.2, (block_dim conf).1.1)]);
|}.

Lemma typed_candle_laws dt : CandleLaws (H := typed_candle dt).
Proof.
  constructor.
  - intros dims d dev t. simpl. by case_decide.
  - intros d t p. simpl. by case_decide.
Qed.

Definition plain_candle : Candle := typed_candle U8.
