(* ===== verification/Backend.v ===== *)
(** * The backend

    [src/backend/mod.rs], [src/backend/cache.rs], [src/backend/layers.rs] and
    [src/backend/paged_attention.rs]: the guards before a copy or a kernel
    launch, the ranges of the caches that are copied, and what is handed to the
    kernels.  The copies and the launch itself are calls of the CUDA driver. *)

From Stdlib Require Import ZArith SpecFloat Lia.
From stdpp Require Import base gmap sets strings pretty countable list.
From S2P Require Import Prelude Machine Api Candle.

(** ** Kernels *)

Definition COPY_BLOCKS_PTX : string := "kernels/copy_blocks_kernel.ptx".

Definition COPY_BLOCKS_KERNEL : string := "copy_blocks_kernel".

Definition RESHAPE_AND_CACHE_PTX : string := "kernels/reshape_and_cache_kernel.ptx".

Definition RESHAPE_AND_CACHE_KERNEL : string := "reshape_and_cache_kernel".

Definition ROTARY_EMBDEDDING_PTX : string := "kernels/rotary_embedding_kernel.ptx".

Definition ROTARY_EMBDEDDING_KERNEL : string := "rotary_embedding_kernel".

(** The suffix of a kernel for a type of element. *)
Definition dtype_spec (dtype : DType) : string :=
  match dtype with
  | U8 => "_u8"
  | U32 => "_u32"
  | I64 => "_i64"
  | BF16 => "_bf16"
  | F16 => "_f16"
  | F32 => "_f32"
  | F64 => "_f64"
  end.

Definition kernel_name (kernel_base : string) (dtype : DType) (suffix : option string) : string :=
  let spec := match suffix with
              | Some suffix => dtype_spec dtype +:+ suffix
              | None => dtype_spec dtype
              end in
  kernel_base +:+ spec.

(** [n.try_into().unwrap()], into an unsigned type of [bits] bits. *)
Definition to_width {S} (bits : Z) (n : nat) : St S nat :=
  let! _ := st_assert (Z.of_nat n <? 2 ^ bits)%Z in st_ret n.

Section Backend.
  Context `{Candle} `{HashOrder}.

Definition get_or_load_func (ptx_file kernel_base : string) (dtype : DType)
    (suffix : option string) (device : Device) : St Memory (result CudaFunction) :=
    device_get_or_load_func device (kernel_name kernel_base dtype suffix) ptx_file.

  (** [as_cuda_slice::<T>().unwrap()], or the [panic!] off the GPU. *)
Definition get_cuda_pointer (T : DType) (tensor : Tensor) : St Memory nat :=
    match t_location tensor with
    | OnCuda _ =>
        match cuda_ptr T tensor with Ok p => st_ret p | Err _ => st_panic end
    | _ => st_panic
    end.

Definition dispatch_get_cuda_pointer (tensor : Tensor) : St Memory nat :=
    get_cuda_pointer (t_dtype tensor) tensor.

  (** [return Err(APIError::new(data))] when [b] holds. *)
Definition st_reject_if {A} (b : bool) (data : string) (k : St Memory (result A))
    : St Memory (result A) :=
    if b then st_ret (Err (APIError_new data)) else k.

  (** The text of a mismatch. *)
Definition got_respectively (what a b : string) : string :=
    what +:+ ", got " +:+ a +:+ " and " +:+ b +:+ " respectively.".

  (** ** Swapping blocks *)

  (** [block_size_in_bytes] of [swap_blocks]: the size of an element times the
      first dimension of the tensor. *)
Definition swap_block_size (src : Tensor) : option nat :=
    match t_dims src with
    | [] => None
    | d :: _ => Some (size_in_bytes (t_dtype src) * d)
    end.

Definition swap_blocks (src dst : Tensor) (block_mapping : gmap nat nat) : St Memory (result unit) :=
    let! block_size_in_bytes := st_unwrap (swap_block_size src) in
    match t_location src, t_location dst with
    | OnCuda src_ordinal, OnCuda dst_ordinal =>
        if negb (src_ordinal =? dst_ordinal) then
          st_ret (Err (APIError_new
            ("Tensors must be on the same device to copy, got ordinals " +:+ pretty src_ordinal +:+
             " (src) and " +:+ pretty dst_ordinal +:+ " (dst).")))
        else
          let!? src_ptr := st_ret (cuda_ptr U8 src) in
          let!? dst_ptr := st_ret (cuda_ptr U8 dst) in
          let src_ptr := src_ptr + t_start_offset src in
          let dst_ptr := dst_ptr + t_start_offset dst in
          st_try_each (λ '(src_block_number, dst_block_number),
            dtod_copy (src_ptr + src_block_number * block_size_in_bytes)
              (dst_ptr + dst_block_number * block_size_in_bytes) block_size_in_bytes)
            (hash_iter block_mapping)
    | OnCpu, OnCuda _ =>
        let!? dst_ptr := st_ret (cuda_ptr U8 dst) in
        let dst_ptr := dst_ptr + t_start_offset dst in
        let!? src_len := st_ret (host_len src) in
        st_try_each (λ '(src_block_number, dst_block_number),
          let src_offset := src_block_number * block_size_in_bytes in
          let! _ := st_assert (src_offset + block_size_in_bytes <=? src_len) in
          htod_copy src src_offset (dst_ptr + dst_block_number * block_size_in_bytes)
            block_size_in_bytes)
          (hash_iter block_mapping)
    | OnCuda _, OnCpu => st_panic
    | _, _ =>
        st_ret (Err (APIError_new
          ("Tensors must be on either the GPU or CPU to swap,, got " +:+
           show_device (t_device src) +:+ " (src) and " +:+ show_device (t_device dst) +:+
           " (dst).")))
    end.

  (** ** Copying blocks *)

  (** The pairs handed to the kernel, flattened. *)
Definition block_mapping_vec (block_mapping : gmap nat (list nat)) : list nat :=
    concat ((λ '(src_block_number, dst_blocks),
      concat ((λ dst_block_number, [src_block_number; dst_block_number]) <$> dst_blocks))
      <$> hash_iter block_mapping).

  (** The address of the cache of a layer; [unreachable!()] off the GPU. *)
Definition layer_ptr (cache : Tensor) : St Memory (result nat) :=
    match t_location cache with
    | OnCuda _ =>
        let!? ptr := st_ret (cuda_ptr U8 cache) in st_ret (Ok (ptr + t_start_offset cache))
    | _ => st_panic
    end.

Definition copy_layer (cache_dev : Device) (caches : Tensor * Tensor)
    : St Memory (result (nat * nat)) :=
    let '(key_cache, value_cache) := caches in
    let!? _ := st_ret (t_to_device key_cache cache_dev) in
    let!? _ := st_ret (t_to_device value_cache cache_dev) in
    let!? key_ptr := layer_ptr key_cache in
    let!? value_ptr := layer_ptr value_cache in
    st_ret (Ok (key_ptr, value_ptr)).

Definition copy_blocks (key_caches value_caches : list Tensor) (block_mapping : gmap nat (list nat))
    : St Memory (result unit) :=
    let! key := st_unwrap (head key_caches) in
    let cache_dev := t_device key in
    match t_location key with
    | OnCuda _ =>
        let! value := st_unwrap (head value_caches) in
        st_reject_if (negb (same_device cache_dev (t_device value)))
          (got_respectively "`key` and `value` caches have different devices"
             (show_device cache_dev) (show_device (t_device value))) (
        st_reject_if (negb (bool_decide (t_dtype key = t_dtype value)))
          ("Key and value caches have different types, got " +:+ show_dtype (t_dtype key) +:+
           " and " +:+ show_dtype (t_dtype value) +:+ ".") (
        let! num_layers := to_width 32 (length key_caches) in
        if num_layers =? 0 then st_ret (Ok tt)
        else
          let!? ptrs := st_try_map (copy_layer cache_dev) (zip key_caches value_caches) in
          let! pairs := st_map (to_width 63) (block_mapping_vec block_mapping) in
          let! num_pairs := to_width 32 (length pairs / 2) in
          let!? first := st_ret (t_index_0 key) in
          let! numel_per_block := to_width 32 (foldr Nat.mul 1 (t_dims first)) in
          let launch_conf := mkLaunchConfig (num_layers, num_pairs, 1)
                               (Nat.min numel_per_block 1024, 1, 1) 0 in
          let!? stream := fork_default_stream cache_dev in
          let!? kernel := get_or_load_func COPY_BLOCKS_PTX COPY_BLOCKS_KERNEL (t_dtype key) None
                            cache_dev in
          launch_on_stream kernel stream launch_conf
            [ArgHost ptrs.*1; ArgHost ptrs.*2; ArgHost pairs]))
    | _ => st_panic
    end.

  (** ** Writing the cache *)

  (** The checks, the sizes, and the launch, in the order of the source; the fifth
      check can not fail after the first [let ... else]. *)
Definition reshape_and_cache (key value key_cache value_cache slot_mapping : Tensor)
    : St Memory (result unit) :=
    let dev := t_device key in
    let types what a b :=
      got_respectively (what +:+ " have different data types") (show_dtype (t_dtype a))
        (show_dtype (t_dtype b)) in
    let devices what a b :=
      got_respectively (what +:+ " have different devices") (show_device (t_device a))
        (show_device (t_device b)) in
    match t_location key with
    | OnCuda _ =>
        st_reject_if (negb (bool_decide (t_dtype slot_mapping = I64)))
          ("`slot_mapping` has " +:+ show_dtype (t_dtype slot_mapping) +:+
           " type, expected I64 type.") (
        st_reject_if (negb (bool_decide (t_dtype key = t_dtype value)))
          (types "`key` and `value`" key value) (
        st_reject_if (negb (bool_decide (t_dtype key = t_dtype key_cache)))
          (types "`key` and `key_cache`" key key_cache) (
        st_reject_if (negb (bool_decide (t_dtype key = t_dtype value_cache)))
          (types "`key` and `value_cache`" key value_cache) (
        st_reject_if (negb (match t_location key with OnCuda _ => true | _ => false end))
          ("`key` must be on a CUDA device, got " +:+ show_device dev +:+ ".") (
        st_reject_if (negb (same_device dev (t_device value)))
          (devices "`key` and `value`" key value) (
        st_reject_if (negb (same_device dev (t_device key_cache)))
          (devices "`key` and `key_cache`" key key_cache) (
        st_reject_if (negb (same_device dev (t_device value_cache)))
          (devices "`key` and `value_cache`" key value_cache) (
        let! num_tokens := st_unwrap (t_dims key !! 0) in
        let! num_heads := st_unwrap (t_dims key !! 1) in
        let! head_size := st_unwrap (t_dims key !! 2) in
        let! block_size := st_unwrap (t_dims key_cache !! 3) in
        let! x := st_unwrap (t_dims key_cache !! 4) in
        let! key_stride := st_unwrap (t_stride key !! 0) in
        let! value_stride := st_unwrap (t_stride value !! 0) in
        let!? stream := fork_default_stream dev in
        let! grid := to_width 32 num_tokens in
        let! threads := to_width 32 (num_heads * head_size) in
        let launch_conf := mkLaunchConfig (grid, 1, 1) (Nat.min 512 threads, 1, 1) 0 in
        let!? kernel := get_or_load_func RESHAPE_AND_CACHE_PTX RESHAPE_AND_CACHE_KERNEL
                          (t_dtype key) None dev in
        let! key_ptr := dispatch_get_cuda_pointer key in
        let! value_ptr := dispatch_get_cuda_pointer value in
        let! key_cache_ptr := dispatch_get_cuda_pointer key_cache in
        let! value_cache_ptr := dispatch_get_cuda_pointer value_cache in
        launch_on_stream kernel stream launch_conf
          [ArgPtr key_ptr; ArgPtr value_ptr; ArgPtr key_cache_ptr; ArgPtr value_cache_ptr;
           ArgNum key_stride; ArgNum value_stride; ArgNum num_heads; ArgNum head_size;
           ArgNum block_size; ArgNum x]))))))))
    | _ => st_panic
    end.

  (** ** Rotary embeddings *)

  (** [t.stride().get(key.stride().len() - 2).unwrap()]: a key of fewer than two
      dimensions is a panic with overflow checks and a [None] without. *)
Definition stride_at (t key : Tensor) : St Memory nat :=
    let n := length (t_stride key) in
    if n <? 2 then st_panic else st_unwrap (t_stride t !! (n - 2)).

Definition rotary_embedding (positions query key : Tensor) (head_size : nat)
    (cos_sin_cache : Tensor) (is_neox : bool) : St Memory (result unit) :=
    let dev := t_device positions in
    let devices what a :=
      got_respectively (what +:+ " and `positions` have different devices")
        (show_device (t_device a)) (show_device dev) in
    match t_location positions with
    | OnCuda _ =>
        st_reject_if (negb (bool_decide (t_dtype positions = I64)))
          ("`positions` has " +:+ show_dtype (t_dtype positions) +:+ " type, expected I64 type.") (
        st_reject_if (negb (same_device (t_device query) dev)) (devices "`query`" query) (
        st_reject_if (negb (same_device (t_device key) dev)) (devices "`key`" key) (
        st_reject_if (negb (same_device (t_device cos_sin_cache) dev))
          (devices "`cos_sin_cache`" cos_sin_cache) (
        let! query_last := st_unwrap (last (t_dims query)) in
        let! num_tokens := st_unwrap (nat_div (foldr Nat.mul 1 (t_dims query)) query_last) in
        let! rot_dim := st_unwrap (t_dims cos_sin_cache !! 1) in
        let! num_heads := st_unwrap (nat_div query_last head_size) in
        let! key_last := st_unwrap (last (t_dims key)) in
        let! num_kv_heads := st_unwrap (nat_div key_last head_size) in
        let! query_stride := stride_at query key in
        let! key_stride := stride_at key key in
        let! grid := to_width 32 num_tokens in
        let! threads := to_width 32 (num_heads * rot_dim / 2) in
        let launch_conf := mkLaunchConfig (grid, 1, 1) (Nat.min 512 threads, 1, 1) 0 in
        let! positions_ptr := dispatch_get_cuda_pointer positions in
        let! key_ptr := dispatch_get_cuda_pointer key in
        let! query_ptr := dispatch_get_cuda_pointer query in
        let! cos_sin_cache_ptr := dispatch_get_cuda_pointer cos_sin_cache in
        let!? stream := fork_default_stream dev in
        let!? kernel := get_or_load_func ROTARY_EMBDEDDING_PTX ROTARY_EMBDEDDING_KERNEL
                          (t_dtype query) (if is_neox then Some "_neox" else None) dev in
        launch_on_stream kernel stream launch_conf
          [ArgPtr positions_ptr; ArgPtr query_ptr; ArgPtr key_ptr; ArgPtr cos_sin_cache_ptr;
           ArgNum rot_dim; ArgNum query_stride; ArgNum key_stride; ArgNum num_heads;
           ArgNum num_kv_heads; ArgNum head_size]))))
    | _ => st_panic
    end.

  (** ** Paged attention *)

Definition WARP_SIZE : nat := 32.

  (** Everything before the [todo!()]; the arguments that are not looked at before
      it (the scale, the context lengths, the value cache and others) are left out,
      here and in the callers.  A [debug_assert_eq!] is on with [checks]. *)
Definition paged_attention_v1_launcher (checks : bool) (query key_cache block_tables : Tensor)
    (block_size : nat) : St Memory Tensor :=
    let! _num_seqs := st_unwrap (t_dims query !! 0) in
    let! _num_heads := st_unwrap (t_dims query !! 1) in
    let! head_size := st_unwrap (t_dims query !! 2) in
    let! _max_num_blocks_per_seq := st_unwrap (t_dims block_tables !! 1) in
    let! _q_stride := st_unwrap (t_stride query !! 0) in
    let! _kv_block_stride := st_unwrap (t_stride key_cache !! 0) in
    let! _kv_head_stride := st_unwrap (t_stride key_cache !! 1) in
    let! warps := st_unwrap (nat_div WARP_SIZE block_size) in
    let thread_group_size := Nat.max 1 warps in
    let! _ := st_assert (negb checks || (head_size mod thread_group_size =? 0)) in
    st_panic.

  (** ['auto'] and ['fp8_e5m2'] only differ in a flag for the launcher. *)
Definition paged_attention_v1 (checks : bool) (query key_cache block_tables : Tensor)
    (block_size : nat) (kv_cache_dtype : string) : St Memory (result Tensor) :=
    let query_dtype := t_dtype query in
    let unsupported := Err (APIError_new ("Unsupported data type " +:+ show_dtype query_dtype)) in
    if bool_decide (kv_cache_dtype = "auto") || bool_decide (kv_cache_dtype = "fp8_e5m2") then
      match query_dtype with
      | F32 | F16 | BF16 =>
          let! t := paged_attention_v1_launcher checks query key_cache block_tables block_size in
          st_ret (Ok t)
      | _ => st_ret unsupported
      end
    else st_ret unsupported.

Definition paged_attention_v2 : St Memory Tensor := st_panic.

End Backend.

(** ** Lemmas *)

Section BackendLemmas.
  Context `{CandleLaws} `{HashOrder}.

Lemma st_reject_succeeds {A} b data (k : St Memory (result A)) m :
    succeeds (st_reject_if b data k) m → b = false ∧ succeeds k m.
  Proof. destruct b; simpl; [by intros (? & ? & ?) | done]. Qed.

  (** The bytes of a cache can only be reached when its elements are bytes. *)
Lemma cuda_ptr_bytes t (m : Memory) p m' : st_ret (cuda_ptr U8 t) m = Done (Ok p) m' → t_dtype t = U8.
  Proof. intros [= E _]. by apply cuda_ptr_dtype in E. Qed.

Lemma swap_blocks_bytes src dst mp m : succeeds (swap_blocks src dst mp) m → t_dtype dst = U8.
  Proof.
    unfold swap_blocks. intros (size & m1 & _ & Hs)%st_bind_succeeds.
    destruct (t_location src) as [o| |]; destruct (t_location dst) as [o'| |];
      try by destruct Hs as (? & ? & ?).
    - destruct (o =? o'); [| by destruct Hs as (? & ? & ?)]. simpl in Hs.
      apply st_try_succeeds in Hs as (p & m2 & _ & Hs).
      apply st_try_succeeds in Hs as (q & m3 & Hq & _). by eapply cuda_ptr_bytes.
    - apply st_try_succeeds in Hs as (q & m3 & Hq & _). by eapply cuda_ptr_bytes.
  Qed.

Lemma layer_ptr_bytes t m : succeeds (layer_ptr t) m → t_dtype t = U8.
  Proof.
    unfold layer_ptr. destruct (t_location t); try by intros (? & ? & ?).
    intros (p & m' & Hp & _)%st_try_succeeds. by eapply cuda_ptr_bytes.
  Qed.

Lemma copy_blocks_bytes key keys values mp m :
    succeeds (copy_blocks (key :: keys) values mp) m → t_dtype key = U8.
  Proof.
    unfold copy_blocks. intros (k & m1 & [= <- <-] & Hs)%st_bind_succeeds.
    destruct (t_location key); try by destruct Hs as (? & ? & ?).
    apply st_bind_succeeds in Hs as (value & m2 & Hv & Hs).
    apply st_reject_succeeds in Hs as [_ Hs]. apply st_reject_succeeds in Hs as [_ Hs].
    apply st_bind_succeeds in Hs as (n & m3 & Hn & Hs).
    assert (n = S (length keys)) as ->.
    { unfold to_width, st_bind in Hn.
      destruct (_ <? _)%Z; simpl in Hn; [by injection Hn | done]. }
    simpl in Hs. apply st_try_succeeds in Hs as (ptrs & m4 & Hp & _).
    destruct values as [|v values]; [done |].
    assert (succeeds (copy_layer (t_device key) (key, v)) m3) as Hl.
    { eapply try_map_first. by exists ptrs, m4. }
    unfold copy_layer in Hl. do 2 apply st_try_succeeds in Hl as (? & ? & _ & Hl).
    apply st_try_succeeds in Hl as (a & m6 & E & _). eapply layer_ptr_bytes. by exists a, m6.
  Qed.

End BackendLemmas.

(** ** Properties *)

Section BackendProperties.
  Context `{Candle} `{HashOrder}.

  (** [reshape_and_cache] is to write the keys and the values of the tokens to
      their slots, and its kernel takes the slots as a parameter; the call does not
      depend on them, beyond their type: any two slot mappings give the same answer
      and the same launch. *)
Theorem reshape_ignores_slots key value key_cache value_cache slots slots' m :
    t_dtype slots = t_dtype slots' →
    reshape_and_cache key value key_cache value_cache slots m =
    reshape_and_cache key value key_cache value_cache slots' m.
  Proof. intros E. unfold reshape_and_cache. by rewrite E. Qed.


  (** The bytes of one block of a cache: the elements of all the other
      dimensions. *)
Definition block_bytes (t : Tensor) : nat :=
    size_in_bytes (t_dtype t) * foldr Nat.mul 1 (tail (t_dims t)).

  (** What [swap_blocks] copies between two caches on one GPU: for every pair
      of the mapping one range, which starts at the block number times the size
      of an element times the {e number} of blocks.  It is the range of the block
      exactly when the cache has as many blocks as a block has elements. *)
Theorem swap_copies_wrong_ranges src dst src_ptr dst_ptr num_blocks rest ordinal s d m :
    t_location src = OnCuda ordinal → t_location dst = OnCuda ordinal →
    cuda_ptr U8 src = Ok src_ptr → cuda_ptr U8 dst = Ok dst_ptr →
    t_dims src = num_blocks :: rest → 0 < size_in_bytes (t_dtype src) →
    let len := size_in_bytes (t_dtype src) * num_blocks in
    swap_blocks src dst {[s := d]} m =
      st_try (dtod_copy (src_ptr + t_start_offset src + s * len)
                (dst_ptr + t_start_offset dst + d * len) len) (λ _, st_ret (Ok tt)) m ∧
    (len = block_bytes src ↔ num_blocks = foldr Nat.mul 1 rest).
  Proof.
    intros Hsl Hdl Hsp Hdp Hdims Hsz len. split.
    - unfold swap_blocks, swap_block_size. rewrite Hdims.
      rewrite (st_bind_done _ _ _ len m) by done. rewrite Hsl, Hdl, Nat.eqb_refl. simpl.
      rewrite (st_try_done _ _ _ src_ptr m) by (unfold st_ret; by rewrite Hsp).
      rewrite (st_try_done _ _ _ dst_ptr m) by (unfold st_ret; by rewrite Hdp).
      assert (Hit : hash_iter {[s := d]} = [(s, d)]).
      { apply Permutation_singleton_r. rewrite hash_iter_perm. by rewrite map_to_list_singleton. }
      by rewrite Hit.
    - unfold len, block_bytes. rewrite Hdims. simpl. split; [nia | by intros ->].
  Qed.

End BackendProperties.

(** *** Witnesses *)

Section BackendExamples.

  #[local] Existing Instance plain_candle.
  #[local] Existing Instance canonical_order.

Definition no_copies : Memory := [].

  (** A cache of 100 blocks of 4 * 8 * 16 * 8 one-byte elements: block 3 is
      looked for at byte 300 instead of 12288. *)
Definition ex_tensor : Tensor := ([100; 4; 8; 16; 8], []).

Lemma swap_copies_wrong_ranges_witness :
    swap_blocks ex_tensor ex_tensor {[3 := 5]} no_copies = Done (Ok tt) [(300, 500, 100)] ∧
    block_bytes ex_tensor = 4096.
  Proof.
    split; [| reflexivity].
    rewrite (proj1 (swap_copies_wrong_ranges ex_tensor ex_tensor 0 0 100 [4; 8; 16; 8] 0 3 5 no_copies
      eq_refl eq_refl eq_refl eq_refl eq_refl ltac:(simpl; lia))). reflexivity.
  Defined.

  (** Three tokens of two heads of size four, and a cache of two blocks of 16
      slots, all of 64-bit integers as the slots: the kernel is launched, whatever
      the slots are. *)
Definition int_candle : Candle := typed_candle I64.

Definition int_tensor (dims : list nat) (data : list Z) : @Tensor int_candle := (dims, data).

Definition ex_reshape (slots : list Z) : outcome (@Memory int_candle) (result unit) :=
    reshape_and_cache (H := int_candle) (int_tensor [3; 2; 4] []) (int_tensor [3; 2; 4] [])
      (int_tensor [2; 2; 1; 16; 4] []) (int_tensor [2; 2; 4; 16] []) (int_tensor [3] slots)
      no_copies.

Lemma reshape_ignores_slots_witness :
    ex_reshape [0; 1; 2]%Z = ex_reshape [16; 5; 31]%Z ∧
    ex_reshape [0; 1; 2]%Z = Done (Ok tt) [(3, 1, 8)].
  Proof.
    split; [| vm_compute; reflexivity].
    exact (reshape_ignores_slots (H := int_candle) (int_tensor [3; 2; 4] [])
      (int_tensor [3; 2; 4] []) (int_tensor [2; 2; 1; 16; 4] []) (int_tensor [2; 2; 4; 16] [])
      (int_tensor [3] [0; 1; 2]%Z) (int_tensor [3] [16; 5; 31]%Z) no_copies eq_refl).
  Defined.

End BackendExamples.
