(* ===== verification/Attention.v ===== *)
(** * Attention

    [src/paged_attention]: the metadata of a forward pass, the attention biases
    with the bookkeeping of the sequence lengths, the causal masks, and
    [PagedAttention] itself, on top of the kernels of the backend.  The
    operations on tensors are parameters; what is modelled is which of them are
    called, on what, and what becomes of their results. *)

From Stdlib Require Import ZArith SpecFloat Lia.
From stdpp Require Import base gmap sets strings pretty countable list.
From S2P Require Import Prelude Machine Api Candle Backend.

(** ** Operations on tensors *)

Class TensorOps `{Candle} := {
  (** [dims2], [dims3], and [dim(D::Minus2)] *)
  t_dims2 : Tensor → result (nat * nat);
  t_dims3 : Tensor → result (nat * nat * nat);
  t_dim_minus2 : Tensor → result nat;
  (** [reshape] to given dimensions, and to [((), a, b)] *)
  t_reshape : Tensor → list nat → result Tensor;
  t_reshape_hole : Tensor → nat → nat → result Tensor;
  t_flatten : Tensor → nat → nat → result Tensor;
  t_unsqueeze : Tensor → nat → result Tensor;
  t_expand : Tensor → list nat → result Tensor;
  t_to_dtype : Tensor → DType → result Tensor;
  (** [Tensor::ones], [from_vec] of bytes in one dimension, [arange] of [f64] from
      zero, [new] of a [Vec<f64>], and [zeros_like] *)
  t_ones : list nat → DType → Device → result Tensor;
  t_from_bytes : list nat → nat → Device → result Tensor;
  t_arange : nat → Device → result Tensor;
  t_new_f64 : list spec_float → Device → result Tensor;
  t_zeros_like : Tensor → result Tensor;
  t_mul : Tensor → Tensor → result Tensor;
  t_add : Tensor → Tensor → result Tensor;
  t_sub : Tensor → Tensor → result Tensor;
  t_log : Tensor → result Tensor;
  (** [i] with [n] full ranges, and with three of them and [..n] *)
  t_index_full : Tensor → nat → result Tensor;
  t_index_upto : Tensor → nat → result Tensor;
  (** [slice_assign] of ranges, and of [n] full ranges: a new tensor *)
  t_slice_assign : Tensor → list (Z * Z) → Tensor → result Tensor;
  t_slice_assign_full : Tensor → nat → Tensor → result Tensor;
  t_matmul : Tensor → Tensor → result Tensor;
  (** [transpose(D::Minus2, D::Minus1)], [contiguous], [t * x], [broadcast_as] *)
  t_transpose_last : Tensor → result Tensor;
  t_contiguous : Tensor → result Tensor;
  t_scale : Tensor → spec_float → result Tensor;
  t_broadcast_as : Tensor → list nat → result Tensor;
  (** of [candle_nn] *)
  softmax_last_dim : Tensor → result Tensor;
  dropout : Tensor → f32 → result Tensor;
  (** the [cuda] feature of the build, the default *)
  cuda_feature : bool;
  (** [candle_flash_attn::flash_attn]: query, key, value, scale, causal *)
  flash_attn : Tensor → Tensor → Tensor → f32 → bool → result Tensor;
}.

(** What candle documents of them: [dims2] are the dimensions; the operators are
    defined on tensors of one shape; a vector has the shape it is given and keeps
    it when its elements are converted; the last dimension of [flatten] is one of
    the dimensions, unless the tensor is a scalar, which becomes a vector; and what
    is concatenated from tensors with a dimension has one. *)
Class TensorLaws `{TensorOps} := {
  dims2_dims : ∀ t a b, t_dims2 t = Ok (a, b) → t_dims t = [a; b];
  mul_dims : ∀ t u v, t_mul t u = Ok v → t_dims t = t_dims u;
  from_bytes_dims : ∀ l n dev t, t_from_bytes l n dev = Ok t → t_dims t = [n];
  to_dtype_dims : ∀ t d u, t_to_dtype t d = Ok u → t_dims u = t_dims t;
  flatten_range : ∀ t a b u, t_flatten t a b = Ok u → t_dims t = [] ∨ b < length (t_dims t);
  from_vec_dims : ∀ l dev t, t_from_vec l dev = Ok t → t_dims t = [length l];
  cat_dims : ∀ l t, t_cat l = Ok t → Forall (λ u, t_dims u ≠ []) l → t_dims t ≠ [];
}.

(** ** Sequence lengths *)

Definition u32_add (checks : bool) (a b : Z) : option Z :=
  if (a + b <? 2 ^ 32)%Z then Some (a + b)%Z
  else if checks then None else Some ((a + b) mod 2 ^ 32)%Z.

Definition u32_sub (checks : bool) (a b : Z) : option Z :=
  if (b <=? a)%Z then Some (a - b)%Z
  else if checks then None else Some ((a - b) mod 2 ^ 32)%Z.

Record SeqLenInfo := SeqLenInfo_new { seqstart_py : list Z }.

(** The loop of [from_seqlens]. *)
Fixpoint push_seqlens (checks : bool) (seqstart : list Z) (seqlens : list Z) : option (list Z) :=
  match seqlens with
  | [] => Some seqstart
  | seqlen :: seqlens =>
      start ← last seqstart;
      next ← u32_add checks start seqlen;
      push_seqlens checks (seqstart ++ [next]) seqlens
  end.

Definition SeqLenInfo_from_seqlens (checks : bool) (seqlens : list Z) : fallible SeqLenInfo :=
  l ← push_seqlens checks [0%Z] seqlens; Some (Ok (SeqLenInfo_new l)).

Definition SeqLenInfo_intervals (self : SeqLenInfo) : option (list (Z * Z)) :=
  match seqstart_py self with
  | [] => None
  | _ :: rest => Some (zip (seqstart_py self) rest)
  end.

(** ** Masks *)

(** [usize] to [isize] *)
Definition isize_of (z : Z) : option Z := if (z <? 2 ^ 63)%Z then Some z else None.

(** The entries of [apply_triangular], row by row. *)
Definition triangular_entry (diagonal : Z) (upper : bool) (i j : nat) : nat :=
  let cond := if upper then (Z.of_nat j <? Z.of_nat i + diagonal)%Z
              else (Z.of_nat i + diagonal <? Z.of_nat j)%Z in
  if cond then 0 else 1.

Definition triangular_entries (l s : nat) (diagonal : Z) (upper : bool) : list nat :=
  concat ((λ i, triangular_entry diagonal upper i <$> seq 0 s) <$> seq 0 l).

Section Masks.
  Context `{TensorOps} {S : Type}.

Definition apply_triangular (xs : Tensor) (diagonal : Z) (upper : bool) : St S (result Tensor) :=
    let!? (l, s) := st_ret (t_dims2 xs) in
    let!? tri := st_ret (t_from_bytes (triangular_entries l s diagonal upper) (l * s) (t_device xs)) in
    let!? tri := st_ret (t_to_dtype tri (t_dtype xs)) in
    st_ret (t_mul xs tri).

Definition materialize_causal_mask (checks : bool) (shape : list nat) (dtype : DType)
    (device : Device) (window_size : option nat) (from_bottomright : bool) : St S (result Tensor) :=
    let create_as := if decide (dtype = BF16) then F32 else dtype in
    let!? tensor := st_ret (t_ones shape create_as device) in
    let! shift :=
      if from_bottomright then
        if length shape <? 2 then st_panic
        else
          let! num_queries := st_unwrap (shape !! (length shape - 2)) in
          let! num_keys := st_unwrap (shape !! (length shape - 1)) in
          st_unwrap (usize_sub checks (Z.of_nat num_keys) (Z.of_nat num_queries))
      else st_ret 0%Z in
    let! diagonal := st_unwrap (isize_of shift) in
    let!? mask := apply_triangular tensor diagonal false in
    let!? mask :=
      match window_size with
      | Some window_size =>
          let! d := st_unwrap (usize_sub checks shift (Z.of_nat window_size)) in
          let! d := st_unwrap (usize_add checks d 1) in
          let! diagonal := st_unwrap (isize_of d) in
          apply_triangular mask diagonal false
      | None => st_ret (Ok mask)
      end in
    let!? mask := st_ret (t_log mask) in
    st_ret (t_to_dtype mask dtype).

  (** *** The biases *)

Record BlockDiagonalCausalMask := BlockDiagonalCausalMask_new {
    causal_q_seqinfo : SeqLenInfo;
    causal_k_seqinfo : SeqLenInfo;
    causal_batch_sizes : option (list nat);
  }.

Record BlockDiagonalCausalLocalAttentionMask := BlockDiagonalCausalLocalAttentionMask_new {
    local_q_seqinfo : SeqLenInfo;
    local_k_seqinfo : SeqLenInfo;
    local_batch_sizes : option (list nat);
    local_window_size : nat;
  }.

Record LowerTriangularMaskWithTensorBias := LowerTriangularMaskWithTensorBias_new {
    triangular_bias : Tensor;
  }.

  (** [Box<dyn AttentionBiasBlockDiagonal>]: one of the three implementations. *)
Inductive AttentionBias :=
    | Causal (self : BlockDiagonalCausalMask)
    | Local (self : BlockDiagonalCausalLocalAttentionMask)
    | Triangular (self : LowerTriangularMaskWithTensorBias).

Definition BlockDiagonalCausalMask_from_seqlens (checks : bool) (q_seqlen : list Z)
    (kv_seqlen : option (list Z)) : St S (result AttentionBias) :=
    let! _ := st_assert (match kv_seqlen with
                         | None => true
                         | Some kv => length q_seqlen =? length kv
                         end) in
    let! q_seqinfo := st_unwrap (SeqLenInfo_from_seqlens checks q_seqlen) in
    let!? q_seqinfo := st_ret q_seqinfo in
    let! k_seqinfo :=
      match kv_seqlen with
      | None => st_ret (Ok q_seqinfo)
      | Some kv => if decide (q_seqlen = kv) then st_ret (Ok q_seqinfo)
                   else st_unwrap (SeqLenInfo_from_seqlens checks kv)
      end in
    let!? k_seqinfo := st_ret k_seqinfo in
    st_ret (Ok (Causal (BlockDiagonalCausalMask_new q_seqinfo k_seqinfo None))).

  (** The methods of [BlockDiagonalCausalMask] *)
Definition BlockDiagonalCausalMask__create_block_mask (shape : list nat) (dtype : DType)
    (device : Device) : St S (result Tensor) :=
    st_ret (t_zeros shape dtype device).

Definition BlockDiagonalCausalMask_make_local_attention (self : BlockDiagonalCausalMask)
    (window_size : nat) : St S (result AttentionBias) :=
    st_ret (Ok (Local (BlockDiagonalCausalLocalAttentionMask_new (causal_q_seqinfo self)
                         (causal_k_seqinfo self) (causal_batch_sizes self) window_size))).

  (** of [BlockDiagonalCausalLocalAttentionMask] *)
Definition BlockDiagonalCausalLocalAttentionMask__create_block_mask (checks : bool)
    (self : BlockDiagonalCausalLocalAttentionMask) (shape : list nat) (dtype : DType)
    (device : Device) : St S (result Tensor) :=
    materialize_causal_mask checks shape dtype device (Some (local_window_size self)) false.

  (** and of [LowerTriangularMaskWithTensorBias], whose other methods are
      [unimplemented!]. *)
Definition LowerTriangularMaskWithTensorBias_materialize (checks : bool)
    (self : LowerTriangularMaskWithTensorBias) (shape : list nat) (dtype : DType)
    (device : Device) : St S (result Tensor) :=
    let!? mask := materialize_causal_mask checks shape dtype device None false in
    st_ret (t_add mask (triangular_bias self)).

  (** The calls through the trait. *)
Definition make_local_attention (self : AttentionBias) (window_size : nat)
    : St S (result AttentionBias) :=
    match self with
    | Causal self => BlockDiagonalCausalMask_make_local_attention self window_size
    | Local _ | Triangular _ => st_panic
    end.

Definition _create_block_mask (checks : bool) (self : AttentionBias) (shape : list nat)
    (dtype : DType) (device : Device) : St S (result Tensor) :=
    match self with
    | Causal _ => BlockDiagonalCausalMask__create_block_mask shape dtype device
    | Local self =>
        BlockDiagonalCausalLocalAttentionMask__create_block_mask checks self shape dtype device
    | Triangular _ => st_panic
    end.

  (** [get_q_seqinfo] and [get_k_seqinfo] *)
Definition bias_seqinfo (self : AttentionBias) : option (SeqLenInfo * SeqLenInfo) :=
    match self with
    | Causal self => Some (causal_q_seqinfo self, causal_k_seqinfo self)
    | Local self => Some (local_q_seqinfo self, local_k_seqinfo self)
    | Triangular _ => None
    end.

  (** The body of the loop over the blocks; the tensor [slice_assign] returns is
      dropped. *)
Definition block_turn (checks : bool) (self : AttentionBias) (mask : Tensor) (dtype : DType)
    (device : Device) (x : (Z * Z) * (Z * Z)) : St S (result unit) :=
    let '((q_start, q_end), (k_start, k_end)) := x in
    let! q := st_unwrap (u32_sub checks q_end q_start) in
    let! k := st_unwrap (u32_sub checks k_end k_start) in
    let!? block := _create_block_mask checks self [Z.to_nat q; Z.to_nat k] dtype device in
    let!? _ := st_ret (t_slice_assign mask [(q_start, q_end); (k_start, k_end)] block) in
    st_ret (Ok tt).

  (** [for _ in 0..n { mask = mask.unsqueeze(0)? }] *)
Fixpoint unsqueeze_times (n : nat) (mask : Tensor) : result Tensor :=
    match n with
    | 0 => Ok mask
    | Datatypes.S n => let? mask := t_unsqueeze mask 0 in unsqueeze_times n mask
    end.

Definition materialize (checks : bool) (self : AttentionBias) (shape : list nat) (dtype : DType)
    (device : Device) : St S (result Tensor) :=
    match self with
    | Triangular self =>
        LowerTriangularMaskWithTensorBias_materialize checks self shape dtype device
    | _ =>
        let! _ := st_assert (2 <=? length shape) in
        let!? mask := st_ret (t_zeros (drop 2 shape) dtype device) in
        let!? mask := st_ret (t_to_dtype mask dtype) in
        let! (q_seqinfo, k_seqinfo) := st_unwrap (bias_seqinfo self) in
        let! q := st_unwrap (SeqLenInfo_intervals q_seqinfo) in
        let! k := st_unwrap (SeqLenInfo_intervals k_seqinfo) in
        let!? _ := st_try_each (block_turn checks self mask dtype device) (zip q k) in
        let!? mask := st_ret (unsqueeze_times (length shape - 2) mask) in
        st_ret (t_expand mask shape)
    end.

End Masks.

(** ** InputMetadata *)

Section Metadata.
  Context `{Candle}.

Record InputMetadata := mkInputMetadata {
    md_prompt_lens : list nat;
    md_max_context_len : option nat;
    md_block_tables : option Tensor;
    md_context_lens : option Tensor;
    md_slot_mapping : Tensor;
    md_attn_bias : option AttentionBias;
    md_is_prompt : bool;
    md_kv_cache_dtype : string;
  }.

Definition InputMetadata_new (prompt_lens : list nat) (max_context_len : option nat)
    (block_tables context_lens : option Tensor) (slot_mapping : Tensor) (kv_cache_dtype : string)
    : InputMetadata :=
    let is_prompt := negb (match prompt_lens with [] => true | _ => false end) in
    mkInputMetadata prompt_lens max_context_len block_tables context_lens slot_mapping None is_prompt
      kv_cache_dtype.

Definition set_attn_bias (self : InputMetadata) (b : AttentionBias) : InputMetadata :=
    mkInputMetadata (md_prompt_lens self) (md_max_context_len self) (md_block_tables self)
      (md_context_lens self) (md_slot_mapping self) (Some b) (md_is_prompt self)
      (md_kv_cache_dtype self).

End Metadata.

(** ** PagedAttention *)

Definition _PARTITION_SIZE : nat := 512.

Section PagedAttention.
  Context `{TensorOps}.

Record PagedAttention := mkPagedAttention {
    num_attention_heads : nat;
    head_dim : nat;
    num_key_value_heads : nat;
    scale : f32;
    pa_sliding_window : option nat;
    num_queries_per_kv : nat;
    alibi_slopes : option Tensor;
  }.

  (** [None]: the panic of a division by zero. *)
Definition PagedAttention_new (num_attention_heads head_dim : nat) (scale : f32)
    (num_key_value_heads sliding_window : option nat) (device : Device)
    (alibi_slopes : option (list spec_float)) : fallible PagedAttention :=
    let num_key_value_heads := default num_attention_heads num_key_value_heads in
    num_queries_per_kv ← nat_div num_attention_heads num_key_value_heads;
    Some (let? alibi_slopes :=
            match alibi_slopes with
            | Some slopes => let? t := t_new_f64 slopes device in Ok (Some t)
            | None => Ok None
            end in
          Ok (mkPagedAttention num_attention_heads head_dim num_key_value_heads scale sliding_window
                num_queries_per_kv alibi_slopes)).

  (** *** With the cache *)

  (** The sizes handed on to the kernels are looked at here: [_num_kv_heads] is an
      [i32]. *)
Definition _paged_attention (checks : bool) (self : PagedAttention)
    (query key_cache value_cache : Tensor) (input_metadata : InputMetadata)
    : St Memory (result Tensor) :=
    let! block_size := st_unwrap (t_dims value_cache !! 3) in
    let!? (num_seqs, num_heads, _head_size) := st_ret (t_dims3 query) in
    let! max_context_len := st_unwrap (md_max_context_len input_metadata) in
    let max_num_partitions := (max_context_len + _PARTITION_SIZE - 1) / _PARTITION_SIZE in
    let use_v1 := (max_context_len <=? 8192) &&
                  ((max_num_partitions =? 1) || (512 <? num_seqs * num_heads)) in
    if use_v1 then
      let! _num_kv_heads := to_width 31 (num_key_value_heads self) in
      let! block_tables := st_unwrap (md_block_tables input_metadata) in
      let! _context_lens := st_unwrap (md_context_lens input_metadata) in
      paged_attention_v1 checks query key_cache block_tables block_size
        (md_kv_cache_dtype input_metadata)
    else
      let! rest := st_unwrap (if block_size =? 0 then None else Some (_PARTITION_SIZE mod block_size)) in
      let! _ := st_assert (rest =? 0) in
      let!? exp_sums := st_ret (t_zeros [num_seqs; num_heads; max_num_partitions] F32
                                  (t_device query)) in
      let!? _max_logits := st_ret (t_zeros_like exp_sums) in
      let! _num_kv_heads := to_width 31 (num_key_value_heads self) in
      let! _block_tables := st_unwrap (md_block_tables input_metadata) in
      let! _context_lens := st_unwrap (md_context_lens input_metadata) in
      let! output := paged_attention_v2 in
      st_ret (Ok output).

  (** *** Without it *)

  (** The state of a forward pass: the device, and the metadata, whose bias is set
      by the first layer that needs it. *)
Definition Pass : Type := Memory * InputMetadata.

Definition in_memory {A} (m : St Memory A) : St Pass A := λ '(mem, md),
    match m mem with
    | Done a mem => Done a (mem, md)
    | Panic => Panic
    | Hang => Hang
    end.

  (** [Tensor::i(..)] and [expand] for fewer key heads than query heads. *)
Definition repeat_heads (self : PagedAttention) (t : Tensor) : St Pass (result Tensor) :=
    let!? t' := st_ret (t_index_full t 4) in
    let!? t' := st_ret (t_unsqueeze t' 2) in
    let! first := st_unwrap (head (t_dims t)) in
    let! last := st_unwrap (last (t_dims t)) in
    st_ret (t_expand t' [first; num_key_value_heads self; num_queries_per_kv self; last]).

Definition group_heads (self : PagedAttention) (query key value : Tensor)
    : St Pass (result (Tensor * Tensor * Tensor)) :=
    if num_key_value_heads self =? num_attention_heads self then st_ret (Ok (query, key, value))
    else
      let! first := st_unwrap (head (t_dims query)) in
      let! last := st_unwrap (last (t_dims query)) in
      let!? query := st_ret (t_reshape query [first; num_key_value_heads self;
                                              num_queries_per_kv self; last]) in
      let!? key := repeat_heads self key in
      let!? value := repeat_heads self value in
      st_ret (Ok (query, key, value)).

  (** The bias of the [alibi] slopes. *)
Definition alibi_bias (slopes : Tensor) (seq_len batch_size : nat) (device : Device) (dtype : DType)
    : St Pass (result AttentionBias) :=
    let! n := to_width 31 seq_len in
    let!? bias := st_ret (t_arange n device) in
    let!? bias := st_ret (t_to_dtype bias dtype) in
    let!? row := st_ret (t_unsqueeze bias 0) in
    let!? column := st_ret (t_unsqueeze bias 1) in
    let!? bias := st_ret (t_sub row column) in
    let!? bias := st_ret (t_to_device bias (t_device slopes)) in
    let padded_len := ((seq_len + 7) / 8) * 8 in
    let! heads := st_unwrap (head (t_dims slopes)) in
    let!? bias_new := st_ret (t_zeros [batch_size; heads; seq_len; padded_len] dtype device) in
    let!? bias_new := st_ret (t_index_upto bias_new seq_len) in
    let!? bias_new := st_ret (t_slice_assign_full bias_new 4 bias) in
    let!? slopes := st_ret (t_index_full slopes 1) in
    let!? slopes := st_ret (t_unsqueeze slopes 1) in
    let!? slopes := st_ret (t_unsqueeze slopes 2) in
    let!? bias_new := st_ret (t_mul bias_new slopes) in
    st_ret (Ok (Triangular (LowerTriangularMaskWithTensorBias_new bias_new))).

Definition block_bias (checks : bool) (self : PagedAttention) (seq_len batch_size : nat)
    : St Pass (result AttentionBias) :=
    let! n := to_width 32 seq_len in
    let!? attn_bias :=
      BlockDiagonalCausalMask_from_seqlens checks (replicate batch_size (Z.of_nat n)) None in
    match pa_sliding_window self with
    | Some sliding_window => make_local_attention attn_bias sliding_window
    | None => st_ret (Ok attn_bias)
    end.

  (** [if input_metadata.attn_bias.is_none() { .. }], and the bias after it. *)
Definition ensure_bias (checks : bool) (self : PagedAttention) (seq_len batch_size : nat)
    (device : Device) (dtype : DType) : St Pass (result AttentionBias) :=
    let! md := st_get snd in
    match md_attn_bias md with
    | Some b => st_ret (Ok b)
    | None =>
        let!? b := match alibi_slopes self with
                   | Some slopes => alibi_bias slopes seq_len batch_size device dtype
                   | None => block_bias checks self seq_len batch_size
                   end in
        let! _ := st_modify (λ '(mem, md), (mem, set_attn_bias md b)) in
        st_ret (Ok b)
    end.

  (** [t.reshape((batch_size, seq_len, dims[1], ..))], of three or four dimensions. *)
Definition split_batch (batch_size seq_len : nat) (t : Tensor) (three : bool) : St Pass (result Tensor) :=
    let! d1 := st_unwrap (t_dims t !! 1) in
    let! d2 := st_unwrap (t_dims t !! 2) in
    if three then st_ret (t_reshape t [batch_size; seq_len; d1; d2])
    else
      let! d3 := st_unwrap (t_dims t !! 3) in
      st_ret (t_reshape t [batch_size; seq_len; d1; d2; d3]).

Definition batch_shapes (self : PagedAttention) (batch_size seq_len : nat) (query key value : Tensor)
    : St Pass (result (Tensor * Tensor * Tensor)) :=
    match alibi_slopes self with
    | None =>
        let!? query := st_ret (t_unsqueeze query 0) in
        let!? key := st_ret (t_unsqueeze key 0) in
        let!? value := st_ret (t_unsqueeze value 0) in
        st_ret (Ok (query, key, value))
    | Some _ =>
        let rank := length (t_dims query) in
        let! _ := st_assert (rank =? length (t_dims key)) in
        let! _ := st_assert (length (t_dims value) =? length (t_dims key)) in
        let! _ := st_assert ((rank =? 3) || (rank =? 4)) in
        let three := rank =? 3 in
        let!? query := split_batch batch_size seq_len query three in
        let!? key := split_batch batch_size seq_len key three in
        let!? value := split_batch batch_size seq_len value three in
        st_ret (Ok (query, key, value))
    end.

  (** The one of a build with the [cuda] feature. *)
Definition flash_attention (query key value _attn_bias : Tensor) (_dropout_p : option f32)
    (scale_factor : f32) : result Tensor :=
    flash_attn query key value scale_factor false.

  (** The one of a build without it. *)
Definition portable_attention (query key value attn_bias : Tensor) (dropout_p : option f32)
    (scale_factor : f32) : result Tensor :=
    let? key := t_transpose_last key in
    let? key := t_contiguous key in
    let? attn_weights := t_matmul query key in
    let? attn_weights := t_scale attn_weights (f64_of_f32 scale_factor) in
    let? bias := t_broadcast_as attn_bias (t_dims attn_weights) in
    let? attn_weights := t_add attn_weights bias in
    let? attn_weights := softmax_last_dim attn_weights in
    let? attn_weights :=
      match dropout_p with
      | Some drop_p => dropout attn_weights drop_p
      | None => Ok attn_weights
      end in
    t_matmul attn_weights value.

Definition scaled_dot_product_attention : Tensor → Tensor → Tensor → Tensor → option f32 → f32 →
    result Tensor :=
    if cuda_feature then flash_attention else portable_attention.

  (** The end of [_memory_efficient_attention]. *)
Definition masked_attention (checks : bool) (self : PagedAttention) (attn_bias : AttentionBias)
    (query key value : Tensor) (device : Device) : St Pass (result Tensor) :=
    let!? l := st_ret (t_dim_minus2 query) in
    let!? s := st_ret (t_dim_minus2 key) in
    let!? bias := materialize checks attn_bias [l; s] (t_dtype query) device in
    st_ret (scaled_dot_product_attention query key value bias None (scale self)).

Definition _memory_efficient_attention (checks : bool) (self : PagedAttention)
    (query key value : Tensor) (seq_len batch_size : nat) (device : Device) (dtype : DType)
    : St Pass (result Tensor) :=
    let!? (query, key, value) := group_heads self query key value in
    let!? attn_bias := ensure_bias checks self seq_len batch_size device dtype in
    let!? (query, key, value) := batch_shapes self batch_size seq_len query key value in
    masked_attention checks self attn_bias query key value device.

Definition _normal_attention (checks : bool) (self : PagedAttention)
    (query key value : Tensor) (seq_len batch_size : nat) (device : Device) (dtype : DType)
    : St Pass (result Tensor) :=
    _memory_efficient_attention checks self query key value seq_len batch_size device dtype.

  (** *** The layer *)

Definition PagedAttention_forward (checks : bool) (self : PagedAttention)
    (query key value : Tensor) (key_cache value_cache : option Tensor) (dtype : DType)
    (device : Device) : St Pass (result Tensor) :=
    let!? (batch_size, seq_len, hidden_size) := st_ret (t_dims3 query) in
    let!? query := st_ret (t_reshape_hole query (num_attention_heads self) (head_dim self)) in
    let!? key := st_ret (t_reshape_hole key (num_key_value_heads self) (head_dim self)) in
    let!? value := st_ret (t_reshape_hole value (num_key_value_heads self) (head_dim self)) in
    let! md := st_get snd in
    let!? slot_mapping := st_ret (t_flatten (md_slot_mapping md) 0
                                    (length (t_dims (md_slot_mapping md)))) in
    let!? _ :=
      match key_cache, value_cache with
      | Some key_cache, Some value_cache =>
          in_memory (reshape_and_cache key value key_cache value_cache slot_mapping)
      | _, _ => st_ret (Ok tt)
      end in
    let!? output :=
      if md_is_prompt md then
        _normal_attention checks self query key value seq_len batch_size device dtype
      else
        let! key_cache := st_unwrap key_cache in
        let! value_cache := st_unwrap value_cache in
        in_memory (_paged_attention checks self query key_cache value_cache md) in
    st_ret (t_reshape output [batch_size; seq_len; hidden_size]).

End PagedAttention.

(** ** Lemmas *)

(** The sum of the first lengths, and the starts that follow [s]. *)
Definition sum_lens (l : list Z) : Z := foldr Z.add 0%Z l.

Fixpoint starts (s : Z) (l : list Z) : list Z :=
  match l with
  | [] => []
  | x :: l => (s + x)%Z :: starts (s + x) l
  end.

Lemma starts_length s l : length (starts s l) = length l.
Proof. revert s. induction l; intros s; simpl; auto. Qed.

Lemma starts_lookup s l k x :
  l !! k = Some x → (s :: starts s l) !! k = Some (s + sum_lens (take k l))%Z ∧
                    starts s l !! k = Some (s + sum_lens (take k l) + x)%Z.
Proof.
  revert s k. induction l as [|y l IH]; intros s [|k] E; simplify_eq/=.
  - split; f_equal; lia.
  - destruct (IH (s + y)%Z k E) as [-> ->]. split; f_equal; lia.
Qed.

Lemma push_seqlens_starts checks acc s l :
  Forall (λ x, 0 ≤ x)%Z l → (0 ≤ s)%Z → (s + sum_lens l < 2 ^ 32)%Z →
  push_seqlens checks (acc ++ [s]) l = Some (acc ++ s :: starts s l).
Proof.
  revert acc s. induction l as [|x l IH]; intros acc s Hl Hs Hlt; simpl; [done |].
  inversion Hl as [|? ? Hx Hl']; subst. rewrite last_snoc. simpl in *.
  assert (0 ≤ sum_lens l)%Z by (clear -Hl'; induction Hl'; simpl in *; lia).
  unfold u32_add. rewrite (proj2 (Z.ltb_lt _ _)) by lia. simpl.
  rewrite (IH (acc ++ [s]) (s + x)%Z) by (done || lia). by rewrite <- app_assoc.
Qed.

(** An entry of the mask by its row and its column. *)
Lemma grid_lookup {A} (f : nat → nat → A) start l s i j :
  i < l → j < s →
  concat ((λ i, f i <$> seq 0 s) <$> seq start l) !! (i * s + j) = Some (f (start + i) j).
Proof.
  revert start i. induction l as [|l IH]; intros start i Hi Hj; [lia |]. simpl.
  destruct i as [|i].
  - rewrite lookup_app_l by (rewrite length_fmap, length_seq; lia).
    rewrite list_lookup_fmap, lookup_seq_lt by lia. simpl. by rewrite Nat.add_0_r.
  - rewrite lookup_app_r by (rewrite length_fmap, length_seq; simpl; lia).
    rewrite length_fmap, length_seq.
    replace (Datatypes.S i * s + j - s) with (i * s + j) by (simpl; lia).
    etrans; [apply (IH (Datatypes.S start) i); lia |]. do 2 f_equal. lia.
Qed.

Section AttentionLemmas.
  Context `{TensorLaws}.

Lemma apply_triangular_never {S} xs diagonal upper (s : S) :
    ¬ succeeds (apply_triangular xs diagonal upper) s.
  Proof.
    unfold apply_triangular. intros Hs.
    apply st_try_succeeds in Hs as ([l n] & s1 & [= Ed _] & Hs).
    apply st_try_succeeds in Hs as (tri & s2 & [= Et _] & Hs).
    apply st_try_succeeds in Hs as (tri' & s3 & [= Et' _] & (u & s4 & [= Em _])).
    apply mul_dims in Em. apply dims2_dims in Ed. apply to_dtype_dims in Et'.
    apply from_bytes_dims in Et. by rewrite Em, Et', Et in Ed.
  Qed.

Lemma v1_launcher_never checks q k bt bs (m : Memory) t m' :
    paged_attention_v1_launcher checks q k bt bs m ≠ Done t m'.
  Proof.
    unfold paged_attention_v1_launcher, st_bind, st_unwrap, st_assert.
    repeat case_match; simplify_eq/=; done.
  Qed.

Lemma v1_never checks q k bt bs kv (m : Memory) : ¬ succeeds (paged_attention_v1 checks q k bt bs kv) m.
  Proof.
    unfold paged_attention_v1. intros Hs. destruct (_ || _); [| by destruct Hs as (? & ? & ?)].
    destruct (t_dtype q); try (by destruct Hs as (? & ? & ?));
      apply st_bind_succeeds in Hs as (t & m1 & E & _); by apply v1_launcher_never in E.
  Qed.

Lemma paged_attention_never checks self q k v md (m : Memory) :
    ¬ succeeds (_paged_attention checks self q k v md) m.
  Proof.
    unfold _paged_attention. intros Hs.
    apply st_bind_succeeds in Hs as (bs & m1 & _ & Hs).
    apply st_try_succeeds in Hs as ([[n h] d] & m2 & _ & Hs).
    apply st_bind_succeeds in Hs as (len & m3 & _ & Hs).
    destruct (_ && _).
    - apply st_bind_succeeds in Hs as (? & m4 & _ & Hs).
      apply st_bind_succeeds in Hs as (? & m5 & _ & Hs).
      apply st_bind_succeeds in Hs as (? & m6 & _ & Hs). by apply v1_never in Hs.
    - apply st_bind_succeeds in Hs as (? & m4 & _ & Hs).
      apply st_bind_succeeds in Hs as (? & m5 & _ & Hs).
      apply st_try_succeeds in Hs as (? & m6 & _ & Hs).
      apply st_try_succeeds in Hs as (? & m7 & _ & Hs).
      apply st_bind_succeeds in Hs as (? & m8 & _ & Hs).
      apply st_bind_succeeds in Hs as (? & m9 & _ & Hs).
      apply st_bind_succeeds in Hs as (? & m10 & _ & Hs).
      by apply st_bind_succeeds in Hs as (? & m11 & ? & _).
  Qed.

  (** The slot mapping of a pass has a dimension. *)
Definition slots_shaped (pass : Pass) : Prop := t_dims (md_slot_mapping pass.2) ≠ [].

Lemma in_memory_metadata {T} (m : St Memory T) (pass pass' : Pass) r :
    in_memory m pass = Done r pass' → pass'.2 = pass.2.
  Proof. destruct pass as [mem md]. simpl. by destruct (m mem); intros [= _ <-]. Qed.

Lemma forward_never checks self q k v kc vc dtype device (pass : Pass) :
    slots_shaped pass → ¬ succeeds (PagedAttention_forward checks self q k v kc vc dtype device) pass.
  Proof.
    intros Hsl Hs. unfold PagedAttention_forward in Hs.
    apply st_try_succeeds in Hs as ([[bs sl] hs] & s1 & [= _ <-] & Hs).
    do 3 apply st_try_succeeds in Hs as (? & ? & [= _ <-] & Hs).
    apply st_bind_succeeds in Hs as (md & s5 & [= <- <-] & Hs).
    apply st_try_succeeds in Hs as (slots & s6 & [= Ef _] & _).
    by apply flatten_range in Ef as [?|?]; [| lia].
  Qed.

  (** What a materialised block bias is. *)
Lemma materialize_blocks {S} checks b shape dtype device (s : S) t s' q :
    bias_seqinfo b = Some q → materialize checks b shape dtype device s = Done (Ok t) s' →
    (let? mask := t_zeros (drop 2 shape) dtype device in
     let? mask := t_to_dtype mask dtype in
     let? mask := unsqueeze_times (length shape - 2) mask in
     t_expand mask shape) = Ok t.
  Proof.
    intros Hb E. unfold materialize in E.
    assert (E' : st_bind (S := S) (st_assert (2 <=? length shape)) (λ _,
      let!? mask := st_ret (t_zeros (drop 2 shape) dtype device) in
      let!? mask := st_ret (t_to_dtype mask dtype) in
      let! (q_seqinfo, k_seqinfo) := st_unwrap (bias_seqinfo b) in
      let! q := st_unwrap (SeqLenInfo_intervals q_seqinfo) in
      let! k := st_unwrap (SeqLenInfo_intervals k_seqinfo) in
      let!? _ := st_try_each (block_turn checks b mask dtype device) (zip q k) in
      let!? mask := st_ret (unsqueeze_times (length shape - 2) mask) in
      st_ret (t_expand mask shape)) s = Done (Ok t) s') by (by destruct b). clear E.
    unfold st_try, st_bind, st_ret in E'. rewrite Hb in E'. destruct q as [q k]. simpl in E'.
    destruct (st_assert _ s); [| done ..]. unfold res_bind.
    destruct (t_zeros _ _ _) as [z|]; [| done]. destruct (t_to_dtype z dtype) as [z'|]; [| done].
    destruct (SeqLenInfo_intervals q); [| done]. destruct (SeqLenInfo_intervals k); [| done].
    simpl in E'. destruct (st_try_each _ _ _) as [[u|?] s2| |]; [| done ..].
    destruct (unsqueeze_times _ z'); [| done]. by injection E'.
  Qed.

End AttentionLemmas.

(** ** Properties *)

(** C32: the intervals of the sequences.  For lengths whose sum is a [u32],
    [from_seqlens] returns and its [intervals] are one per sequence: the k-th starts
    at the sum of the lengths before it and has its own length, so that they follow
    each other and cover the batch; in both profiles. *)
Theorem intervals_follow_lengths checks seqlens :
  Forall (λ x, 0 ≤ x)%Z seqlens → (sum_lens seqlens < 2 ^ 32)%Z →
  ∃ info iv, SeqLenInfo_from_seqlens checks seqlens = Some (Ok info) ∧
    SeqLenInfo_intervals info = Some iv ∧ length iv = length seqlens ∧
    ∀ k len, seqlens !! k = Some len →
      iv !! k = Some (sum_lens (take k seqlens), (sum_lens (take k seqlens) + len)%Z).
Proof.
  intros Hl Hs. exists (SeqLenInfo_new (0%Z :: starts 0 seqlens)),
    (zip (0%Z :: starts 0 seqlens) (starts 0 seqlens)).
  unfold SeqLenInfo_from_seqlens.
  pose proof (push_seqlens_starts checks [] 0 seqlens Hl ltac:(lia) ltac:(lia)) as Hp.
  cbn [app] in Hp. rewrite Hp.
  split_and!; [done | done | |].
  - rewrite length_zip. cbn [length]. rewrite starts_length. lia.
  - intros k len Hk. destruct (starts_lookup 0 seqlens k len Hk) as [E1 E2].
    apply lookup_zip_with_Some. eexists _, _. split_and!; [| exact E1 | exact E2]. f_equal; lia.
Qed.

Section AttentionProperties.
  Context `{TensorLaws}.

  (** No causal mask is ever made.  The entries that are computed are the right
      ones (the one of row [i] and column [j] is 1 exactly when [j <= i + diagonal]),
      but they are put into a vector of [l * s] elements and multiplied with a matrix
      of [l] rows and [s] columns: [materialize_causal_mask] never returns a mask. *)
Theorem causal_mask_never_made {T} checks shape dtype device window bottomright (s : T) :
    (∀ l n diagonal i j, i < l → j < n →
       triangular_entries l n diagonal false !! (i * n + j) =
       Some (if decide (Z.of_nat j ≤ Z.of_nat i + diagonal)%Z then 1 else 0)) ∧
    ∀ mask s', materialize_causal_mask checks shape dtype device window bottomright s ≠
               Done (Ok mask) s'.
  Proof.
    split.
    - intros l n diagonal i j Hi Hj.
      unfold triangular_entries. rewrite (grid_lookup _ 0) by done. unfold triangular_entry. simpl.
      destruct (Z.ltb_spec (Z.of_nat i + diagonal) (Z.of_nat j)); case_decide; done || lia.
    - intros mask s' E.
      assert (Hs : succeeds (materialize_causal_mask checks shape dtype device window bottomright) s)
        by (by exists mask, s').
      unfold materialize_causal_mask in Hs. apply st_try_succeeds in Hs as (t & s1 & _ & Hs).
      apply st_bind_succeeds in Hs as (shift & s2 & _ & Hs).
      apply st_bind_succeeds in Hs as (d & s3 & _ & Hs).
      apply st_try_succeeds in Hs as (m & s4 & Em & _).
      eapply (apply_triangular_never t d false s3). by exists m, s4.
  Qed.

  (** The block masks do not depend on the blocks.  Two block-diagonal biases of
      whatever sequence lengths and windows are the same mask wherever both are
      materialised: the tensors that [slice_assign] returns are dropped, and what is
      left is the tensor of zeros. *)
Theorem block_masks_dropped {T} checks b b' q q' shape dtype device (s s1 s2 s3 : T) t t' :
    bias_seqinfo b = Some q → bias_seqinfo b' = Some q' →
    materialize checks b shape dtype device s = Done (Ok t) s1 →
    materialize checks b' shape dtype device s2 = Done (Ok t') s3 →
    t = t'.
  Proof.
    intros Hb Hb' E E'. apply (materialize_blocks _ _ _ _ _ _ _ _ _ Hb) in E.
    apply (materialize_blocks _ _ _ _ _ _ _ _ _ Hb') in E'. rewrite E in E'. by injection E'.
  Qed.

  (** No attention layer ever answers.  [PagedAttention::forward] flattens the slot
      mapping up to a dimension it does not have, before anything else is done with
      the cache, so that it never returns a tensor, neither for a prompt nor for a
      decoding step, unless the slot mapping is a scalar, which the engine never
      makes; and the kernels of the decoding step are unfinished: whatever the
      metadata is, [_paged_attention] never returns one either. *)
Theorem attention_never_answers checks self query key value key_cache value_cache dtype device
      (pass : Pass) :
    (slots_shaped pass → ∀ output pass', PagedAttention_forward checks self query key value key_cache value_cache dtype
       device pass ≠ Done (Ok output) pass') ∧
    (∀ kc vc md m output m', _paged_attention checks self query kc vc md m ≠ Done (Ok output) m').
  Proof.
    split; [| intros kc vc md m output m' E;
              eapply (paged_attention_never checks self query kc vc md m); by exists output, m'].
    intros Hsl output pass' E.
    eapply (forward_never checks self query key value key_cache value_cache dtype device pass Hsl).
    by exists output, pass'.
  Qed.

End AttentionProperties.

(** *** Witnesses *)

Section AttentionExamples.

Lemma intervals_follow_lengths_witness :
    ∃ info iv, SeqLenInfo_from_seqlens true [3; 5; 2]%Z = Some (Ok info) ∧
      SeqLenInfo_intervals info = Some iv ∧ iv !! 1 = Some (3, 8)%Z.
  Proof.
    destruct (intervals_follow_lengths true [3; 5; 2]%Z ltac:(by_compute) eq_refl)
      as (info & iv & E & Ei & _ & Hk).
    exists info, iv. split_and!; [exact E | exact Ei | exact (Hk 1 5%Z eq_refl)].
  Defined.

  #[local] Existing Instance plain_candle.

  (** Shapes only; an operator needs two tensors of one shape. *)
Definition no_tensor {A} : result A := Err (APIError_new "shape").

Definition plain_tensors : TensorOps := {|
    t_dims2 t := match t.1 with [a; b] => Ok (a, b) | _ => no_tensor end;
    t_dims3 t := match t.1 with [a; b; c] => Ok (a, b, c) | _ => no_tensor end;
    t_dim_minus2 t := match reverse t.1 with _ :: d :: _ => Ok d | _ => no_tensor end;
    t_reshape t d := Ok (d, t.2);
    t_reshape_hole t a b := Ok ([foldr Nat.mul 1 t.1 / (a * b); a; b], t.2);
    t_flatten t a b :=
      if decide (t.1 = []) then Ok ([1], t.2)
      else if b <? length t.1 then Ok ([foldr Nat.mul 1 t.1], t.2) else no_tensor;
    t_unsqueeze t i := Ok (take i t.1 ++ 1 :: drop i t.1, t.2);
    t_expand t d := Ok (d, t.2);
    t_to_dtype t _ := Ok t;
    t_ones d _ _ := Ok (d, []);
    t_from_bytes l n _ := Ok ([n], Z.of_nat <$> l);
    t_arange n _ := Ok ([n], []);
    t_new_f64 l _ := Ok ([length l], []);
    t_zeros_like t := Ok t;
    t_mul t u := if decide (t.1 = u.1) then Ok t else no_tensor;
    t_add t u := if decide (t.1 = u.1) then Ok t else no_tensor;
    t_sub t u := if decide (t.1 = u.1) then Ok t else no_tensor;
    t_log t := Ok t;
    t_index_full t _ := Ok t;
    t_index_upto t _ := Ok t;
    t_slice_assign t r _ := Ok t;
    t_slice_assign_full t _ _ := Ok t;
    t_matmul t _ := Ok t;
    t_transpose_last t := Ok t;
    t_contiguous t := Ok t;
    t_scale t _ := Ok t;
    t_broadcast_as t d := Ok (d, t.2);
    softmax_last_dim t := Ok t;
    dropout t _ := Ok t;
    cuda_feature := true;
    flash_attn q _ _ _ _ := Ok q;
  |}.

  #[local] Existing Instance plain_tensors.

Lemma plain_tensor_laws : TensorLaws.
  Proof.
    constructor.
    - intros [d l] a b. simpl. unfold no_tensor. destruct d as [|x [|y [|]]]; congruence.
    - intros t u v. simpl. case_decide; by intros.
    - by intros l n dev t [= <-].
    - by intros t d u [= <-].
    - intros t a b u. simpl. case_decide; [by left |].
      destruct (Nat.ltb_spec b (length t.1)); [by right | by intros].
    - by intros l dev t [= <-].
    - by intros l t [= <-].
  Qed.

  #[local] Existing Instance plain_tensor_laws.

Lemma causal_mask_never_made_witness :
    triangular_entries 2 3 0 false = [1; 0; 0; 1; 1; 0] ∧
    ¬ succeeds (materialize_causal_mask true [2; 3] U8 true None false) tt.
  Proof.
    split; [reflexivity |]. intros (mask & s' & E).
    exact (proj2 (causal_mask_never_made true [2; 3] U8 true None false tt) mask s' E).
  Defined.

  (** Two batches of different lengths. *)
Definition mask_of (seqlens : list Z) : AttentionBias :=
    Causal (BlockDiagonalCausalMask_new (SeqLenInfo_new (0%Z :: starts 0 seqlens))
      (SeqLenInfo_new (0%Z :: starts 0 seqlens)) None).

Lemma block_masks_dropped_witness :
    ∃ t t', materialize true (mask_of [3; 5]%Z) [1; 1; 8; 8] U8 true tt = Done (Ok t) tt ∧
      materialize true (mask_of [8]%Z) [1; 1; 8; 8] U8 true tt = Done (Ok t') tt ∧ t = t'.
  Proof.
    exists ([1; 1; 8; 8], []), ([1; 1; 8; 8], []). split_and!; [by vm_compute | by vm_compute |].
    exact (block_masks_dropped true (mask_of [3; 5]%Z) (mask_of [8]%Z) _ _ [1; 1; 8; 8] U8 true
             tt tt tt tt _ _ eq_refl eq_refl eq_refl eq_refl).
  Defined.

Definition ex_attention : PagedAttention := mkPagedAttention 2 4 2 f32_zero None 1 None.

Definition ex_pass : Pass :=
    ([], InputMetadata_new [3] None None None ([1; 3], []) "auto").

Definition ex_hidden : Tensor := ([1; 3; 8], []).

Lemma attention_never_answers_witness :
    ¬ succeeds (PagedAttention_forward true ex_attention ex_hidden ex_hidden ex_hidden None None
        U8 true) ex_pass.
  Proof.
    intros (output & pass' & E).
    exact (proj1 (attention_never_answers true ex_attention ex_hidden ex_hidden ex_hidden None None
      U8 true ex_pass) ltac:(done) output pass' E).
  Defined.

End AttentionExamples.
