(* ===== verification/CacheEngine.v ===== *)
(** * The cache engine

    [src/scheduler/cache_engine.rs]: the configuration of the cache, the shapes
    of its tensors, their allocation, and the copies between the caches. *)

From Stdlib Require Import ZArith SpecFloat Lia.
From stdpp Require Import base gmap sets strings pretty countable list.
From S2P Require Import Prelude Machine Api Candle Backend.

(** ** CacheConfig *)

Record CacheConfig := mkCacheConfig {
  cfg_block_size : nat;
  cfg_num_gpu_blocks : option nat;
  cfg_num_cpu_blocks : option nat;
  fully_init : bool;
}.

Definition CacheConfig_set_num_gpu_blocks (self : CacheConfig) (num_gpu_blocks : nat)
    : CacheConfig :=
  mkCacheConfig (cfg_block_size self) (Some num_gpu_blocks) (cfg_num_cpu_blocks self)
    (if cfg_num_cpu_blocks self then true else fully_init self).

Definition CacheConfig_set_num_cpu_blocks (self : CacheConfig) (num_cpu_blocks : nat)
    : CacheConfig :=
  mkCacheConfig (cfg_block_size self) (cfg_num_gpu_blocks self) (Some num_cpu_blocks)
    (if cfg_num_gpu_blocks self then true else fully_init self).

(** The flag says what it is named for. *)
Definition config_wf (c : CacheConfig) : Prop :=
  fully_init c = true ↔ is_Some (cfg_num_gpu_blocks c) ∧ is_Some (cfg_num_cpu_blocks c).

Lemma set_num_gpu_blocks_wf c n : config_wf c → config_wf (CacheConfig_set_num_gpu_blocks c n).
Proof.
  destruct c as [bs [g|] [k|] []]; unfold config_wf, is_Some; simpl; naive_solver.
Qed.

Lemma set_num_cpu_blocks_wf c n : config_wf c → config_wf (CacheConfig_set_num_cpu_blocks c n).
Proof.
  destruct c as [bs [g|] [k|] []]; unfold config_wf, is_Some; simpl; naive_solver.
Qed.

(** ** CacheEngine *)

Section CacheEngine.
  Context `{Candle} `{HashOrder}.

Definition KVCache : Type := Tensor * Tensor.

Record CacheEngine := mkCacheEngine {
    gpu_cache : list KVCache;
    cpu_cache : list KVCache;
    num_layers : nat;
  }.

Definition CacheEngine_calculate_key_block_shape (model_config : ConfigLike) (dtype : DType)
    (block_size : nat) : option (nat * nat * nat * nat) :=
    x ← nat_div 16 (size_in_bytes dtype);
    head_size ← ConfigLike_get_head_size model_config;
    d ← nat_div head_size x;
    Some (get_num_kv_heads model_config, d, block_size, x).

Definition CacheEngine_calculate_value_block_shape (model_config : ConfigLike) (block_size : nat)
    : option (nat * nat * nat) :=
    head_size ← ConfigLike_get_head_size model_config;
    Some (get_num_kv_heads model_config, head_size, block_size).

  (** One layer: both tensors on the first CUDA device. *)
Definition allocate_layer (num_blocks : option nat) (key_shape : nat * nat * nat * nat)
    (value_shape : nat * nat * nat) (dtype : DType) : St Memory (result KVCache) :=
    let '(k0, k1, k2, k3) := key_shape in
    let '(v0, v1, v2) := value_shape in
    let!? cuda_device := st_ret new_cuda_0 in
    let! num_blocks := st_unwrap num_blocks in
    let!? key_blocks := st_ret (t_zeros [num_blocks; k0; k1; k2; k3] dtype cuda_device) in
    let!? value_blocks := st_ret (t_zeros [num_blocks; v0; v1; v2] dtype cuda_device) in
    st_ret (Ok (key_blocks, value_blocks)).

Definition CacheEngine_allocate_gpu_cache (model_config : ConfigLike) (cache_config : CacheConfig)
    (dtype : DType) : St Memory (result (list KVCache)) :=
    let! _ := st_assert (fully_init cache_config) in
    let! key_shape := st_unwrap (CacheEngine_calculate_key_block_shape model_config dtype
                                   (cfg_block_size cache_config)) in
    let! value_shape := st_unwrap (CacheEngine_calculate_value_block_shape model_config
                                     (cfg_block_size cache_config)) in
    st_try_map (λ _, allocate_layer (cfg_num_gpu_blocks cache_config) key_shape value_shape dtype)
      (seq 0 (get_num_hidden_layers model_config)).

  (** The CPU cache is allocated on the CUDA device as well. *)
Definition CacheEngine_allocate_cpu_cache (model_config : ConfigLike) (cache_config : CacheConfig)
    (dtype : DType) : St Memory (result (list KVCache)) :=
    let! _ := st_assert (fully_init cache_config) in
    let! key_shape := st_unwrap (CacheEngine_calculate_key_block_shape model_config dtype
                                   (cfg_block_size cache_config)) in
    let! value_shape := st_unwrap (CacheEngine_calculate_value_block_shape model_config
                                     (cfg_block_size cache_config)) in
    st_try_map (λ _, allocate_layer (cfg_num_cpu_blocks cache_config) key_shape value_shape dtype)
      (seq 0 (get_num_hidden_layers model_config)).

Definition CacheEngine_new (model_config : ConfigLike) (cache_config : CacheConfig) (dtype : DType)
    : St Memory (result CacheEngine) :=
    let!? gpu := CacheEngine_allocate_gpu_cache model_config cache_config dtype in
    let!? cpu := CacheEngine_allocate_cpu_cache model_config cache_config dtype in
    st_ret (Ok (mkCacheEngine gpu cpu (get_num_hidden_layers model_config))).

Definition CacheEngine_swap_in (self : CacheEngine) (src_to_dst : gmap nat nat)
    : St Memory (result unit) :=
    st_try_each (λ i,
      let! (src_key_cache, src_value_cache) := st_unwrap (cpu_cache self !! i) in
      let! (dst_key_cache, dst_value_cache) := st_unwrap (gpu_cache self !! i) in
      let!? _ := swap_blocks src_key_cache dst_key_cache src_to_dst in
      swap_blocks src_value_cache dst_value_cache src_to_dst)
      (seq 0 (num_layers self)).

Definition CacheEngine_swap_out (self : CacheEngine) (src_to_dst : gmap nat nat)
    : St Memory (result unit) :=
    st_try_each (λ i,
      let! (src_key_cache, src_value_cache) := st_unwrap (gpu_cache self !! i) in
      let! (dst_key_cache, dst_value_cache) := st_unwrap (cpu_cache self !! i) in
      let!? _ := swap_blocks src_key_cache dst_key_cache src_to_dst in
      swap_blocks src_value_cache dst_value_cache src_to_dst)
      (seq 0 (num_layers self)).

Definition CacheEngine_copy (self : CacheEngine) (src_to_dst : gmap nat (list nat))
    : St Memory (result unit) :=
    copy_blocks (gpu_cache self).*1 (gpu_cache self).*2 src_to_dst.

End CacheEngine.

(** ** Lemmas *)

Section CacheLemmas.
  Context `{CandleLaws}.

  (** What every turn of a loop establishes of its element. *)
Lemma try_map_Forall {A B} (P : B → Prop) (f : A → St Memory (result B)) l ys m m' :
    (∀ x y m m', f x m = Done (Ok y) m' → P y) →
    st_try_map f l m = Done (Ok ys) m' → Forall P ys.
  Proof.
    intros Hf. revert ys m m'. induction l as [|x l IH]; intros ys m m'; cbn [st_try_map].
    - intros [= <- _]. constructor.
    - unfold st_try at 1, st_bind at 1. destruct (f x m) as [[y|?] m1| |] eqn:Ef; [| done ..].
      unfold st_try, st_bind.
      destruct (st_try_map f l m1) as [[ys1|?] m3| |] eqn:El; [| done ..].
      intros [= <- _]. constructor; [by eapply Hf | by eapply IH].
  Qed.

  (** Both tensors of a layer have the element type of the caches. *)
Definition layer_dtype (dtype : DType) (layer : KVCache) : Prop :=
    t_dtype layer.1 = dtype ∧ t_dtype layer.2 = dtype.

Lemma allocate_layer_dtype n ks vs dtype layer m m' :
    allocate_layer n ks vs dtype m = Done (Ok layer) m' → layer_dtype dtype layer.
  Proof.
    destruct ks as [[[k0 k1] k2] k3], vs as [[v0 v1] v2]. unfold allocate_layer. intros E.
    destruct new_cuda_0 as [dev|]; [| done]. unfold st_try, st_bind, st_unwrap, st_ret in E.
    destruct n as [n|]; [| done].
    destruct (t_zeros [n; k0; k1; k2; k3] dtype dev) as [k|] eqn:Ek; [| done].
    destruct (t_zeros [n; v0; v1; v2] dtype dev) as [v|] eqn:Ev; [| done].
    injection E as <- _. split; by eapply zeros_dtype.
  Qed.

Lemma try_map_length {A B} (f : A → St Memory (result B)) l ys m m' :
    st_try_map f l m = Done (Ok ys) m' → length ys = length l.
  Proof.
    revert ys m. induction l as [|x l IH]; intros ys m; cbn [st_try_map].
    - by intros [= <-].
    - unfold st_try at 1, st_bind at 1. destruct (f x m) as [[y|?] m1| |]; [| done ..].
      unfold st_try, st_bind.
      destruct (st_try_map f l m1) as [[ys1|?] m2| |] eqn:E; [| done ..].
      intros [= <- <-]. simpl. f_equal. by eapply IH.
  Qed.

  (** Both allocations: a loop over the layers behind the assertion. *)
Definition allocate_cache (init : bool) (key_shape : option (nat * nat * nat * nat))
    (value_shape : option (nat * nat * nat)) (n : option nat) (dtype : DType) (layers : nat)
    : St Memory (result (list KVCache)) :=
    st_bind (st_assert init) (λ _, st_bind (st_unwrap key_shape) (λ ks,
      st_bind (st_unwrap value_shape) (λ vs,
        st_try_map (λ _, allocate_layer n ks vs dtype) (seq 0 layers)))).

Lemma allocate_cache_inv init ks vs n dtype layers l m m' :
    allocate_cache init ks vs n dtype layers m = Done (Ok l) m' →
    init = true ∧ length l = layers ∧ Forall (layer_dtype dtype) l.
  Proof.
    unfold allocate_cache, st_bind. destruct init; [| done]. simpl.
    destruct ks as [ks|]; [| done]. destruct vs as [vs|]; [| done]. simpl. intros E. split; [done |].
    split; [by rewrite (try_map_length _ _ _ _ _ E), length_seq |].
    eapply try_map_Forall; [| done]. intros i layer m1 m2. apply allocate_layer_dtype.
  Qed.

  (** What a new cache engine is. *)
Lemma cache_engine_new_inv model_config cache_config dtype e m m' :
    CacheEngine_new model_config cache_config dtype m = Done (Ok e) m' →
    fully_init cache_config = true ∧ num_layers e = get_num_hidden_layers model_config ∧
    (length (gpu_cache e) = num_layers e ∧ Forall (layer_dtype dtype) (gpu_cache e)) ∧
    (length (cpu_cache e) = num_layers e ∧ Forall (layer_dtype dtype) (cpu_cache e)).
  Proof.
    unfold CacheEngine_new. intros E. unfold st_try at 1, st_bind at 1 in E.
    destruct (CacheEngine_allocate_gpu_cache _ _ _ m) as [[gpu|?] m1| |] eqn:Eg; [| done ..].
    unfold st_try at 1, st_bind at 1 in E.
    destruct (CacheEngine_allocate_cpu_cache _ _ _ m1) as [[cpu|?] m2| |] eqn:Ec; [| done ..].
    injection E as <- <-. apply allocate_cache_inv in Eg as (? & ? & ?).
    by apply allocate_cache_inv in Ec as (? & ? & ?).
  Qed.

Lemma layer_dtype_lookup dtype (l : list KVCache) n :
    length l = n → 0 < n → Forall (layer_dtype dtype) l →
    ∃ layer, l !! 0 = Some layer ∧ layer_dtype dtype layer.
  Proof. intros Hl Hn Hf. destruct l as [|x l]; [simpl in *; lia |]. exists x. by inversion Hf. Qed.

End CacheLemmas.

(** ** Properties *)

Section CacheProperties.
  Context `{Candle} `{HashOrder}.

  (** The key and the value cache have blocks of the same number of elements,
      [num_kv_heads * head_size * block_size], when the packing factor
      [16 / element_size] divides the head size. *)
Theorem block_shapes_agree model_config dtype bs k0 k1 k2 k3 v0 v1 v2 :
    CacheEngine_calculate_key_block_shape model_config dtype bs = Some (k0, k1, k2, k3) →
    CacheEngine_calculate_value_block_shape model_config bs = Some (v0, v1, v2) →
    (16 / size_in_bytes dtype | v1)%nat →
    k0 * k1 * k2 * k3 = v0 * v1 * v2 ∧ v0 = get_num_kv_heads model_config ∧ v2 = bs.
  Proof.
    unfold CacheEngine_calculate_key_block_shape, CacheEngine_calculate_value_block_shape, nat_div.
    intros Hk Hv Hdiv.
    destruct (ConfigLike_get_head_size model_config) as [hs|]; simpl in *;
      [| by destruct (size_in_bytes dtype =? 0)].
    injection Hv as <- <- <-. destruct (size_in_bytes dtype =? 0); [done |]. simpl in Hk.
    destruct (Nat.eqb_spec (16 / size_in_bytes dtype) 0) as [|Hx]; [done |]. simpl in Hk.
    injection Hk as <- <- <- <-. split_and!; [| done | done].
    destruct Hdiv as [d ->]. rewrite Nat.div_mul by done. nia.
  Qed.

  (** No cache is allocated before the configuration is complete. *)
Lemma cache_new_uninit model_config cache_config dtype m :
    fully_init cache_config = false →
    CacheEngine_new model_config cache_config dtype m = Panic.
  Proof.
    intros Hf. apply st_try_panic. unfold CacheEngine_allocate_gpu_cache.
    apply st_bind_panic. by rewrite Hf.
  Qed.

End CacheProperties.

Section CacheMoves.
  Context `{CandleLaws} `{HashOrder}.

  (** C39: caches of anything but bytes never move.  A cache engine whose elements are
      not of type [U8] (the program loads its models with [F16]) never swaps a block
      in or out and never copies one: every attempt is an error or a panic, for every
      mapping, the empty one included.  Every copy asks for the storage as a slice of
      bytes. *)
Theorem caches_never_move model_config cache_config dtype e m0 m0' :
    CacheEngine_new model_config cache_config dtype m0 = Done (Ok e) m0' →
    dtype ≠ U8 → 0 < get_num_hidden_layers model_config →
    ∀ m swaps copies,
      ¬ succeeds (CacheEngine_swap_in e swaps) m ∧ ¬ succeeds (CacheEngine_swap_out e swaps) m ∧
      ¬ succeeds (CacheEngine_copy e copies) m.
  Proof.
    intros (_ & Hn & [Hg Hgt] & [Hc Hct])%cache_engine_new_inv Hd Hpos m swaps copies.
    rewrite <- Hn in Hpos.
    destruct (layer_dtype_lookup _ _ _ Hg Hpos Hgt) as ([gk gv] & Hgk & Egk & _).
    destruct (layer_dtype_lookup _ _ _ Hc Hpos Hct) as ([ck cv] & Hck & Eck & _).
    simpl in *. split_and!.
    - unfold CacheEngine_swap_in. destruct (num_layers e) as [|n]; [lia |].
      intros Hs%try_each_first. unfold KVCache in *. cbv beta in Hs. rewrite Hck, Hgk in Hs. simpl in Hs.
      apply st_try_succeeds in Hs as (u & m1 & E & _).
      assert (t_dtype gk = U8) by (eapply swap_blocks_bytes; by exists u, m1). congruence.
    - unfold CacheEngine_swap_out. destruct (num_layers e) as [|n]; [lia |].
      intros Hs%try_each_first. unfold KVCache in *. cbv beta in Hs. rewrite Hck, Hgk in Hs. simpl in Hs.
      apply st_try_succeeds in Hs as (u & m1 & E & _).
      assert (t_dtype ck = U8) by (eapply swap_blocks_bytes; by exists u, m1). congruence.
    - unfold CacheEngine_copy. destruct (gpu_cache e) as [|[k v] l]; [done |].
      injection Hgk as [= -> ->]. intros Hs%copy_blocks_bytes. simpl in Hs. congruence.
  Qed.

End CacheMoves.


(** *** Witnesses *)

Section CacheExamples.

  #[local] Existing Instance plain_candle.
  #[local] Existing Instance canonical_order.

Definition ex_config : ConfigLike :=
    {| get_num_kv_heads := 4; get_hidden_size := 256; get_num_hidden_layers := 2;
       get_num_attention_heads := 4; get_vocab_size := 1000; get_sliding_window := None |}.

  (** Half-precision elements: eight of them in a vector of 16 bytes. *)
Lemma block_shapes_agree_witness : 4 * 8 * 16 * 8 = 4 * 64 * 16.
  Proof.
    exact (proj1 (block_shapes_agree ex_config F16 16 4 8 16 8 4 64 16 eq_refl eq_refl
             (ex_intro _ 8 eq_refl))).
  Defined.

  (** Two layers of half-precision caches, three blocks on the GPU and two for the
      host. *)
Definition half_candle : Candle := typed_candle F16.

Definition ex_cache_config : CacheConfig :=
    CacheConfig_set_num_cpu_blocks (CacheConfig_set_num_gpu_blocks
      (mkCacheConfig 16 None None false) 3) 2.

Definition ex_layer (n : nat) : @KVCache half_candle :=
    (([n; 4; 8; 16; 8], []), ([n; 4; 64; 16], [])).

Definition ex_caches : @CacheEngine half_candle :=
    mkCacheEngine [ex_layer 3; ex_layer 3] [ex_layer 2; ex_layer 2] 2.

Definition no_moves : @Memory half_candle := [].

Lemma caches_never_move_witness : ¬ succeeds (CacheEngine_copy ex_caches ∅) no_moves.
  Proof.
    assert (E : CacheEngine_new ex_config ex_cache_config F16 no_moves = Done (Ok ex_caches) no_moves)
      by reflexivity.
    exact (proj2 (proj2 (caches_never_move (H0 := typed_candle_laws F16) ex_config ex_cache_config
      F16 ex_caches no_moves no_moves E ltac:(discriminate) ltac:(simpl; lia) no_moves ∅ ∅))).
  Defined.

End CacheExamples.
