(* ===== verification/Scheduler.v ===== *)
(** * The scheduler

    [src/scheduler/mod.rs]: the three queues of sequence groups, the scheduling
    step, preemption, and the freeing of what is finished. *)

From Stdlib Require Import ZArith SpecFloat Lia.
From stdpp Require Import base gmap sets strings countable list.
From S2P Require Import Prelude Machine Sequence BlockEngine CacheEngine.

(** ** Data *)

Record SchedulerConfig := { max_num_seqs : nat }.

Record SchedulerOutput := mkSchedulerOutput {
  scheduled : list SequenceGroup;
  blocks_to_swap_in : gmap nat nat;
  blocks_to_swap_out : gmap nat nat;
  blocks_to_copy : gmap nat (list nat);
  ignored_seq_groups : list SequenceGroup;
}.

Record Scheduler := mkScheduler {
  waiting : list SequenceGroup;
  running : list SequenceGroup;
  swapped_out : list SequenceGroup;
  config : SchedulerConfig;
  block_engine : BlockEngine;
}.

Definition set_waiting (self : Scheduler) (l : list SequenceGroup) : Scheduler :=
  mkScheduler l (running self) (swapped_out self) (config self) (block_engine self).

Definition set_running (self : Scheduler) (l : list SequenceGroup) : Scheduler :=
  mkScheduler (waiting self) l (swapped_out self) (config self) (block_engine self).

Definition set_swapped_out (self : Scheduler) (l : list SequenceGroup) : Scheduler :=
  mkScheduler (waiting self) (running self) l (config self) (block_engine self).

Definition set_block_engine (self : Scheduler) (e : BlockEngine) : Scheduler :=
  mkScheduler (waiting self) (running self) (swapped_out self) (config self) e.

(** [VecDeque::pop_front] *)
Definition pop_front {A} (l : list A) : option (A * list A) :=
  match l with [] => None | x :: l' => Some (x, l') end.

(** [if let Some(idx) = l.iter().position(f) { l.remove(idx); }] *)
Fixpoint remove_position {A} (f : A → bool) (l : list A) : list A :=
  match l with
  | [] => []
  | x :: l' => if f x then l' else x :: remove_position f l'
  end.

(** [sort_by_key], the stable sort of the standard library. *)
Fixpoint insert_by_key {A} (key : A → nat) (x : A) (l : list A) : list A :=
  match l with
  | [] => [x]
  | y :: l' => if key x <=? key y then x :: l else y :: insert_by_key key x l'
  end.

Definition sort_by_key {A} (key : A → nat) (l : list A) : list A :=
  foldr (insert_by_key key) [] l.

Definition Scheduler_sort_running_by_priority_fcfs (self : Scheduler) : Scheduler :=
  set_running self (reverse (sort_by_key arrival_time (running self))).

Definition Scheduler_sort_swapped_out_by_priority_fcfs (self : Scheduler) : Scheduler :=
  set_swapped_out self (reverse (sort_by_key arrival_time (swapped_out self))).

(** One source block and one more destination. *)
Definition add_copy (m : gmap nat (list nat)) (op : option (nat * nat)) : gmap nat (list nat) :=
  match op with
  | None => m
  | Some (src_block, dst_block) =>
      match m !! src_block with
      | None => <[src_block:=[dst_block]]> m
      | Some l => <[src_block:=l ++ [dst_block]]> m
      end
  end.

(** ** Operations *)

Section SchedulerOps.
  Context `{LogprobsSig} `{HashOrder}.

Definition Scheduler_new (config : SchedulerConfig) (cache_config : CacheConfig) : M Scheduler :=
    let! _ := st_assert (fully_init cache_config) in
    let! num_gpu := st_unwrap (cfg_num_gpu_blocks cache_config) in
    let! num_cpu := st_unwrap (cfg_num_cpu_blocks cache_config) in
    let! e := BlockEngine_new (cfg_block_size cache_config) num_gpu num_cpu in
    st_ret (mkScheduler [] [] [] config e).

Definition Scheduler_add_sequence (self : Scheduler) (seq_group : SequenceGroup) : Scheduler :=
    set_waiting self (waiting self ++ [seq_group]).

Definition Scheduler_has_unfinished_sequences (self : Scheduler) : bool :=
    match running self with [] => false | _ => true end.

  (** [self.running.iter().map(|group| group.get_seqs().len()).sum()] *)
Definition num_running_seqs (self : Scheduler) : nat :=
    sum_list ((λ g, size (seqs g)) <$> running self).

Definition Scheduler_remove_seq_group (self : Scheduler) (seq_group : SequenceGroup)
    : Scheduler :=
    let same := λ grp, group_id grp =? group_id seq_group in
    mkScheduler (remove_position same (waiting self)) (remove_position same (running self))
      (remove_position same (swapped_out self)) (config self) (block_engine self).

Definition Scheduler__allocate (self : Scheduler) (seq_group : SequenceGroup) : M Scheduler :=
    let! e := BlockEngine_allocate (block_engine self) seq_group in
    st_ret (set_block_engine self e).

Definition Scheduler__free (self : Scheduler) (seq_group : SequenceGroup) : M Scheduler :=
    let! e := st_fold BlockEngine_free_sequence (block_engine self)
                (hash_values (seqs seq_group)) in
    st_ret (set_block_engine self e).

Definition append_slot_turn (acc : BlockEngine * gmap nat (list nat)) (sequence : seq_ptr)
    : M (BlockEngine * gmap nat (list nat)) :=
    let '(e, blocks_to_copy) := acc in
    let! (op, e) := BlockEngine_append_token_slot_to_seq e sequence in
    st_ret (e, add_copy blocks_to_copy op).

Definition Scheduler__append_token_slot_to_seq_group (self : Scheduler)
    (seq_group : SequenceGroup) (blocks_to_copy : gmap nat (list nat))
    : M (Scheduler * gmap nat (list nat)) :=
    let! (e, blocks_to_copy) := st_fold append_slot_turn (block_engine self, blocks_to_copy)
                                  (hash_values (seqs seq_group)) in
    st_ret (set_block_engine self e, blocks_to_copy).

Definition Scheduler__abort_seq_group (self : Scheduler) (seq_group : SequenceGroup)
    : M Scheduler :=
    let self := Scheduler_remove_seq_group self seq_group in
    let! _ := SequenceGroup_set_status seq_group FinishedAborted in
    Scheduler__free self seq_group.

Definition Scheduler__preempt_by_recompute (self : Scheduler) (seq_group : SequenceGroup)
    : M Scheduler :=
    let! _ := SequenceGroup_set_status seq_group Waiting in
    let! self := Scheduler__free self seq_group in
    st_ret (set_waiting self (seq_group :: waiting self)).

Definition Scheduler__preempt_by_swap (self : Scheduler) (seq_group : SequenceGroup)
    (blocks_to_swap_out : gmap nat nat) : M (Scheduler * gmap nat nat) :=
    if negb (BlockEngine_can_swap_out_seq_group (block_engine self) seq_group) then
      let! self := Scheduler__abort_seq_group self seq_group in
      st_ret (self, blocks_to_swap_out)
    else
      let! (new_to_swap, e) := BlockEngine_swap_out (block_engine self) seq_group in
      let self := set_block_engine self e in
      let! _ := SequenceGroup_set_status seq_group Swapped in
      st_ret (set_swapped_out self (swapped_out self ++ [seq_group]),
              new_to_swap ∪ blocks_to_swap_out).

Definition Scheduler__preempt (self : Scheduler) (seq_group : SequenceGroup)
    (blocks_to_swap_out : gmap nat nat) : M (Scheduler * gmap nat nat) :=
    match size (seqs seq_group) with
    | 1 => let! self := Scheduler__preempt_by_recompute self seq_group in
           st_ret (self, blocks_to_swap_out)
    | _ => Scheduler__preempt_by_swap self seq_group blocks_to_swap_out
    end.

  (** *** The waiting queue *)

  (** The end of a turn of the loop over the waiting queue: the group read from
      the front gets its blocks, and the group that is at the front now is
      moved to the running queue. *)
Definition admit_front (self : Scheduler) (seq_group : SequenceGroup)
    (scheduled : list SequenceGroup) : M (Scheduler * list SequenceGroup) :=
    let! _ := SequenceGroup_set_status seq_group Running in
    let! self := Scheduler__allocate self seq_group in
    let! (front, rest) := st_unwrap (pop_front (waiting self)) in
    let self := set_waiting self rest in
    st_ret (set_running self (running self ++ [front]), scheduled ++ [front]).

  (** The loop.  Every turn removes a group, so the length of the queue is
      enough fuel. *)
Fixpoint schedule_waiting (fuel : nat) (self : Scheduler)
    (scheduled ignored : list SequenceGroup)
    : M (Scheduler * list SequenceGroup * list SequenceGroup) :=
    match waiting self, fuel with
    | [], _ => st_ret (self, scheduled, ignored)
    | _ :: _, 0 => st_hang
    | seq_group :: _, S fuel =>
        if max_num_seqs (config self) =? num_running_seqs self + 1
        then st_ret (self, scheduled, ignored)
        else
          let! can_allocate := BlockEngine_can_allocate (block_engine self) seq_group in
          match can_allocate with
          | AllocStatus_Later => st_ret (self, scheduled, ignored)
          | AllocStatus_Impossible =>
              let! _ := SequenceGroup_set_status seq_group FinishedIgnored in
              let! (front, rest) := st_unwrap (pop_front (waiting self)) in
              let! (self, scheduled) := admit_front (set_waiting self rest) seq_group scheduled in
              schedule_waiting fuel self scheduled (ignored ++ [front])
          | AllocStatus_Ok =>
              let! (self, scheduled) := admit_front self seq_group scheduled in
              schedule_waiting fuel self scheduled ignored
          end
    end.

  (** *** The running queue *)

  (** [while !can_append_token_to_seq(&seq_group) { .. }]: the flag returned is
      [finished_with_break].  Every turn that goes on takes a group off the
      running queue, so its length is enough fuel. *)
Fixpoint make_room (fuel : nat) (self : Scheduler) (seq_group : SequenceGroup)
    (preempted : list SequenceGroup) (blocks_to_swap_out : gmap nat nat)
    : M (Scheduler * list SequenceGroup * gmap nat nat * bool) :=
    let! can_append := BlockEngine_can_append_token_to_seq (block_engine self) seq_group in
    if can_append : bool then st_ret (self, preempted, blocks_to_swap_out, false)
    else match vec_pop (running self), fuel with
    | Some _, 0 => st_hang
    | Some (seq_to_preempt, rest), S fuel =>
        let! (self, blocks_to_swap_out) :=
          Scheduler__preempt (set_running self rest) seq_to_preempt blocks_to_swap_out in
        make_room fuel self seq_group (preempted ++ [seq_to_preempt]) blocks_to_swap_out
    | None, _ =>
        let! (self, blocks_to_swap_out) :=
          Scheduler__preempt self seq_group blocks_to_swap_out in
        st_ret (self, preempted ++ [seq_group], blocks_to_swap_out, true)
    end.

  (** The state of the loop over the running queue. *)
Record decode_state := mkDecode {
    ds_self : Scheduler;
    ds_running : list SequenceGroup;
    ds_preempted : list SequenceGroup;
    ds_swap_out : gmap nat nat;
    ds_copy : gmap nat (list nat);
  }.

Definition schedule_group (seq_group : SequenceGroup) (st : decode_state) : M decode_state :=
    let! (self, preempted, blocks_to_swap_out, finished_with_break) :=
      make_room (length (running (ds_self st))) (ds_self st) seq_group
        (ds_preempted st) (ds_swap_out st) in
    if finished_with_break : bool then
      st_ret (mkDecode self (ds_running st) preempted blocks_to_swap_out (ds_copy st))
    else
      let! (self, blocks_to_copy) :=
        Scheduler__append_token_slot_to_seq_group self seq_group (ds_copy st) in
      st_ret (mkDecode self (ds_running st ++ [seq_group]) preempted blocks_to_swap_out
                blocks_to_copy).

Fixpoint schedule_running (fuel : nat) (st : decode_state) : M decode_state :=
    match running (ds_self st), fuel with
    | [], _ => st_ret st
    | _ :: _, 0 => st_hang
    | seq_group :: rest, S fuel =>
        let! st := schedule_group seq_group
          (mkDecode (set_running (ds_self st) rest) (ds_running st) (ds_preempted st)
             (ds_swap_out st) (ds_copy st)) in
        schedule_running fuel st
    end.

  (** *** The swapped-out queue *)

Fixpoint schedule_swapped (fuel : nat) (self : Scheduler) (blocks_to_swap_in : gmap nat nat)
    (blocks_to_copy : gmap nat (list nat))
    : M (Scheduler * gmap nat nat * gmap nat (list nat)) :=
    match swapped_out self, fuel with
    | [], _ => st_ret (self, blocks_to_swap_in, blocks_to_copy)
    | _ :: _, 0 => st_hang
    | seq_group :: rest, S fuel =>
        if negb (BlockEngine_can_swap_in_seq_group (block_engine self) seq_group)
        then st_ret (self, blocks_to_swap_in, blocks_to_copy)
        else
          let self := set_swapped_out self rest in
          let! (to_swap_in, e) := BlockEngine_swap_in (block_engine self) seq_group in
          let self := set_block_engine self e in
          let! (self, blocks_to_copy) :=
            Scheduler__append_token_slot_to_seq_group self seq_group blocks_to_copy in
          schedule_swapped fuel (set_running self (running self ++ [seq_group]))
            (to_swap_in ∪ blocks_to_swap_in) blocks_to_copy
    end.

  (** The second part of [schedule]. *)
Definition schedule_decode (self : Scheduler) : M (SchedulerOutput * Scheduler) :=
    let self := Scheduler_sort_running_by_priority_fcfs self in
    let! st := schedule_running (length (running self)) (mkDecode self [] [] ∅ ∅) in
    let self := set_running (ds_self st) (ds_running st) in
    let self := Scheduler_sort_swapped_out_by_priority_fcfs self in
    let! (self, swap_in, copy) :=
      match ds_preempted st with
      | [] => schedule_swapped (length (swapped_out self)) self ∅ (ds_copy st)
      | _ => st_ret (self, ∅, ds_copy st)
      end in
    st_ret (mkSchedulerOutput (running self) swap_in (ds_swap_out st) copy [], self).

Definition Scheduler_schedule (self : Scheduler) : M (SchedulerOutput * Scheduler) :=
    match swapped_out self with
    | [] =>
        let! (self, scheduled, ignored) :=
          schedule_waiting (length (waiting self)) self [] [] in
        match scheduled, ignored with
        | [], [] => schedule_decode self
        | _, _ => st_ret (mkSchedulerOutput scheduled ∅ ∅ ∅ ignored, self)
        end
    | _ => schedule_decode self
    end.

  (** *** What is finished *)

Definition finished_turn (acc : list SequenceGroup * list SequenceGroup)
    (group : SequenceGroup) : M (list SequenceGroup * list SequenceGroup) :=
    let '(keep, to_free) := acc in
    let! fin := SequenceGroup_is_finished group in
    st_ret (if fin : bool then (keep, to_free ++ [group]) else (keep ++ [group], to_free)).

Definition Scheduler_free_finished_sequence_groups (self : Scheduler) : M Scheduler :=
    let! (keep, to_free) := st_fold finished_turn ([], []) (running self) in
    st_fold Scheduler__free (set_running self keep) to_free.

End SchedulerOps.
