(* ===== verification/SchedulerGroups.v ===== *)
(** * The scheduler: groups of several sequences

    The requests of the server have one sequence each; [SequenceGroup] and the
    scheduler are written for several ([best_of], beam search).  This file follows
    such a group from [allocate] on: its sequences share one table whose blocks are
    counted once, and no way out of the running queue gets through that. *)

From Stdlib Require Import ZArith SpecFloat Lia.
From stdpp Require Import base gmap sets strings pretty countable list.
From S2P Require Import Prelude Machine Sequence BlockEngine BlockEngineSwap BlockEngineSpec.
From S2P Require Import CacheEngine Scheduler.

(** ** Lemmas *)

Section GroupsLemmas.
  Context `{LogprobsSig} `{HashOrder}.
  Implicit Types w : World.
  Implicit Types e : BlockEngine.
  Implicit Types g : SequenceGroup.

  (** The first two sequences of a group, in the order of its map. *)
Lemma first_two g :
    2 ≤ size (seqs g) →
    ∃ i1 p1 i2 p2 l, hash_iter (seqs g) = (i1, p1) :: (i2, p2) :: l ∧ i1 ≠ i2 ∧
      seqs g !! i1 = Some p1 ∧ seqs g !! i2 = Some p2.
  Proof.
    intros Hs. pose proof (hash_iter_perm (seqs g)) as Hp.
    pose proof (Permutation_length Hp) as Hl. rewrite length_map_to_list in Hl.
    pose proof (NoDup_fst_map_to_list (seqs g)) as Hnd. rewrite <- Hp in Hnd.
    assert (Hin : ∀ i p, (i, p) ∈ hash_iter (seqs g) → seqs g !! i = Some p)
      by (intros i p; rewrite Hp; apply elem_of_map_to_list).
    destruct (hash_iter (seqs g)) as [|[i1 p1] [|[i2 p2] l]]; simpl in Hl; [lia .. |].
    exists i1, p1, i2, p2, l. split_and!; [done | | apply Hin; set_solver ..].
    apply NoDup_cons in Hnd as [Hnd _]. set_solver.
  Qed.

Lemma shared_free_panics e g t R w :
    shares_table e g t R w → 2 ≤ size (seqs g) →
    st_fold BlockEngine_free_sequence e (hash_values (seqs g)) w = Panic.
  Proof.
    intros Hsh Hs. destruct (first_two g Hs) as (i1 & p1 & i2 & p2 & l & E & Hne & Hg1 & Hg2).
    unfold hash_values. rewrite E. cbn [fmap list_fmap st_fold snd].
    destruct (shared_free_twice e g t R i1 i2 p1 p2 w Hsh Hne Hg1 Hg2) as (e2 & w2 & E1 & E2).
    rewrite (st_bind_done _ _ _ _ _ E1). by apply st_bind_panic.
  Qed.

  (** Statuses are not in the way. *)
Lemma shares_status e g t R st w :
    shares_table e g t R w →
    shares_table e g t R (set_seqs (with_status st (hash_values (seqs g))) w).
  Proof.
    intros [HI Hf Hu Ht Hap Htab Hok].
    split; [by destruct HI; split | exact Hf | exact Hu | exact Ht | exact Hap | exact Htab |].
    intros id p Hp. destruct (Hok id p Hp) as [Hl (q & Hq & Hid)]. split; [exact Hl |].
    simpl. rewrite with_status_lookup, Hq. by case_decide; eexists.
  Qed.

Lemma status_finished g st w :
    group_ok g w → status_is_finished st = true →
    SequenceGroup_is_finished g (set_seqs (with_status st (hash_values (seqs g))) w) =
      Done true (set_seqs (with_status st (hash_values (seqs g))) w).
  Proof.
    intros Hok Hst. rewrite group_is_finished_eq.
    - f_equal. apply forallb_forall. intros p Hp%list_elem_of_In.
      pose proof Hp as [id Hid]%elem_of_hash_values. destruct (Hok id p Hid) as [_ (q & Hq & _)].
      unfold seq_field. simpl. by rewrite with_status_lookup, decide_True, Hq.
    - intros id p Hp. destruct (Hok id p Hp) as [Hl (q & Hq & Hid)]. split; [exact Hl |].
      simpl. rewrite with_status_lookup, Hq. by case_decide; eexists.
  Qed.

  (** A table that two sequences share mentions its blocks twice. *)
Lemma shared_numbers e g t R w :
    shares_table e g t R w → 2 ≤ size (seqs g) →
    ¬ NoDup (table_numbers e w (hash_keys (seqs g))).
  Proof.
    intros Hsh Hs Hnd. destruct (first_two g Hs) as (i1 & p1 & i2 & p2 & l & E & _ & Hg1 & Hg2).
    unfold table_numbers, hash_keys in Hnd. rewrite E in Hnd. simpl in Hnd. unfold table_of in Hnd.
    rewrite (sh_tables _ _ _ _ _ Hsh i1), (sh_tables _ _ _ _ _ Hsh i2) in Hnd by by eexists.
    destruct t as [|x t]; [by apply (sh_nonempty _ _ _ _ _ Hsh) |]. simpl in Hnd.
    apply NoDup_cons in Hnd as [Hnd _]. set_solver.
  Qed.

Lemma shared_swap_out_never e g t R w r w' :
    shares_table e g t R w → 2 ≤ size (seqs g) → BlockEngine_swap_out e g w ≠ Done r w'.
  Proof.
    intros Hsh Hs E. apply (shared_numbers e g t R w Hsh Hs).
    unfold BlockEngine_swap_out in E. apply st_bind_Done in E as (a & w1 & E & _).
    by apply (wlp_done _ _ _ _ _ (wlp_swap_seqs e ∅ _ w (NoDup_hash_keys _)) E).
  Qed.

Lemma abort_shared self g t R w :
    shares_table (block_engine self) g t R w → 2 ≤ size (seqs g) →
    Scheduler__abort_seq_group self g w = Panic.
  Proof.
    intros Hsh Hs. unfold Scheduler__abort_seq_group.
    rewrite (st_bind_done _ _ _ _ _ (set_status_eq g FinishedAborted w (sh_group _ _ _ _ _ Hsh))).
    apply st_bind_panic. simpl. eapply shared_free_panics; [| done]. by apply shares_status.
  Qed.

End GroupsLemmas.

(** ** Properties *)

Section GroupsProperties.
  Context `{LogprobsSig} `{HashOrder}.
  Implicit Types w : World.
  Implicit Types self : Scheduler.
  Implicit Types g : SequenceGroup.

  (** C40: a group of several sequences never leaves the running queue.  Once the
      scheduler has allocated its blocks, aborting it panics, preempting it panics or
      never returns, and when its sequences are finished, whatever the reason,
      [free_finished_sequence_groups] panics. *)
Theorem shared_group_never_leaves self g id p q w self1 w1 :
    engine_inv (block_engine self) w → group_ok g w → 2 ≤ size (seqs g) →
    seqs g !! id = Some p → w_seqs w !! p = Some q → logical_token_blocks q ≠ [] →
    Scheduler__allocate self g w = Done self1 w1 →
    Scheduler__abort_seq_group self1 g w1 = Panic ∧
    (∀ swaps r w', Scheduler__preempt self1 g swaps w1 ≠ Done r w') ∧
    ∀ reason, ∃ w2, SequenceGroup_set_status g (Finished reason) w1 = Done tt w2 ∧
      Scheduler_free_finished_sequence_groups (set_running self1 [g]) w2 = Panic.
  Proof.
    intros HE Hok Hs Hg Hq Hb Ha. apply st_bind_Done in Ha as (e1 & w1' & Ha & [= <- <-]).
    destruct (allocate_shares _ g id p q w e1 w1' HE Hok Hg Hq Hb Ha) as (t & R & Hsh).
    pose proof (abort_shared (set_block_engine self e1) g t R w1' Hsh Hs) as Habort.
    split_and!; [done | |].
    - intros swaps r w' E. unfold Scheduler__preempt in E.
      destruct (size (seqs g)) as [|[|n]] eqn:En; [lia .. |].
      unfold Scheduler__preempt_by_swap in E. destruct (negb _).
      + apply st_bind_Done in E as (s & w2 & E & _). by rewrite Habort in E.
      + apply st_bind_Done in E as ([m e] & w2 & E & _).
        eapply (shared_swap_out_never e1 g t R w1'), E; [exact Hsh | lia].
    - intros reason. eexists. split; [by apply set_status_eq, Hsh |].
      pose proof (status_finished g (Finished reason) w1' (sh_group _ _ _ _ _ Hsh) eq_refl) as Hfin.
      pose proof (shares_status _ g t R (Finished reason) w1' Hsh) as Hsh2.
      pose proof (shared_free_panics _ g t R _ Hsh2 Hs) as Hfree.
      unfold Scheduler_free_finished_sequence_groups. cbn [running set_running st_fold].
      unfold st_bind, finished_turn. unfold st_bind. rewrite Hfin. simpl.
      unfold Scheduler__free, st_bind. simpl. by rewrite Hfree.
  Qed.

End GroupsProperties.

(** *** Witnesses *)

Section GroupsExamples.

  #[local] Existing Instance plain_logprobs.
  #[local] Existing Instance canonical_order.

  (** The group of two sequences of [BlockEngineSpec], on a scheduler. *)
Definition ex_pair_scheduler : Scheduler := mkScheduler [] [] [] {| max_num_seqs := 8 |} ex_e0.

Lemma shared_group_never_leaves_witness :
    let o := Scheduler__allocate ex_pair_scheduler ex_pair ex_w_pair in
    o = Done (result_of ex_pair_scheduler o) (world_of o) ∧
    Scheduler__abort_seq_group (result_of ex_pair_scheduler o) ex_pair (world_of o) = Panic.
  Proof.
    intros o. assert (E : o = Done (result_of ex_pair_scheduler o) (world_of o)) by by vm_compute.
    split; [exact E |]. destruct ex_pair_ok as [HI Hok].
    exact (proj1 (shared_group_never_leaves ex_pair_scheduler ex_pair 0 0 ex_seq ex_w_pair _ _
      HI Hok ltac:(by vm_compute; lia) ltac:(by vm_compute) ltac:(by vm_compute) ltac:(done) E)).
  Defined.

End GroupsExamples.
