(* ===== verification/SchedulerInv.v ===== *)
(** * The scheduler: invariant and lemmas

    The invariant that ties the queues to the block tables, for groups of one
    sequence (the only groups [add_request] builds), and what each operation of
    the scheduler does to it. *)

From Stdlib Require Import ZArith SpecFloat Lia.
From stdpp Require Import base gmap sets strings countable list.
From S2P Require Import Prelude Machine Sequence BlockEngine BlockEngineSwap Scheduler.

(** ** The sort *)

Section Sort.
  Context {A : Type} (key : A → nat).

  (** In ascending, in descending order of the key. *)
Definition ascending (l : list A) : Prop :=
    ∀ l1 x l2 y l3, l = l1 ++ x :: l2 ++ y :: l3 → key x ≤ key y.

Lemma ascending_cons x l : ascending (x :: l) ↔ (∀ y, y ∈ l → key x ≤ key y) ∧ ascending l.
  Proof.
    split.
    - intros Ha. split.
      + intros y (l2 & l3 & ->)%list_elem_of_split. by apply (Ha [] x l2 y l3).
      + intros l1 a l2 b l3 ->. by apply (Ha (x :: l1) a l2 b l3).
    - intros [Hx Ha] [|a l1] b l2 c l3 [= <- ->].
      + apply Hx. set_solver.
      + by eapply Ha.
  Qed.

Lemma insert_by_key_perm x l : insert_by_key key x l ≡ₚ x :: l.
  Proof.
    induction l as [|y l IH]; simpl; [done |]. destruct (key x <=? key y); [done |].
    rewrite IH. apply Permutation_swap.
  Qed.

Lemma sort_by_key_perm l : sort_by_key key l ≡ₚ l.
  Proof. induction l as [|x l IH]; simpl; [done |]. by rewrite insert_by_key_perm, IH. Qed.

Lemma insert_by_key_ascending x l : ascending l → ascending (insert_by_key key x l).
  Proof.
    induction l as [|y l IH]; simpl; intros Ha.
    - apply ascending_cons. split; [set_solver | exact Ha].
    - apply ascending_cons in Ha as Ha'. destruct Ha' as [Hy Hl].
      destruct (Nat.leb_spec (key x) (key y)).
      + apply ascending_cons. split; [| done]. intros z [->|Hz]%elem_of_cons; [done |].
        specialize (Hy z Hz). lia.
      + apply ascending_cons. split; [| by apply IH].
        intros z. rewrite insert_by_key_perm. intros [->|Hz]%elem_of_cons; [lia | by apply Hy].
  Qed.

Lemma sort_by_key_ascending l : ascending (sort_by_key key l).
  Proof.
    induction l as [|x l IH]; simpl; [| by apply insert_by_key_ascending].
    intros l1 a l2 b l3 E. by apply app_cons_not_nil in E.
  Qed.

  (** Stability: elements of equal key keep their order. *)
Lemma insert_by_key_stable k x l :
    filter (λ y, key y = k) (insert_by_key key x l) = filter (λ y, key y = k) (x :: l).
  Proof.
    induction l as [|y l IH]; simpl; [done |].
    destruct (Nat.leb_spec (key x) (key y)); [done |].
    rewrite filter_cons, IH, !filter_cons. repeat case_decide; simplify_eq; lia || done.
  Qed.

Lemma sort_by_key_stable k l :
    filter (λ y, key y = k) (sort_by_key key l) = filter (λ y, key y = k) l.
  Proof.
    induction l as [|x l IH]; simpl; [done |].
    rewrite insert_by_key_stable, !filter_cons. by rewrite IH.
  Qed.

  (** The order both queues are put in. *)
Lemma reverse_sort_descending l l1 x l2 y l3 :
    reverse (sort_by_key key l) = l1 ++ x :: l2 ++ y :: l3 → key y ≤ key x.
  Proof.
    intros E. apply (f_equal reverse) in E. rewrite reverse_involutive in E.
    eapply (sort_by_key_ascending l (reverse l3) y (reverse l2) x (reverse l1)).
    rewrite E. by rewrite !reverse_app, !reverse_cons, !reverse_app, reverse_cons, <- !app_assoc.
  Qed.

End Sort.

(** ** The invariant *)

Section SchedulerInvariant.
  Context `{LogprobsSig} `{HashOrder}.

  (** What the scheduler changes in the world: block counts, and statuses. *)
Definition pages_of (q : _Sequence) : nat * list LogicalTokenBlock * (nat * list nat) :=
    (seq_id q, logical_token_blocks q, (seq_block_size q, token_ids (data q))).

Record sched_frame (w w' : World) : Prop := {
    sc_held : w_held w' = w_held w;
    sc_pages : ∀ p, pages_of <$> w_seqs w' !! p = pages_of <$> w_seqs w !! p;
  }.

  (** How much the tables are known to cover.  [need] is the number of blocks that
      the table of a running sequence has at least, and [fit] what is known of a
      sequence in the queues. *)
Class Cover := {
    need : _Sequence → nat;
    fit : _Sequence → Prop;
    need_pages q q' : pages_of q = pages_of q' → need q = need q';
    fit_pages q q' : pages_of q = pages_of q' → fit q → fit q';
    need_le q : need q ≤ length (logical_token_blocks q);
    need_pos q : logical_token_blocks q ≠ [] → 0 < need q;
  }.

  (** Every sequence has a page, and its table a block for each of its pages. *)
#[refine] Definition pages_cover : Cover := {|
    need q := length (logical_token_blocks q);
    fit q := logical_token_blocks q ≠ [];
  |}.
  Proof.
    - by intros q q' [= _ -> _ _].
    - by intros q q' [= _ -> _ _].
    - done.
    - intros q Hne. by destruct (logical_token_blocks q); simpl; [| lia].
  Defined.

  (** A sequence may have no page; the table of one that has is not empty. *)
#[refine] Definition loose_cover : Cover := {|
    need q := 1 `min` length (logical_token_blocks q);
    fit q := True;
  |}.
  Proof.
    - by intros q q' [= _ -> _ _].
    - done.
    - lia.
    - intros q Hne. by destruct (logical_token_blocks q); simpl; [| lia].
  Defined.

  Context {cover : Cover}.

Definition group_seq_ids (l : list SequenceGroup) : list nat :=
    concat ((λ g, hash_keys (seqs g)) <$> l).

Definition group_single (w : World) (g : SequenceGroup) : Prop :=
    ∃ p q, single g p q w ∧ fit q.

  (** A group without a page. *)
Definition pageless (w : World) (g : SequenceGroup) : Prop :=
    ∃ p q, single g p q w ∧ logical_token_blocks q = [].

  (** The table of the group has what it needs, with [n q] to spare. *)
Definition covered (n : _Sequence → nat) (e : BlockEngine) (w : World) (g : SequenceGroup)
    : Prop :=
    ∀ p q, single g p q w → ∃ t, block_tables e !! seq_id q = Some t ∧
      need q + n q ≤ length t.

  (** [wt] are the groups that hold no blocks, [act] the ones that do, [rdy]
      those of them that have room for one more token already. *)
Record queues_inv (e : BlockEngine) (wt act rdy : list SequenceGroup) (w : World) : Prop := {
    qi_engine : engine_inv e w;
    qi_unshared : NoDup (table_refs e);
    qi_capacity : length (gpu_free e) + length (table_refs e) = num_gpu_blocks e;
    qi_single : ∀ g, g ∈ wt ++ act ++ rdy → group_single w g;
    qi_ids : NoDup (group_seq_ids (wt ++ act ++ rdy));
    qi_tables : ∀ id, is_Some (block_tables e !! id) ↔ id ∈ group_seq_ids (act ++ rdy);
    qi_cover : ∀ g, g ∈ act → covered (λ _, 0) e w g;
    qi_ready : ∀ g, g ∈ rdy → covered _Sequence_blocks_to_add_new_tok e w g;
  }.

Record sched_inv (self : Scheduler) (w : World) : Prop := {
    si_queues : queues_inv (block_engine self) (waiting self) (running self) [] w;
    si_swapped : swapped_out self = [];
  }.

End SchedulerInvariant.

#[export] Instance group_seq_ids_proper `{HashOrder} : Proper ((≡ₚ) ==> (≡ₚ)) group_seq_ids.
Proof. intros l1 l2 Hl. unfold group_seq_ids. by rewrite Hl. Qed.

#[export] Instance sched_frame_equiv `{LogprobsSig} : Equivalence sched_frame.
Proof.
  split.
  - by split.
  - intros w1 w2 [A1 A2]. by split.
  - intros w1 w2 w3 [A1 A2] [B1 B2]. split; [congruence |]. intros p. by rewrite B2, A2.
Qed.

#[export] Instance queues_inv_proper `{LogprobsSig} `{HashOrder} {cover : Cover} :
  Proper ((=) ==> (≡ₚ) ==> (≡ₚ) ==> (≡ₚ) ==> (=) ==> iff) queues_inv.
Proof.
  assert (Hone : ∀ e wt wt' act act' rdy rdy' w,
    wt ≡ₚ wt' → act ≡ₚ act' → rdy ≡ₚ rdy' →
    queues_inv e wt act rdy w → queues_inv e wt' act' rdy' w).
  { intros e wt wt' act act' rdy rdy' w H1 H2 H3 [? ? ? Hs Hi Ht Hc Hr].
    split; try done.
    - intros g. rewrite <- H1, <- H2, <- H3. apply Hs.
    - by rewrite <- H1, <- H2, <- H3.
    - intros id. rewrite <- H2, <- H3. apply Ht.
    - intros g. rewrite <- H2. apply Hc.
    - intros g. rewrite <- H3. apply Hr. }
  intros e ? <- wt wt' H1 act act' H2 rdy rdy' H3 w ? <-. split; by apply Hone.
Qed.

(** ** Lemmas: frames *)

Section QueueLemmas.
  Context `{LogprobsSig} `{HashOrder} {cover : Cover}.
  Implicit Types w : World.
  Implicit Types e : BlockEngine.
  Implicit Types g : SequenceGroup.

Lemma group_seq_ids_app l1 l2 : group_seq_ids (l1 ++ l2) = group_seq_ids l1 ++ group_seq_ids l2.
  Proof. unfold group_seq_ids. by rewrite fmap_app, concat_app. Qed.

Lemma group_seq_ids_cons g l : group_seq_ids (g :: l) = hash_keys (seqs g) ++ group_seq_ids l.
  Proof. done. Qed.

Lemma elem_of_group_seq_ids id g l :
    g ∈ l → id ∈ hash_keys (seqs g) → id ∈ group_seq_ids l.
  Proof.
    intros (l1 & l2 & ->)%list_elem_of_split Hid.
    rewrite group_seq_ids_app, group_seq_ids_cons. set_solver.
  Qed.

Lemma same_sched_frame w w' : same_frame w w' → sched_frame w w'.
  Proof. intros [E1 E2 _]. split; [done |]. by rewrite E1. Qed.

Lemma single_sched_frame w w' g p q :
    sched_frame w w' → single g p q w →
    ∃ q', single g p q' w' ∧ pages_of q' = pages_of q.
  Proof.
    intros [Eh Ep] [Hs Hq [H1 H2]]. specialize (Ep p). rewrite Hq in Ep. simpl in Ep.
    destruct (w_seqs w' !! p) as [q'|] eqn:Hq'; [| done]. injection Ep as E1 E2 E3 E4.
    exists q'. split; [| by unfold pages_of; rewrite E1, E2, E3, E4].
    split; [by rewrite E1 | done |].
    split; by rewrite Eh.
  Qed.

Lemma single_unique g p q p' q' w : single g p q w → single g p' q' w → p' = p ∧ q' = q.
  Proof.
    intros [Hs Hq _] [Hs' Hq' _]. rewrite Hs in Hs'.
    apply (f_equal map_to_list) in Hs'. rewrite !map_to_list_singleton in Hs'.
    by simplify_eq.
  Qed.

Lemma group_single_frame w w' g : sched_frame w w' → group_single w g → group_single w' g.
  Proof.
    intros Hf (p & q & Hs & Hfit). destruct (single_sched_frame w w' g p q Hf Hs) as (q' & Hs' & E).
    exists p, q'. split; [done |]. by apply (fit_pages q).
  Qed.

Lemma pageless_frame w w' g : sched_frame w w' → pageless w g → pageless w' g.
  Proof.
    intros Hf (p & q & Hs & Hn). destruct (single_sched_frame w w' g p q Hf Hs) as (q' & Hs' & E).
    exists p, q'. split; [done |]. injection E as _ E _ _. by rewrite E.
  Qed.

Lemma covered_step (n : _Sequence → nat) e e' w w' g :
    (∀ q q', pages_of q = pages_of q' → n q = n q') → sched_frame w w' →
    (∀ id, id ∈ hash_keys (seqs g) → block_tables e' !! id = block_tables e !! id) →
    covered n e w g → covered n e' w' g.
  Proof.
    intros Hn Hf Ht Hc p q Hs.
    destruct (single_sched_frame w' w g p q (symmetry Hf) Hs) as (q0 & Hs0 & E).
    destruct (Hc p q0 Hs0) as (t & Hl & Hlen). rewrite (Hn q0 q E), (need_pages q0 q E) in Hlen.
    injection E as Eid _ _ _. exists t. rewrite <- Eid. split; [| done].
    rewrite Ht; [done |]. rewrite (single_keys _ _ _ _ Hs). set_solver.
  Qed.

Lemma blocks_to_add_pages q q' :
    pages_of q = pages_of q' → _Sequence_blocks_to_add_new_tok q = _Sequence_blocks_to_add_new_tok q'.
  Proof. intros [= _ E _ _]. unfold _Sequence_blocks_to_add_new_tok. by rewrite E. Qed.

Lemma engine_inv_ext e w w' :
    w_blocks w' = w_blocks w → w_held w' = w_held w → engine_inv e w → engine_inv e w'.
  Proof.
    intros Eb Eh [HI Hf Hu]. split.
    - unfold blocks_inv in *. by rewrite Eb.
    - by eapply flags_blocks.
    - intros p. by rewrite Eh.
  Qed.

Lemma queues_frame e wt act rdy w w' :
    sched_frame w w' → engine_inv e w' → queues_inv e wt act rdy w → queues_inv e wt act rdy w'.
  Proof.
    intros Hf He [? ? ? Hs ? ? Hc Hr]. split; try done.
    - intros g Hg. by eapply group_single_frame, Hs.
    - intros g Hg. eapply covered_step; eauto.
    - intros g Hg. eapply covered_step; eauto using blocks_to_add_pages.
  Qed.

Lemma set_status_single g p q st w :
    single g p q w →
    wp (SequenceGroup_set_status g st) (λ _ w',
      sched_frame w w' ∧ w_blocks w' = w_blocks w ∧ w_held w' = w_held w) w.
  Proof.
    intros Hs. unfold wp. rewrite (set_status_eq g st w) by by eapply single_ok.
    split; [| done]. split; [done |]. intros p'. simpl. rewrite with_status_lookup.
    case_decide; [| done]. by destruct (w_seqs w !! p').
  Qed.

Lemma set_status_queues e wt act rdy g st w :
    g ∈ wt ++ act ++ rdy → queues_inv e wt act rdy w →
    wp (SequenceGroup_set_status g st) (λ _ w',
      queues_inv e wt act rdy w' ∧ sched_frame w w') w.
  Proof.
    intros Hg HI. destruct (qi_single _ _ _ _ _ HI g Hg) as (p & q & Hs & _).
    eapply wp_mono; [by eapply set_status_single |]. intros _ w' (Hf & Eb & Eh).
    split; [| done]. eapply queues_frame; [done | | done].
    eapply engine_inv_ext; [done .. |]. apply HI.
  Qed.

End QueueLemmas.

(** ** Lemmas: what the engine's operations do to the queues *)

Section StepLemmas.
  Context `{LogprobsSig} `{HashOrder} {cover : Cover}.
  Implicit Types w : World.
  Implicit Types e : BlockEngine.
  Implicit Types g : SequenceGroup.

  (** The id of [g] is in no other group. *)
Lemma queues_ids_apart e wt act rdy w g p q l :
    queues_inv e wt act rdy w → single g p q w → wt ++ act ++ rdy ≡ₚ g :: l →
    seq_id q ∉ group_seq_ids l ∧ NoDup (group_seq_ids l).
  Proof.
    intros HI Hs Hl. pose proof (qi_ids _ _ _ _ _ HI) as Hnd.
    rewrite Hl, group_seq_ids_cons, (single_keys _ _ _ _ Hs) in Hnd. simpl in Hnd.
    by apply NoDup_cons in Hnd.
  Qed.

Lemma other_keys g l p q w id :
    single g p q w → seq_id q ∉ group_seq_ids l → id ∈ group_seq_ids l → id ≠ seq_id q.
  Proof. intros _ Hni Hid ->. done. Qed.

Lemma table_in_refs e id t : block_tables e !! id = Some t → t ⊆ table_refs e.
  Proof.
    intros Ht x Hx. rewrite (table_refs_delete e (set_tables e (delete id (block_tables e))) id t)
      by done. set_solver.
  Qed.

  (** A group loses its table. *)
Lemma free_group e wt g act rdy w :
    queues_inv e wt (g :: act) rdy w →
    wp (st_fold BlockEngine_free_sequence e (hash_values (seqs g))) (λ e' w',
      queues_inv e' (g :: wt) act rdy w' ∧ sched_frame w w') w.
  Proof.
    intros HI. pose proof HI as [HE Hun Hcap Hsi Hid Htb Hc Hr].
    destruct (Hsi g) as (p & q & Hs & Hne); [set_solver |].
    rewrite (single_values _ _ _ _ Hs). simpl. apply wp_bind.
    destruct (Hc g ltac:(set_solver) p q Hs) as (t & Ht & _).
    set (e1 := set_tables e (delete (seq_id q) (block_tables e))).
    assert (Hrefs : table_refs e ≡ₚ t ++ table_refs e1) by by apply table_refs_delete with (seq_id q).
    rewrite Hrefs in Hun. apply NoDup_app in Hun as (Hnt & Hdis & Hn1).
    eapply wp_mono; [apply free_sequence_spec; [exact HE | apply Hs .. | exact Ht] |].
    intros e' w' (He' & HE' & Hfr). apply wp_ret. fold e1 in He'.
    rewrite freed_of_disjoint in He' by done.
    split; [| by apply same_sched_frame].
    apply same_sched_frame in Hfr.
    destruct (queues_ids_apart e wt (g :: act) rdy w g p q (wt ++ act ++ rdy) HI Hs)
      as [Hni Hnd]; [by rewrite Permutation_middle |].
    rewrite !group_seq_ids_app in Hni.
    assert (Hkeep : ∀ id, id ∈ group_seq_ids (act ++ rdy) →
                          block_tables e' !! id = block_tables e !! id).
    { intros id Hin. rewrite He'. simpl. rewrite lookup_delete_ne; [done |].
      rewrite group_seq_ids_app in Hin. set_solver. }
    split.
    - exact HE'.
    - by rewrite He'.
    - rewrite He'. unfold gpu_free at 1; simpl. rewrite length_app, <- Hcap, Hrefs, length_app.
      change (table_refs (set_gpu e1 ?a)) with (table_refs e1). simpl. lia.
    - intros g' Hg'. eapply group_single_frame, Hsi; [done | set_solver].
    - rewrite <- app_comm_cons, Permutation_middle. by rewrite <- app_comm_cons in Hid.
    - intros id. rewrite He'. simpl. rewrite lookup_delete_is_Some, Htb.
      rewrite <- app_comm_cons, group_seq_ids_cons, (single_keys _ _ _ _ Hs), group_seq_ids_app.
      set_solver.
    - intros g' Hg'. eapply covered_step; [done | done | | apply Hc; set_solver].
      intros id Hin. apply Hkeep. eapply elem_of_group_seq_ids; [| done]. set_solver.
    - intros g' Hg'. eapply covered_step; [apply blocks_to_add_pages | done | | apply Hr; set_solver].
      intros id Hin. apply Hkeep. eapply elem_of_group_seq_ids; [| done]. set_solver.
  Qed.

  (** A waiting group gets its table. *)
Lemma allocate_group_step e wt g act rdy w p q :
    queues_inv e (g :: wt) act rdy w → single g p q w →
    length (logical_token_blocks q) ≤ length (gpu_free e) →
    wp (BlockEngine_allocate e g) (λ e' w',
      queues_inv e' wt (g :: act) rdy w' ∧ sched_frame w w' ∧
      length (gpu_free e') + length (logical_token_blocks q) = length (gpu_free e) ∧
      num_gpu_blocks e' = num_gpu_blocks e) w.
  Proof.
    intros HI Hs Hn. pose proof HI as [HE Hun Hcap Hsi Hid Htb Hc Hr].
    destruct (queues_ids_apart e (g :: wt) act rdy w g p q (wt ++ act ++ rdy) HI Hs)
      as [Hni Hnd]; [done |].
    rewrite !group_seq_ids_app in Hni.
    assert (Hnone : block_tables e !! seq_id q = None).
    { apply eq_None_not_Some. rewrite Htb, group_seq_ids_app. set_solver. }
    eapply wp_mono; [by apply (allocate_single e g p q w) |].
    intros e' w' (new & rest & Hl & Hg & He' & HE' & Hfr).
    apply same_sched_frame in Hfr.
    assert (Hrefs : table_refs e' ≡ₚ new ++ table_refs e)
      by (apply table_refs_insert with (seq_id q); [done | by rewrite He']).
    assert (Hlen : length (gpu_free e') + length (logical_token_blocks q) = length (gpu_free e)).
    { rewrite Hg, He', length_app, length_reverse. unfold gpu_free; simpl. lia. }
    assert (Hkeep : ∀ id, id ∈ group_seq_ids (act ++ rdy) →
                          block_tables e' !! id = block_tables e !! id).
    { intros id Hin. rewrite He'. simpl. rewrite lookup_insert_ne; [done |].
      rewrite group_seq_ids_app in Hin. set_solver. }
    split_and!; [| done | done | by rewrite He']. split.
    - exact HE'.
    - rewrite Hrefs. pose proof (bi_nodup _ _ _ _ (ei_blocks _ _ HE)) as Hnf.
      rewrite Hg, <- app_assoc in Hnf. apply NoDup_app in Hnf as (_ & _ & Hnf).
      apply NoDup_app in Hnf as (Hnf & _ & _). rewrite reverse_Permutation in Hnf.
      apply NoDup_app. split_and!; [done | | done]. intros x Hx.
      eapply free_not_referenced; [apply HE |]. rewrite Hg, !elem_of_app, elem_of_reverse. tauto.
    - rewrite Hrefs, length_app, Hl. replace (num_gpu_blocks e') with (num_gpu_blocks e)
        by by rewrite He'. lia.
    - intros g' Hg'. eapply group_single_frame, Hsi; [done | set_solver].
    - rewrite <- app_comm_cons, <- Permutation_middle. by rewrite <- app_comm_cons in Hid.
    - intros id. rewrite He'. simpl. rewrite lookup_insert_is_Some', Htb.
      rewrite group_seq_ids_cons, (single_keys _ _ _ _ Hs), group_seq_ids_app. set_solver.
    - intros g' [->|Hg']%elem_of_cons.
      + intros p' q' Hs'.
        destruct (single_sched_frame w w' g p q Hfr Hs) as (q2 & Hs2 & E).
        destruct (single_unique g p q2 p' q' w' Hs2 Hs') as [-> ->].
        pose proof (need_le q) as Hle. rewrite <- (need_pages q2 q E) in Hle. injection E as Eid.
        rewrite Eid, He'. simpl. exists new. split; [apply lookup_insert_eq | lia].
      + eapply covered_step; [done | done | | apply Hc; set_solver].
        intros id Hin. apply Hkeep. eapply elem_of_group_seq_ids; [| done]. set_solver.
    - intros g' Hg'. eapply covered_step; [apply blocks_to_add_pages | done | | apply Hr; set_solver].
      intros id Hin. apply Hkeep. eapply elem_of_group_seq_ids; [| done]. set_solver.
  Qed.

Lemma queues_ready e wt g act rdy w :
    queues_inv e wt (g :: act) rdy w → covered _Sequence_blocks_to_add_new_tok e w g →
    queues_inv e wt act (g :: rdy) w.
  Proof.
    intros [HE Hun Hcap Hsi Hid Htb Hc Hr] Hg. split; try done.
    - intros g' Hg'. apply Hsi. set_solver.
    - by rewrite <- Permutation_middle.
    - intros id. rewrite Htb. by rewrite <- Permutation_middle.
    - intros g' Hg'. apply Hc. set_solver.
    - intros g' [->|Hg']%elem_of_cons; [done | by apply Hr].
  Qed.

Lemma queues_unready e wt g act rdy w :
    queues_inv e wt act (g :: rdy) w → queues_inv e wt (g :: act) rdy w.
  Proof.
    intros [HE Hun Hcap Hsi Hid Htb Hc Hr]. split; try done.
    - intros g' Hg'. apply Hsi. set_solver.
    - by rewrite <- Permutation_middle in Hid.
    - intros id. rewrite Htb. by rewrite <- Permutation_middle.
    - intros g' [->|Hg']%elem_of_cons; [| by apply Hc].
      intros p q Hs. destruct (Hr g ltac:(set_solver) p q Hs) as (t & Ht & Hl).
      exists t. split; [done | lia].
    - intros g' Hg'. apply Hr. set_solver.
  Qed.

Lemma queues_unready_all e wt rdy w :
    queues_inv e wt [] rdy w → queues_inv e wt rdy [] w.
  Proof.
    rewrite <- (app_nil_r rdy) at 2. generalize (@nil SequenceGroup) at 1 2.
    induction rdy as [|g rdy IH]; intros act HI; [done |].
    apply queues_unready, IH in HI. by rewrite <- Permutation_middle in HI.
  Qed.

  (** A group leaves the queues. *)
Lemma queues_drop e wt g act rdy w :
    queues_inv e (g :: wt) act rdy w → queues_inv e wt act rdy w.
  Proof.
    intros [HE Hun Hcap Hsi Hid Htb Hc Hr]. split; try done.
    - intros g' Hg'. apply Hsi. set_solver.
    - rewrite <- app_comm_cons, group_seq_ids_cons in Hid.
      by apply NoDup_app in Hid as (_ & _ & Hid).
  Qed.

Lemma can_append_single e g p q w :
    single g p q w →
    BlockEngine_can_append_token_to_seq e g w =
    Done (_Sequence_blocks_to_add_new_tok q <=? length (gpu_free e)) w.
  Proof.
    intros Hs. unfold BlockEngine_can_append_token_to_seq, st_bind.
    by rewrite (single_blocks_to_add _ _ _ _ Hs).
  Qed.

  (** The queues after a block was pushed onto the table of a group. *)
Lemma queues_push e e' wt g act rdy w w' p q t new rest :
    queues_inv e wt (g :: act) rdy w → single g p q w →
    block_tables e !! seq_id q = Some t → _Sequence_blocks_to_add_new_tok q = 1 →
    need q ≤ length t → gpu_free e = rest ++ [new] →
    e' = set_tables (set_gpu e {| free_blocks := rest |}) (<[seq_id q:=t ++ [new]]> (block_tables e)) →
    engine_inv e' w' → sched_frame w w' →
    queues_inv e' wt act (g :: rdy) w'.
  Proof.
    intros HI Hs Ht Hadd Hlt Hg He' HE' Hfr. pose proof HI as [HE Hun Hcap Hsi Hid Htb Hc Hr].
    destruct (queues_ids_apart e wt (g :: act) rdy w g p q (wt ++ act ++ rdy) HI Hs)
      as [Hni Hnd]; [by rewrite Permutation_middle |].
    rewrite !group_seq_ids_app in Hni.
    assert (Hrefs : table_refs e' ≡ₚ new :: table_refs e)
      by (apply table_refs_push with (seq_id q) t; [done | by rewrite He']).
    assert (Hkeep : ∀ g', g' ∈ act ++ rdy → ∀ id, id ∈ hash_keys (seqs g') →
                          block_tables e' !! id = block_tables e !! id).
    { intros g' Hg' id Hin%(elem_of_group_seq_ids _ g' (act ++ rdy)); [| done].
      rewrite He'. simpl. rewrite lookup_insert_ne; [done |].
      rewrite group_seq_ids_app in Hin. set_solver. }
    assert (Hcov : covered _Sequence_blocks_to_add_new_tok e' w' g).
    { intros p' q' Hs'.
      destruct (single_sched_frame w w' g p q Hfr Hs) as (q2 & Hs2 & E).
      destruct (single_unique g p q2 p' q' w' Hs2 Hs') as [-> ->].
      rewrite (blocks_to_add_pages q2 q E), (need_pages q2 q E), Hadd. injection E as Eid.
      rewrite Eid, He'. simpl. exists (t ++ [new]).
      split; [apply lookup_insert_eq | rewrite length_app; simpl; lia]. }
    apply queues_ready; [| done]. split.
    - exact HE'.
    - rewrite Hrefs. apply NoDup_cons. split; [| done].
      eapply free_not_referenced; [apply HE |]. rewrite Hg. set_solver.
    - rewrite Hrefs. replace (num_gpu_blocks e') with (num_gpu_blocks e) by by rewrite He'.
      rewrite <- Hcap, Hg, He', length_app. unfold gpu_free; simpl. lia.
    - intros g' Hg'. by eapply group_single_frame, Hsi.
    - done.
    - intros id. rewrite He'. simpl. rewrite lookup_insert_is_Some', Htb.
      rewrite <- app_comm_cons, group_seq_ids_cons, (single_keys _ _ _ _ Hs). set_solver.
    - intros g' [->|Hg']%elem_of_cons.
      + intros p' q' Hs'. destruct (Hcov p' q' Hs') as (t' & ? & ?). exists t'. split; [done | lia].
      + eapply covered_step; [done | done | apply Hkeep | apply Hc]; set_solver.
    - intros g' Hg'.
      eapply covered_step; [apply blocks_to_add_pages | done | apply Hkeep | apply Hr]; set_solver.
  Qed.

  (** A group that has its table gets its slot, if it has a page. *)
Lemma append_slot_or e wt g act rdy w p q m :
    queues_inv e wt (g :: act) rdy w → single g p q w →
    _Sequence_blocks_to_add_new_tok q ≤ length (gpu_free e) →
    wp_or (pageless w g) (st_fold append_slot_turn (e, m) (hash_values (seqs g))) (λ r w',
      r.2 = m ∧ queues_inv r.1 wt act (g :: rdy) w' ∧ sched_frame w w') w.
  Proof.
    intros HI Hs Hn. pose proof HI as [HE Hun Hcap Hsi Hid Htb Hc Hr].
    rewrite (single_values _ _ _ _ Hs). cbn [st_fold]. apply wp_or_bind.
    destruct (Hc g ltac:(set_solver) p q Hs) as (t & Ht & Hlt). rewrite Nat.add_0_r in Hlt.
    unfold append_slot_turn. apply wp_or_bind.
    destruct (_Sequence_blocks_to_add_new_tok q) as [|k] eqn:Hadd.
    - destruct t as [|l t _] using rev_ind.
      { unfold wp_or. rewrite (append_slot_no_table e p q w); [| apply Hs .. | done | done].
        exists p, q. split; [done |]. apply dec_stable. intros Hne%need_pos. simpl in Hlt. lia. }
      unfold wp_or. rewrite (append_slot_space e p q t l w HE); [| apply Hs .. | done | done |].
      + simpl. split_and!; [done | | done]. apply queues_ready; [done |].
        intros p' q' Hs'. destruct (single_unique _ _ _ _ _ _ Hs Hs') as [-> ->].
        exists (t ++ [l]). split; [done | by rewrite Hadd, Nat.add_0_r].
      + apply occ_NoDup; [done |]. eapply table_in_refs; [done |]. set_solver.
    - assert (k = 0) as -> by (unfold _Sequence_blocks_to_add_new_tok in Hadd; destruct (has_space _); lia).
      apply wp_or_intro.
      eapply wp_mono; [apply (append_slot_new e p q t w HE); [apply Hs .. | done | done |] |].
      { intros Hnil. rewrite Hnil in Hn. simpl in Hn. lia. }
      intros [r e'] w' (new & rest & -> & Hg & He' & HE' & Hfr). unfold wp_or; simpl.
      apply same_sched_frame in Hfr. split; [done |]. split; [| done].
      by eapply queues_push.
  Qed.

End StepLemmas.

(** ** Lemmas: the loop over the running queue *)

Section RunningLemmas.
  Context `{LogprobsSig} `{HashOrder} {cover : Cover}.
  Implicit Types w : World.
  Implicit Types self : Scheduler.
  Implicit Types g : SequenceGroup.

Lemma free_scheduler self wt g act rdy w :
    queues_inv (block_engine self) wt (g :: act) rdy w →
    wp (Scheduler__free self g) (λ self' w', ∃ e',
      self' = set_block_engine self e' ∧ queues_inv e' (g :: wt) act rdy w' ∧
      sched_frame w w') w.
  Proof.
    intros HI. unfold Scheduler__free. apply wp_bind.
    eapply wp_mono; [by apply free_group |]. intros e' w' [HI' Hf]. apply wp_ret. eauto.
  Qed.

Lemma preempt_single self g act rdy out w :
    queues_inv (block_engine self) (waiting self) (g :: act) rdy w →
    wp (Scheduler__preempt self g out) (λ r w', r.2 = out ∧
      (∃ e', r.1 = set_waiting (set_block_engine self e') (g :: waiting self) ∧
             queues_inv e' (g :: waiting self) act rdy w') ∧
      sched_frame w w') w.
  Proof.
    intros HI. destruct (qi_single _ _ _ _ _ HI g) as (p & q & Hs & _); [set_solver |].
    unfold Scheduler__preempt. rewrite (single_seqs _ _ _ _ Hs), map_size_singleton.
    apply wp_bind. unfold Scheduler__preempt_by_recompute. apply wp_bind.
    eapply wp_mono; [eapply set_status_queues; [| exact HI]; set_solver |].
    intros _ w1 [HI1 Hf1]. apply wp_bind.
    eapply wp_mono; [by apply free_scheduler |]. intros self' w2 (e' & -> & HI2 & Hf2).
    do 2 apply wp_ret. cbn [fst snd]. split_and!; [done | eauto | by etrans].
  Qed.

  (** What [make_room] took off the queue. *)
Definition taken (broke : bool) g (vs : list SequenceGroup) : list SequenceGroup :=
    if broke then g :: vs else vs.

Record room_made self g rdy w (pre : list SequenceGroup) (out : gmap nat nat)
      (r : Scheduler * list SequenceGroup * gmap nat nat * bool) (w' : World) : Prop := {
    rm_out : r.1.2 = out;
    rm_config : config r.1.1.1 = config self;
    rm_swapped : swapped_out r.1.1.1 = swapped_out self;
    rm_frame : sched_frame w w';
    rm_split : ∃ vs, running self = running r.1.1.1 ++ vs ∧
      waiting r.1.1.1 = taken r.2 g vs ++ waiting self ∧
      r.1.1.2 = pre ++ reverse (taken r.2 g vs);
    rm_queues : if r.2 then running r.1.1.1 = [] ∧
                     queues_inv (block_engine r.1.1.1) (waiting r.1.1.1) [] rdy w'
                else queues_inv (block_engine r.1.1.1) (waiting r.1.1.1)
                       (g :: running r.1.1.1) rdy w' ∧
                     ∀ p q, single g p q w' → _Sequence_blocks_to_add_new_tok q ≤
                                              length (gpu_free (block_engine r.1.1.1));
  }.

Lemma make_room_ok fuel self g pre out rdy w :
    length (running self) ≤ fuel →
    queues_inv (block_engine self) (waiting self) (g :: running self) rdy w →
    wp (make_room fuel self g pre out) (room_made self g rdy w pre out) w.
  Proof.
    revert self pre w. induction fuel as [|fuel IH]; intros self pre w Hfuel HI;
      destruct (qi_single _ _ _ _ _ HI g) as (p & q & Hs & _); try set_solver;
      cbn [make_room]; apply wp_bind; unfold wp at 1; rewrite (can_append_single _ _ _ _ _ Hs);
      destruct (Nat.leb_spec (_Sequence_blocks_to_add_new_tok q)
                  (length (gpu_free (block_engine self)))) as [Hle|Hgt].
    1, 3: apply wp_ret; split; simpl; try done;
      [ exists []; by rewrite !app_nil_r
      | split; [done |]; intros p' q' Hs';
        by destruct (single_unique _ _ _ _ _ _ Hs Hs') as [-> ->] ].
    - destruct (running self) as [|? ?] eqn:Hr; [| simpl in Hfuel; lia]. simpl.
      apply wp_bind. eapply wp_mono; [by apply preempt_single |].
      intros [s1 out1] w1 (Eo & (e' & Es & HI1) & Hf). simpl in Eo, Es. subst s1 out1.
      apply wp_ret. split; simpl; try done. exists []. rewrite Hr. by split_and!.
    - destruct (vec_pop (running self)) as [[v rest]|] eqn:Hp.
      + apply vec_pop_Some in Hp. apply wp_bind.
        eapply wp_mono; [apply (preempt_single _ v (g :: rest) rdy) |].
        { simpl. rewrite Hp in HI. by rewrite Permutation_swap, (Permutation_cons_append rest v). }
        intros [s1 out1] w1 (Eo & (e' & Es & HI1) & Hf). simpl in Eo, Es. subst s1 out1.
        eapply wp_mono; [apply IH |].
        * simpl. rewrite Hp, length_app in Hfuel. simpl in Hfuel. lia.
        * done.
        * intros r w2 [E1 E2 E3 E4 (vs & Ev1 & Ev2 & Ev3) E6]. simpl in *.
          split; try done; [by etrans |].
          exists (vs ++ [v]). rewrite Hp, Ev1, Ev2, Ev3.
          destruct r as [? []]; simpl;
            by rewrite ?reverse_cons, ?reverse_app, <- ?app_assoc.
      + apply vec_pop_None in Hp. simpl. apply wp_bind. rewrite Hp in HI.
        eapply wp_mono; [by apply preempt_single |].
        intros [s1 out1] w1 (Eo & (e' & Es & HI1) & Hf). simpl in Eo, Es. subst s1 out1.
        apply wp_ret. split; simpl; try done. exists []. rewrite Hp. by split_and!.
  Qed.

  (** What the loop did: [kept] stayed, [rest] went back to the waiting queue. *)
Record running_done (st : decode_state) w (st' : decode_state) (w' : World) : Prop := {
    rd_swap_out : ds_swap_out st' = ds_swap_out st;
    rd_copy : ds_copy st' = ds_copy st;
    rd_config : config (ds_self st') = config (ds_self st);
    rd_swapped : swapped_out (ds_self st') = swapped_out (ds_self st);
    rd_empty : running (ds_self st') = [];
    rd_frame : sched_frame w w';
    rd_split : ∃ kept rest, running (ds_self st) = kept ++ rest ∧
      ds_running st' = ds_running st ++ kept ∧
      waiting (ds_self st') = rest ++ waiting (ds_self st) ∧
      ds_preempted st' = ds_preempted st ++ reverse rest;
    rd_queues : queues_inv (block_engine (ds_self st')) (waiting (ds_self st')) []
                  (ds_running st') w';
  }.

  (** A panic is a running group without a page. *)
Definition runs_pageless (l : list SequenceGroup) w : Prop := ∃ g, g ∈ l ∧ pageless w g.

Lemma schedule_running_or fuel st w :
    length (running (ds_self st)) ≤ fuel →
    queues_inv (block_engine (ds_self st)) (waiting (ds_self st)) (running (ds_self st))
      (ds_running st) w →
    wp_or (runs_pageless (running (ds_self st)) w) (schedule_running fuel st) (running_done st w) w.
  Proof.
    revert st w. induction fuel as [|fuel IH]; intros [self rn pre out cp] w; simpl;
      destruct (running self) as [|g rest] eqn:Hr; simpl; intros Hfuel HI.
    1, 3: split; simpl; rewrite ?Hr; try done;
      exists [], []; by rewrite !app_nil_r.
    { lia. }
    apply wp_or_bind. unfold schedule_group. simpl. apply wp_or_bind, wp_or_intro.
    eapply wp_mono; [apply (make_room_ok _ (set_running self rest) g pre out rn); [done | exact HI] |].
    intros [[[s1 pre1] out1] broke] w1 [E1 E2 E3 E4 (vs & Ev1 & Ev2 & Ev3) E6]. simpl in *.
    subst out1 pre1. destruct broke.
    - destruct E6 as [Er HI1]. apply wp_or_ret.
      eapply wp_or_mono; [apply IH; simpl; rewrite Er; [simpl; lia | done] | |].
      { simpl. rewrite Er. intros (g' & Hg' & _). set_solver. }
      intros st' w2 [D1 D2 D3 D4 D5 D6 (kept & rest' & F1 & F2 & F3 & F4) D8]. simpl in *.
      rewrite Er in F1. symmetry in F1. apply app_nil in F1 as [-> ->].
      split; simpl; try congruence; [by etrans |].
      exists [], (g :: vs). rewrite Hr, F2, F3, F4, Ev1, Ev2, Er, !app_nil_r. by split_and!.
    - destruct E6 as [HI1 Hroom].
      destruct (qi_single _ _ _ _ _ HI1 g) as (p & q & Hs & _); [set_solver |].
      apply wp_or_bind. unfold Scheduler__append_token_slot_to_seq_group. apply wp_or_bind.
      eapply wp_or_mono; [eapply append_slot_or; [exact HI1 | exact Hs | by eapply Hroom] | |].
      { intros Hp. exists g. split; [set_solver | by eapply pageless_frame]. }
      intros [e2 cp2] w2 (Ecp & HI2 & Hf2). simpl in Ecp, HI2. subst cp2. apply wp_or_ret, wp_or_ret.
      eapply wp_or_mono; [apply IH; simpl | |].
      + apply (f_equal length) in Ev1. rewrite length_app in Ev1. lia.
      + by rewrite <- Permutation_cons_append.
      + simpl. intros (g' & Hg' & Hp). exists g'. rewrite Ev1. split; [set_solver |].
        eapply pageless_frame; [| exact Hp]. symmetry. by etrans.
      + intros st' w3 [D1 D2 D3 D4 D5 D6 (kept & rest' & F1 & F2 & F3 & F4) D8]. simpl in *.
        split; simpl; try congruence; [by do 2 (etrans; [done |]) |].
        exists (g :: kept), (rest' ++ vs). rewrite Hr, F2, F3, F4, Ev1, F1, Ev2, reverse_app.
        by rewrite <- !app_assoc.
  Qed.

  (** *** The whole second part *)

Record decoded self w (r : SchedulerOutput * Scheduler) (w' : World) : Prop := {
    dc_output : r.1 = mkSchedulerOutput (running r.2) ∅ ∅ ∅ [];
    dc_config : config r.2 = config self;
    dc_swapped : swapped_out r.2 = [];
    dc_frame : sched_frame w w';
    dc_split : ∃ rest,
      reverse (sort_by_key arrival_time (running self)) = running r.2 ++ rest ∧
      waiting r.2 = rest ++ waiting self;
    dc_queues : queues_inv (block_engine r.2) (waiting r.2) [] (running r.2) w';
  }.

Lemma schedule_decode_or self w :
    sched_inv self w →
    wp_or (runs_pageless (running self) w) (schedule_decode self) (decoded self w) w.
  Proof.
    intros [HI Hsw]. unfold schedule_decode. apply wp_or_bind.
    eapply wp_or_mono; [apply schedule_running_or; simpl; [done |] | |].
    { by rewrite reverse_Permutation, sort_by_key_perm. }
    { simpl. intros (g & Hg & Hp). exists g. split; [| done].
      by rewrite reverse_Permutation, sort_by_key_perm in Hg. }
    intros [s1 rn pre out cp] w1 [D1 D2 D3 D4 D5 D6 (kept & rest & F1 & F2 & F3 & F4) D8].
    simpl in *. subst out cp rn.
    assert (Hnil : Scheduler_sort_swapped_out_by_priority_fcfs (set_running s1 kept) =
                   set_running s1 kept).
    { unfold Scheduler_sort_swapped_out_by_priority_fcfs, set_swapped_out, set_running. simpl.
      by rewrite D4, Hsw. }
    apply wp_or_bind. rewrite Hnil. simpl. rewrite D4, Hsw. simpl.
    assert (HQ : decoded self w
      (mkSchedulerOutput kept ∅ ∅ ∅ [], set_running s1 kept) w1).
    { split; simpl; try done; [by rewrite D4, Hsw |]. by exists rest. }
    destruct pre; simpl; rewrite ?D4, ?Hsw; exact HQ.
  Qed.

End RunningLemmas.

(** ** Lemmas: when every sequence has a page *)

Section PagedLemmas.
  Context `{LogprobsSig} `{HashOrder}.
  #[local] Existing Instance pages_cover.
  Implicit Types w : World.
  Implicit Types self : Scheduler.
  Implicit Types g : SequenceGroup.

Lemma paged_group w g : group_single w g → ¬ pageless w g.
  Proof.
    intros (p & q & Hs & Hne) (p' & q' & Hs' & Hn).
    by destruct (single_unique _ _ _ _ _ _ Hs Hs') as [-> ->].
  Qed.

Lemma paged_running e wt act rdy w l :
    queues_inv e wt act rdy w → l ⊆ wt ++ act ++ rdy → ¬ runs_pageless l w.
  Proof.
    intros HI Hl (g & Hg & Hp). eapply paged_group; [| exact Hp]. apply (qi_single _ _ _ _ _ HI), Hl, Hg.
  Qed.

Lemma append_slot_step e wt g act rdy w p q m :
    queues_inv e wt (g :: act) rdy w → single g p q w →
    _Sequence_blocks_to_add_new_tok q ≤ length (gpu_free e) →
    wp (st_fold append_slot_turn (e, m) (hash_values (seqs g))) (λ r w',
      r.2 = m ∧ queues_inv r.1 wt act (g :: rdy) w' ∧ sched_frame w w') w.
  Proof.
    intros HI Hs Hn. eapply wp_or_elim; [by eapply append_slot_or |].
    eapply paged_group, (qi_single _ _ _ _ _ HI). set_solver.
  Qed.

Lemma schedule_running_ok fuel st w :
    length (running (ds_self st)) ≤ fuel →
    queues_inv (block_engine (ds_self st)) (waiting (ds_self st)) (running (ds_self st))
      (ds_running st) w →
    wp (schedule_running fuel st) (running_done st w) w.
  Proof.
    intros Hf HI. eapply wp_or_elim; [by apply schedule_running_or |].
    eapply paged_running; [exact HI | set_solver].
  Qed.

Lemma schedule_decode_ok self w :
    sched_inv self w → wp (schedule_decode self) (decoded self w) w.
  Proof.
    intros HI. eapply wp_or_elim; [by apply schedule_decode_or |].
    eapply paged_running; [apply HI | set_solver].
  Qed.

End PagedLemmas.
