(* ===== verification/SchedulerWaiting.v ===== *)
(** * The scheduler: admission from the waiting queue

    What the first part of [schedule] does, as a function of the sizes only
    ([admission]), and the proof that the loop implements it. *)

From Stdlib Require Import ZArith SpecFloat Lia.
From stdpp Require Import base gmap sets strings countable list.
From S2P Require Import Prelude Machine Sequence BlockEngine BlockEngineSwap Scheduler SchedulerInv.

(** ** The specification *)

(** How many groups are taken from the front of the waiting queue, [needs] being
    the blocks each of them needs, or [None] when the loop panics.  A group is
    left for later if it needs fewer blocks than are in use; one that needs at
    least as many, but more than are free, is a panic. *)
Fixpoint admission (max_seqs num_running used free : nat) (needs : list nat) : option nat :=
  match needs with
  | [] => Some 0
  | n :: needs =>
      if decide (max_seqs = num_running + 1) then Some 0
      else if decide (n < used) then Some 0
      else if decide (free < n) then None
      else S <$> admission max_seqs (num_running + 1) (used + n) (free - n) needs
  end.

(** The groups admitted fit in the free blocks. *)
Lemma admission_fits max_seqs r u f needs k :
  admission max_seqs r u f needs = Some k → sum_list (take k needs) ≤ f.
Proof.
  revert r u f k. induction needs as [|n needs IH]; intros r u f k; simpl.
  - intros [= <-]. simpl. lia.
  - repeat case_decide; try (intros [= <-]; simpl; lia).
    destruct (admission _ _ _ _ _) as [k'|] eqn:E; [| done]. intros [= <-].
    apply IH in E. simpl. lia.
Qed.

Lemma admission_le max_seqs r u f needs k :
  admission max_seqs r u f needs = Some k → k ≤ length needs.
Proof.
  revert r u f k. induction needs as [|n needs IH]; intros r u f k; simpl.
  - intros [= <-]. lia.
  - repeat case_decide; try (intros [= <-]; lia).
    destruct (admission _ _ _ _ _) as [k'|] eqn:E; [| done]. intros [= <-].
    apply IH in E. lia.
Qed.

Lemma admission_bound max_seqs r u f needs k :
  admission max_seqs r u f needs = Some k → r < max_seqs → r + k < max_seqs.
Proof.
  revert r u f k. induction needs as [|n needs IH]; intros r u f k; simpl.
  - intros [= <-]. lia.
  - repeat case_decide; try (intros [= <-]; lia).
    destruct (admission _ _ _ _ _) as [k'|] eqn:E; [| done]. intros [= <-] Hr.
    apply IH in E; lia.
Qed.

Lemma admission_enough max_seqs r u f needs :
  sum_list needs ≤ f → is_Some (admission max_seqs r u f needs).
Proof.
  revert r u f. induction needs as [|n needs IH]; intros r u f; simpl; [by eexists |].
  intros Hs. repeat case_decide; try by eexists. { lia. }
  apply fmap_is_Some, IH. lia.
Qed.

(** ** The loop implements it *)

Section WaitingLemmas.
  Context `{LogprobsSig} `{HashOrder} {cover : Cover}.
  Implicit Types w : World.
  Implicit Types self : Scheduler.
  Implicit Types g : SequenceGroup.

  (** The logical blocks of a group. *)
Definition group_blocks w g : nat :=
    sum_list (seq_field 0 _Sequence_get_logical_token_blocks w <$> hash_values (seqs g)).

Lemma group_blocks_single g p q w :
    single g p q w → group_blocks w g = length (logical_token_blocks q).
  Proof.
    intros Hs. unfold group_blocks. rewrite (single_values _ _ _ _ Hs). simpl.
    unfold seq_field. rewrite (single_lookup _ _ _ _ Hs).
    unfold _Sequence_get_logical_token_blocks. lia.
  Qed.

Lemma group_blocks_frame w w' g :
    sched_frame w w' → group_blocks w' g = group_blocks w g.
  Proof.
    intros [_ Hp]. unfold group_blocks. f_equal. apply list_fmap_ext. intros _ p _.
    unfold seq_field. specialize (Hp p).
    destruct (w_seqs w !! p) as [q|], (w_seqs w' !! p) as [q'|]; try done.
    injection Hp as _ E _ _. unfold _Sequence_get_logical_token_blocks. by rewrite E.
  Qed.

Lemma num_running_length self e wt rdy w :
    queues_inv e wt (running self) rdy w → num_running_seqs self = length (running self).
  Proof.
    intros HI. unfold num_running_seqs.
    assert (Hs : ∀ g, g ∈ running self → size (seqs g) = 1).
    { intros g Hg. destruct (qi_single _ _ _ _ _ HI g) as (p & q & [-> _ _] & _); [set_solver |].
      apply map_size_singleton. }
    clear HI. induction (running self) as [|g l IH]; simpl; [done |].
    rewrite (Hs g) by set_solver. f_equal. apply IH. set_solver.
  Qed.

Definition used (e : BlockEngine) : nat := length (table_refs e).

Definition free (e : BlockEngine) : nat := length (gpu_free e).

  (** What [can_allocate] says, under the invariant. *)
Lemma can_allocate_eq e wt act rdy g w :
    queues_inv e wt act rdy w → group_single w g →
    BlockEngine_can_allocate e g w =
    Done (if decide (group_blocks w g < used e) then AllocStatus_Later
          else if decide (used e + free e < group_blocks w g) then AllocStatus_Impossible
          else AllocStatus_Ok) w.
  Proof.
    intros HI (p & q & Hs & _). pose proof (qi_capacity _ _ _ _ _ HI) as Hcap.
    unfold BlockEngine_can_allocate, st_bind.
    rewrite (single_logical_blocks _ _ _ _ Hs), (group_blocks_single _ _ _ _ Hs).
    unfold GPUAllocator_get_num_free_blocks, used, free in *.
    change (free_blocks (gpu_allocator e)) with (gpu_free e). unfold st_ret. f_equal.
    destruct (Nat.ltb_spec (length (gpu_free e) + length (logical_token_blocks q))
                (num_gpu_blocks e)),
      (Nat.ltb_spec (num_gpu_blocks e) (length (logical_token_blocks q)));
      repeat case_decide; done || (exfalso; lia).
  Qed.

Lemma allocate_panics_single e wt act rdy g w :
    queues_inv e wt act rdy w → group_single w g → free e < group_blocks w g →
    BlockEngine_allocate e g w = Panic.
  Proof.
    intros HI (p & q & Hs & _) Hn. rewrite (group_blocks_single _ _ _ _ Hs) in Hn.
    rewrite (allocate_unfold e g w _ (single_logical_blocks _ _ _ _ Hs)).
    destruct (qi_engine _ _ _ _ _ HI) as [HB _ Hu].
    unfold st_bind. rewrite alloc_loop_panics; [done | done | | rewrite length_seq; apply Hn].
    intros x Hx. destruct (proj1 (bi_free _ _ _ _ HB x)) as (b & Hb & _); [set_solver |].
    by eexists.
  Qed.

  (** The end of a turn, when the blocks are not there, whatever is at the
      front of the queue by then. *)
Lemma admit_front_panics self g wt act rdy sch w :
    queues_inv (block_engine self) wt act rdy w → g ∈ wt ++ act ++ rdy →
    free (block_engine self) < group_blocks w g →
    admit_front self g sch w = Panic.
  Proof.
    intros HI Hg Hn. unfold admit_front.
    destruct (proj1 (wp_done _ _ _) (set_status_queues _ _ _ _ g Running w Hg HI))
      as ([] & w1 & E & HI1 & Hf).
    unfold st_bind at 1. rewrite E. unfold Scheduler__allocate, st_bind.
    rewrite (allocate_panics_single _ _ _ _ g w1 HI1); [done | by eapply (qi_single _ _ _ _ _ HI1) |].
    by rewrite (group_blocks_frame _ _ _ Hf).
  Qed.

  (** The end of a turn, when they are. *)
Lemma admit_front_ok self g wt sch w :
    queues_inv (block_engine self) (waiting self) (running self) [] w →
    waiting self = g :: wt → group_blocks w g ≤ free (block_engine self) →
    wp (admit_front self g sch) (λ r w',
      r.2 = sch ++ [g] ∧ sched_frame w w' ∧ ∃ e',
        r.1 = mkScheduler wt (running self ++ [g]) (swapped_out self) (config self) e' ∧
        queues_inv e' wt (running self ++ [g]) [] w' ∧
        used e' = used (block_engine self) + group_blocks w g ∧
        free e' = free (block_engine self) - group_blocks w g) w.
  Proof.
    intros HI Hw Hn. unfold admit_front. apply wp_bind.
    eapply wp_mono; [eapply (set_status_queues _ _ _ _ g); [| exact HI]; rewrite Hw; set_solver |].
    intros _ w1 [HI1 Hf1]. rewrite Hw in HI1.
    destruct (qi_single _ _ _ _ _ HI1 g) as (p & q & Hs & _); [set_solver |].
    rewrite <- (group_blocks_frame _ _ g Hf1), (group_blocks_single _ _ _ _ Hs) in *.
    apply wp_bind. unfold Scheduler__allocate. apply wp_bind.
    eapply wp_mono; [by eapply allocate_group_step |].
    intros e' w2 (HI2 & Hf2 & Hlen & Hnum). apply wp_ret, wp_bind. simpl. rewrite Hw.
    apply wp_ret, wp_ret. simpl. split; [done |]. split; [by etrans |]. exists e'.
    split; [done |]. split; [by rewrite <- Permutation_cons_append |].
    unfold used, free in *.
    pose proof (qi_capacity _ _ _ _ _ HI1). pose proof (qi_capacity _ _ _ _ _ HI2).
    lia.
  Qed.

  (** *** The loop *)

Definition admitted self w : option nat :=
    admission (max_num_seqs (config self)) (length (running self)) (used (block_engine self))
      (free (block_engine self)) (group_blocks w <$> waiting self).

Record waiting_done self w (sch ign : list SequenceGroup) (k : nat)
      (r : Scheduler * list SequenceGroup * list SequenceGroup) (w' : World) : Prop := {
    wd_scheduled : r.1.2 = sch ++ take k (waiting self);
    wd_ignored : r.2 = ign;
    wd_waiting : waiting r.1.1 = drop k (waiting self);
    wd_running : running r.1.1 = running self ++ take k (waiting self);
    wd_swapped : swapped_out r.1.1 = swapped_out self;
    wd_config : config r.1.1 = config self;
    wd_frame : sched_frame w w';
    wd_queues : queues_inv (block_engine r.1.1) (waiting r.1.1) (running r.1.1) [] w';
    wd_same : k = 0 → r.1.1 = self ∧ w' = w;
  }.

Lemma waiting_done_stop self w sch ign :
    queues_inv (block_engine self) (waiting self) (running self) [] w →
    waiting_done self w sch ign 0 (self, sch, ign) w.
  Proof. intros HI. split; simpl; rewrite ?app_nil_r; done. Qed.

Lemma schedule_waiting_ok fuel self sch ign w :
    length (waiting self) ≤ fuel →
    queues_inv (block_engine self) (waiting self) (running self) [] w →
    match admitted self w with
    | None => schedule_waiting fuel self sch ign w = Panic
    | Some k => wp (schedule_waiting fuel self sch ign) (waiting_done self w sch ign k) w
    end.
  Proof.
    revert self sch w. induction fuel as [|fuel IH]; intros self sch w Hfuel HI;
      unfold admitted; cbn [schedule_waiting];
      destruct (waiting self) as [|g wt] eqn:Hw; simpl in Hfuel; try lia;
      cbn [fmap list_fmap admission].
    1, 2: by apply wp_ret, waiting_done_stop; rewrite Hw.
    assert (Hg : group_single w g) by (eapply (qi_single _ _ _ _ _ HI); set_solver).
    rewrite (num_running_length _ _ _ _ _ HI).
    destruct (Nat.eqb_spec (max_num_seqs (config self)) (length (running self) + 1)).
    { rewrite decide_True by done. apply wp_ret, waiting_done_stop. by rewrite Hw. }
    rewrite decide_False by done. unfold wp.
    rewrite !(st_bind_done _ _ _ _ _ (can_allocate_eq _ _ _ _ _ _ HI Hg)).
    case_decide as Hlater. { apply waiting_done_stop. by rewrite Hw. }
    destruct (decide (used (block_engine self) + free (block_engine self) < group_blocks w g)),
      (decide (free (block_engine self) < group_blocks w g)); try lia.
    - destruct (proj1 (wp_done _ _ _) (set_status_queues _ (g :: wt) (running self) [] g
        FinishedIgnored w ltac:(set_solver) HI)) as ([] & w1 & E & HI1 & Hf).
      rewrite (st_bind_done _ _ _ _ _ E), (st_bind_done _ _ _ (g, wt) w1) by done.
      apply st_bind_panic.
      eapply (admit_front_panics (set_waiting self wt)); [exact HI1 | set_solver |].
      by rewrite (group_blocks_frame _ _ _ Hf).
    - apply st_bind_panic. eapply admit_front_panics; [exact HI | set_solver | done].
    - rewrite <- Hw in HI.
      destruct (proj1 (wp_done _ _ _) (admit_front_ok self g wt sch w HI Hw ltac:(lia)))
        as ([self1 sch1] & w1 & E & Es & Hf & e' & Er & HI1 & Hused & Hfr).
      simpl in Es, Er. subst self1 sch1.
      rewrite !(st_bind_done _ _ _ _ _ E).
      specialize (IH (mkScheduler wt (running self ++ [g]) (swapped_out self) (config self) e')
        (sch ++ [g]) w1 ltac:(simpl; lia) HI1).
      unfold admitted in IH. simpl in IH. rewrite length_app, Hused, Hfr in IH.
      assert (Hbl : group_blocks w1 <$> wt = group_blocks w <$> wt)
        by (apply list_fmap_ext; intros; by apply group_blocks_frame).
      rewrite Hbl in IH. simpl in IH.
      destruct (admission _ _ _ _ _) as [k|]; simpl; [| done].
      eapply wp_mono; [exact IH |].
      intros [[s2 sch2] ign2] w2 [D1 D2 D3 D4 D5 D6 D7 D8 D9]. simpl in *.
      split; simpl; rewrite ?Hw; simpl; try done.
      + by rewrite D1, <- app_assoc.
      + by rewrite D4, <- app_assoc.
      + by etrans.
  Qed.

  (** *** The whole step *)

  (** The answer of [schedule] that admits the first [k] waiting groups. *)
Record prefilled self w (k : nat) (r : SchedulerOutput * Scheduler) (w' : World) : Prop := {
    pf_output : r.1 = mkSchedulerOutput (take k (waiting self)) ∅ ∅ ∅ [];
    pf_waiting : waiting r.2 = drop k (waiting self);
    pf_running : running r.2 = running self ++ take k (waiting self);
    pf_inv : sched_inv r.2 w';
    pf_frame : sched_frame w w';
    pf_config : config r.2 = config self;
  }.

Lemma schedule_or self w :
    sched_inv self w →
    match admitted self w with
    | None => Scheduler_schedule self w = Panic
    | Some 0 => wp_or (runs_pageless (running self) w) (Scheduler_schedule self) (decoded self w) w
    | Some (S k) => wp (Scheduler_schedule self) (prefilled self w (S k)) w
    end.
  Proof.
    intros HI. pose proof HI as [HQ Hsw]. unfold Scheduler_schedule. rewrite Hsw.
    pose proof (schedule_waiting_ok (length (waiting self)) self [] [] w ltac:(done) HQ) as Hok.
    pose proof (admission_le (max_num_seqs (config self)) (length (running self))
      (used (block_engine self)) (free (block_engine self)) (group_blocks w <$> waiting self))
      as Hle. fold (admitted self w) in Hle. rewrite length_fmap in Hle.
    destruct (admitted self w) as [[|k]|]; [| | by unfold st_bind; rewrite Hok].
    - apply wp_or_bind, wp_or_intro. eapply wp_mono; [exact Hok |].
      intros [[s1 sch] ign] w1 [D1 D2 D3 D4 D5 D6 D7 D8 D9]. simpl in *.
      destruct (D9 eq_refl) as [-> ->]. subst sch ign. rewrite take_0. by apply schedule_decode_or.
    - apply wp_bind. eapply wp_mono; [exact Hok |].
      intros [[s1 sch] ign] w1 [D1 D2 D3 D4 D5 D6 D7 D8 D9]. simpl in *. subst sch ign.
      specialize (Hle _ eq_refl). destruct (waiting self) as [|g wt] eqn:Hw; simpl in Hle; [lia |].
      simpl. apply wp_ret. split; simpl; rewrite ?Hw; try done. split; [done |]. by rewrite D5.
  Qed.

End WaitingLemmas.

Lemma schedule_ok `{LogprobsSig} `{HashOrder} self w :
  sched_inv (cover := pages_cover) self w →
  match admitted self w with
  | None => Scheduler_schedule self w = Panic
  | Some 0 => wp (Scheduler_schedule self) (decoded (cover := pages_cover) self w) w
  | Some (S k) => wp (Scheduler_schedule self) (prefilled (cover := pages_cover) self w (S k)) w
  end.
Proof.
  intros HI. pose proof (schedule_or self w HI) as Hok. destruct (admitted self w) as [[|k]|]; try done.
  eapply wp_or_elim; [exact Hok |]. eapply paged_running; [apply HI | set_solver].
Qed.
