(* ===== verification/SchedulerSpec.v ===== *)
(** * The scheduler: properties

    What [schedule] and the operations around it promise, for groups of one
    sequence, with a witness for each. *)

From Stdlib Require Import ZArith SpecFloat Lia.
From stdpp Require Import base gmap sets strings countable list.
From S2P Require Import Prelude Machine Sequence BlockEngine BlockEngineSwap BlockEngineSpec.
From S2P Require Import CacheEngine Scheduler SchedulerInv SchedulerWaiting.

(** ** Lemmas: what is finished, what grows *)

Section FinishedLemmas.
  Context `{LogprobsSig} `{HashOrder} {cover : Cover}.
  Implicit Types w : World.
  Implicit Types self : Scheduler.
  Implicit Types g : SequenceGroup.

Definition group_finished w g : bool :=
    forallb (seq_field false (λ q, status_is_finished (status (data q))) w)
      (hash_values (seqs g)).

Lemma finished_turns l keep to_free w :
    (∀ g, g ∈ l → group_single w g) →
    st_fold finished_turn (keep, to_free) l w =
    Done (keep ++ filter (λ g, group_finished w g = false) l,
          to_free ++ filter (λ g, group_finished w g = true) l) w.
  Proof.
    revert keep to_free. induction l as [|g l IH]; intros keep to_free Hl.
    - simpl. by rewrite !app_nil_r.
    - cbn [st_fold]. destruct (Hl g) as (p & q & Hs & _); [set_solver |].
      assert (Hf : finished_turn (keep, to_free) g w =
        Done (if group_finished w g then (keep, to_free ++ [g]) else (keep ++ [g], to_free)) w).
      { unfold finished_turn.
        by rewrite (st_bind_done _ _ _ _ _ (group_is_finished_eq g w (single_ok _ _ _ _ Hs))). }
      rewrite (st_bind_done _ _ _ _ _ Hf).
      assert (Hl' : ∀ g, g ∈ l → group_single w g) by set_solver.
      rewrite !filter_cons. destruct (group_finished w g) eqn:E; rewrite IH by done;
        repeat case_decide; by rewrite <- ?app_assoc.
  Qed.

Lemma filter_split {A} (f : A → bool) (l : list A) :
    filter (λ x, f x = true) l ++ filter (λ x, f x = false) l ≡ₚ l.
  Proof.
    induction l as [|x l IH]; [done |]. rewrite !filter_cons.
    destruct (f x) eqn:E; repeat case_decide; try done; simpl.
    - by rewrite IH.
    - by rewrite <- Permutation_middle, IH.
  Qed.

  (** Freeing the groups of a list, one after the other. *)
Lemma free_groups l self wt act w :
    queues_inv (block_engine self) wt (l ++ act) [] w →
    wp (st_fold Scheduler__free self l) (λ self' w', ∃ e',
      self' = set_block_engine self e' ∧ queues_inv e' wt act [] w' ∧ sched_frame w w') w.
  Proof.
    revert self w. induction l as [|g l IH]; intros self w HI; simpl.
    - apply wp_ret. exists (block_engine self). by destruct self.
    - apply wp_bind. eapply wp_mono; [by apply free_scheduler |].
      intros self1 w1 (e1 & -> & HI1%queues_drop & Hf1).
      eapply wp_mono; [by apply IH |]. intros self2 w2 (e2 & -> & HI2 & Hf2).
      exists e2. split_and!; [done | done | by etrans].
  Qed.

  (** The freeing of what is finished, with what it leaves. *)
Lemma free_finished_ok self w :
    sched_inv self w →
    wp (Scheduler_free_finished_sequence_groups self) (λ self' w', ∃ e',
      self' = set_block_engine
                (set_running self (filter (λ g, group_finished w g = false) (running self))) e' ∧
      queues_inv e' (waiting self)
        (filter (λ g, group_finished w g = false) (running self)) [] w' ∧
      sched_frame w w') w.
  Proof.
    intros [HQ Hsw]. unfold Scheduler_free_finished_sequence_groups. apply wp_bind.
    assert (Hsi : ∀ g, g ∈ running self → group_single w g)
      by (intros g Hg; apply (qi_single _ _ _ _ _ HQ); set_solver).
    unfold wp at 1. rewrite (finished_turns (running self) [] [] w Hsi). simpl.
    apply free_groups. simpl. by rewrite filter_split.
  Qed.

  (** A sequence that changes under a group leaves the other groups alone. *)
Lemma others_single e wt act rdy g p q q' w g' :
    queues_inv e wt (g :: act) rdy w → single g p q w → g' ∈ wt ++ act ++ rdy →
    ∀ p' q2, single g' p' q2 (set_seqs <[p:=q']> w) ↔ single g' p' q2 w.
  Proof.
    intros HI Hs Hg'.
    destruct (queues_ids_apart e wt (g :: act) rdy w g p q (wt ++ act ++ rdy) HI Hs)
      as [Hni _]; [by rewrite Permutation_middle |].
    destruct (qi_single _ _ _ _ _ HI g') as (p0 & q0 & Hs0 & _); [set_solver |].
    assert (Hp0 : p0 ≠ p).
    { intros ->. assert (q0 = q) as ->
        by (pose proof (single_lookup _ _ _ _ Hs0); pose proof (single_lookup _ _ _ _ Hs); congruence).
      apply Hni. eapply elem_of_group_seq_ids; [done |].
      rewrite (single_keys _ _ _ _ Hs0). set_solver. }
    intros p' q2. split.
    - intros [E1 E2 E3]. assert (p' = p0) as ->.
      { pose proof (single_seqs _ _ _ _ Hs0) as E0. rewrite E0 in E1.
        apply (f_equal map_to_list) in E1. rewrite !map_to_list_singleton in E1. by simplify_eq. }
      split; [done | | done]. simpl in E2. by rewrite lookup_insert_ne in E2.
    - intros Hs2. destruct (single_unique _ _ _ _ _ _ Hs0 Hs2) as [-> ->].
      destruct Hs2 as [E1 E2 E3]. split; [done | | done]. simpl. by rewrite lookup_insert_ne.
  Qed.

  (** The sequence of a group changes, and its table has what it needs then. *)
Lemma seq_step e wt act rdy g p q q' w :
    queues_inv e wt (g :: act) rdy w → single g p q w → seq_id q' = seq_id q → fit q' →
    (∀ t, block_tables e !! seq_id q = Some t → need q ≤ length t → need q' ≤ length t) →
    queues_inv e wt (g :: act) rdy (set_seqs <[p:=q']> w).
  Proof.
    intros HI Hs Hid Hfit Hneed. pose proof HI as [HE Hun Hcap Hsi Hnd Htb Hc Hr].
    pose proof (others_single e wt act rdy g p q q' w) as Hother.
    assert (Hg : single g p q' (set_seqs <[p:=q']> w))
      by (destruct Hs as [E1 E2 E3]; split; [by rewrite Hid | apply lookup_insert_eq | done]).
    split; try done.
    - by apply (engine_inv_ext e w).
    - intros g' Hg'. assert (g' ∈ wt ++ act ++ rdy ∨ g' = g) as [Hin| ->] by set_solver.
      + destruct (Hsi g') as (p0 & q0 & Hs0 & Hf0); [set_solver |].
        exists p0, q0. split; [by apply Hother | done].
      + by exists p, q'.
    - intros g' [->|Hg']%elem_of_cons p' q2 Hs2.
      + destruct (single_unique _ _ _ _ _ _ Hg Hs2) as [-> ->].
        destruct (Hc g ltac:(set_solver) p q Hs) as (t & Ht & Hl). exists t.
        rewrite Hid. split; [done |]. rewrite Nat.add_0_r in *. by apply Hneed.
      + apply (Hc g' ltac:(set_solver) p' q2), Hother; [done | done | set_solver | done].
    - intros g' Hg' p' q2 Hs2. apply (Hr g' Hg' p' q2), Hother; [done | done | set_solver | done].
  Qed.

  (** What any step does to the queues. *)
Lemma schedule_moves self w out self' w' :
    sched_inv self w → Scheduler_schedule self w = Done (out, self') w' →
    sched_inv self' w' ∧ sched_frame w w' ∧ config self' = config self ∧
    waiting self' ++ running self' ≡ₚ waiting self ++ running self ∧
    scheduled out ⊆ running self' ∧
    (length (running self) < max_num_seqs (config self) →
     length (running self') < max_num_seqs (config self)).
  Proof.
    intros HI E. pose proof (schedule_or self w HI) as Hok.
    destruct (admitted self w) as [[|k]|] eqn:Ha; [| | congruence];
      unfold wp, wp_or in Hok; rewrite E in Hok.
    - destruct Hok as [D1 D2 D3 D4 (rest & D5 & D6) D7]. simpl in *. subst out.
      assert (Hr : running self ≡ₚ running self' ++ rest)
        by by rewrite <- D5, reverse_Permutation, sort_by_key_perm.
      split_and!; [| done | done | | done |].
      + split; [by apply queues_unready_all | done].
      + rewrite Hr, D6, <- (assoc_L (++)), (Permutation_app_comm rest).
        by rewrite <- (assoc_L (++)).
      + intros Hlt. rewrite Hr, length_app in Hlt. lia.
    - destruct Hok as [D1 D2 D3 D4 D5 D6]. simpl in *. subst out.
      split_and!; [done .. | | |].
      + rewrite D2, D3. rewrite <- (take_drop (S k) (waiting self)) at 3.
        by rewrite (assoc_L (++)), (Permutation_app_comm _ (take _ _)), (assoc_L (++)).
      + rewrite D3. simpl. set_solver.
      + intros Hlt. rewrite D3, length_app.
        pose proof (admission_bound _ _ _ _ _ _ Ha Hlt). rewrite length_take. lia.
  Qed.

Lemma add_sequence_inv self g p q w :
    sched_inv self w → single g p q w → fit q →
    seq_id q ∉ group_seq_ids (waiting self ++ running self) →
    sched_inv (Scheduler_add_sequence self g) w.
  Proof.
    intros [[HE Hun Hcap Hsi Hid Htb Hc Hr] Hsw] Hs Hne Hni. split; [| done].
    simpl. rewrite app_nil_r in *. split; try done; rewrite ?app_nil_r in *; try done.
    - intros g' Hg'. assert (g' = g ∨ g' ∈ waiting self ++ running self) as [->|Hin]
        by set_solver; [by exists p, q | by apply Hsi].
    - rewrite <- (Permutation_cons_append (waiting self) g), <- app_comm_cons.
      rewrite group_seq_ids_cons, (single_keys _ _ _ _ Hs). by apply NoDup_cons.
  Qed.

Lemma new_scheduler_inv cfg c ng nc w :
    fully_init c = true → cfg_num_gpu_blocks c = Some ng → cfg_num_cpu_blocks c = Some nc →
    w_blocks w = ∅ → blocks_unlocked w →
    wp (Scheduler_new cfg c) (λ self w', sched_inv self w' ∧ waiting self = [] ∧
      running self = [] ∧ config self = cfg ∧ w_seqs w' = w_seqs w) w.
  Proof.
    intros Hi Hg Hc Hw Hu. unfold Scheduler_new. rewrite Hi, Hg, Hc.
    do 3 apply wp_bind, wp_ret. apply wp_bind.
    eapply wp_mono; [by apply new_engine |].
    intros e w' (HE & Ht & Hn & Hg' & _ & Hq). apply wp_ret. split_and!; [| done ..].
    assert (Hnil : table_refs e = []) by (unfold table_refs; by rewrite Ht, map_to_list_empty).
    split; [| done]. simpl. split; simpl; try set_solver.
    - rewrite Hnil. constructor.
    - rewrite Hnil. apply (f_equal length) in Hg'. rewrite length_fmap, length_seq in Hg'.
      simpl. lia.
    - constructor.
    - intros id. rewrite Ht, lookup_empty. unfold is_Some, group_seq_ids. simpl. set_solver.
  Qed.

End FinishedLemmas.

(** From here on every sequence has a page, and the tables cover the pages. *)
#[local] Existing Instance pages_cover.

Section TokenLemmas.
  Context `{LogprobsSig} `{HashOrder}.
  Implicit Types w : World.
  Implicit Types e : BlockEngine.
  Implicit Types g : SequenceGroup.

  (** One more token for a group that has the room. *)
Lemma token_step e wt act rdy g p q q' w :
    queues_inv e wt act (g :: rdy) w → single g p q w →
    seq_id q' = seq_id q →
    length (logical_token_blocks q') =
      length (logical_token_blocks q) + _Sequence_blocks_to_add_new_tok q →
    queues_inv e wt (g :: act) rdy (set_seqs <[p:=q']> w).
  Proof.
    intros HI Hs Hid Hlen. eapply seq_step; [by apply queues_unready | done | done | |].
    - destruct (qi_single _ _ _ _ _ HI g) as (p0 & q0 & Hs0 & Hne); [set_solver |].
      destruct (single_unique _ _ _ _ _ _ Hs Hs0) as [-> ->]. simpl in *.
      intros Hnil. rewrite Hnil in Hlen. by destruct (logical_token_blocks q).
    - destruct (qi_ready _ _ _ _ _ HI g ltac:(set_solver) p q Hs) as (t & Ht & Hl).
      intros t' Ht' _. rewrite Ht in Ht'. injection Ht' as <-. simpl in *. lia.
  Qed.

End TokenLemmas.

(** ** Properties *)

Section SchedulerProperties.
  Context `{LogprobsSig} `{HashOrder}.
  Implicit Types w : World.
  Implicit Types self : Scheduler.
  Implicit Types g : SequenceGroup.

  (** C2: the scheduling step implements its specification [admission] on the
      sizes alone: it panics exactly when [admission] fails; when [admission]
      admits [k > 0] groups, the first [k] waiting groups are scheduled, get their
      blocks and move to the end of the running queue; otherwise the running
      groups are decoded.  In the last two cases nothing is swapped, copied or
      ignored, and the step returns. *)
Theorem schedule_refines_admission self w :
    sched_inv self w →
    match admitted self w with
    | None => Scheduler_schedule self w = Panic
    | Some 0 => ∃ self' w',
        Scheduler_schedule self w =
          Done (mkSchedulerOutput (running self') ∅ ∅ ∅ [], self') w'
    | Some k => ∃ self' w',
        Scheduler_schedule self w =
          Done (mkSchedulerOutput (take k (waiting self)) ∅ ∅ ∅ [], self') w' ∧
        waiting self' = drop k (waiting self) ∧
        running self' = running self ++ take k (waiting self) ∧ sched_inv self' w'
    end.
  Proof.
    intros HI. pose proof (schedule_ok self w HI) as Hok.
    destruct (admitted self w) as [[|k]|]; [| | done];
      apply wp_done in Hok as ([out self'] & w' & E & D); exists self', w'; rewrite E.
    - destruct D as [D1 _ _ _ _ _]. simpl in D1. by rewrite D1.
    - destruct D as [D1 D2 D3 D4 _ _]. simpl in D1. by rewrite D1.
  Qed.

  (** C1: a decoding step never panics and never spins.  Every group is afterwards
      either running or waiting, the block tables still match the queues, and
      every scheduled sequence owns a physical block for its next token. *)
Theorem decode_step_safe self w :
    sched_inv self w → admitted self w = Some 0 →
    ∃ out self' w', Scheduler_schedule self w = Done (out, self') w' ∧
      scheduled out = running self' ∧ sched_inv self' w' ∧
      waiting self' ++ running self' ≡ₚ waiting self ++ running self ∧
      ∀ g p q, g ∈ scheduled out → single g p q w' →
        ∃ t, block_tables (block_engine self') !! seq_id q = Some t ∧
          length (logical_token_blocks q) + _Sequence_blocks_to_add_new_tok q ≤ length t.
  Proof.
    intros HI Ha. pose proof (schedule_ok self w HI) as Hok. rewrite Ha in Hok.
    apply wp_done in Hok as ([out self'] & w' & E & [D1 D2 D3 D4 (rest & D5 & D6) D7]).
    simpl in *. subst out. eexists _, self', w'. split_and!; [done | done | | |].
    - split; [| done]. by apply queues_unready_all.
    - assert (Hr : running self ≡ₚ running self' ++ rest)
        by by rewrite <- D5, reverse_Permutation, sort_by_key_perm.
      rewrite Hr, D6, <- (assoc_L (++)), (Permutation_app_comm rest).
      by rewrite <- (assoc_L (++)).
    - simpl. intros g p q Hg Hs. exact (qi_ready _ _ _ _ _ D7 g Hg p q Hs).
  Qed.

  (** C12: a decoding step keeps a prefix of the running groups in descending order
      of arrival and sends the others back to the front of the waiting queue, in
      the same order: no group that is preempted arrived later than one that
      keeps running. *)
Theorem earliest_arrivals_preempted self w :
    sched_inv self w → admitted self w = Some 0 →
    ∃ out self' w' preempted, Scheduler_schedule self w = Done (out, self') w' ∧
      waiting self' = preempted ++ waiting self ∧
      running self' ++ preempted ≡ₚ running self ∧
      ∀ g g', g ∈ preempted → g' ∈ running self' → arrival_time g ≤ arrival_time g'.
  Proof.
    intros HI Ha. pose proof (schedule_ok self w HI) as Hok. rewrite Ha in Hok.
    apply wp_done in Hok as ([out self'] & w' & E & [D1 D2 D3 D4 (rest & D5 & D6) D7]).
    simpl in *. exists out, self', w', rest. split_and!; [done | done | |].
    - by rewrite <- D5, reverse_Permutation, sort_by_key_perm.
    - intros g g' (r1 & r2 & ->)%list_elem_of_split (k1 & k2 & Ek)%list_elem_of_split.
      rewrite Ek in D5. eapply (reverse_sort_descending arrival_time _ k1 g' (k2 ++ r1) g r2).
      by rewrite D5, <- !(assoc_L (++)).
  Qed.

  (** Generating one token for every group a decoding step scheduled
      re-establishes the invariant for the next step, one group at a time:
      [add_token] returns and the blocks of the table still cover the sequence. *)
Theorem token_keeps_queues e wt act rdy g p q lp w :
    queues_inv e wt act (g :: rdy) w → single g p q w → seq_wf q →
    ∃ w', on_seq p (_Sequence_add_token p lp) w = Done tt w' ∧
      queues_inv e wt (g :: act) rdy w'.
  Proof.
    intros HI Hs Hwf. destruct (qi_single _ _ _ _ _ HI g) as (p0 & q0 & Hs0 & Hne); [set_solver |].
    destruct (single_unique _ _ _ _ _ _ Hs Hs0) as [-> ->].
    destruct (add_token_ok p w q lp) as (q' & E & _ & Hid & _ & _ & Hlen); [apply Hs .. | done | done |].
    exists (set_seqs <[p:=q']> w). split; [done |]. by eapply token_step.
  Qed.

  (** C20: as long as fewer than [max_num_seqs] sequences run, [schedule] keeps it
      so: one slot always stays empty. *)
Theorem running_stays_below_max self w out self' w' :
    sched_inv self w → length (running self) < max_num_seqs (config self) →
    Scheduler_schedule self w = Done (out, self') w' →
    num_running_seqs self' < max_num_seqs (config self').
  Proof.
    intros HI Hlt E.
    destruct (schedule_moves self w out self' w' HI E) as (HI' & _ & Hcfg & _ & _ & Hb).
    rewrite Hcfg, (num_running_length _ _ _ _ _ (si_queues _ _ HI')). by apply Hb.
  Qed.

  (** A limit of one sequence schedules none: with [max_num_seqs = 1] and an
      idle engine, [schedule] answers with nothing to do, whatever is waiting. *)
Theorem limit_of_one_never_schedules self w :
    max_num_seqs (config self) = 1 → running self = [] → swapped_out self = [] →
    Scheduler_schedule self w = Done (mkSchedulerOutput [] ∅ ∅ ∅ [], self) w.
  Proof.
    intros Hmax Hr Hs. destruct self as [wt rn sw cfg e]. simpl in *. subst rn sw.
    assert (Hw : schedule_waiting (length wt) (mkScheduler wt [] [] cfg e) [] [] w =
                 Done (mkScheduler wt [] [] cfg e, [], []) w).
    { destruct wt as [|g wt]; [done |]. simpl. by rewrite Hmax. }
    unfold Scheduler_schedule. simpl. by rewrite (st_bind_done _ _ _ _ _ Hw).
  Qed.

  (** A waiting group larger than the whole pool is not ignored as intended:
      its branch falls through to the allocation, and [schedule] panics. *)
Theorem impossible_group_panics self g wt w :
    sched_inv self w → waiting self = g :: wt →
    max_num_seqs (config self) ≠ length (running self) + 1 →
    num_gpu_blocks (block_engine self) < group_blocks w g →
    BlockEngine_can_allocate (block_engine self) g w = Done AllocStatus_Impossible w ∧
    Scheduler_schedule self w = Panic.
  Proof.
    intros HI Hw Hmax Hbig. pose proof HI as [HQ _].
    assert (Hg : group_single w g)
      by (eapply (qi_single _ _ _ _ _ HQ); rewrite Hw; set_solver).
    pose proof (qi_capacity _ _ _ _ _ HQ) as Hcap. fold (free (block_engine self)) in Hcap.
    fold (used (block_engine self)) in Hcap. split.
    - rewrite (can_allocate_eq _ _ _ _ _ _ HQ Hg). rewrite decide_False, decide_True by lia. done.
    - pose proof (schedule_ok self w HI) as Hok. unfold admitted in Hok. rewrite Hw in Hok.
      cbn [fmap list_fmap admission] in Hok.
      by rewrite decide_False, decide_False, decide_True in Hok by lia.
  Qed.

  (** C11: [free_finished_sequence_groups] removes exactly the finished groups from
      the running queue, keeps the order of the others, takes the tables of the
      removed ones away and preserves the invariant. *)
Theorem free_finished_exact self w :
    sched_inv self w →
    ∃ self' w', Scheduler_free_finished_sequence_groups self w = Done self' w' ∧
      sched_inv self' w' ∧ waiting self' = waiting self ∧
      running self' = filter (λ g, group_finished w g = false) (running self) ∧
      ∀ id, is_Some (block_tables (block_engine self') !! id) ↔ id ∈ group_seq_ids (running self').
  Proof.
    intros HI. destruct (proj1 (wp_done _ _ _) (free_finished_ok self w HI))
      as (self' & w' & E & e' & -> & HQ & _). pose proof (si_swapped _ _ HI) as Hsw.
    eexists _, w'. split_and!; [exact E | by split | done | done |].
    intros id. simpl. rewrite (qi_tables _ _ _ _ _ HQ). by rewrite app_nil_r.
  Qed.

  (** [Scheduler::new] panics unless both block counts have been set in the
      configuration; then it starts with empty queues and satisfies the
      invariant. *)
Theorem new_scheduler_needs_full_init cfg c w :
    config_wf c → w_blocks w = ∅ → blocks_unlocked w →
    if fully_init c then
      ∃ self w', Scheduler_new cfg c w = Done self w' ∧ sched_inv self w' ∧
        waiting self = [] ∧ running self = [] ∧ config self = cfg
    else Scheduler_new cfg c w = Panic.
  Proof.
    intros Hwf Hw Hu. unfold Scheduler_new. destruct (fully_init c) eqn:Hi; [| done].
    pose proof (proj1 Hwf Hi) as [[ng Hg] [nc Hc]].
    destruct (proj1 (wp_done _ _ _) (new_scheduler_inv cfg c ng nc w Hi Hg Hc Hw Hu))
      as (self & w' & E & ? & ? & ? & ? & _). unfold Scheduler_new in E. rewrite Hi in E.
    exists self, w'. by split_and!.
  Qed.

End SchedulerProperties.

(** *** Witnesses *)

Section SchedulerExamples.

  #[local] Existing Instance plain_logprobs.
  #[local] Existing Instance canonical_order.

  (** Two sequences: [ex_seq] (three tokens, two blocks of two) and one whose two
      blocks are full. *)
Definition ex_full : _Sequence :=
    ex_pages [1; 2; 3; 4] 1 2
      [{| ltb_tokens := [1; 2]; ltb_block_size := 2; ltb_num_tokens := 2 |};
       {| ltb_tokens := [3; 4]; ltb_block_size := 2; ltb_num_tokens := 2 |}].

  (** One that needs five blocks. *)
Definition ex_huge : _Sequence :=
    ex_pages [1; 2; 3; 4; 5; 6; 7; 8; 9] 2 2
      ((λ l, {| ltb_tokens := l; ltb_block_size := 2; ltb_num_tokens := 2 |}) <$>
        [[1; 2]; [3; 4]; [5; 6]; [7; 8]; [9; 10]]).

Definition ex_group_full : SequenceGroup :=
    {| seqs := {[1 := 1]}; arrival_time := 1; group_id := 1; request_id := "cmpl";
       created := 1 |}.

Definition ex_group_huge : SequenceGroup :=
    {| seqs := {[2 := 2]}; arrival_time := 2; group_id := 2; request_id := "cmpl";
       created := 2 |}.

Definition ex_cache : CacheConfig :=
    CacheConfig_set_num_cpu_blocks
      (CacheConfig_set_num_gpu_blocks (mkCacheConfig 2 None None false) 4) 4.

Definition ex_start : World :=
    mkWorld ∅ {[0 := ex_seq; 1 := ex_full; 2 := ex_huge]} ∅.

Definition no_scheduler : Scheduler := mkScheduler [] [] [] {| max_num_seqs := 0 |} no_engine.

Definition ex_s0 : Scheduler :=
    result_of no_scheduler (Scheduler_new {| max_num_seqs := 8 |} ex_cache ex_start).

Definition ex_sw0 : World :=
    world_of (Scheduler_new {| max_num_seqs := 8 |} ex_cache ex_start).

Lemma ex_start_unlocked : blocks_unlocked ex_start.
  Proof. intros p. apply not_elem_of_empty. Qed.

Lemma ex_s0_inv :
    sched_inv ex_s0 ex_sw0 ∧ w_seqs ex_sw0 = w_seqs ex_start ∧ w_held ex_sw0 = ∅.
  Proof.
    pose proof (new_scheduler_inv {| max_num_seqs := 8 |} ex_cache 4 4 ex_start
                  eq_refl eq_refl eq_refl eq_refl ex_start_unlocked) as Hwp.
    apply (wp_result no_scheduler) in Hwp as (_ & HI & _ & _ & _ & Hs).
    split_and!; [exact HI | exact Hs | by vm_compute].
  Qed.

Lemma ex_sched_single g p q :
    seqs g = {[seq_id q := p]} → w_seqs ex_start !! p = Some q → single g p q ex_sw0.
  Proof.
    intros Hg Hq. destruct ex_s0_inv as (_ & Hs & Hh). split; [done | by rewrite Hs |].
    split; rewrite Hh; apply not_elem_of_empty.
  Qed.

  (** Both groups wait. *)
Definition ex_s1 : Scheduler :=
    Scheduler_add_sequence (Scheduler_add_sequence ex_s0 ex_group) ex_group_full.

Lemma ex_s1_inv : sched_inv ex_s1 ex_sw0.
  Proof.
    eapply (add_sequence_inv _ ex_group_full 1 ex_full); [| by apply ex_sched_single | done |].
    - eapply (add_sequence_inv _ ex_group 0 ex_seq);
        [apply ex_s0_inv | by apply ex_sched_single | done |].
      by_compute.
    - by_compute.
  Qed.

  (** Both have their blocks: [2 + 2] of the four. *)
Definition ex_out0 : SchedulerOutput := mkSchedulerOutput [] ∅ ∅ ∅ [].

Definition ex_s2 : Scheduler :=
    (result_of (ex_out0, no_scheduler) (Scheduler_schedule ex_s1 ex_sw0)).2.

Definition ex_sw2 : World := world_of (Scheduler_schedule ex_s1 ex_sw0).

Lemma ex_s2_inv : sched_inv ex_s2 ex_sw2.
  Proof.
    pose proof (schedule_ok ex_s1 ex_sw0 ex_s1_inv) as Hwp.
    assert (Ha : admitted ex_s1 ex_sw0 = Some 2) by by vm_compute. rewrite Ha in Hwp.
    apply (wp_result (ex_out0, no_scheduler)) in Hwp as (_ & D). apply D.
  Qed.

Lemma ex_s2_admits_none : admitted ex_s2 ex_sw2 = Some 0.
  Proof. by vm_compute. Qed.

Lemma schedule_refines_admission_witness :
    ∃ self' w', Scheduler_schedule ex_s1 ex_sw0 =
      Done (mkSchedulerOutput [ex_group; ex_group_full] ∅ ∅ ∅ [], self') w' ∧
      waiting self' = [] ∧ running self' = [ex_group; ex_group_full].
  Proof.
    pose proof (schedule_refines_admission ex_s1 ex_sw0 ex_s1_inv) as HT.
    assert (Ha : admitted ex_s1 ex_sw0 = Some 2) by by vm_compute. rewrite Ha in HT.
    destruct HT as (self' & w' & E & E1 & E2 & _). exists self', w'.
    split; [exact E | split; [exact E1 | exact E2]].
  Defined.

Lemma decode_step_safe_witness :
    ∃ out self' w', Scheduler_schedule ex_s2 ex_sw2 = Done (out, self') w' ∧
      sched_inv self' w'.
  Proof.
    destruct (decode_step_safe ex_s2 ex_sw2 ex_s2_inv ex_s2_admits_none)
      as (out & self' & w' & E & _ & HI & _). eauto.
  Defined.

  (** The later group needs a block: the earlier one is preempted. *)
Lemma earliest_arrivals_preempted_witness :
    (∃ out self' w' preempted, Scheduler_schedule ex_s2 ex_sw2 = Done (out, self') w' ∧
      waiting self' = preempted ++ waiting ex_s2) ∧
    (waiting (result_of (ex_out0, no_scheduler) (Scheduler_schedule ex_s2 ex_sw2)).2 = [ex_group] ∧
     running (result_of (ex_out0, no_scheduler) (Scheduler_schedule ex_s2 ex_sw2)).2 =
       [ex_group_full]).
  Proof.
    split; [| by vm_compute].
    destruct (earliest_arrivals_preempted ex_s2 ex_sw2 ex_s2_inv ex_s2_admits_none)
      as (out & self' & w' & pre & E & Ew & _). eauto 10.
  Defined.

Definition ex_s3 : Scheduler :=
    (result_of (ex_out0, no_scheduler) (Scheduler_schedule ex_s2 ex_sw2)).2.

Definition ex_sw3 : World := world_of (Scheduler_schedule ex_s2 ex_sw2).

Lemma ex_s3_inv :
    queues_inv (block_engine ex_s3) (waiting ex_s3) [] [ex_group_full] ex_sw3.
  Proof.
    pose proof (schedule_ok ex_s2 ex_sw2 ex_s2_inv) as Hwp. rewrite ex_s2_admits_none in Hwp.
    apply (wp_result (ex_out0, no_scheduler)) in Hwp as (_ & [_ _ _ _ _ HI]).
    assert (Hr : running ex_s3 = [ex_group_full]) by by vm_compute.
    rewrite <- Hr. exact HI.
  Qed.

Definition ex_full_running : _Sequence := set_data (SequenceData_set_status Running) ex_full.

Lemma ex_full_wf : seq_wf ex_full_running.
  Proof.
    split; [simpl; lia | | done]. simpl.
    apply blocks_wf_cons; [by split | done | done |].
    apply blocks_wf_last; [split; simpl; lia | simpl; lia].
  Qed.

Lemma token_keeps_queues_witness :
    ∃ w', on_seq 1 (_Sequence_add_token 1 (9, f32_zero)) ex_sw3 = Done tt w' ∧
      queues_inv (block_engine ex_s3) (waiting ex_s3) [ex_group_full] [] w'.
  Proof.
    apply (token_keeps_queues _ _ [] [] ex_group_full 1 ex_full_running (9, f32_zero) ex_sw3
             ex_s3_inv); [| exact ex_full_wf].
    assert (Hh : w_held ex_sw3 = ∅) by by vm_compute.
    split; [done | by vm_compute | split; rewrite Hh; apply not_elem_of_empty].
  Defined.

Lemma running_stays_below_max_witness :
    num_running_seqs ex_s2 < max_num_seqs (config ex_s2).
  Proof.
    apply (running_stays_below_max ex_s1 ex_sw0
             (result_of (ex_out0, no_scheduler) (Scheduler_schedule ex_s1 ex_sw0)).1 ex_s2 ex_sw2
             ex_s1_inv); [vm_compute; lia | by vm_compute].
  Defined.

Definition ex_limited : Scheduler :=
    mkScheduler [ex_group; ex_group_full] [] [] {| max_num_seqs := 1 |} (block_engine ex_s0).

Lemma limit_of_one_never_schedules_witness :
    Scheduler_schedule ex_limited ex_sw0 =
    Done (mkSchedulerOutput [] ∅ ∅ ∅ [], ex_limited) ex_sw0.
  Proof. exact (limit_of_one_never_schedules ex_limited ex_sw0 eq_refl eq_refl eq_refl). Defined.

Lemma impossible_group_panics_witness :
    BlockEngine_can_allocate (block_engine ex_s0) ex_group_huge ex_sw0 =
      Done AllocStatus_Impossible ex_sw0 ∧
    Scheduler_schedule (Scheduler_add_sequence ex_s0 ex_group_huge) ex_sw0 = Panic.
  Proof.
    apply (impossible_group_panics (Scheduler_add_sequence ex_s0 ex_group_huge)
             ex_group_huge [] ex_sw0).
    - eapply (add_sequence_inv _ ex_group_huge 2 ex_huge);
        [apply ex_s0_inv | by apply ex_sched_single | done | by_compute].
    - by vm_compute.
    - vm_compute. lia.
    - vm_compute. lia.
  Defined.

  (** [ex_group] is finished, the other one runs on. *)
Definition ex_sw_fin : World :=
    world_of (SequenceGroup_set_status ex_group (Finished "stop") ex_sw2).

Lemma ex_fin_inv : sched_inv ex_s2 ex_sw_fin.
  Proof.
    destruct ex_s2_inv as [HQ Hsw]. split; [| done].
    pose proof (set_status_queues _ (waiting ex_s2) (running ex_s2) [] ex_group (Finished "stop") ex_sw2
      ltac:(vm_compute; left) HQ) as Hwp.
    by apply (wp_result tt) in Hwp as (_ & HI & _).
  Qed.

Lemma free_finished_exact_witness :
    ∃ self' w', Scheduler_free_finished_sequence_groups ex_s2 ex_sw_fin = Done self' w' ∧
      running self' = [ex_group_full].
  Proof.
    destruct (free_finished_exact ex_s2 ex_sw_fin ex_fin_inv) as (self' & w' & E & _ & _ & Hr & _).
    exists self', w'. split; [exact E |].
    transitivity (filter (λ g, group_finished ex_sw_fin g = false) (running ex_s2));
      [exact Hr | by vm_compute].
  Defined.

Lemma new_scheduler_needs_full_init_witness :
    (∃ self w', Scheduler_new {| max_num_seqs := 8 |} ex_cache ex_start = Done self w' ∧
      sched_inv self w') ∧
    Scheduler_new {| max_num_seqs := 8 |} (mkCacheConfig 2 None None false) ex_start = Panic.
  Proof.
    split.
    - destruct (new_scheduler_needs_full_init {| max_num_seqs := 8 |} ex_cache ex_start
        ltac:(apply set_num_cpu_blocks_wf, set_num_gpu_blocks_wf; split; [done | by intros [[??] _]])
        eq_refl ex_start_unlocked) as (self & w' & E & HI & _).
      by exists self, w'.
    - apply (new_scheduler_needs_full_init {| max_num_seqs := 8 |} (mkCacheConfig 2 None None false)
        ex_start); [split; [done | by intros [[??] _]] | done | exact ex_start_unlocked].
  Defined.

End SchedulerExamples.
