(* ===== verification/SchedulerTrace.v ===== *)
(** * The scheduler: sequences of calls

    The engine drives the scheduler by calls: a request is added, a step is
    scheduled, a token is appended or a finish reason set, finished groups are
    freed.  [call] is the relation of one such call, with the code's own
    functions as its effects and nothing but the code's own conditions on them;
    what holds between any two calls holds in every state a sequence of calls
    reaches from [Scheduler::new].

    Groups have one sequence, as the engine builds them.  A group that is added may
    have no page, the only kind that [add_request] gets past [_Sequence::new], or
    the pages it was meant to have; and a token is appended whether the table has
    room for it or not.  So the tables cover less than in [SchedulerSpec]: the
    invariant is the one of [loose_cover]. *)

From Stdlib Require Import ZArith SpecFloat Lia.
From stdpp Require Import base gmap sets strings countable list relations.
From S2P Require Import Prelude Machine Sequence BlockEngine BlockEngineSwap BlockEngineSpec.
From S2P Require Import CacheEngine Scheduler SchedulerInv SchedulerWaiting SchedulerSpec.

(** ** Lemmas: the pool keeps its size *)

Section PoolSize.
  Context `{LogprobsSig} `{HashOrder}.
  Implicit Types w : World.
  Implicit Types e : BlockEngine.
  Implicit Types self : Scheduler.

  (** A call from a pool of [n] blocks whose result has a pool of [n] blocks. *)
Definition keeps_size {A} (size_of : A → nat) (n : nat) (m : M A) : Prop :=
    ∀ w, wlp m (λ r _, size_of r = n) w.

Lemma keeps_bind_any {A B} (sz : B → nat) n (m : M A) (k : A → M B) :
    (∀ a, keeps_size sz n (k a)) → keeps_size sz n (st_bind m k).
  Proof.
    intros Hk w. apply wlp_bind. unfold wlp. destruct (m w) as [a w'| |]; [apply Hk | done ..].
  Qed.

Lemma keeps_bind {A B} (sz : A → nat) (sz' : B → nat) n (m : M A) (k : A → M B) :
    keeps_size sz n m → (∀ a, sz a = n → keeps_size sz' n (k a)) →
    keeps_size sz' n (st_bind m k).
  Proof.
    intros Hm Hk w. apply wlp_bind. eapply wlp_mono; [apply Hm |]. intros a w' E. by apply Hk.
  Qed.

Lemma keeps_ret {A} (sz : A → nat) n a : sz a = n → keeps_size sz n (st_ret (S := World) a).
  Proof. by intros Ha w. Qed.

Lemma keeps_panic {A} (sz : A → nat) n : keeps_size sz n (st_panic (S := World)).
  Proof. by intros w. Qed.

Lemma keeps_hang {A} (sz : A → nat) n : keeps_size sz n (st_hang (S := World)).
  Proof. by intros w. Qed.

Lemma keeps_guard {A} (sz : A → nat) n l (m : M A) :
    keeps_size sz n m → keeps_size sz n (with_guard l m).
  Proof.
    intros Hm w. unfold wlp, with_guard. case_decide; [done |].
    specialize (Hm (set_held (λ h, {[l]} ∪ h) w)). unfold wlp in Hm. by destruct (m _).
  Qed.

Lemma keeps_fold {A B} (sz : B → nat) n (f : B → A → M B) acc l :
    (∀ acc x, sz acc = n → keeps_size sz n (f acc x)) → sz acc = n →
    keeps_size sz n (st_fold f acc l).
  Proof.
    intros Hf. revert acc. induction l as [|x l IH]; intros acc Ha; [by apply keeps_ret |].
    simpl. eapply keeps_bind; [by apply Hf | auto].
  Qed.

End PoolSize.

(** Walks down a call; a call with a lemma of its own is found in [pool]. *)
Create HintDb pool.
#[export] Hint Resolve keeps_ret keeps_panic keeps_hang : pool.

Ltac keeps :=
  repeat first
    [ progress simpl
    | apply keeps_ret; simpl; (done || congruence)
    | apply keeps_panic
    | apply keeps_hang
    | case_match
    | eapply keeps_bind; [solve [eauto 3 with pool] |]; intros ? ?
    | apply keeps_bind_any; intros ? ].

Section PoolOps.
  Context `{LogprobsSig} `{HashOrder}.
  Implicit Types w : World.
  Implicit Types e : BlockEngine.
  Implicit Types self : Scheduler.

Definition pool_size self : nat := num_gpu_blocks (block_engine self).

Lemma keeps_free_sequence n e p :
    num_gpu_blocks e = n → keeps_size num_gpu_blocks n (BlockEngine_free_sequence e p).
  Proof.
    intros He. unfold BlockEngine_free_sequence. do 2 (apply keeps_bind_any; intros ?).
    eapply (keeps_bind num_gpu_blocks); [apply keeps_fold; [| exact He] |].
    - intros acc x Ha. unfold free_table_block. keeps.
    - intros e' He'. keeps.
  Qed.

Lemma keeps_allocate n e g :
    num_gpu_blocks e = n → keeps_size num_gpu_blocks n (BlockEngine_allocate e g).
  Proof.
    intros He. unfold BlockEngine_allocate. apply keeps_bind_any. intros k.
    eapply (keeps_bind (λ r, num_gpu_blocks r.1)); [apply keeps_fold; [| exact He] |].
    - intros [e' t] x Ha. unfold alloc_turn. keeps.
    - intros [e' t] Ha. simpl in Ha. apply keeps_ret.
      assert (Hfold : ∀ l e', num_gpu_blocks e' = n → num_gpu_blocks (foldl (λ e1 id,
        set_tables e1 (<[id:=t]> (block_tables e1))) e' l) = n)
        by (induction l; simpl; auto).
      by apply Hfold.
  Qed.

Lemma keeps_append_slot n e p :
    num_gpu_blocks e = n →
    keeps_size (λ r, num_gpu_blocks r.2) n (BlockEngine_append_token_slot_to_seq e p).
  Proof.
    intros He. unfold BlockEngine_append_token_slot_to_seq.
    do 2 (apply keeps_bind_any; intros ?). apply keeps_guard, keeps_bind_any. intros q. keeps.
  Qed.

Lemma keeps_swap_block n (acc : BlockEngine * gmap nat nat * list nat) p
    (turn : BlockEngine * gmap nat nat * list nat → nat → M (BlockEngine * gmap nat nat * list nat)) :
    turn = swap_out_block ∨ turn = swap_in_block → num_gpu_blocks acc.1.1 = n →
    keeps_size (λ r, num_gpu_blocks r.1.1) n (turn acc p).
  Proof.
    intros Ht Ha. destruct acc as [[e m] t]. simpl in Ha.
    destruct Ht as [-> | ->]; simpl;
      (eapply (keeps_bind (λ r, num_gpu_blocks r.1.1));
        [apply keeps_guard, keeps_bind_any; intros b; keeps | intros [[e' m'] b'] Hb; keeps]).
  Qed.

Lemma keeps_swap n e g :
    num_gpu_blocks e = n →
    keeps_size (λ r, num_gpu_blocks r.2) n (BlockEngine_swap_out e g) ∧
    keeps_size (λ r, num_gpu_blocks r.2) n (BlockEngine_swap_in e g).
  Proof.
    intros He. unfold BlockEngine_swap_out, BlockEngine_swap_in. split.
    all: eapply (keeps_bind (λ r, num_gpu_blocks r.1));
      [apply keeps_fold; [| exact He]; intros [e' m] x Ha; simpl in Ha;
        unfold swap_out_seq, swap_in_seq; apply keeps_bind_any; intros t;
        eapply (keeps_bind (λ r, num_gpu_blocks r.1.1));
          [apply keeps_fold; [intros acc y; apply keeps_swap_block; auto | exact Ha]
          | intros [[? ?] ?] ?; keeps]
      | intros [e' m] Ha; keeps].
  Qed.

Lemma keeps_swap_out n e g :
    num_gpu_blocks e = n → keeps_size (λ r, num_gpu_blocks r.2) n (BlockEngine_swap_out e g).
  Proof. apply keeps_swap. Qed.

Lemma keeps_swap_in n e g :
    num_gpu_blocks e = n → keeps_size (λ r, num_gpu_blocks r.2) n (BlockEngine_swap_in e g).
  Proof. apply keeps_swap. Qed.

Lemma keeps_free n self g :
    pool_size self = n → keeps_size pool_size n (Scheduler__free self g).
  Proof.
    intros Hs. unfold Scheduler__free. eapply (keeps_bind num_gpu_blocks).
    - apply keeps_fold; [intros e p; apply keeps_free_sequence | exact Hs].
    - intros e He. by apply keeps_ret.
  Qed.

Lemma keeps_append_group n self g m :
    pool_size self = n →
    keeps_size (λ r, pool_size r.1) n (Scheduler__append_token_slot_to_seq_group self g m).
  Proof.
    intros Hs. unfold Scheduler__append_token_slot_to_seq_group.
    eapply (keeps_bind (λ r, num_gpu_blocks r.1)).
    - apply keeps_fold; [| exact Hs]. intros [e m'] p He. unfold append_slot_turn.
      eapply (keeps_bind (λ r, num_gpu_blocks r.2)); [by apply keeps_append_slot |].
      intros [op e'] He'. by apply keeps_ret.
    - intros [e m'] He. by apply keeps_ret.
  Qed.

Lemma keeps_preempt n self g m :
    pool_size self = n → keeps_size (λ r, pool_size r.1) n (Scheduler__preempt self g m).
  Proof.
    intros Hs. assert (Hswap : keeps_size (λ r, pool_size r.1) n (Scheduler__preempt_by_swap self g m)).
    { unfold Scheduler__preempt_by_swap. case_match.
      - eapply (keeps_bind pool_size); [| intros; by apply keeps_ret].
        unfold Scheduler__abort_seq_group. apply keeps_bind_any. intros _. by apply keeps_free.
      - eapply (keeps_bind (λ r, num_gpu_blocks r.2)); [by apply keeps_swap_out |].
        intros [sw e] He. apply keeps_bind_any. intros _. by apply keeps_ret. }
    unfold Scheduler__preempt. destruct (size (seqs g)) as [|[|k]]; [done | | done].
    eapply (keeps_bind pool_size); [| intros; by apply keeps_ret].
    unfold Scheduler__preempt_by_recompute. apply keeps_bind_any. intros _.
    eapply (keeps_bind pool_size); [by apply keeps_free | intros; by apply keeps_ret].
  Qed.

Lemma keeps_admit_front n self g l :
    pool_size self = n → keeps_size (λ r, pool_size r.1) n (admit_front self g l).
  Proof.
    intros Hs. unfold admit_front. apply keeps_bind_any. intros _.
    eapply (keeps_bind pool_size).
    - unfold Scheduler__allocate. eapply (keeps_bind num_gpu_blocks); [by apply keeps_allocate |].
      intros e He. by apply keeps_ret.
    - intros s1 E. apply keeps_bind_any. intros [front rest]. by apply keeps_ret.
  Qed.

Lemma keeps_waiting n fuel self l ign :
    pool_size self = n → keeps_size (λ r, pool_size r.1.1) n (schedule_waiting fuel self l ign).
  Proof.
    revert self l ign. induction fuel as [|fuel IH]; intros self l ign Hs; simpl;
      destruct (waiting self) as [|g wt]; try by apply keeps_ret. { apply keeps_hang. }
    case_match; [by apply keeps_ret |]. apply keeps_bind_any. intros [].
    - eapply (keeps_bind (λ r, pool_size r.1)); [by apply keeps_admit_front |].
      intros [s1 l1] E. by apply IH.
    - by apply keeps_ret.
    - do 2 (apply keeps_bind_any; intros ?). case_match.
      eapply (keeps_bind (λ r, pool_size r.1)); [by apply keeps_admit_front |].
      intros [s1 l1] E. by apply IH.
  Qed.

Lemma keeps_make_room n fuel self g l m :
    pool_size self = n → keeps_size (λ r, pool_size r.1.1.1) n (make_room fuel self g l m).
  Proof.
    revert self l m. induction fuel as [|fuel IH]; intros self l m Hs; cbn [make_room];
      apply keeps_bind_any; intros []; try by apply keeps_ret.
    all: destruct (vec_pop (running self)) as [[v rest]|]; try apply keeps_hang.
    all: eapply (keeps_bind (λ r, pool_size r.1)); [by apply keeps_preempt |];
      intros [s1 m1] E; first [by apply IH | by apply keeps_ret].
  Qed.

Lemma keeps_running n fuel st :
    pool_size (ds_self st) = n → keeps_size (λ r, pool_size (ds_self r)) n (schedule_running fuel st).
  Proof.
    revert st. induction fuel as [|fuel IH]; intros st Hs; simpl;
      destruct (running (ds_self st)) as [|g rest]; try by apply keeps_ret. { apply keeps_hang. }
    eapply (keeps_bind (λ r, pool_size (ds_self r))); [| intros st1 E; by apply IH].
    unfold schedule_group. eapply (keeps_bind (λ r, pool_size r.1.1.1)); [by apply keeps_make_room |].
    intros [[[s1 pre] out] []] E; [by apply keeps_ret |].
    eapply (keeps_bind (λ r, pool_size r.1)); [by apply keeps_append_group |].
    intros [s2 cp] E2. by apply keeps_ret.
  Qed.

Lemma keeps_swapped n fuel self m c :
    pool_size self = n → keeps_size (λ r, pool_size r.1.1) n (schedule_swapped fuel self m c).
  Proof.
    revert self m c. induction fuel as [|fuel IH]; intros self m c Hs; simpl;
      destruct (swapped_out self) as [|g rest]; try by apply keeps_ret. { apply keeps_hang. }
    case_match; [by apply keeps_ret |].
    eapply (keeps_bind (λ r, num_gpu_blocks r.2)); [by apply keeps_swap_in |].
    intros [sw e] E. eapply (keeps_bind (λ r, pool_size r.1)); [by apply keeps_append_group |].
    intros [s1 c1] E1. by apply IH.
  Qed.

  (** No step changes the size of the pool, whatever the queues hold. *)
Lemma keeps_schedule n self :
    pool_size self = n → keeps_size (λ r, pool_size r.2) n (Scheduler_schedule self).
  Proof.
    intros Hs.
    assert (Hdecode : ∀ s, pool_size s = n → keeps_size (λ r, pool_size r.2) n (schedule_decode s)).
    { intros s E. unfold schedule_decode.
      eapply (keeps_bind (λ r, pool_size (ds_self r))); [by apply keeps_running |].
      intros st E1. eapply (keeps_bind (λ r, pool_size r.1.1)).
      - case_match; [by apply keeps_swapped | by apply keeps_ret].
      - intros [[s1 sw] cp] E2. by apply keeps_ret. }
    unfold Scheduler_schedule. destruct (swapped_out self); [| by apply Hdecode].
    eapply (keeps_bind (λ r, pool_size r.1.1)); [by apply keeps_waiting |].
    intros [[s1 l] ign] E. repeat case_match; first [by apply Hdecode | by apply keeps_ret].
  Qed.

Lemma keeps_free_finished n self :
    pool_size self = n → keeps_size pool_size n (Scheduler_free_finished_sequence_groups self).
  Proof.
    intros Hs. unfold Scheduler_free_finished_sequence_groups. apply keeps_bind_any.
    intros [keep to_free]. apply keeps_fold; [intros s1 g; apply keeps_free | exact Hs].
  Qed.

End PoolOps.

(** ** Lemmas: sequences that come and finish *)

Section QueueChanges.
  Context `{LogprobsSig} `{HashOrder} {cover : Cover}.
  Implicit Types w : World.
  Implicit Types e : BlockEngine.
  Implicit Types g : SequenceGroup.

Lemma nothing_referenced e wt w : queues_inv e wt [] [] w → table_refs e = [].
  Proof.
    intros HQ. unfold table_refs. replace (block_tables e) with (∅ : gmap nat (list nat)).
    - by rewrite map_to_list_empty.
    - symmetry. apply map_empty. intros id. apply eq_None_not_Some.
      rewrite (qi_tables _ _ _ _ _ HQ). apply not_elem_of_nil.
  Qed.

  (** A sequence that no group has yet. *)
Lemma queues_new_seq e wt act rdy w p q :
    w_seqs w !! p = None → queues_inv e wt act rdy w →
    queues_inv e wt act rdy (set_seqs <[p:=q]> w).
  Proof.
    intros Hp [HE Hun Hcap Hsi Hid Htb Hc Hr].
    assert (Hto : ∀ g p' q', single g p' q' w → single g p' q' (set_seqs <[p:=q]> w)).
    { intros g p' q' [E1 E2 E3]. split; [done | | done]. simpl.
      rewrite lookup_insert_ne; [done | congruence]. }
    assert (Hcov : ∀ n g, g ∈ wt ++ act ++ rdy → covered n e w g →
                     covered n e (set_seqs <[p:=q]> w) g).
    { intros n g Hg Hcv p' q' Hs'. destruct (Hsi g Hg) as (p0 & q0 & Hs0 & _).
      destruct (single_unique _ _ _ _ _ _ (Hto _ _ _ Hs0) Hs') as [-> ->].
      exact (Hcv p0 q0 Hs0). }
    split; try done.
    - by apply (engine_inv_ext e w).
    - intros g Hg. destruct (Hsi g Hg) as (p0 & q0 & Hs0 & Hne). exists p0, q0. auto.
    - intros g Hg. apply Hcov; [set_solver | auto].
    - intros g Hg. apply Hcov; [set_solver | auto].
  Qed.

  (** A finish reason changes no page, and fits every split of the queues. *)
Lemma finish_queues e wt act rdy w p q reason :
    queues_inv e wt act rdy w → seq_unlocked p w → w_seqs w !! p = Some q →
    ∃ w', on_seq p (_Sequence_set_finish_reason p reason) w = Done tt w' ∧
      queues_inv e wt act rdy w' ∧ sched_frame w w'.
  Proof.
    intros HQ Hl Hq. eexists. split; [by apply (on_seq_update_eq p _ w q) |].
    assert (Hf : sched_frame w (set_seqs
              <[p:=set_data (SequenceData_set_status (Finished reason)) q]> w)).
    { split; [done |]. intros p'. simpl. destruct (decide (p' = p)) as [->|Hne].
      - by rewrite lookup_insert_eq, Hq.
      - by rewrite lookup_insert_ne. }
    split; [| done]. apply (queues_frame _ _ _ _ w); [exact Hf | | exact HQ].
    apply (engine_inv_ext _ w); [done .. |]. apply HQ.
  Qed.

End QueueChanges.

(** ** The calls *)

Section Trace.
  Context `{LogprobsSig} `{HashOrder}.
  #[local] Existing Instance loose_cover.
  Implicit Types w : World.
  Implicit Types self : Scheduler.
  Implicit Types g : SequenceGroup.

  (** Every sequence in memory is well formed. *)
Definition heap_wf w : Prop := map_Forall (λ _, seq_wf) (w_seqs w).

  (** One call.  [call_add] is [add_sequence] with a group of one new sequence
      ([add_request_call] in [EngineRound]); [call_token] and [call_finish] are what
      the engine does with the sequences of a scheduled group, all of which run. *)
Inductive call : Scheduler * World → Scheduler * World → Prop :=
  | call_add self w g p q :
      seqs g = {[seq_id q := p]} → w_seqs w !! p = None → seq_unlocked p w → seq_wf q →
      seq_id q ∉ group_seq_ids (waiting self ++ running self) →
      call (self, w) (Scheduler_add_sequence self g, set_seqs <[p:=q]> w)
  | call_schedule self w out self' w' :
      Scheduler_schedule self w = Done (out, self') w' → call (self, w) (self', w')
  | call_token self w g p lp w' :
      g ∈ running self → p ∈ hash_values (seqs g) →
      on_seq p (_Sequence_add_token p lp) w = Done tt w' → call (self, w) (self, w')
  | call_finish self w g p reason w' :
      g ∈ running self → p ∈ hash_values (seqs g) →
      on_seq p (_Sequence_set_finish_reason p reason) w = Done tt w' → call (self, w) (self, w')
  | call_free self w self' w' :
      Scheduler_free_finished_sequence_groups self w = Done self' w' → call (self, w) (self', w').

  (** The states that sequences of calls reach from a new scheduler. *)
Definition reachable (cfg : SchedulerConfig) (c : CacheConfig) (s : Scheduler * World) : Prop :=
    ∃ w0 self0 w1, w_blocks w0 = ∅ ∧ blocks_unlocked w0 ∧ heap_wf w0 ∧
      Scheduler_new cfg c w0 = Done self0 w1 ∧ rtc call (self0, w1) s.

Record trace_inv (cfg : SchedulerConfig) (c : CacheConfig) self w : Prop := {
    ti_sched : sched_inv self w;
    ti_wf : heap_wf w;
    ti_pool : cfg_num_gpu_blocks c = Some (pool_size self);
    ti_config : config self = cfg;
    ti_limit : 0 < max_num_seqs cfg → length (running self) < max_num_seqs cfg;
  }.

  (** *** Lemmas *)

Lemma heap_wf_frame w w' : sched_frame w w' → heap_wf w → heap_wf w'.
  Proof.
    intros [_ Hp] Hwf p q' Hq'. specialize (Hp p). rewrite Hq' in Hp.
    destruct (w_seqs w !! p) as [q|] eqn:Hq; [| done]. injection Hp as E1 E2 E3 E4.
    destruct (Hwf p q Hq) as [H1 H2 H3]. split; congruence.
  Qed.

Lemma heap_wf_insert w p q : heap_wf w → seq_wf q → heap_wf (set_seqs <[p:=q]> w).
  Proof. intros Hw Hq. by apply map_Forall_insert_2. Qed.

Lemma single_of self w g p :
    sched_inv self w → g ∈ running self → p ∈ hash_values (seqs g) →
    ∃ q, single g p q w.
  Proof.
    intros [HQ _] Hg Hp. destruct (qi_single _ _ _ _ _ HQ g) as (p' & q & Hs & _); [set_solver |].
    rewrite (single_values _ _ _ _ Hs) in Hp. apply list_elem_of_singleton in Hp as ->. eauto.
  Qed.

  (** A token, with room or without: if it finds a page the pages do not get fewer,
      and otherwise there is no token. *)
Lemma call_token_inv self w g p lp w' :
    sched_inv self w → heap_wf w → g ∈ running self → p ∈ hash_values (seqs g) →
    on_seq p (_Sequence_add_token p lp) w = Done tt w' → sched_inv self w' ∧ heap_wf w'.
  Proof.
    intros HI Hwf Hg Hp E. pose proof HI as [HQ Hsw].
    destruct (single_of self w g p HI Hg Hp) as (q & Hs). pose proof Hs as [_ Hq Hl].
    destruct (decide (logical_token_blocks q = [])) as [Hn|Hne].
    { by rewrite (add_token_pageless p w q lp Hl Hq Hn) in E. }
    destruct (add_token_ok p w q lp Hl Hq (Hwf p q Hq) Hne) as (q' & E' & Hwf' & Hid & _ & _ & Hlen).
    rewrite E' in E. injection E as <-. split; [| by apply heap_wf_insert]. split; [| done].
    apply list_elem_of_split in Hg as (l1 & l2 & Hg).
    assert (Hperm : running self ≡ₚ g :: (l1 ++ l2)) by by rewrite Hg, Permutation_middle.
    rewrite Hperm. eapply (seq_step _ _ _ _ _ _ q); [by rewrite <- Hperm | done .. |].
    intros t _ Hneed. pose proof (need_pos q Hne). etrans; [apply Nat.le_min_l | lia].
  Qed.

Lemma call_finish_inv self w g p reason w' :
    sched_inv self w → g ∈ running self → p ∈ hash_values (seqs g) →
    on_seq p (_Sequence_set_finish_reason p reason) w = Done tt w' →
    sched_inv self w' ∧ sched_frame w w'.
  Proof.
    intros HI Hg Hp E. pose proof HI as [HQ Hsw].
    destruct (single_of self w g p HI Hg Hp) as (q & [_ Hq Hl]).
    destruct (finish_queues _ _ _ _ _ p q reason HQ Hl Hq) as (w2 & E' & HQ' & Hf).
    rewrite E' in E. injection E as <-. by split.
  Qed.

  (** Every call keeps the invariant. *)
Lemma call_keeps_inv cfg c self w self' w' :
    call (self, w) (self', w') → trace_inv cfg c self w → trace_inv cfg c self' w'.
  Proof.
    intros Hcall [HI Hwf Hn Hcfg Hlim]. pose proof HI as [HQ Hsw].
    inversion Hcall as [? ? g p q Hs Hp Hl Hq Hid|? ? out ? ? E|? ? g p lp ? Hg Hp E
                       |? ? g p reason ? Hg Hp E|? ? ? ? E]; subst.
    - split; try done; [| by apply heap_wf_insert].
      eapply (add_sequence_inv _ g p q); [| split; [done | | done] | done | done].
      + split; [by apply queues_new_seq | done].
      + simpl. apply lookup_insert_eq.
    - pose proof (wlp_done _ _ _ _ _ (keeps_schedule _ self eq_refl w) E) as En. simpl in En.
      destruct (schedule_moves _ _ _ _ _ HI E) as (HI' & Hf & Ec & _ & _ & Hb).
      split; [done | by eapply heap_wf_frame | by rewrite En | done | auto].
    - destruct (call_token_inv _ _ _ _ _ _ HI Hwf Hg Hp E). by split.
    - destruct (call_finish_inv _ _ _ _ _ _ HI Hg Hp E) as [HI' Hf].
      split; [done | by eapply heap_wf_frame | done ..].
    - pose proof (wlp_done _ _ _ _ _ (keeps_free_finished _ self eq_refl w) E) as En.
      pose proof (free_finished_ok self w HI) as Hok. unfold wp in Hok. rewrite E in Hok.
      destruct Hok as (e' & -> & HQ' & Hf). split; try done.
      + by eapply heap_wf_frame.
      + by rewrite En.
      + intros Hpos. eapply Nat.le_lt_trans; [apply length_filter | by apply Hlim].
  Qed.

Lemma calls_keep_inv cfg c s s' :
    rtc call s s' → trace_inv cfg c s.1 s.2 → trace_inv cfg c s'.1 s'.2.
  Proof.
    induction 1 as [|[s1 v1] [s2 v2] s3 Hcall _ IH]; [done |].
    intros HI. apply IH. by eapply call_keeps_inv.
  Qed.

  (** A call drops a group only from the running queue, and only once finished. *)
Lemma call_keeps_groups cfg c self w self' w' g :
    call (self, w) (self', w') → trace_inv cfg c self w → g ∈ waiting self ++ running self →
    g ∈ waiting self' ++ running self' ∨ g ∈ running self ∧ group_finished w g = true.
  Proof.
    intros Hcall [HI _ _ _ _] Hg.
    inversion Hcall as [? ? g0 p q Hs Hp Hl Hq Hid|? ? out ? ? E|? ? g0 p lp ? Hg0 Hp E
                       |? ? g0 p reason ? Hg0 Hp E|? ? ? ? E]; subst; try by left.
    - left. simpl. set_solver.
    - left. destruct (schedule_moves _ _ _ _ _ HI E) as (_ & _ & _ & Hperm & _). by rewrite Hperm.
    - pose proof (free_finished_ok self w HI) as Hok. unfold wp in Hok. rewrite E in Hok.
      destruct Hok as (e' & -> & _ & _). simpl.
      apply elem_of_app in Hg as [Hg|Hg]; [left; set_solver |].
      destruct (group_finished w g) eqn:Ef; [by right |]. left.
      apply elem_of_app. right. by apply list_elem_of_filter.
  Qed.

Lemma calls_keep_groups cfg c self w self' w' g :
    trace_inv cfg c self w → rtc call (self, w) (self', w') → g ∈ waiting self ++ running self →
    g ∈ waiting self' ++ running self' ∨
    ∃ self1 w1, rtc call (self, w) (self1, w1) ∧ rtc call (self1, w1) (self', w') ∧
      g ∈ running self1 ∧ group_finished w1 g = true.
  Proof.
    intros HI Hs Hg.
    refine (rtc_ind_r (λ s, g ∈ waiting s.1 ++ running s.1 ∨ ∃ self1 w1,
      rtc call (self, w) (self1, w1) ∧ rtc call (self1, w1) s ∧ g ∈ running self1 ∧
      group_finished w1 g = true) (self, w) _ _ (self', w') Hs); [by left |].
    intros [s1 v1] [s2 v2] H1 Hcall [Hin|(s0 & v0 & Ha & Hb & Hc)].
    - destruct (call_keeps_groups cfg c _ _ _ _ g Hcall (calls_keep_inv _ _ _ _ H1 HI) Hin)
        as [Hin'|[Hr Hf]]; [by left |].
      right. exists s1, v1. split_and!; [done | by apply rtc_once | done | done].
    - right. exists s0, v0. split_and!; [done | by eapply rtc_r | apply Hc | apply Hc].
  Qed.

Lemma reachable_steps cfg c s s' : reachable cfg c s → rtc call s s' → reachable cfg c s'.
  Proof.
    intros (w0 & s0 & w1 & H1 & H2 & H3 & H4 & Hs) Hc. exists w0, s0, w1.
    split_and!; try done. by etrans.
  Qed.

Lemma reachable_step cfg c s s' : reachable cfg c s → call s s' → reachable cfg c s'.
  Proof. intros Hs Hc. by eapply reachable_steps, rtc_once. Qed.

Lemma reachable_trace_inv cfg c self w : reachable cfg c (self, w) → trace_inv cfg c self w.
  Proof.
    intros (w0 & self0 & w1 & Hb & Hu & Hwf & E & Hsteps).
    assert (Hinit : trace_inv cfg c self0 w1).
    { pose proof E as E'. unfold Scheduler_new in E'.
      destruct (fully_init c) eqn:Hi; [| done].
      destruct (cfg_num_gpu_blocks c) as [ng|] eqn:Hg; [| done].
      destruct (cfg_num_cpu_blocks c) as [nc|] eqn:Hc; [| done].
      pose proof (new_scheduler_inv cfg c ng nc w0 Hi Hg Hc Hb Hu) as Hok.
      unfold wp in Hok. rewrite E in Hok. destruct Hok as (HI & _ & Hrun & Ecfg & Es).
      split; [done | unfold heap_wf; by rewrite Es | | done | by rewrite Hrun].
      rewrite Hg. f_equal. simpl in E'. unfold st_bind at 1 2 3 in E'. simpl in E'.
      apply st_bind_Done in E' as (e & w2 & Ee & [= <- <-]). unfold BlockEngine_new in Ee.
      apply st_bind_Done in Ee as (gpu & w3 & _ & Ee).
      by apply st_bind_Done in Ee as (cpu & w4 & _ & [= <- <-]). }
    exact (calls_keep_inv cfg c _ _ Hsteps Hinit).
  Qed.

End Trace.

(** ** Properties *)

Section TraceProperties.
  Context `{LogprobsSig} `{HashOrder}.
  #[local] Existing Instance loose_cover.
  Implicit Types w : World.
  Implicit Types self : Scheduler.
  Implicit Types g : SequenceGroup.

  (** C4: no block is ever lost or shared.  In every state that calls reach from
      [Scheduler::new], the free blocks and the blocks of the tables are distinct
      and together as many as the pool was created with; exactly the running
      sequences have a table, which has a block if the sequence has a page; when
      nothing runs the whole pool is free again; and one slot of [max_num_seqs]
      stays empty. *)
Theorem reachable_pool_accounted cfg c self w ng :
    reachable cfg c (self, w) → cfg_num_gpu_blocks c = Some ng →
    let e := block_engine self in
    NoDup (gpu_free e ++ table_refs e) ∧ length (gpu_free e ++ table_refs e) = ng ∧
    (∀ id, is_Some (block_tables e !! id) ↔ id ∈ group_seq_ids (running self)) ∧
    (∀ g p q, g ∈ running self → single g p q w → ∃ t, block_tables e !! seq_id q = Some t ∧
      (logical_token_blocks q ≠ [] → t ≠ [])) ∧
    (running self = [] → length (gpu_free e) = ng) ∧
    (0 < max_num_seqs cfg → length (running self) < max_num_seqs cfg).
  Proof.
    intros [[HQ _] _ Hpool _ Hlim]%reachable_trace_inv Hng e. subst e.
    rewrite Hpool in Hng. injection Hng as <-. pose proof HQ as [[HB _ _] Hun Hcap _ _ Htb Hc _].
    assert (Htb' : ∀ id, is_Some (block_tables (block_engine self) !! id) ↔ id ∈ group_seq_ids (running self))
      by (intros id; rewrite Htb; by rewrite app_nil_r).
    split_and!; [| by rewrite length_app | done | | | done].
    - apply NoDup_app. pose proof (bi_nodup _ _ _ _ HB) as Hnd. apply NoDup_app in Hnd as (Hnd & _ & _).
      split_and!; [done | | done]. intros p Hp. eapply free_not_referenced; [exact HB | set_solver].
    - intros g p q Hg Hs. destruct (Hc g Hg p q Hs) as (t & Ht & Hl). exists t. split; [done |].
      intros Hne%need_pos ->. simpl in *. lia.
    - intros Hr. rewrite Hr in HQ. rewrite (nothing_referenced _ _ _ HQ) in Hcap.
      simpl in Hcap. by rewrite Nat.add_0_r in Hcap.
  Qed.

  (** C19: no request is lost.  Over any sequence of calls, a group that waits or runs
      still waits or runs at the end, unless it was finished while it ran, at some
      point in between; and no sequence is queued twice. *)
Theorem no_request_lost cfg c self w self' w' g :
    reachable cfg c (self, w) → rtc call (self, w) (self', w') →
    g ∈ waiting self ++ running self →
    NoDup (group_seq_ids (waiting self' ++ running self')) ∧
    (g ∈ waiting self' ++ running self' ∨
     ∃ self1 w1, rtc call (self, w) (self1, w1) ∧ rtc call (self1, w1) (self', w') ∧
       g ∈ running self1 ∧ group_finished w1 g = true).
  Proof.
    intros Hr%reachable_trace_inv Hs Hg. split.
    - pose proof (calls_keep_inv _ _ _ _ Hs Hr) as [[HQ _] _ _ _ _].
      pose proof (qi_ids _ _ _ _ _ HQ) as Hnd. by rewrite app_nil_r in Hnd.
    - by eapply calls_keep_groups.
  Qed.

  (** C10: the loops of the scheduler terminate, and its calls return.  In every
      reachable state each loop ends within as many turns as its queue is long;
      [schedule] panics if the admission specification fails, returns if it admits
      a group, and otherwise returns unless a sequence without a page is running;
      what is finished is freed; a running sequence takes a token exactly if it has
      a page, and any finish reason. *)
Theorem calls_terminate cfg c self w :
    reachable cfg c (self, w) →
    (∀ fuel, length (waiting self) ≤ fuel → schedule_waiting fuel self [] [] w ≠ Hang) ∧
    (∀ fuel, length (running self) ≤ fuel →
      schedule_running fuel (mkDecode self [] [] ∅ ∅) w ≠ Hang) ∧
    match admitted self w with
    | None => Scheduler_schedule self w = Panic
    | Some 0 => (∃ r w', Scheduler_schedule self w = Done r w') ∨
        Scheduler_schedule self w = Panic ∧ ∃ g, g ∈ running self ∧ pageless w g
    | Some (S _) => ∃ r w', Scheduler_schedule self w = Done r w'
    end ∧
    (∃ self' w', Scheduler_free_finished_sequence_groups self w = Done self' w') ∧
    (∀ g p, g ∈ running self → p ∈ hash_values (seqs g) → ∃ q, w_seqs w !! p = Some q ∧
      (∀ lp, if decide (logical_token_blocks q = []) then on_seq p (_Sequence_add_token p lp) w = Panic
             else ∃ w', on_seq p (_Sequence_add_token p lp) w = Done tt w') ∧
      ∀ reason, ∃ w', on_seq p (_Sequence_set_finish_reason p reason) w = Done tt w').
  Proof.
    intros [HI Hwf _ _ _]%reachable_trace_inv. pose proof HI as [HQ _]. split_and!.
    - intros fuel Hfuel. pose proof (schedule_waiting_ok fuel self [] [] w Hfuel HQ) as Hok.
      destruct (admitted self w); [| by rewrite Hok]. unfold wp in Hok. by destruct (schedule_waiting _ _ _ _ _).
    - intros fuel Hfuel E.
      pose proof (schedule_running_or fuel (mkDecode self [] [] ∅ ∅) w Hfuel HQ) as Hok.
      unfold wp_or in Hok. by rewrite E in Hok.
    - pose proof (schedule_or self w HI) as Hok. destruct (admitted self w) as [[|k]|]; [| | done].
      + unfold wp_or in Hok. destruct (Scheduler_schedule self w); [eauto | by right | done].
      + apply wp_done in Hok as (r & w' & E & _). eauto.
    - destruct (proj1 (wp_done _ _ _) (free_finished_ok self w HI)) as (s & w' & E & _). eauto.
    - intros g p Hg Hp. destruct (single_of self w g p HI Hg Hp) as (q & [_ Hq Hl]).
      exists q. split; [done |]. split.
      + intros lp. case_decide as Hn; [by eapply add_token_pageless |].
        destruct (add_token_ok p w q lp Hl Hq (Hwf p q Hq) Hn) as (q' & E & _). eauto.
      + intros reason.
        destruct (finish_queues _ _ _ _ _ p q reason HQ Hl Hq) as (w' & E & _). eauto.
  Qed.

  (** C18: an idle scheduler gets going.  When nothing runs, the waiting groups fit
      the pool together and the limit is not one, the next step returns and
      schedules the group at the front of the waiting queue. *)
Theorem idle_scheduler_admits cfg c self w g wt :
    reachable cfg c (self, w) → running self = [] → waiting self = g :: wt →
    max_num_seqs cfg ≠ 1 → sum_list (group_blocks w <$> waiting self) ≤ pool_size self →
    ∃ out self' w', Scheduler_schedule self w = Done (out, self') w' ∧
      head (scheduled out) = Some g ∧ head (running self') = Some g.
  Proof.
    intros [HI Hwf _ Hcfg _]%reachable_trace_inv Hr Hw Hmax Hsum. pose proof HI as [HQ _].
    assert (Hused : used (block_engine self) = 0)
      by (rewrite Hr in HQ; unfold used; by rewrite (nothing_referenced _ _ _ HQ)).
    pose proof (qi_capacity _ _ _ _ _ HQ) as Hcap. fold (used (block_engine self)) in Hcap.
    fold (free (block_engine self)) in Hcap. rewrite Hused, Nat.add_0_r in Hcap.
    unfold pool_size in Hsum. rewrite <- Hcap in Hsum.
    pose proof (schedule_or self w HI) as Hok. unfold admitted in Hok.
    rewrite Hr, Hused, Hcfg in Hok.
    destruct (admission_enough (max_num_seqs cfg) 0 0 _ _ Hsum) as [k Hk].
    simpl in Hok. rewrite Hk in Hok. rewrite Hw in Hk, Hsum. cbn [fmap list_fmap admission] in Hk.
    simpl in Hsum. rewrite decide_False, decide_False, decide_False in Hk by lia.
    destruct (admission _ _ _ _ _) as [k'|]; [| done]. injection Hk as <-.
    apply wp_done in Hok as ([out self'] & w' & E & [D1 D2 D3 D4 D5 D6]). simpl in *.
    exists out, self', w'. split; [done |]. by rewrite D1, D3, Hr, Hw.
  Qed.

End TraceProperties.

(** *** Witnesses *)

Section TraceExamples.

  #[local] Existing Instance plain_logprobs.
  #[local] Existing Instance canonical_order.

Definition ex_limit : SchedulerConfig := {| max_num_seqs := 8 |}.

Definition ex_t0 : Scheduler := result_of no_scheduler (Scheduler_new ex_limit ex_cache empty_world).

Definition ex_tw0 : World := world_of (Scheduler_new ex_limit ex_cache empty_world).

  (** The group of [ex_seq] is added, and then scheduled. *)
Definition ex_t1 : Scheduler := Scheduler_add_sequence ex_t0 ex_group.

Definition ex_tw1 : World := set_seqs <[0:=ex_seq]> ex_tw0.

Definition ex_t2 : Scheduler :=
    (result_of (ex_out0, no_scheduler) (Scheduler_schedule ex_t1 ex_tw1)).2.

Definition ex_tw2 : World := world_of (Scheduler_schedule ex_t1 ex_tw1).

Lemma ex_new_reachable : reachable ex_limit ex_cache (ex_t0, ex_tw0).
  Proof.
    exists empty_world, ex_t0, ex_tw0. split_and!; [done | | | by vm_compute | done].
    - intros p. apply not_elem_of_empty.
    - by apply map_Forall_empty.
  Qed.

Lemma ex_waiting_reachable : reachable ex_limit ex_cache (ex_t1, ex_tw1).
  Proof.
    eapply reachable_step; [exact ex_new_reachable |].
    apply (call_add ex_t0 ex_tw0 ex_group 0 ex_seq); [done | by vm_compute | | exact ex_seq_wf |].
    - assert (Hh : w_held ex_tw0 = ∅) by by vm_compute.
      split; rewrite Hh; apply not_elem_of_empty.
    - by_compute.
  Qed.

Lemma ex_schedule_call : call (ex_t1, ex_tw1) (ex_t2, ex_tw2).
  Proof.
    apply (call_schedule ex_t1 ex_tw1 (mkSchedulerOutput [ex_group] ∅ ∅ ∅ [])). by vm_compute.
  Qed.

Lemma ex_running_reachable : reachable ex_limit ex_cache (ex_t2, ex_tw2).
  Proof.
    eapply reachable_step; [exact ex_waiting_reachable | exact ex_schedule_call].
  Qed.

Lemma no_request_lost_witness :
    ex_group ∈ waiting ex_t2 ++ running ex_t2 ∨
    ∃ self1 w1, rtc call (ex_t1, ex_tw1) (self1, w1) ∧ rtc call (self1, w1) (ex_t2, ex_tw2) ∧
      ex_group ∈ running self1 ∧ group_finished w1 ex_group = true.
  Proof.
    apply (no_request_lost ex_limit ex_cache ex_t1 ex_tw1 ex_t2 ex_tw2 ex_group
             ex_waiting_reachable (rtc_once _ _ ex_schedule_call)).
    vm_compute. left.
  Defined.

  (** A token without room: the state is reachable all the same. *)
Definition ex_tw3 : World := world_of (on_seq 0 (_Sequence_add_token 0 (9, f32_zero)) ex_tw2).

Definition ex_tw4 : World := world_of (on_seq 0 (_Sequence_add_token 0 (9, f32_zero)) ex_tw3).

Lemma ex_token_reachable : reachable ex_limit ex_cache (ex_t2, ex_tw4).
  Proof.
    eapply reachable_step; [eapply reachable_step; [exact ex_running_reachable |] |].
    - apply (call_token ex_t2 ex_tw2 ex_group 0 (9, f32_zero) ex_tw3);
        [vm_compute; left | by_compute | by vm_compute].
    - apply (call_token ex_t2 ex_tw3 ex_group 0 (9, f32_zero) ex_tw4);
        [vm_compute; left | by_compute | by vm_compute].
  Qed.

  (** The sequence has three pages by now, and its table two blocks. *)
Lemma reachable_pool_accounted_witness :
    length (gpu_free (block_engine ex_t2) ++ table_refs (block_engine ex_t2)) = 4 ∧
    length (gpu_free (block_engine ex_t2)) = 2 ∧
    (λ q, length (logical_token_blocks q)) <$> w_seqs ex_tw4 !! 0 = Some 3.
  Proof.
    split; [| split; by vm_compute].
    apply (reachable_pool_accounted ex_limit ex_cache ex_t2 ex_tw4 4 ex_token_reachable eq_refl).
  Defined.

Lemma calls_terminate_witness :
    (∃ r w', Scheduler_schedule ex_t1 ex_tw1 = Done r w') ∧
    ∃ q, w_seqs ex_tw4 !! 0 = Some q ∧
      ∃ w', on_seq 0 (_Sequence_set_finish_reason 0 "stop") ex_tw4 = Done tt w'.
  Proof.
    split.
    - destruct (calls_terminate ex_limit ex_cache ex_t1 ex_tw1 ex_waiting_reachable)
        as (_ & _ & Hs & _).
      assert (Ha : admitted ex_t1 ex_tw1 = Some 1) by by vm_compute. by rewrite Ha in Hs.
    - destruct (calls_terminate ex_limit ex_cache ex_t2 ex_tw4 ex_token_reachable)
        as (_ & _ & _ & _ & Ht).
      destruct (Ht ex_group 0) as (q & Hq & _ & Hf); [vm_compute; left | by_compute |].
      exists q. split; [exact Hq | apply Hf].
  Defined.

Lemma idle_scheduler_admits_witness :
    ∃ out self' w', Scheduler_schedule ex_t1 ex_tw1 = Done (out, self') w' ∧
      head (scheduled out) = Some ex_group ∧ head (running self') = Some ex_group.
  Proof.
    apply (idle_scheduler_admits ex_limit ex_cache ex_t1 ex_tw1 ex_group [] ex_waiting_reachable);
      [by vm_compute | by vm_compute | done | vm_compute; lia].
  Defined.

  (** Where no token comes without room, the tables cover the pages: a group that
      was added to a new scheduler and then admitted. *)
Lemma added_inv g p q :
    seqs g = {[seq_id q := p]} → logical_token_blocks q ≠ [] →
    sched_inv (cover := pages_cover) (Scheduler_add_sequence ex_t0 g) (set_seqs <[p:=q]> ex_tw0).
  Proof.
    intros Hg Hne.
    pose proof (new_scheduler_inv (cover := pages_cover) ex_limit ex_cache 4 4 empty_world
      eq_refl eq_refl eq_refl eq_refl ltac:(intros x; apply not_elem_of_empty)) as Hn.
    apply (wp_result no_scheduler) in Hn as (_ & [HQ Hsw] & Ew & Er & _ & Es).
    eapply (add_sequence_inv _ g p q); [| | done |].
    - split; [| exact Hsw]. apply queues_new_seq; [| exact HQ].
      change (w_seqs ex_tw0) with (∅ : gmap nat _Sequence). apply lookup_empty.
    - split; [done | apply lookup_insert_eq |].
      assert (Hh : w_held ex_tw0 = ∅) by by vm_compute.
      change (seq_unlocked p ex_tw0). split; rewrite Hh; apply not_elem_of_empty.
    - change (waiting ex_t0 ++ running ex_t0) with (@nil SequenceGroup). apply not_elem_of_nil.
  Qed.

Lemma admitted_inv self w k :
    sched_inv (cover := pages_cover) self w → admitted self w = Some (S k) →
    sched_inv (cover := pages_cover)
      (result_of (ex_out0, no_scheduler) (Scheduler_schedule self w)).2
      (world_of (Scheduler_schedule self w)).
  Proof.
    intros HI Ha. pose proof (schedule_ok self w HI) as Hok. rewrite Ha in Hok.
    apply (wp_result (ex_out0, no_scheduler)) in Hok as (_ & D). apply D.
  Qed.

Lemma ex_t2_inv : sched_inv (cover := pages_cover) ex_t2 ex_tw2 ∧ heap_wf ex_tw2.
  Proof.
    split; [| apply (reachable_trace_inv _ _ _ _ ex_running_reachable)].
    apply (admitted_inv ex_t1 ex_tw1 0); [by apply (added_inv ex_group 0 ex_seq) | by vm_compute].
  Qed.

End TraceExamples.
