(* ===== verification/SchedulerDecode.v ===== *)
(** * The scheduler: decoding as a function of sizes

    What the second part of [schedule] keeps running, as a function of sizes only:
    of the free blocks, of the block each group is due and of the length of its
    table ([decode]); and the proof that the loops over the running queue, with
    their locks, reference counts and queues, implement it. *)

From Stdlib Require Import ZArith SpecFloat Lia.
From stdpp Require Import base gmap sets strings countable list.
From S2P Require Import Prelude Machine Sequence BlockEngine BlockEngineSwap BlockEngineSpec.
From S2P Require Import CacheEngine Scheduler SchedulerInv SchedulerWaiting SchedulerSpec SchedulerTrace.

#[local] Existing Instance pages_cover.

(** ** The specification *)

Section DecodeSpec.
  Context {A : Type} (due size : A → nat).

  (** Room for [need] blocks, made by taking groups off the back of the queue: what
      is left of it, the free blocks, and whether that was enough. *)
Fixpoint room (fuel free need : nat) (rest : list A) : list A * nat * bool :=
    if need <=? free then (rest, free, true)
    else match vec_pop rest, fuel with
    | Some (v, rest), S fuel => room fuel (free + size v) need rest
    | _, _ => ([], free, false)
    end.

  (** The groups that keep running, from the front of the queue, and the blocks
      that are free in the end.  A group for which there is no room even when it
      is alone gives its own blocks back. *)
Fixpoint decode (fuel free : nat) (todo : list A) : list A * nat :=
    match todo, fuel with
    | g :: rest, S fuel =>
        let '(rest, free, enough) := room (length rest) free (due g) rest in
        if enough then
          let '(kept, free) := decode fuel (free - due g) rest in (g :: kept, free)
        else decode fuel (free + size g) rest
    | _, _ => ([], free)
    end.

  (** What is left of the queue is a part of its front. *)
Lemma room_prefix fuel free need rest : ∃ vs, rest = (room fuel free need rest).1.1 ++ vs.
  Proof.
    revert free rest. induction fuel as [|fuel IH]; intros free rest; cbn [room];
      destruct (need <=? free); try (exists []; by rewrite app_nil_r).
    - destruct (vec_pop rest) as [[v r]|]; by exists rest.
    - destruct (vec_pop rest) as [[v r]|] eqn:Hp; [| by exists rest].
      apply vec_pop_Some in Hp as ->. destruct (IH (free + size v) r) as [vs E].
      exists (vs ++ [v]). rewrite (assoc_L (++)). by rewrite <- E.
  Qed.

  (** Nothing is taken when everything fits. *)
Lemma decode_all fuel free todo :
    length todo ≤ fuel → sum_list (due <$> todo) ≤ free →
    decode fuel free todo = (todo, free - sum_list (due <$> todo)).
  Proof.
    revert free todo. induction fuel as [|fuel IH]; intros free [|g todo] Hl Hs; csimpl in *;
      try lia; try (f_equal; lia).
    assert (Hr : room (length todo) free (due g) todo = (todo, free, true)).
    { destruct (length todo); simpl; by rewrite (proj2 (Nat.leb_le _ _)) by lia. }
    rewrite Hr, IH by lia. f_equal. lia.
  Qed.

End DecodeSpec.

(** ** The loops implement it *)

Section DecodeLemmas.
  Context `{LogprobsSig} `{HashOrder}.
  Implicit Types w : World.
  Implicit Types e : BlockEngine.
  Implicit Types self : Scheduler.
  Implicit Types g : SequenceGroup.

  (** The block a group is due for its next token, and the blocks it holds. *)
Definition due w g : nat :=
    sum_list (seq_field 0 _Sequence_blocks_to_add_new_tok w <$> hash_values (seqs g)).

Definition table_size e g : nat :=
    sum_list ((λ id, length (default [] (block_tables e !! id))) <$> hash_keys (seqs g)).

Lemma due_single g p q w : single g p q w → due w g = _Sequence_blocks_to_add_new_tok q.
  Proof.
    intros Hs. unfold due. rewrite (single_values _ _ _ _ Hs). simpl. unfold seq_field.
    rewrite (single_lookup _ _ _ _ Hs). lia.
  Qed.

Lemma due_frame w w' g : sched_frame w w' → due w' g = due w g.
  Proof.
    intros [_ Hp]. unfold due. f_equal. apply list_fmap_ext. intros _ p _.
    unfold seq_field. specialize (Hp p).
    destruct (w_seqs w !! p) as [q|], (w_seqs w' !! p) as [q'|]; try done.
    injection Hp as E. apply blocks_to_add_pages. unfold pages_of. congruence.
  Qed.

Lemma table_size_ext e e' g :
    (∀ id, id ∈ hash_keys (seqs g) → block_tables e' !! id = block_tables e !! id) →
    table_size e' g = table_size e g.
  Proof.
    intros Hl. unfold table_size. f_equal. apply list_fmap_ext. intros i id Hid.
    by rewrite (Hl id) by (by eapply list_elem_of_lookup_2).
  Qed.

Lemma table_size_single e g p q w t :
    single g p q w → block_tables e !! seq_id q = Some t → table_size e g = length t.
  Proof.
    intros Hs Ht. unfold table_size. rewrite (single_keys _ _ _ _ Hs). simpl. rewrite Ht. simpl. lia.
  Qed.

  (** The table of the head does not matter to the others. *)
Lemma others_apart e wt g act rdy w p q g' :
    queues_inv e wt (g :: act) rdy w → single g p q w → g' ∈ act ++ rdy →
    seq_id q ∉ hash_keys (seqs g').
  Proof.
    intros HI Hs Hg' Hin.
    destruct (queues_ids_apart e wt (g :: act) rdy w g p q (wt ++ act ++ rdy) HI Hs) as [Hni _];
      [by rewrite Permutation_middle |].
    apply Hni. eapply elem_of_group_seq_ids; [| exact Hin]. set_solver.
  Qed.

Lemma free_sizes e wt g act rdy w :
    queues_inv e wt (g :: act) rdy w →
    wp (st_fold BlockEngine_free_sequence e (hash_values (seqs g))) (λ e' _,
      free e' = free e + table_size e g ∧
      ∀ g', g' ∈ act ++ rdy → table_size e' g' = table_size e g') w.
  Proof.
    intros HI. pose proof HI as [HE Hun Hcap Hsi Hid Htb Hc Hr].
    destruct (Hsi g) as (p & q & Hs & Hne); [set_solver |].
    rewrite (single_values _ _ _ _ Hs). simpl. apply wp_bind.
    destruct (Hc g ltac:(set_solver) p q Hs) as (t & Ht & _).
    set (e1 := set_tables e (delete (seq_id q) (block_tables e))).
    assert (Hrefs : table_refs e ≡ₚ t ++ table_refs e1) by by apply table_refs_delete with (seq_id q).
    rewrite Hrefs in Hun. apply NoDup_app in Hun as (Hnt & Hdis & _).
    eapply wp_mono; [apply free_sequence_spec; [exact HE | apply Hs .. | exact Ht] |].
    intros e' w' (He' & _ & _). apply wp_ret. fold e1 in He'.
    rewrite freed_of_disjoint in He' by done. split.
    - rewrite He', (table_size_single e g p q w t Hs Ht). unfold free, gpu_free. simpl.
      by rewrite length_app.
    - intros g' Hg'. apply table_size_ext. intros id Hin. rewrite He'. simpl.
      rewrite lookup_delete_ne; [done |]. intros <-. by eapply others_apart.
  Qed.

Lemma preempt_sizes self g act rdy out w :
    queues_inv (block_engine self) (waiting self) (g :: act) rdy w →
    wp (Scheduler__preempt self g out) (λ r _,
      free (block_engine r.1) = free (block_engine self) + table_size (block_engine self) g ∧
      ∀ g', g' ∈ act ++ rdy → table_size (block_engine r.1) g' = table_size (block_engine self) g') w.
  Proof.
    intros HI. destruct (qi_single _ _ _ _ _ HI g) as (p & q & Hs & _); [set_solver |].
    unfold Scheduler__preempt. rewrite (single_seqs _ _ _ _ Hs), map_size_singleton.
    apply wp_bind. unfold Scheduler__preempt_by_recompute. apply wp_bind.
    eapply wp_mono; [eapply set_status_queues; [| exact HI]; set_solver |].
    intros _ w1 [HI1 _]. apply wp_bind. unfold Scheduler__free. apply wp_bind.
    eapply wp_mono; [by eapply free_sizes |]. intros e' w2 D. by do 3 apply wp_ret.
  Qed.

  (** A group that is alone. *)
Lemma preempt_sizes_alone self g rdy out w :
    queues_inv (block_engine self) (waiting self) (g :: running self) rdy w → running self = [] →
    wp (Scheduler__preempt self g out) (λ r _,
      free (block_engine r.1) = free (block_engine self) + table_size (block_engine self) g ∧
      running r.1 = []) w.
  Proof.
    intros HI Hr. eapply wp_mono; [apply wp_and; [by eapply preempt_single | by eapply preempt_sizes] |].
    intros [s1 out1] w1 ((_ & (e' & Es & _) & _) & Ef & _). simpl in *. subst s1. by split.
  Qed.

Lemma slot_sizes e wt g act rdy w m :
    queues_inv e wt (g :: act) rdy w → due w g ≤ free e →
    wp (st_fold append_slot_turn (e, m) (hash_values (seqs g))) (λ r _,
      free r.1 = free e - due w g ∧
      ∀ g', g' ∈ act ++ rdy → table_size r.1 g' = table_size e g') w.
  Proof.
    intros HI Hn. pose proof HI as [HE Hun Hcap Hsi Hid Htb Hc Hr].
    destruct (Hsi g) as (p & q & Hs & Hne); [set_solver |].
    rewrite (due_single _ _ _ _ Hs) in *. rewrite (single_values _ _ _ _ Hs). cbn [st_fold].
    destruct (Hc g ltac:(set_solver) p q Hs) as (t & Ht & Hlt).
    apply wp_bind. unfold append_slot_turn. apply wp_bind.
    destruct (_Sequence_blocks_to_add_new_tok q) as [|k] eqn:Hadd.
    - destruct t as [|l t _] using rev_ind.
      { pose proof (need_pos q Hne). simpl in *. lia. }
      unfold wp. rewrite (append_slot_space e p q t l w HE); [| apply Hs .. | done | done |].
      + simpl. split; [lia | done].
      + apply occ_NoDup; [done |]. eapply table_in_refs; [done |]. set_solver.
    - assert (k = 0) as -> by (unfold _Sequence_blocks_to_add_new_tok in Hadd; destruct (has_space _); lia).
      eapply wp_mono; [apply (append_slot_new e p q t w HE); [apply Hs .. | done | done |] |].
      { intros Hnil. unfold free in Hn. rewrite Hnil in Hn. simpl in Hn. lia. }
      intros [r e'] w' (new & rest & -> & Hg & He' & _ & _). apply wp_ret, wp_ret. cbn [fst].
      split.
      + rewrite He'. unfold free. rewrite Hg, length_app. unfold gpu_free. simpl. lia.
      + intros g' Hg'. apply table_size_ext. intros id Hin. rewrite He'. simpl.
        rewrite lookup_insert_ne; [done |]. intros <-. by eapply others_apart.
  Qed.

  (** The sizes the specification is given hold in [e]. *)
Definition sized (sz : SequenceGroup → nat) e (l : list SequenceGroup) : Prop :=
    ∀ g, g ∈ l → table_size e g = sz g.

Lemma make_room_sizes sz fuel self g pre out rdy w :
    length (running self) ≤ fuel →
    queues_inv (block_engine self) (waiting self) (g :: running self) rdy w →
    sized sz (block_engine self) (g :: running self) →
    wp (make_room fuel self g pre out) (λ r _,
      let '(rest, f, enough) := room sz fuel (free (block_engine self)) (due w g) (running self) in
      running r.1.1.1 = rest ∧ r.2 = negb enough ∧
      free (block_engine r.1.1.1) = (if enough then f else f + sz g) ∧
      sized sz (block_engine r.1.1.1) rest) w.
  Proof.
    revert self pre w. induction fuel as [|fuel IH]; intros self pre w Hfuel HI Hsz;
      destruct (qi_single _ _ _ _ _ HI g) as (p & q & Hs & _); try set_solver;
      rewrite (due_single _ _ _ _ Hs);
      cbn [make_room room]; apply wp_bind; unfold wp at 1;
      rewrite (can_append_single _ _ _ _ _ Hs); unfold free at 1 3;
      destruct (_Sequence_blocks_to_add_new_tok q <=? length (gpu_free (block_engine self))).
    1, 3: apply wp_ret; split_and!; try done; intros g' Hg'; apply Hsz; set_solver.
    all: destruct (vec_pop (running self)) as [[v rest]|] eqn:Hp;
      [apply vec_pop_Some in Hp | apply vec_pop_None in Hp].
    - rewrite Hp, length_app in Hfuel. simpl in Hfuel. lia.
    - apply wp_bind. eapply wp_mono; [by apply (preempt_sizes_alone _ _ rdy) |]. intros [s1 out1] w1 [E1 E2].
      apply wp_ret. split_and!; [exact E2 | done | | intros g' Hg'; set_solver]. simpl in E1 |- *.
      by rewrite E1, (Hsz g) by set_solver.
    - assert (HI' : queues_inv (block_engine self) (waiting self) (v :: g :: rest) rdy w)
        by (rewrite Hp in HI; by rewrite Permutation_swap, (Permutation_cons_append rest v)).
      apply wp_bind. eapply wp_mono; [apply wp_and;
        [apply (preempt_single (set_running self rest) v (g :: rest) rdy); exact HI'
        |apply (preempt_sizes (set_running self rest) v (g :: rest) rdy); exact HI'] |].
      intros [s1 out1] w1 ((Eo & (e' & Es & HI1) & Hf) & Ef & Et). simpl in Eo, Es, Ef, Et.
      subst s1 out1. simpl in Ef, Et.
      eapply wp_mono; [apply (IH _ _ w1) |].
      + simpl. rewrite Hp, length_app in Hfuel. simpl in Hfuel. lia.
      + exact HI1.
      + simpl. intros g' Hg'. rewrite Et by set_solver. apply Hsz. rewrite Hp. set_solver.
      + intros r w2. simpl. rewrite (due_frame _ _ _ Hf), (due_single _ _ _ _ Hs), Ef.
        rewrite (Hsz v) by (rewrite Hp; set_solver). done.
    - apply wp_bind. eapply wp_mono; [by apply (preempt_sizes_alone _ _ rdy) |]. intros [s1 out1] w1 [E1 E2].
      apply wp_ret. split_and!; [exact E2 | done | | intros g' Hg'; set_solver]. simpl in E1 |- *.
      by rewrite E1, (Hsz g) by set_solver.
  Qed.

Lemma schedule_running_sizes du sz fuel st w :
    length (running (ds_self st)) ≤ fuel →
    queues_inv (block_engine (ds_self st)) (waiting (ds_self st)) (running (ds_self st))
      (ds_running st) w →
    sized sz (block_engine (ds_self st)) (running (ds_self st)) →
    (∀ g, g ∈ running (ds_self st) → due w g = du g) →
    wp (schedule_running fuel st) (λ st' _,
      let '(kept, f) := decode du sz fuel (free (block_engine (ds_self st))) (running (ds_self st)) in
      ds_running st' = ds_running st ++ kept ∧ free (block_engine (ds_self st')) = f) w.
  Proof.
    revert st w. induction fuel as [|fuel IH]; intros [self rn pre out cp] w; simpl;
      destruct (running self) as [|g rest] eqn:Hr; simpl; intros Hfuel HI Hsz Hdu.
    1, 3: apply wp_ret; by rewrite app_nil_r.
    { lia. }
    apply wp_bind. unfold schedule_group. simpl. apply wp_bind. rewrite <- (Hdu g) by set_solver.
    eapply wp_mono; [apply wp_and;
      [apply (make_room_ok _ (set_running self rest) g pre out rn); [done | exact HI]
      |apply (make_room_sizes sz _ (set_running self rest) g pre out rn); [done | exact HI | exact Hsz]] |].
    intros [[[s1 pre1] out1] broke] w1 [[E1 E2 E3 E4 (vs & Ev1 & Ev2 & Ev3) E6] D]. simpl in *.
    destruct (room sz (length rest) (free (block_engine self)) (due w g) rest) as [[rest' f] enough].
    destruct D as (<- & -> & Ef & Hsz1). subst out1 pre1.
    assert (Hdu1 : ∀ g', g' ∈ running s1 → due w1 g' = du g').
    { intros g' Hg'. rewrite (due_frame _ _ _ E4). apply Hdu. rewrite Ev1. set_solver. }
    assert (Hlen : length (running s1) ≤ fuel)
      by (apply (f_equal length) in Ev1; rewrite length_app in Ev1; lia).
    destruct enough; simpl in E6.
    - destruct E6 as [HI1 Hroom].
      destruct (qi_single _ _ _ _ _ HI1 g) as (p & q & Hs & _); [set_solver |].
      assert (Hroom' : due w1 g ≤ free (block_engine s1))
        by (rewrite (due_single _ _ _ _ Hs); by eapply Hroom).
      apply wp_bind. unfold Scheduler__append_token_slot_to_seq_group. apply wp_bind.
      eapply wp_mono; [apply wp_and;
        [eapply append_slot_step; [exact HI1 | exact Hs | by eapply Hroom]
        |eapply slot_sizes; [exact HI1 | exact Hroom']] |].
      intros [e2 cp2] w2 ((Ecp & HI2 & Hf2) & Efr & Ets). cbn [fst snd] in *. apply wp_ret, wp_ret.
      eapply wp_mono; [apply IH; simpl |].
      + done.
      + by rewrite <- Permutation_cons_append.
      + intros g' Hg'. rewrite Ets by set_solver. by apply Hsz1.
      + intros g' Hg'. rewrite (due_frame _ _ _ Hf2). by apply Hdu1.
      + simpl. rewrite Efr, Ef, (due_frame _ _ g E4). intros st' w3.
        destruct (decode du sz fuel (f - due w g) (running s1)) as [kept f']. intros [-> ->].
        by rewrite <- app_assoc.
    - destruct E6 as [Er HI1]. apply wp_ret.
      eapply wp_mono; [apply IH; simpl; [by rewrite Er; simpl; lia | by rewrite Er | done | done] |].
      intros st' w3. simpl. by rewrite Ef.
  Qed.

  (** When nothing is admitted the step is the second part of [schedule]. *)
Lemma schedule_decodes self w :
    sched_inv self w → admitted self w = Some 0 →
    Scheduler_schedule self w = schedule_decode self w.
  Proof.
    intros [HQ Hsw] Ha. unfold Scheduler_schedule. rewrite Hsw.
    pose proof (schedule_waiting_ok (length (waiting self)) self [] [] w ltac:(done) HQ) as Hok.
    rewrite Ha in Hok. apply wp_done in Hok as ([[s1 sch] ign] & w1 & E & [D1 D2 _ _ _ _ _ _ D9]).
    rewrite (st_bind_done _ _ _ _ _ E). simpl in *. destruct (D9 eq_refl) as [-> ->].
    by rewrite D1, D2, take_0.
  Qed.

Lemma schedule_decode_sizes self w :
    sched_inv self w →
    let queue := reverse (sort_by_key arrival_time (running self)) in
    wp (schedule_decode self) (λ r _,
      (running r.2, free (block_engine r.2)) =
        decode (due w) (table_size (block_engine self)) (length queue)
          (free (block_engine self)) queue) w.
  Proof.
    intros [HI Hsw] queue. unfold schedule_decode. apply wp_bind.
    assert (HI' : queues_inv (block_engine self) (waiting self) queue [] w)
      by (unfold queue; by rewrite reverse_Permutation, sort_by_key_perm).
    eapply wp_mono; [apply wp_and;
      [apply schedule_running_ok; simpl; [done | exact HI']
      |apply (schedule_running_sizes (due w) (table_size (block_engine self))); simpl;
        [done | exact HI' | done | done]] |].
    intros [s1 rn pre out cp] w1 [[_ _ _ D4 _ _ _ _] Hsz]. cbn [ds_self ds_running ds_preempted] in *.
    change (let '(kept, f) := decode (due w) (table_size (block_engine self)) (length queue)
              (free (block_engine self)) queue in rn = [] ++ kept ∧ free (block_engine s1) = f) in Hsz.
    destruct (decode _ _ _ _ _) as [kept f] eqn:Ed.
    destruct Hsz as [Hk Hf]. simpl in Hk, Hf. subst rn f. apply wp_bind.
    unfold Scheduler_sort_swapped_out_by_priority_fcfs, set_swapped_out, set_running. simpl.
    rewrite D4. cbn [ds_self swapped_out Scheduler_sort_running_by_priority_fcfs set_running].
    rewrite Hsw. simpl. destruct pre; by apply wp_ret.
  Qed.

End DecodeLemmas.

(** ** Properties *)

Section DecodeProperties.
  Context `{LogprobsSig} `{HashOrder}.
  Implicit Types w : World.
  Implicit Types self : Scheduler.

  (** C3: a decoding step implements its specification [decode] on sizes.  With the
      running queue in descending order of arrival, the groups that keep running
      and the number of free blocks afterwards are what [decode] computes from the
      free blocks, the block each group is due, and the lengths of the tables; the
      others go to the front of the waiting queue, in that order. *)
Theorem schedule_refines_decode self w :
    sched_inv self w → admitted self w = Some 0 →
    let queue := reverse (sort_by_key arrival_time (running self)) in
    ∃ out self' w' preempted, Scheduler_schedule self w = Done (out, self') w' ∧
      (running self', free (block_engine self')) =
        decode (due w) (table_size (block_engine self)) (length queue)
          (free (block_engine self)) queue ∧
      queue = running self' ++ preempted ∧ waiting self' = preempted ++ waiting self ∧
      scheduled out = running self'.
  Proof.
    intros HI Ha queue. rewrite (schedule_decodes self w HI Ha).
    destruct (proj1 (wp_done _ _ _) (wp_and _ _ _ _ (schedule_decode_ok self w HI)
      (schedule_decode_sizes self w HI))) as ([out self'] & w' & E & [D1 _ _ _ (rest & D5 & D6) _] & Hd).
    simpl in *. exists out, self', w', rest.
    split_and!; [done .. | by rewrite D1].
  Qed.

  (** C13: nothing is preempted when the free blocks are enough: a decoding step in
      which the blocks that are due are free keeps every group running, and takes
      exactly the blocks that are due. *)
Theorem no_needless_preemption self w :
    sched_inv self w → admitted self w = Some 0 →
    sum_list (due w <$> running self) ≤ free (block_engine self) →
    ∃ out self' w', Scheduler_schedule self w = Done (out, self') w' ∧
      running self' = reverse (sort_by_key arrival_time (running self)) ∧
      waiting self' = waiting self ∧
      free (block_engine self') =
        free (block_engine self) - sum_list (due w <$> running self).
  Proof.
    intros HI Ha Hsum. set (queue := reverse (sort_by_key arrival_time (running self))).
    assert (Hperm : sum_list (due w <$> queue) = sum_list (due w <$> running self))
      by (unfold queue; by rewrite reverse_Permutation, sort_by_key_perm).
    rewrite (schedule_decodes self w HI Ha).
    destruct (proj1 (wp_done _ _ _) (wp_and _ _ _ _ (schedule_decode_ok self w HI)
      (schedule_decode_sizes self w HI))) as ([out self'] & w' & E & [D1 _ _ _ (rest & D5 & D6) _] & Hd).
    simpl in *. fold queue in Hd, D5. rewrite decode_all in Hd by lia. injection Hd as Hr Hf.
    exists out, self', w'. split_and!; [done | done | | by rewrite Hf, Hperm].
    rewrite D6. rewrite Hr in D5. destruct rest; [done |].
    apply (f_equal length) in D5. rewrite length_app in D5. simpl in D5. lia.
  Qed.

End DecodeProperties.

(** *** Witnesses *)

Section DecodeExamples.

  #[local] Existing Instance plain_logprobs.
  #[local] Existing Instance canonical_order.

  (** [ex_group_full] is due a block and none is free: [ex_group] gives its two. *)
Lemma schedule_refines_decode_witness :
    (∃ out self' w', Scheduler_schedule ex_s2 ex_sw2 = Done (out, self') w' ∧
      (running self', free (block_engine self')) =
        decode (due ex_sw2) (table_size (block_engine ex_s2)) 2 0 [ex_group_full; ex_group]) ∧
    decode (due ex_sw2) (table_size (block_engine ex_s2)) 2 0 [ex_group_full; ex_group] =
      ([ex_group_full], 1).
  Proof.
    split; [| by vm_compute].
    destruct (schedule_refines_decode ex_s2 ex_sw2 ex_s2_inv ex_s2_admits_none)
      as (out & self' & w' & pre & E & Hd & _). exists out, self', w'. split; [exact E |].
    rewrite Hd. by vm_compute.
  Defined.

  (** With one group running no block is due. *)
Lemma no_needless_preemption_witness :
    ∃ out self' w', Scheduler_schedule ex_t2 ex_tw2 = Done (out, self') w' ∧
      running self' = [ex_group] ∧ waiting self' = [].
  Proof.
    destruct ex_t2_inv as [HI _].
    assert (Ha : admitted ex_t2 ex_tw2 = Some 0) by by vm_compute.
    destruct (no_needless_preemption ex_t2 ex_tw2 HI Ha) as (out & self' & w' & E & Er & Ew & _).
    - vm_compute. lia.
    - exists out, self', w'. split; [exact E |]. split; [rewrite Er | rewrite Ew]; by vm_compute.
  Defined.

End DecodeExamples.
