(* ===== verification/Llama.v ===== *)
(** * The Llama model

    [src/openai/models/llama.rs]: the configurations, loading, and the forward
    pass through the layers, on top of [PagedAttention] and the rotary kernel.
    The layers of [candle_nn] are parameters. *)

From Stdlib Require Import ZArith SpecFloat Lia.
From stdpp Require Import base gmap sets strings pretty countable list.
From S2P Require Import Prelude Machine Api Candle Backend Attention CacheEngine.

(** ** Configurations *)

Definition MAX_SEQ_LEN : nat := 4096.

(** [LlamaConfig], as it is read from [config.json], and [Config]. *)
Record LlamaConfig := mkLlamaConfig {
  lc_hidden_size : nat;
  lc_intermediate_size : nat;
  lc_vocab_size : nat;
  lc_num_hidden_layers : nat;
  lc_num_attention_heads : nat;
  lc_num_key_value_heads : option nat;
  lc_rms_norm_eps : spec_float;
  lc_rope_theta : f32;
}.

Record Config := mkConfig {
  cf_hidden_size : nat;
  cf_intermediate_size : nat;
  cf_vocab_size : nat;
  cf_num_hidden_layers : nat;
  cf_num_attention_heads : nat;
  cf_num_key_value_heads : nat;
  cf_rms_norm_eps : spec_float;
  cf_rope_theta : f32;
}.

Definition LlamaConfig_into_config (self : LlamaConfig) : Config :=
  mkConfig (lc_hidden_size self) (lc_intermediate_size self) (lc_vocab_size self)
    (lc_num_hidden_layers self) (lc_num_attention_heads self)
    (default (lc_num_attention_heads self) (lc_num_key_value_heads self))
    (lc_rms_norm_eps self) (lc_rope_theta self).

(** The [f64] nearest to [n / d], and the [f32] of an integer. *)
Definition f64_ratio (n d : positive) : spec_float :=
  SFdiv 53 1024 (binary_normalize 53 1024 (Zpos n) 0 false) (binary_normalize 53 1024 (Zpos d) 0 false).

Definition f32_of_Z (n : Z) : f32 := binary_normalize 24 128 n 0 false.

(** The two published configurations of 7 billion parameters. *)
Definition Config_config_7b_v1 : Config :=
  mkConfig 4096 11008 32000 32 32 32 (f64_ratio 1 1000000) (f32_of_Z 10000).

Definition Config_config_7b_v2 : Config :=
  mkConfig 4096 11008 32000 32 32 32 (f64_ratio 1 100000) (f32_of_Z 10000).

(** The two implementations of [ConfigLike]. *)
Definition LlamaConfig_ConfigLike (self : LlamaConfig) : ConfigLike := {|
  get_num_kv_heads := default (lc_num_attention_heads self) (lc_num_key_value_heads self);
  get_hidden_size := lc_hidden_size self;
  get_num_hidden_layers := lc_num_hidden_layers self;
  get_num_attention_heads := lc_num_attention_heads self;
  get_vocab_size := lc_vocab_size self;
  get_sliding_window := None;
|}.

Definition Config_ConfigLike (self : Config) : ConfigLike := {|
  get_num_kv_heads := cf_num_key_value_heads self;
  get_hidden_size := cf_hidden_size self;
  get_num_hidden_layers := cf_num_hidden_layers self;
  get_num_attention_heads := cf_num_attention_heads self;
  get_vocab_size := cf_vocab_size self;
  get_sliding_window := None;
|}.

(** [n as f32] (to the nearest), [a / b] and [a.sqrt()] *)
Definition f32_of_nat (n : nat) : f32 := binary_normalize f32_prec f32_emax (Z.of_nat n) 0 false.

Definition f32_div : f32 → f32 → f32 := SFdiv f32_prec f32_emax.

Definition f32_sqrt : f32 → f32 := SFsqrt f32_prec f32_emax.

(** [10_000.0] *)
Definition default_rope : f32 := f32_of_nat 10000.

(** ** External code *)

(** [candle_nn]: the variables of a model, its layers, and operations on tensors;
    [powf] of [f32]. *)
Class NN `{TensorOps} := {
  VarBuilder : Type;
  vb_pp : VarBuilder → string → VarBuilder;
  vb_get : VarBuilder → list nat → string → result Tensor;
  vb_device : VarBuilder → Device;
  Linear : Type;
  linear : nat → nat → VarBuilder → result Linear;
  linear_forward : Linear → Tensor → result Tensor;
  nn_RmsNorm : Type;
  nn_rms_norm : nat → spec_float → VarBuilder → result nn_RmsNorm;
  nn_rms_forward : nn_RmsNorm → Tensor → result Tensor;
  Embedding : Type;
  Embedding_new : Tensor → nat → Embedding;
  embedding_forward : Embedding → Tensor → result Tensor;
  silu : Tensor → result Tensor;
  t_transpose : Tensor → nat → nat → result Tensor;
  (** [x.i((.., n, ..))] *)
  t_index_middle : Tensor → nat → result Tensor;
  t_new_f32 : list f32 → Device → result Tensor;
  t_arange_u32 : nat → Device → result Tensor;
  (** [Tensor::cat] along [D::Minus1], and along a dimension *)
  t_cat_last : list Tensor → result Tensor;
  t_cat_dim : list Tensor → nat → result Tensor;
  t_cos : Tensor → result Tensor;
  t_sin : Tensor → result Tensor;
  f32_powf : f32 → f32 → f32;
}.

Section Llama.
  Context `{NN}.

(** ** The layers *)

  (** [RmsNorm], without its tracing span. *)
Record RmsNorm := mkRmsNorm { rms_inner : nn_RmsNorm }.

Definition RmsNorm_load (size : nat) (eps : spec_float) (vb : VarBuilder) : result RmsNorm :=
    let? inner := nn_rms_norm size eps vb in Ok (mkRmsNorm inner).

Definition RmsNorm_forward (self : RmsNorm) (x : Tensor) : result Tensor :=
    nn_rms_forward (rms_inner self) x.

Record CausalSelfAttention := mkCausalSelfAttention {
    q_proj : Linear;
    k_proj : Linear;
    v_proj : Linear;
    o_proj : Linear;
    csa_num_attention_heads : nat;
    csa_num_key_value_heads : nat;
    csa_head_dim : nat;
    csa_attn : PagedAttention;
    csa_cos_sin_cache : Tensor;
  }.

Record Mlp := mkMlp { c_fc1 : Linear; c_fc2 : Linear; c_proj : Linear }.

Record Block := mkBlock {
    rms_1 : RmsNorm;
    blk_attn : CausalSelfAttention;
    rms_2 : RmsNorm;
    blk_mlp : Mlp;
  }.

Record Llama := mkLlama {
    wte : Embedding;
    blocks : list Block;
    ln_f : RmsNorm;
    lm_head : Linear;
    cfg : Config;
  }.

(** ** The forward pass *)

  (** [reshape((b_sz, seq_len, heads, head_dim)).transpose(1, 2)] *)
Definition split_heads (b_sz seq_len heads head_dim : nat) (t : Tensor) : result Tensor :=
    let? t := t_reshape t [b_sz; seq_len; heads; head_dim] in t_transpose t 1 2.

Definition CausalSelfAttention_apply_rotary_emb (self : CausalSelfAttention) (q k positions : Tensor)
    : St Pass (result unit) :=
    in_memory (rotary_embedding positions q k (csa_head_dim self) (csa_cos_sin_cache self) false).

Definition CausalSelfAttention_forward (checks : bool) (self : CausalSelfAttention)
    (x positions : Tensor) (cache : option (Tensor * Tensor)) : St Pass (result Tensor) :=
    let!? (b_sz, seq_len, _) := st_ret (t_dims3 x) in
    let!? q := st_ret (linear_forward (q_proj self) x) in
    let!? k := st_ret (linear_forward (k_proj self) x) in
    let!? v := st_ret (linear_forward (v_proj self) x) in
    let!? q := st_ret (split_heads b_sz seq_len (csa_num_attention_heads self) (csa_head_dim self) q) in
    let!? k := st_ret (split_heads b_sz seq_len (csa_num_key_value_heads self) (csa_head_dim self) k) in
    let!? v := st_ret (split_heads b_sz seq_len (csa_num_key_value_heads self) (csa_head_dim self) v) in
    let!? _ := CausalSelfAttention_apply_rotary_emb self q k positions in
    let!? attn_output :=
      PagedAttention_forward checks (csa_attn self) q k v (fst <$> cache) (snd <$> cache)
        (t_dtype q) (t_device q) in
    st_ret (linear_forward (o_proj self) attn_output).

Definition Mlp_forward (self : Mlp) (x : Tensor) : result Tensor :=
    let? a := linear_forward (c_fc1 self) x in
    let? a := silu a in
    let? b := linear_forward (c_fc2 self) x in
    let? x := t_mul a b in
    linear_forward (c_proj self) x.

Definition Block_forward (checks : bool) (self : Block) (positions x : Tensor)
    (cache : option (Tensor * Tensor)) : St Pass (result Tensor) :=
    let residual := x in
    let!? x := st_ret (RmsNorm_forward (rms_1 self) x) in
    let!? a := CausalSelfAttention_forward checks (blk_attn self) x positions cache in
    let!? x := st_ret (t_add a residual) in
    let residual := x in
    let!? y := st_ret (RmsNorm_forward (rms_2 self) x) in
    let!? y := st_ret (Mlp_forward (blk_mlp self) y) in
    st_ret (t_add y residual).

  (** The layers, with the caches of the layers when there are caches. *)
Definition Llama_layers (self : Llama) (kv_caches : option (list KVCache))
    : list (option (Tensor * Tensor) * Block) :=
    match kv_caches with
    | Some kv_caches => zip (Some <$> kv_caches) (blocks self)
    | None => (λ block, (None, block)) <$> blocks self
    end.

Definition Llama_forward (checks : bool) (self : Llama) (x positions : Tensor)
    (kv_caches : option (list KVCache)) : St Pass (result Tensor) :=
    let!? (_b_sz, seq_len) := st_ret (t_dims2 x) in
    let!? x := st_ret (embedding_forward (wte self) x) in
    let!? x := st_try_fold (λ x '(cache, block), Block_forward checks block positions x cache) x
                 (Llama_layers self kv_caches) in
    let!? x := st_ret (RmsNorm_forward (ln_f self) x) in
    let! last := st_unwrap (usize_sub checks (Z.of_nat seq_len) 1) in
    let!? x := st_ret (t_index_middle x (Z.to_nat last)) in
    let!? logits := st_ret (linear_forward (lm_head self) x) in
    st_ret (t_to_dtype logits F32).

(** ** Loading *)

  (** The frequencies [1 / rope_theta^(i / n_elem)] for the even [i] below [n_elem]. *)
Definition rope_frequencies (rope_theta : f32) (n_elem : nat) : list f32 :=
    (λ i, f32_div (f32_of_nat 1)
            (f32_powf rope_theta (f32_div (f32_of_nat (2 * i)) (f32_of_nat n_elem))))
    <$> seq 0 ((n_elem + 1) / 2).

Definition compute_cos_sin_cache (config : Config) (device : Device) (dtype : DType)
    : fallible Tensor :=
    n_elem ← nat_div (cf_hidden_size config) (cf_num_attention_heads config);
    let theta := rope_frequencies (cf_rope_theta config) n_elem in
    match (let? theta_t := t_new_f32 theta device in
           let? idx := t_arange_u32 MAX_SEQ_LEN device in
           let? idx := t_to_dtype idx F32 in
           let? idx := t_reshape idx [MAX_SEQ_LEN; 1] in
           let? row := t_reshape theta_t [1; length theta] in
           let? idx_theta := t_matmul idx row in
           let? idx_theta := t_cat_last [idx_theta; idx_theta] in
           let? cos := t_cos idx_theta in
           let? cos := t_to_dtype cos dtype in
           let? sin := t_sin idx_theta in
           let? sin := t_to_dtype sin dtype in
           Ok (cos, sin)) with
    | Err e => Some (Err e)
    | Ok (cos, sin) =>
        if length (t_dims cos) =? 0 then None
        else Some (t_cat_dim [cos; sin] (length (t_dims cos) - 1))
    end.

  (** A call that may panic, tried. *)
Definition fall_bind {A B} (m : fallible A) (k : A → fallible B) : fallible B :=
    match m with
    | None => None
    | Some (Err e) => Some (Err e)
    | Some (Ok a) => k a
    end.

Definition CausalSelfAttention_load (vb : VarBuilder) (cfg : Config) (dtype : DType) (device : Device)
    : fallible CausalSelfAttention :=
    let size_in := cf_hidden_size cfg in
    fall_bind (Ok <$> nat_div (cf_hidden_size cfg) (cf_num_attention_heads cfg)) (λ head_dim,
    let size_q := head_dim * cf_num_attention_heads cfg in
    let size_kv := head_dim * cf_num_key_value_heads cfg in
    fall_bind (Some (
      let? q := linear size_in size_q (vb_pp vb "q_proj") in
      let? k := linear size_in size_kv (vb_pp vb "k_proj") in
      let? v := linear size_in size_kv (vb_pp vb "v_proj") in
      let? o := linear size_q size_in (vb_pp vb "o_proj") in
      Ok (q, k, v, o))) (λ '(q, k, v, o),
    fall_bind (PagedAttention_new (cf_num_attention_heads cfg) head_dim
                 (f32_div (f32_of_nat 1) (f32_sqrt (f32_of_nat head_dim)))
                 (Some (cf_num_key_value_heads cfg)) None (vb_device vb) None) (λ attn,
    fall_bind (compute_cos_sin_cache cfg device dtype) (λ cos_sin_cache,
    Some (Ok (mkCausalSelfAttention q k v o (cf_num_attention_heads cfg) (cf_num_key_value_heads cfg)
                head_dim attn cos_sin_cache)))))).

Definition Mlp_load (vb : VarBuilder) (cfg : Config) : result Mlp :=
    let h_size := cf_hidden_size cfg in
    let i_size := cf_intermediate_size cfg in
    let? c_fc1 := linear h_size i_size (vb_pp vb "gate_proj") in
    let? c_fc2 := linear h_size i_size (vb_pp vb "up_proj") in
    let? c_proj := linear i_size h_size (vb_pp vb "down_proj") in
    Ok (mkMlp c_fc1 c_fc2 c_proj).

Definition Block_load (vb : VarBuilder) (cfg : Config) (dtype : DType) (device : Device)
    : fallible Block :=
    fall_bind (CausalSelfAttention_load (vb_pp vb "self_attn") cfg dtype device) (λ attn,
    Some (
      let? mlp := Mlp_load (vb_pp vb "mlp") cfg in
      let? rms_1 := RmsNorm_load (cf_hidden_size cfg) (cf_rms_norm_eps cfg) (vb_pp vb "input_layernorm") in
      let? rms_2 := RmsNorm_load (cf_hidden_size cfg) (cf_rms_norm_eps cfg)
                      (vb_pp vb "post_attention_layernorm") in
      Ok (mkBlock rms_1 attn rms_2 mlp))).

  (** [Block::load(..).unwrap()] for every layer. *)
Definition load_blocks (vb : VarBuilder) (cfg : Config) (dtype : DType) (device : Device)
    : option (list Block) :=
    mapM (λ i, match Block_load (vb_pp vb ("model.layers." +:+ pretty i)) cfg dtype device with
               | Some (Ok block) => Some block
               | _ => None
               end) (seq 0 (cf_num_hidden_layers cfg)).

Definition embedding (cfg : Config) (vb : VarBuilder) : result Embedding :=
    let? embeddings := vb_get vb [cf_vocab_size cfg; cf_hidden_size cfg] "weight" in
    Ok (Embedding_new embeddings (cf_hidden_size cfg)).

Definition Llama_load (vb : VarBuilder) (cfg : Config) (dtype : DType) (device : Device)
    : fallible Llama :=
    fall_bind (Some (
      let? wte := embedding cfg (vb_pp vb "model.embed_tokens") in
      let? lm_head := linear (cf_hidden_size cfg) (cf_vocab_size cfg) (vb_pp vb "lm_head") in
      let? ln_f := RmsNorm_load (cf_hidden_size cfg) (cf_rms_norm_eps cfg) (vb_pp vb "model.norm") in
      Ok (wte, lm_head, ln_f))) (λ '(wte, lm_head, ln_f),
    fall_bind (Ok <$> load_blocks vb cfg dtype device) (λ blocks,
    Some (Ok (mkLlama wte blocks ln_f lm_head cfg)))).

Definition Llama_get_config (self : Llama) : Config := cfg self.

End Llama.

(** ** Properties *)

Section LlamaProperties.
  Context `{NN} `{!TensorLaws}.

Lemma block_forward_never checks self positions x cache (pass : Pass) :
    slots_shaped pass → ¬ succeeds (Block_forward checks self positions x cache) pass.
  Proof.
    intros Hsl Hs. unfold Block_forward in Hs. apply st_try_succeeds in Hs as (x1 & s1 & [= _ <-] & Hs).
    apply st_try_succeeds in Hs as (a & s2 & E & _).
    assert (Hs : succeeds (CausalSelfAttention_forward checks (blk_attn self) x1 positions cache) pass)
      by (by exists a, s2). clear E.
    unfold CausalSelfAttention_forward in Hs.
    apply st_try_succeeds in Hs as ([[b sl] hs] & s3 & [= _ <-] & Hs).
    do 6 apply st_try_succeeds in Hs as (? & ? & [= _ <-] & Hs).
    apply st_try_succeeds in Hs as ([] & s4 & Er%in_memory_metadata & Hs).
    apply st_try_succeeds in Hs as (o & s5 & E & _).
    eapply forward_never; [| by eexists _, _]. unfold slots_shaped. by rewrite Er.
  Qed.

Lemma llama_forward_never checks self x positions kv_caches (pass : Pass) :
    blocks self ≠ [] → kv_caches ≠ Some [] → slots_shaped pass →
    ¬ succeeds (Llama_forward checks self x positions kv_caches) pass.
  Proof.
    intros Hb Hc Hsl Hs. unfold Llama_forward in Hs.
    apply st_try_succeeds in Hs as ([b sl] & s1 & [= _ <-] & Hs).
    apply st_try_succeeds in Hs as (x1 & s2 & [= _ <-] & Hs).
    apply st_try_succeeds in Hs as (x2 & s3 & E & _).
    assert (∃ l ls, Llama_layers self kv_caches = l :: ls) as ([c b0] & ls & El).
    { unfold Llama_layers. destruct (blocks self) as [|b0 bs]; [done |].
      destruct kv_caches as [[|c cs]|]; [done | by eexists _, _ | by eexists _, _]. }
    rewrite El in E. eapply (block_forward_never checks b0 positions x1 c pass Hsl).
    apply (try_fold_first (λ x '(cache, block), Block_forward checks block positions x cache) x1
             (c, b0) ls pass). by exists x2, s3.
  Qed.

  (** The configuration that is read and the one it becomes are the same to the
      engine. *)
Lemma into_config_ConfigLike c :
    Config_ConfigLike (LlamaConfig_into_config c) = LlamaConfig_ConfigLike c.
  Proof. done. Qed.

Lemma fall_bind_Ok {A B} (m : fallible A) (k : A → fallible B) b :
    fall_bind m k = Some (Ok b) ↔ ∃ a, m = Some (Ok a) ∧ k a = Some (Ok b).
  Proof. destruct m as [[a|e]|]; simpl; naive_solver. Qed.

  (** A loaded model has one block per layer of its configuration. *)
Lemma llama_load_blocks vb c dtype device self :
    Llama_load vb c dtype device = Some (Ok self) →
    length (blocks self) = cf_num_hidden_layers c ∧ cfg self = c.
  Proof.
    unfold Llama_load. intros ([[e h] l] & _ & E)%fall_bind_Ok.
    apply fall_bind_Ok in E as (bs & Eb & [= <-]). simpl. split; [| done].
    destruct (load_blocks vb c dtype device) as [bs'|] eqn:El; [| done]. injection Eb as ->.
    unfold load_blocks in El. apply length_mapM in El. by rewrite length_seq in El.
  Qed.

  (** C36: a loaded model never computes logits.  However a model with at least one layer
      was loaded, without caches or with one per layer, and for a slot mapping that is
      not a scalar: [Llama::forward] never returns a tensor; its first layer never gets
      past the attention, which flattens the slot mapping up to a dimension it does
      not have.  In particular it never reaches the choice of the row of the last
      token. *)
Theorem loaded_llama_never_answers vb c dtype device self checks x positions kv_caches (pass : Pass) :
    Llama_load vb c dtype device = Some (Ok self) → 0 < cf_num_hidden_layers c →
    (∀ l, kv_caches = Some l → length l = cf_num_hidden_layers c) → slots_shaped pass →
    ∀ logits pass', Llama_forward checks self x positions kv_caches pass ≠ Done (Ok logits) pass'.
  Proof.
    intros [Hb _]%llama_load_blocks Hn Hc Hsl logits pass' E.
    eapply (llama_forward_never checks self x positions kv_caches pass); [| | done | by exists logits, pass'].
    - intros E0. rewrite E0 in Hb. simpl in Hb. lia.
    - intros ->. specialize (Hc [] eq_refl). simpl in Hc. lia.
  Qed.

End LlamaProperties.

(** *** Witnesses *)

Section LlamaExamples.

  #[local] Existing Instance plain_candle.
  #[local] Existing Instance plain_tensors.
  #[local] Existing Instance plain_tensor_laws.

  (** Layers that keep their input. *)
Definition plain_nn : NN := {|
    VarBuilder := unit;
    vb_pp vb _ := vb;
    vb_get _ dims _ := Ok (dims, []);
    vb_device _ := true;
    Linear := unit;
    linear _ _ _ := Ok tt;
    linear_forward _ t := Ok t;
    nn_RmsNorm := unit;
    nn_rms_norm _ _ _ := Ok tt;
    nn_rms_forward _ t := Ok t;
    Embedding := nat;
    Embedding_new _ n := n;
    embedding_forward n t := Ok (t.1 ++ [n], t.2);
    silu t := Ok t;
    t_transpose t _ _ := Ok t;
    t_index_middle t _ := Ok t;
    t_new_f32 l _ := Ok ([length l], []);
    t_arange_u32 n _ := Ok ([n], []);
    t_cat_last l := match l with t :: _ => Ok t | [] => no_tensor end;
    t_cat_dim l _ := match l with t :: _ => Ok t | [] => no_tensor end;
    t_cos t := Ok t;
    t_sin t := Ok t;
    f32_powf _ _ := f32_of_nat 1;
  |}.

  #[local] Existing Instance plain_nn.

Definition ex_llama_config : Config :=
    mkConfig 8 16 100 2 2 2 (f32_of_nat 0) default_rope.

Definition ex_variables : VarBuilder := tt.

Definition ex_ids : Tensor := ([1; 3], []).

Lemma loaded_llama_never_answers_witness :
    match Llama_load ex_variables ex_llama_config U8 true with
    | Some (Ok self) => ¬ succeeds (Llama_forward true self ex_ids ex_ids None) ex_pass
    | _ => False
    end.
  Proof.
    destruct (Llama_load ex_variables ex_llama_config U8 true) as [[self|e]|] eqn:E.
    - intros (logits & pass' & E').
      exact (loaded_llama_never_answers ex_variables ex_llama_config U8 true self true ex_ids
        ex_ids None ex_pass E ltac:(simpl; lia) ltac:(discriminate) ltac:(discriminate)
        logits pass' E').
    - exfalso. vm_compute in E. discriminate.
    - exfalso. vm_compute in E. discriminate.
  Defined.

  (** A model of one layer. *)
Definition ex_linear : Linear := tt.

Definition ex_norm : RmsNorm := mkRmsNorm tt.

Definition ex_embedding : Embedding := 8.

Definition ex_block : Block :=
    mkBlock ex_norm (mkCausalSelfAttention ex_linear ex_linear ex_linear ex_linear 2 2 4 ex_attention
      ([4], [])) ex_norm (mkMlp ex_linear ex_linear ex_linear).

Definition ex_llama : Llama := mkLlama ex_embedding [ex_block] ex_norm ex_linear ex_llama_config.

  (** The halves of the frequencies of a head of four elements. *)
Example two_frequencies : length (rope_frequencies default_rope 4) = 2.
  Proof. reflexivity. Qed.

End LlamaExamples.
