(* ===== verification/Sampling.v ===== *)
(** * Sampling parameters

    [src/openai/sampling_params.rs]: the checks on the parameters of a request,
    in the [f32] arithmetic of the program, and the choice of a sampling method. *)

From Stdlib Require Import ZArith SpecFloat Lia.
From stdpp Require Import base gmap sets strings pretty countable list.
From S2P Require Import Prelude Machine Api.

#[local] Open Scope Z_scope.

(** ** Floats *)

(** [a < b], [a <= b], [a == b] *)
Definition f32_ltb (a b : f32) : bool := SFltb a b.

Definition f32_leb (a b : f32) : bool := SFleb a b.

Definition f32_eqb (a b : f32) : bool := SFeqb a b.

Definition f32_one : f32 := S754_finite false 8388608 (-23).

Definition f32_two : f32 := S754_finite false 8388608 (-22).

(** [0.7] *)
Definition f32_0_7 : f32 := S754_finite false 11744051 (-24).

Definition f32_opp : f32 → f32 := SFopp.

(** The [f32] nearest to [1e-5]. *)
Definition SAMPLING_EPS : f32 := S754_finite false 10995116 (-40).

(** How [{}] prints a float: only the texts of errors depend on it. *)
Class FloatDisplay := { show_f32 : f32 → string }.

(** ** SamplingParams *)

Inductive EarlyStoppingCondition :=
  | BestOfCompleteCandidates
  | UnlikelyBetterCandidates
  | CanonicalNoBetterCandidates.

(** Nothing uses it: the kind of sampling follows from the parameters. *)
Inductive SamplingType :=
  | BEAM
  | GREEDY
  | RANDOM.

#[export] Instance EarlyStoppingCondition_eq_dec : EqDecision EarlyStoppingCondition.
Proof. solve_decision. Defined.

Record SamplingParams := mkSamplingParams {
  sp_n : Z;
  sp_best_of : Z;
  sp_presence_penalty : f32;
  sp_frequency_penalty : f32;
  sp_repetition_penalty : f32;
  sp_temperature : f32;
  sp_top_p : f32;
  sp_top_k : Z;
  sp_use_beam_search : bool;
  sp_length_penalty : f32;
  sp_early_stopping : EarlyStoppingCondition;
  sp_stop : option StopTokens;
  sp_stop_token_ids : list nat;
  sp_ignore_eos : bool;
  sp_max_tokens : Z;
  sp_logprobs : option Z;
  sp_prompt_logprobs : option Z;
  sp_skip_special_tokens : bool;
}.

(** [(lo..=hi).contains(&x)] and [Range { start: lo, end: hi }.contains(&x)] *)
Definition in_closed_range (lo hi x : f32) : bool := f32_leb lo x && f32_leb x hi.

Definition in_half_open_range (lo hi x : f32) : bool := f32_leb lo x && f32_ltb x hi.

Section Verify.
  Context `{FloatDisplay}.

Definition SamplingParams_verify_args (self : SamplingParams) : result unit :=
  reject_if (sp_n self <? 1)
    ("n must be at leas 1, got " +:+ pretty (sp_n self) +:+ ".") (
  reject_if (sp_best_of self <? sp_n self)
    ("best_of must be greater than or equal to n, got n=" +:+ pretty (sp_n self) +:+
     " and best_of=" +:+ pretty (sp_best_of self)) (
  reject_if (negb (in_closed_range (f32_opp f32_two) f32_two (sp_presence_penalty self)))
    ("presence_penalty must be in [-2, 2], got " +:+ show_f32 (sp_presence_penalty self)) (
  reject_if (negb (in_closed_range (f32_opp f32_two) f32_two (sp_frequency_penalty self)))
    ("frequency_penalty must be in [-2, 2], got " +:+ show_f32 (sp_frequency_penalty self)) (
  reject_if (negb (in_half_open_range f32_zero f32_two (sp_repetition_penalty self)) ||
             f32_eqb (sp_repetition_penalty self) f32_zero)
    ("repetition_penalty must be in (0, 2], got " +:+ show_f32 (sp_repetition_penalty self)) (
  reject_if (f32_ltb (sp_temperature self) f32_zero)
    ("temperature must be non-negative, got " +:+ show_f32 (sp_temperature self)) (
  reject_if (sp_max_tokens self <? 1)
    ("max_tokens must be at least 1, got " +:+ pretty (sp_max_tokens self)) (Ok tt))))))).

Definition SamplingParams_verify_beam_search (self : SamplingParams) : result unit :=
  reject_if (sp_best_of self <=? 1)
    ("best_of must be greater than 1 when using beam search. Got " +:+ pretty (sp_best_of self)) (
  reject_if (f32_ltb SAMPLING_EPS (sp_temperature self))
    "temperature must be 0 when using beam search" (
  reject_if (f32_ltb (sp_top_p self) (f32_sub f32_one SAMPLING_EPS))
    "top_p must be 1 when using beam search" (
  reject_if (negb (sp_top_k self =? -1))
    "top_k must be -1 when using beam search" (Ok tt)))).

Definition SamplingParams_verify_non_beam_search (self : SamplingParams) : result unit :=
  reject_if (negb (bool_decide (sp_early_stopping self = UnlikelyBetterCandidates)))
    "early_stopping is not effective and must be UnlikelyBetterCandidates when not using beam search." (
  reject_if (f32_ltb (sp_length_penalty self) (f32_sub f32_one SAMPLING_EPS) ||
             f32_ltb (f32_add f32_one SAMPLING_EPS) (sp_length_penalty self))
    "length_penalty is not effective and must be the default value of 1.0 when not using beam search."
    (Ok tt)).

Definition SamplingParams_verify_greedy_sampling (self : SamplingParams) : result unit :=
  reject_if (1 <? sp_best_of self)
    ("best_of must be 1 when using greedy sampling. Got " +:+ pretty (sp_best_of self) +:+ ".") (
  reject_if (f32_ltb (sp_top_p self) (f32_sub f32_one SAMPLING_EPS))
    "top_p must be 1 when using greedy sampling." (
  reject_if (negb (f32_eqb (sp_top_p self) (f32_opp f32_one)))
    "top_k must be -1 when using greedy sampling." (Ok tt))).

Definition SamplingParams_new (n : Z) (best_of : option Z)
    (presence_penalty frequency_penalty repetition_penalty temperature top_p : f32) (top_k : Z)
    (use_beam_search : bool) (length_penalty : f32) (early_stopping : EarlyStoppingCondition)
    (stop : option StopTokens) (stop_token_ids : list nat) (ignore_eos : bool) (max_tokens : Z)
    (logprobs prompt_logprobs : option Z) (skip_special_tokens : bool) : result SamplingParams :=
  let this := mkSamplingParams n (default n best_of) presence_penalty frequency_penalty
    repetition_penalty temperature top_p top_k use_beam_search length_penalty early_stopping
    stop stop_token_ids ignore_eos max_tokens logprobs prompt_logprobs skip_special_tokens in
  let? _ := SamplingParams_verify_args this in
  let? _ :=
    if sp_use_beam_search this then SamplingParams_verify_beam_search this
    else
      let? _ := SamplingParams_verify_non_beam_search this in
      if f32_ltb (sp_temperature this) SAMPLING_EPS
      then SamplingParams_verify_greedy_sampling this else Ok tt in
  Ok this.

End Verify.

(** ** The sampling method *)

(** [candle_sampling]'s [SamplingMethod]. *)
Inductive SamplingMethod :=
  | Multinomial
  | TopK (k : Z)
  | TopP (p : spec_float).

(** The temperature and the method of the [LogitsProcessor]; [None] is the
    [unreachable!()] (an [isize] above zero always fits the [usize] of [TopK]). *)
Definition SamplingParams_get_logits_processor (self : SamplingParams)
    : option (spec_float * SamplingMethod) :=
  if (sp_top_k self =? -1) && f32_eqb (sp_top_p self) f32_one then
    Some (f64_of_f32 (sp_temperature self), Multinomial)
  else if (0 <? sp_top_k self) && f32_eqb (sp_top_p self) f32_one then
    Some (f64_of_f32 (sp_temperature self), TopK (sp_top_k self))
  else if (sp_top_k self =? -1) && negb (f32_eqb (sp_top_p self) f32_one) then
    Some (f64_of_f32 (sp_temperature self), TopP (f64_of_f32 (sp_top_p self)))
  else None.

(** ** Properties *)

Section SamplingProperties.
  Context `{FloatDisplay}.

  (** What the checks let through. *)
Record accepted (p : SamplingParams) : Prop := {
    ac_n : 1 ≤ sp_n p ≤ sp_best_of p;
    ac_max_tokens : 1 ≤ sp_max_tokens p;
    ac_presence : in_closed_range (f32_opp f32_two) f32_two (sp_presence_penalty p) = true;
    ac_frequency : in_closed_range (f32_opp f32_two) f32_two (sp_frequency_penalty p) = true;
    ac_repetition : in_half_open_range f32_zero f32_two (sp_repetition_penalty p) = true ∧
                    f32_eqb (sp_repetition_penalty p) f32_zero = false;
    ac_temperature : f32_ltb (sp_temperature p) f32_zero = false;
    ac_method :
      if sp_use_beam_search p then
        1 < sp_best_of p ∧ f32_ltb SAMPLING_EPS (sp_temperature p) = false ∧
        f32_ltb (sp_top_p p) (f32_sub f32_one SAMPLING_EPS) = false ∧ sp_top_k p = -1
      else
        sp_early_stopping p = UnlikelyBetterCandidates ∧
        f32_ltb (sp_length_penalty p) (f32_sub f32_one SAMPLING_EPS) = false ∧
        f32_ltb (f32_add f32_one SAMPLING_EPS) (sp_length_penalty p) = false ∧
        f32_ltb (sp_temperature p) SAMPLING_EPS = false;
  }.

  (** Only one [f32] equals [-1.0]. *)
Lemma SFeqb_finite_neg x m' e' :
    SFeqb x (S754_finite true m' e') = true → x = S754_finite true m' e'.
  Proof.
    unfold SFeqb. destruct x as [[]|[]| |[] m e]; cbn [SFcompare]; try discriminate.
    destruct (Z.compare_spec e e') as [->|?|?]; try discriminate.
    change (Pos.compare_cont Eq m m') with (Pos.compare m m').
    destruct (Pos.compare_spec m m') as [->|?|?]; [reflexivity | discriminate ..].
  Qed.

Lemma f32_eqb_minus_one x : f32_eqb x (f32_opp f32_one) = true → x = f32_opp f32_one.
  Proof. apply SFeqb_finite_neg. Qed.

  #[local] Opaque f32_ltb f32_leb f32_eqb f32_sub f32_add in_closed_range in_half_open_range.

Lemma verify_greedy_never p : ∀ u, SamplingParams_verify_greedy_sampling p ≠ Ok u.
  Proof.
    intros u. unfold SamplingParams_verify_greedy_sampling. rewrite !reject_if_Ok.
    intros (_ & Hlt & Heq & _). apply negb_false_iff, f32_eqb_minus_one in Heq.
    rewrite Heq in Hlt. vm_compute in Hlt. discriminate.
  Qed.

Lemma verify_args_Ok p u :
    SamplingParams_verify_args p = Ok u ↔
    1 ≤ sp_n p ≤ sp_best_of p ∧ 1 ≤ sp_max_tokens p ∧
    in_closed_range (f32_opp f32_two) f32_two (sp_presence_penalty p) = true ∧
    in_closed_range (f32_opp f32_two) f32_two (sp_frequency_penalty p) = true ∧
    (in_half_open_range f32_zero f32_two (sp_repetition_penalty p) = true ∧
     f32_eqb (sp_repetition_penalty p) f32_zero = false) ∧
    f32_ltb (sp_temperature p) f32_zero = false.
  Proof.
    unfold SamplingParams_verify_args.
    rewrite !reject_if_Ok, orb_false_iff, !negb_false_iff,
      (Z.ltb_ge (sp_n p) 1), (Z.ltb_ge (sp_best_of p)), (Z.ltb_ge (sp_max_tokens p)). destruct u.
    split; intros; destruct_and!; split_and!; done || lia.
  Qed.

Lemma verify_beam_Ok p u :
    SamplingParams_verify_beam_search p = Ok u ↔
    1 < sp_best_of p ∧ f32_ltb SAMPLING_EPS (sp_temperature p) = false ∧
    f32_ltb (sp_top_p p) (f32_sub f32_one SAMPLING_EPS) = false ∧ sp_top_k p = -1.
  Proof.
    unfold SamplingParams_verify_beam_search.
    rewrite !reject_if_Ok, Z.leb_gt, negb_false_iff, Z.eqb_eq. destruct u.
    split; intros; destruct_and!; by split_and!.
  Qed.

Lemma verify_non_beam_Ok p u :
    SamplingParams_verify_non_beam_search p = Ok u ↔
    sp_early_stopping p = UnlikelyBetterCandidates ∧
    f32_ltb (sp_length_penalty p) (f32_sub f32_one SAMPLING_EPS) = false ∧
    f32_ltb (f32_add f32_one SAMPLING_EPS) (sp_length_penalty p) = false.
  Proof.
    unfold SamplingParams_verify_non_beam_search.
    rewrite !reject_if_Ok, orb_false_iff, negb_false_iff, bool_decide_eq_true. destruct u.
    split; intros; destruct_and!; by split_and!.
  Qed.

Lemma res_bind_Ok {A B} (m : result A) (k : A → result B) b :
    res_bind m k = Ok b ↔ ∃ a, m = Ok a ∧ k a = Ok b.
  Proof. destruct m; simpl; naive_solver. Qed.

Lemma method_Ok p u :
    (if sp_use_beam_search p then SamplingParams_verify_beam_search p
     else let? _ := SamplingParams_verify_non_beam_search p in
          if f32_ltb (sp_temperature p) SAMPLING_EPS
          then SamplingParams_verify_greedy_sampling p else Ok tt) = Ok u ↔
    (if sp_use_beam_search p then
       1 < sp_best_of p ∧ f32_ltb SAMPLING_EPS (sp_temperature p) = false ∧
       f32_ltb (sp_top_p p) (f32_sub f32_one SAMPLING_EPS) = false ∧ sp_top_k p = -1
     else
       sp_early_stopping p = UnlikelyBetterCandidates ∧
       f32_ltb (sp_length_penalty p) (f32_sub f32_one SAMPLING_EPS) = false ∧
       f32_ltb (f32_add f32_one SAMPLING_EPS) (sp_length_penalty p) = false ∧
       f32_ltb (sp_temperature p) SAMPLING_EPS = false).
  Proof.
    destruct (sp_use_beam_search p); [apply verify_beam_Ok |].
    rewrite res_bind_Ok. setoid_rewrite verify_non_beam_Ok. destruct u.
    destruct (f32_ltb (sp_temperature p) SAMPLING_EPS).
    - split; [intros (? & _ & E); by apply verify_greedy_never in E | naive_solver].
    - split; [naive_solver |]. intros (? & ? & ? & _). by exists tt.
  Qed.

  (** C29: what [SamplingParams::new] accepts.  It is total on its arguments and returns
      exactly the parameters it was given, with [best_of] defaulting to [n], when they
      satisfy [accepted], and an error in every other case.  [accepted] says in one
      place what the branches of the code let through, which is not what the comments
      on the fields promise: a [repetition_penalty] of 2 is rejected, [top_p] is only
      looked at for beam search, and a temperature below [SAMPLING_EPS] (greedy
      sampling) is never accepted. *)
Theorem new_accepts_iff n best_of pp fp rp t tp tk beam lp es st sti ie mt lo plo ss p :
    SamplingParams_new n best_of pp fp rp t tp tk beam lp es st sti ie mt lo plo ss = Ok p ↔
    p = mkSamplingParams n (default n best_of) pp fp rp t tp tk beam lp es st sti ie mt lo plo ss ∧
    accepted p.
  Proof.
    unfold SamplingParams_new.
    set (this := mkSamplingParams n (default n best_of) pp fp rp t tp tk beam lp es st sti ie mt
                   lo plo ss).
    rewrite res_bind_Ok. setoid_rewrite res_bind_Ok. setoid_rewrite verify_args_Ok.
    setoid_rewrite (method_Ok this). split.
    - intros (_ & (? & ? & ? & ? & ? & ?) & _ & Hm & [= <-]). split; [done |]. by split.
    - intros [-> [H1 H2 H3 H4 H5 H6 Hm]]. exists tt.
      split; [exact (conj H1 (conj H2 (conj H3 (conj H4 (conj H5 H6))))) | by exists tt].
  Qed.

  (** Greedy sampling cannot be requested: without beam search, a temperature
      below [SAMPLING_EPS] is rejected whatever the other parameters are, because
      the check on [top_k] compares [top_p] with [-1]. *)
Theorem greedy_always_rejected n best_of pp fp rp t tp tk lp es st sti ie mt lo plo ss :
    f32_ltb t SAMPLING_EPS = true →
    ∃ e, SamplingParams_new n best_of pp fp rp t tp tk false lp es st sti ie mt lo plo ss = Err e.
  Proof.
    intros Ht. destruct (SamplingParams_new n best_of pp fp rp t tp tk false lp es st sti ie mt
      lo plo ss) as [p|e] eqn:E; [| by eexists]. exfalso. unfold SamplingParams_new in E.
    apply res_bind_Ok in E as (_ & _ & E). apply res_bind_Ok in E as (u & E & _).
    apply method_Ok in E. simpl in E. destruct E as (_ & _ & _ & E). congruence.
  Qed.

  (** Accepted parameters can still crash the request: for them
      [get_logits_processor] reaches its [unreachable!()] exactly when [top_k] is
      not [-1] and either is not positive or comes with a [top_p] other than [1];
      it never does under beam search. *)
Theorem logits_processor_unreachable_iff p :
    accepted p →
    SamplingParams_get_logits_processor p = None ↔
    sp_use_beam_search p = false ∧ sp_top_k p ≠ -1 ∧
    (sp_top_k p ≤ 0 ∨ f32_eqb (sp_top_p p) f32_one = false).
  Proof.
    intros [_ _ _ _ _ _ Hm]. unfold SamplingParams_get_logits_processor.
    destruct (Z.eqb_spec (sp_top_k p) (-1)) as [Ek|Ek]; simpl.
    - destruct (f32_eqb (sp_top_p p) f32_one), (0 <? sp_top_k p); simpl; naive_solver.
    - assert (Hb : sp_use_beam_search p = false)
        by (destruct (sp_use_beam_search p); [by destruct Hm as (_ & _ & _ & ?) | done]).
      destruct (Z.ltb_spec 0 (sp_top_k p)), (f32_eqb (sp_top_p p) f32_one); simpl;
        split; intros; split_and?; naive_solver lia.
  Qed.

End SamplingProperties.

(** *** Witnesses *)

Section SamplingExamples.

Definition plain_display : FloatDisplay := {| show_f32 _ := "float" |}.

  #[local] Existing Instance plain_display.

  (** The parameters of a request that leaves everything open, but for [top_k]. *)
Definition ex_params (top_k : Z) : SamplingParams :=
    mkSamplingParams 1 1 f32_zero f32_zero f32_one f32_0_7 f32_one top_k false f32_one
      UnlikelyBetterCandidates None [] false 16 None None true.

Lemma ex_params_accepted k : accepted (ex_params k).
  Proof. split; vm_compute; intuition (congruence || done). Qed.

Lemma greedy_always_rejected_witness :
    ∃ e, SamplingParams_new 1 None f32_zero f32_zero f32_one f32_zero f32_one (-1) false f32_one
           UnlikelyBetterCandidates None [] false 16 None None true = Err e.
  Proof. apply greedy_always_rejected. reflexivity. Defined.

Lemma logits_processor_unreachable_iff_witness :
    SamplingParams_get_logits_processor (ex_params 0) = None ∧
    SamplingParams_get_logits_processor (ex_params 40) ≠ None.
  Proof.
    split.
    - apply (logits_processor_unreachable_iff (ex_params 0) (ex_params_accepted 0)).
      split; [done | split; [done | left; done]].
    - by vm_compute.
  Defined.

End SamplingExamples.
