(* ===== verification/Conversation.v ===== *)
(** * Conversations

    [src/openai/conversation]: the trait, as the class the server is written
    against, and the default conversation with its prompt formats. *)

From Stdlib Require Import ZArith SpecFloat Lia.
From stdpp Require Import base gmap sets strings pretty countable list.
From S2P Require Import Prelude.

(** ** The trait *)

Class Conversation (C : Type) := {
  set_system_message : C → string → C;
  append_message : C → string → string → C;
  append_none_message : C → string → C;
  (** [None]: the [unwrap] of a conversation without messages. *)
  update_last_message : C → option C;
  get_roles : C → string * string;
  get_prompt : C → string;
}.

(** What the server relies on: a message only ever extends the prompt, and
    nothing changes the roles. *)
Class ConversationLaws (C : Type) `{Conversation C} := {
  append_extends : ∀ (c : C) r m, ∃ s, get_prompt (append_message c r m) = get_prompt c +:+ s;
  append_none_extends : ∀ (c : C) r, ∃ s, get_prompt (append_none_message c r) = get_prompt c +:+ s;
  append_roles : ∀ (c : C) r m, get_roles (append_message c r m) = get_roles c;
  append_none_roles : ∀ (c : C) r, get_roles (append_none_message c r) = get_roles c;
  system_roles : ∀ (c : C) m, get_roles (set_system_message c m) = get_roles c;
}.

(** ** Strings *)

(** [s.replace(pat, rep)] for a non-empty [pat]: the matches are taken from the
    left and do not overlap; [skip] bytes of the current match are still to be
    dropped. *)
Fixpoint replace_from (pat rep : string) (skip : nat) (s : string) : string :=
  match s with
  | EmptyString => EmptyString
  | String c s' =>
      match skip with
      | S skip => replace_from pat rep skip s'
      | 0 => if String.prefix pat s
             then rep +:+ replace_from pat rep (String.length pat - 1) s'
             else String c (replace_from pat rep 0 s')
      end
  end.

Definition str_replace (s pat rep : string) : string := replace_from pat rep 0 s.

Definition is_empty (s : string) : bool :=
  match s with EmptyString => true | String _ _ => false end.

(** ["\n"], ["\n\n"] and ["\r\n"] *)
Definition nl : string := String (Ascii.ascii_of_nat 10) EmptyString.

Definition DEFAULT_SEP : string := nl.

Definition nlnl : string := nl +:+ nl.

Definition crnl : string := String (Ascii.ascii_of_nat 13) nl.

(** [dyn_fmt]'s [template.format(&[arg])]. *)
Class DynFormat := { dyn_format : string → list string → string }.

(** ** The default conversation *)

(** Constants of the module; the conversation of the pipeline is built without them. *)
Definition ROLES : string * string := ("USER", "ASSISTANT").

Definition SYSTEM_TEMPLATE : string := "{}".

Inductive SeparatorStyle :=
  | AddColonSingle
  | AddColonTwo
  | AddColonSpaceSingle
  | NoColonSingle
  | NoColonTwo
  | AddNewLineSingle
  | Llama2
  | ChatGLM
  | ChatML
  | ChatIntern
  | Dolly
  | RWKV
  | Phoenix
  | Robin
  | FalconChat.

Record Message := mkMessage { msg_role : string; msg_text : option string }.

Definition Message_new (message : string * string) : Message :=
  mkMessage message.1 (Some message.2).

Record DefaultConversationSeparators := { seps_sep : string; seps_sep2 : option string }.

Record DefaultConversation := mkConversation {
  dc_name : string;
  dc_system_message : string;
  dc_system_template : string;
  dc_messages : list Message;
  dc_offset : nat;
  dc_sep_style : SeparatorStyle;
  dc_stop_criteria : string;
  dc_stop_token_ids : list nat;
  dc_roles : string * string;
  dc_sep : string;
  dc_sep2 : option string;
}.

Definition DefaultConversation_new (name system_template : string) (messages : list Message)
    (offset : nat) (sep_style : SeparatorStyle) (stop_criteria : string)
    (stop_token_ids : list nat) (roles : string * string)
    (seps : DefaultConversationSeparators) : DefaultConversation :=
  mkConversation name "" system_template messages offset sep_style stop_criteria stop_token_ids
    roles (seps_sep seps) (seps_sep2 seps).

Definition with_messages (self : DefaultConversation) (l : list Message) : DefaultConversation :=
  mkConversation (dc_name self) (dc_system_message self) (dc_system_template self) l
    (dc_offset self) (dc_sep_style self) (dc_stop_criteria self) (dc_stop_token_ids self)
    (dc_roles self) (dc_sep self) (dc_sep2 self).

Definition DefaultConversation_set_system_message (self : DefaultConversation) (m : string)
    : DefaultConversation :=
  mkConversation (dc_name self) m (dc_system_template self) (dc_messages self)
    (dc_offset self) (dc_sep_style self) (dc_stop_criteria self) (dc_stop_token_ids self)
    (dc_roles self) (dc_sep self) (dc_sep2 self).

Definition DefaultConversation_append_message (self : DefaultConversation) (role message : string)
    : DefaultConversation :=
  with_messages self (dc_messages self ++ [mkMessage role (Some message)]).

Definition DefaultConversation_append_none_message (self : DefaultConversation) (role : string)
    : DefaultConversation :=
  with_messages self (dc_messages self ++ [mkMessage role None]).

Definition DefaultConversation_update_last_message (self : DefaultConversation)
    : option DefaultConversation :=
  match vec_pop (dc_messages self) with
  | Some (m, init) => Some (with_messages self (init ++ [mkMessage (msg_role m) None]))
  | None => None
  end.

Definition DefaultConversation_get_roles (self : DefaultConversation) : string * string :=
  dc_roles self.

(** [seps[i % 2]] and [roles[i % 2]] *)
Definition nth2 (i : nat) (a b : string) : string := if i mod 2 =? 0 then a else b.

(** The loops over the messages: [accum], with what each turn appends. *)
Definition fold_messages (turn : nat → Message → string) (accum : string) (l : list Message)
    : string := foldl (λ accum im, accum +:+ turn im.1 im.2) accum (imap pair l).

(** One turn [i] of the loop of each style: what it appends for a message. *)
Definition AddColonSingle_turn (self : DefaultConversation) (_ : nat) (m : Message) : string :=
  let sep := dc_sep self in
  let role := msg_role m in
  match msg_text m with
  | Some message => role +:+ ": " +:+ message +:+ sep
  | None => role +:+ ":"
  end.

Definition AddColonTwo_turn (self : DefaultConversation) (i : nat) (m : Message) : string :=
  let seps := nth2 i (dc_sep self) (default "" (dc_sep2 self)) in
  let role := msg_role m in
  match msg_text m with
  | Some message => role +:+ ": " +:+ message +:+ seps
  | None => role +:+ ":"
  end.

Definition AddColonSpaceSingle_turn (self : DefaultConversation) (_ : nat) (m : Message) : string :=
  let sep := dc_sep self in
  let role := msg_role m in
  match msg_text m with
  | Some message => role +:+ ": " +:+ message +:+ sep
  | None => role +:+ ": "
  end.

Definition AddNewLineSingle_turn (self : DefaultConversation) (_ : nat) (m : Message) : string :=
  let sep := dc_sep self in
  let role := msg_role m in
  match msg_text m with
  | Some message => role +:+ nl +:+ message +:+ sep
  | None => role +:+ nl
  end.

Definition NoColonSingle_turn (self : DefaultConversation) (_ : nat) (m : Message) : string :=
  let sep := dc_sep self in
  let role := msg_role m in
  match msg_text m with
  | Some message => role +:+ message +:+ sep
  | None => role
  end.

Definition NoColonTwo_turn (self : DefaultConversation) (i : nat) (m : Message) : string :=
  let seps := nth2 i (dc_sep self) (default "" (dc_sep2 self)) in
  let role := msg_role m in
  match msg_text m with
  | Some message => role +:+ message +:+ seps
  | None => role
  end.

Definition RWKV_turn (_ : DefaultConversation) (_ : nat) (m : Message) : string :=
  let role := msg_role m in
  match msg_text m with
  | Some message =>
      role +:+ ": " +:+ str_replace (str_replace message crnl nl) nlnl nl +:+ nlnl
  | None => role +:+ ":"
  end.

Definition Llama2_turn (self : DefaultConversation) (i : nat) (m : Message) : string :=
  let seps := nth2 i (dc_sep self) (default "" (dc_sep2 self)) in
  let tag := nth2 i (dc_roles self).1 (dc_roles self).2 in
  match msg_text m with
  | Some message => if i =? 0 then message +:+ " " else tag +:+ " " +:+ message +:+ seps
  | None => tag
  end.

Definition ChatGLM_turn (self : DefaultConversation) (i : nat) (m : Message) : string :=
  let sep := dc_sep self in
  let role := msg_role m in
  let round_add_n := if bool_decide (dc_name self = "chatglm2") then 1 else 0 in
  (if i mod 2 =? 0 then "[Round " +:+ pretty (i / 2 + round_add_n) +:+ "]" +:+ sep else "") +:+
  match msg_text m with
  | Some message => role +:+ ": " +:+ message +:+ sep
  | None => role +:+ ": "
  end.

Definition ChatML_turn (self : DefaultConversation) (_ : nat) (m : Message) : string :=
  let sep := dc_sep self in
  let role := msg_role m in
  match msg_text m with
  | Some message => role +:+ nl +:+ message +:+ sep +:+ nl
  | None => role +:+ nl
  end.

Definition ChatIntern_turn (self : DefaultConversation) (i : nat) (m : Message) : string :=
  let seps := nth2 i (dc_sep self) (default "" (dc_sep2 self)) in
  let role := msg_role m in
  (if i mod 2 =? 0 then "<s>" else "") +:+
  match msg_text m with
  | Some message => role +:+ ":" +:+ message +:+ seps +:+ nl
  | None => role +:+ ":"
  end.

Definition Dolly_turn (self : DefaultConversation) (i : nat) (m : Message) : string :=
  let seps := nth2 i (dc_sep self) (default "" (dc_sep2 self)) in
  let role := msg_role m in
  match msg_text m with
  | Some message => role +:+ ":" +:+ nl +:+ message +:+ seps +:+
                    (if i mod 2 =? 1 then nlnl else "")
  | None => role +:+ ":" +:+ nl
  end.

Definition Phoenix_turn (_ : DefaultConversation) (_ : nat) (m : Message) : string :=
  let role := msg_role m in
  match msg_text m with
  | Some message => role +:+ ": <s>" +:+ message +:+ "</s>"
  | None => role +:+ ": <s>"
  end.

Definition Robin_turn (self : DefaultConversation) (_ : nat) (m : Message) : string :=
  let sep := dc_sep self in
  let role := msg_role m in
  match msg_text m with
  | Some message => role +:+ ":" +:+ nl +:+ message +:+ sep
  | None => role +:+ ":" +:+ nl
  end.

Definition FalconChat_turn (self : DefaultConversation) (_ : nat) (m : Message) : string :=
  let sep := dc_sep self in
  let role := msg_role m in
  match msg_text m with
  | Some message => role +:+ ": " +:+ message +:+ sep
  | None => role +:+ ":"
  end.

Definition style_turn (self : DefaultConversation) : nat → Message → string :=
  match dc_sep_style self with
  | AddColonSingle => AddColonSingle_turn self
  | AddColonTwo => AddColonTwo_turn self
  | AddColonSpaceSingle => AddColonSpaceSingle_turn self
  | AddNewLineSingle => AddNewLineSingle_turn self
  | NoColonSingle => NoColonSingle_turn self
  | NoColonTwo => NoColonTwo_turn self
  | RWKV => RWKV_turn self
  | Llama2 => Llama2_turn self
  | ChatGLM => ChatGLM_turn self
  | ChatML => ChatML_turn self
  | ChatIntern => ChatIntern_turn self
  | Dolly => Dolly_turn self
  | Phoenix => Phoenix_turn self
  | Robin => Robin_turn self
  | FalconChat => FalconChat_turn self
  end.

(** What a style puts before the messages. *)
Definition style_start (self : DefaultConversation) (system_prompt : string) : string :=
  let sep := dc_sep self in
  match dc_sep_style self with
  | AddColonSingle | AddColonTwo | AddColonSpaceSingle | RWKV | Phoenix | Robin =>
      system_prompt +:+ sep
  | AddNewLineSingle => if is_empty system_prompt then "" else system_prompt +:+ sep
  | NoColonSingle | NoColonTwo | ChatIntern | Dolly => system_prompt
  | Llama2 => if negb (is_empty system_prompt) then system_prompt else "[INST] "
  | ChatGLM => if negb (is_empty system_prompt) then system_prompt else ""
  | ChatML => if negb (is_empty system_prompt) then system_prompt +:+ sep +:+ nl else ""
  | FalconChat => if negb (is_empty system_prompt) then system_prompt +:+ sep else ""
  end.

Definition DefaultConversation_get_prompt `{DynFormat} (self : DefaultConversation) : string :=
  let system_prompt := dyn_format (dc_system_template self) [dc_system_message self] in
  fold_messages (style_turn self) (style_start self system_prompt) (dc_messages self).

#[export] Instance DefaultConversation_Conversation `{DynFormat} :
  Conversation DefaultConversation := {
  set_system_message := DefaultConversation_set_system_message;
  append_message := DefaultConversation_append_message;
  append_none_message := DefaultConversation_append_none_message;
  update_last_message := DefaultConversation_update_last_message;
  get_roles := DefaultConversation_get_roles;
  get_prompt := DefaultConversation_get_prompt;
}.

(** ** Lemmas *)

Lemma string_cons_app x (a b : string) : String x a +:+ b = String x (a +:+ b).
Proof. reflexivity. Qed.

Lemma string_app_assoc (a b c : string) : (a +:+ b) +:+ c = a +:+ (b +:+ c).
Proof. induction a as [|x a IH]; [done |]. by rewrite !string_cons_app, IH. Qed.

Lemma string_app_nil_r (a : string) : a +:+ "" = a.
Proof. induction a as [|x a IH]; [done |]. by rewrite string_cons_app, IH. Qed.

Lemma fold_messages_snoc turn accum l m :
  fold_messages turn accum (l ++ [m]) = fold_messages turn accum l +:+ turn (length l) m.
Proof. unfold fold_messages. rewrite imap_app, foldl_app. simpl. by rewrite Nat.add_0_r. Qed.

Lemma fold_messages_ext turn turn' accum l :
  (∀ i m, l !! i = Some m → turn i m = turn' i m) →
  fold_messages turn accum l = fold_messages turn' accum l.
Proof.
  induction l as [|m l IH] using rev_ind; intros Ht; [done |].
  rewrite !fold_messages_snoc, IH.
  - rewrite (Ht (length l) m); [done |]. by apply list_lookup_middle.
  - intros i m' Hi. apply Ht. by apply lookup_app_l_Some.
Qed.

(** ** Properties *)

Section ConversationProperties.
  Context `{DynFormat}.

  (** In every one of the fifteen styles, a message appended to a conversation
      appends its own turn to the prompt and changes nothing before it. *)
Theorem prompt_grows_by_turns (c : DefaultConversation) r (m : option string) :
    DefaultConversation_get_prompt (with_messages c (dc_messages c ++ [mkMessage r m])) =
    DefaultConversation_get_prompt c +:+ style_turn c (length (dc_messages c)) (mkMessage r m).
  Proof. unfold DefaultConversation_get_prompt. simpl. by rewrite fold_messages_snoc. Qed.

  (** The Llama-2 style does not look at the roles of the messages: whoever
      said them, they are tagged by their position, the first not at all. *)
Lemma llama2_ignores_roles (c : DefaultConversation) (l l' : list Message) :
    dc_sep_style c = Llama2 → msg_text <$> l = msg_text <$> l' →
    DefaultConversation_get_prompt (with_messages c l) =
    DefaultConversation_get_prompt (with_messages c l').
  Proof.
    intros Hst Hl. unfold DefaultConversation_get_prompt, fold_messages. simpl.
    unfold style_start, style_turn. simpl. rewrite Hst. unfold Llama2_turn. simpl.
    generalize (if negb (is_empty (dyn_format (dc_system_template c) [dc_system_message c]))
                then dyn_format (dc_system_template c) [dc_system_message c] else "[INST] ").
    revert l' Hl. induction l as [|m l IH] using rev_ind; intros l' Hl s.
    - destruct l'; [done | discriminate].
    - destruct l' as [|m' l' _] using rev_ind; [by destruct l |].
      rewrite !fmap_app in Hl. apply app_inj_2 in Hl as [Hl [= Hm]]; [| done].
      assert (Hlen : length l = length l')
        by (apply (f_equal length) in Hl; by rewrite !length_fmap in Hl).
      rewrite !imap_app, !foldl_app. simpl. rewrite (IH l') by done. by rewrite Hm, Hlen.
  Qed.

End ConversationProperties.

(** The default conversation keeps the laws of the trait. *)
#[export] Instance DefaultConversation_laws `{DynFormat} : ConversationLaws DefaultConversation.
Proof.
  split; try done; intros c r; intros; eexists; unfold get_prompt; simpl;
    unfold DefaultConversation_get_prompt; simpl; by rewrite fold_messages_snoc.
Qed.

(** *** Witnesses *)

Section ConversationExamples.

  (** The placeholder replaced by the first argument. *)
Definition plain_format : DynFormat :=
    {| dyn_format template args := str_replace template "{}" (default "" (head args)) |}.

  #[local] Existing Instance plain_format.

  (** The conversation of the Llama pipeline. *)
Definition llama_conversation : DefaultConversation :=
    DefaultConversation_new "llama-2"
      ("[INST] <<SYS>>" +:+ nl +:+ "{}" +:+ nl +:+ "<</SYS>>" +:+ nlnl) [] 0 Llama2 "" []
      ("[INST]", "[/INST]") {| seps_sep := " "; seps_sep2 := Some " </s></s>" |}.

End ConversationExamples.
