(* ===== verification/Server.v ===== *)
(** * The server: from a request to a prompt of admissible length

    [src/openai/openai_server.rs], the part before the engine: the model name,
    the prompt (through the [Conversation] interface) and the length check. *)

From Stdlib Require Import ZArith SpecFloat Lia.
From stdpp Require Import base gmap sets strings pretty countable list.
From S2P Require Import Prelude Machine Api Conversation.

#[local] Open Scope Z_scope.

(** ** Operations *)

Definition verify_model (current_name model_name : string) : result unit :=
  if negb (bool_decide (current_name = model_name))
  then Err (APIError_new ("Model name `" +:+ model_name +:+ "` is invalid."))
  else Ok tt.

Section GenPrompt.
  Context {C : Type} `{Conversation C}.

  (** One turn of the loop over the messages. *)
Definition gen_message (conversation : C) (message : gmap string string) : result C :=
    match message !! "role" with
    | None => Err (APIError_new "Message key `role` not found.")
    | Some role =>
        match message !! "content" with
        | None => Err (APIError_new "Message key `content` not found.")
        | Some content =>
            if bool_decide (role = "system") then Ok (set_system_message conversation content)
            else if bool_decide (role = "user")
            then Ok (append_message conversation (get_roles conversation).1 content)
            else if bool_decide (role = "assistant")
            then Ok (append_message conversation (get_roles conversation).2 content)
            else Err (APIError_new ("Unknown role: " +:+ role))
        end
    end.

  (** The loop: an error leaves what was appended before it in place. *)
Fixpoint gen_messages (conversation : C) (messages : list (gmap string string))
    : C * result unit :=
    match messages with
    | [] => (conversation, Ok tt)
    | message :: messages =>
        match gen_message conversation message with
        | Ok conversation => gen_messages conversation messages
        | Err e => (conversation, Err e)
        end
    end.

  (** The conversation is the one of the pipeline, shared by all requests. *)
Definition get_gen_prompt (conversation : C) (messages : Messages) : C * result string :=
    match messages with
    | Messages_Literal msg => (conversation, Ok msg)
    | Messages_Map messages =>
        match gen_messages conversation messages with
        | (conversation, Err e) => (conversation, Err e)
        | (conversation, Ok _) =>
            let conversation := append_none_message conversation (get_roles conversation).2 in
            (conversation, Ok (get_prompt conversation))
        end
    end.

End GenPrompt.

Section CheckLength.
  (** [Tokenizer::encode], of the [tokenizers] package; an [Encoding] is the
      list of its ids. *)
  Context (tokenize : string → result (list nat)).

  (** [checks]: whether [usize] arithmetic is checked (debug) or wraps
      (release).  [None] is a panic. *)
Definition check_length (checks : bool) (request_max_tokens : option Z) (prompt : string)
    (max_model_len : Z) : fallible (list nat) :=
    match tokenize prompt with
    | Err e => Some (Err e)
    | Ok token_ids =>
        let len := Z.of_nat (length token_ids) in
        match match request_max_tokens with
              | Some max_toks => Some max_toks
              | None => usize_sub checks max_model_len len
              end with
        | None => None
        | Some max_tokens =>
            match usize_add checks len max_tokens with
            | None => None
            | Some total =>
                if max_model_len <? total then
                  Some (Err (APIError_new
                    ("This model's maximum context length is " +:+ pretty max_model_len +:+
                     " tokens. However, you requested " +:+
                     pretty (usize_wrap (max_tokens + len)) +:+ " tokens (" +:+ pretty len +:+
                     " in the messages, " +:+ pretty max_tokens +:+
                     " in the completion). Please reduce the length of the messages or completion.")))
                else Some (Ok token_ids)
            end
        end
    end.

End CheckLength.

(** ** Lemmas *)

Lemma usize_sub_in_range checks a b : b ≤ a → usize_sub checks a b = Some (a - b).
Proof. intros Hle. unfold usize_sub. by rewrite (proj2 (Z.leb_le _ _) Hle). Qed.

Lemma usize_add_in_range checks a b : a + b < usize_modulus → usize_add checks a b = Some (a + b).
Proof. intros Hlt. unfold usize_add. by rewrite (proj2 (Z.ltb_lt _ _) Hlt). Qed.

Lemma usize_wrap_below z : 0 ≤ z < usize_modulus → usize_wrap z = z.
Proof. apply Z.mod_small. Qed.

(** Subtraction that wraps, added back: the two errors cancel. *)
Lemma usize_sub_add_cancels a b :
  is_usize a → is_usize b → a < b →
  ∃ d, usize_sub false a b = Some d ∧ is_usize d ∧ usize_add false b d = Some a.
Proof.
  unfold is_usize. intros Ha Hb Hlt. unfold usize_sub. rewrite (proj2 (Z.leb_gt _ _) Hlt).
  assert (E : usize_wrap (a - b) = a - b + usize_modulus).
  { unfold usize_wrap. rewrite <- (Z.mod_add (a - b) 1) by done. apply Z.mod_small. lia. }
  exists (usize_wrap (a - b)). rewrite E. split_and!; [done | lia | lia |].
  unfold usize_add. rewrite (proj2 (Z.ltb_ge _ _)) by lia.
  f_equal. unfold usize_wrap. replace (b + (a - b + usize_modulus)) with (a + 1 * usize_modulus) by lia.
  rewrite Z.mod_add by done. apply Z.mod_small. lia.
Qed.

Lemma check_length_tokens tokenize checks m prompt max_len token_ids :
  check_length tokenize checks m prompt max_len = Some (Ok token_ids) →
  tokenize prompt = Ok token_ids.
Proof.
  unfold check_length. destruct (tokenize prompt) as [l|e]; [| done].
  destruct (match m with Some _ => _ | None => _ end) as [mt|]; [| done].
  destruct (usize_add _ _ _) as [total|]; [| done].
  destruct (max_len <? total); congruence.
Qed.

Section GenPromptLemmas.
  Context {C : Type} `{ConversationLaws C}.

  (** No system message is among them. *)
Definition no_system (messages : list (gmap string string)) : Prop :=
    Forall (λ m, m !! "role" ≠ Some "system") messages.

Lemma gen_messages_extends c messages :
    no_system messages →
    ∃ s, get_prompt (gen_messages c messages).1 = get_prompt c +:+ s.
  Proof.
    intros Hns. revert c. induction Hns as [|m ms Hm _ IH]; intros c; simpl.
    - exists "". by rewrite string_app_nil_r.
    - assert (Hstep : ∀ r x, ∃ s, get_prompt (gen_messages (append_message c r x) ms).1 =
                                  get_prompt c +:+ s).
      { intros r x. destruct (IH (append_message c r x)) as [s1 ->].
        destruct (append_extends c r x) as [s2 ->]. exists (s2 +:+ s1). apply string_app_assoc. }
      unfold gen_message.
      destruct (m !! "role") as [role|]; [| exists ""; by rewrite string_app_nil_r].
      destruct (m !! "content") as [content|]; [| exists ""; by rewrite string_app_nil_r].
      rewrite (bool_decide_eq_false_2 (role = "system")) by (intros ->; done).
      destruct (bool_decide (role = "user")); [apply Hstep |].
      destruct (bool_decide (role = "assistant")); [apply Hstep |].
      exists "". by rewrite string_app_nil_r.
  Qed.

Lemma get_gen_prompt_prompt c messages p :
    (get_gen_prompt c (Messages_Map messages)).2 = Ok p →
    p = get_prompt (get_gen_prompt c (Messages_Map messages)).1.
  Proof. simpl. destruct (gen_messages c messages) as [c' [|]]; simpl; congruence. Qed.

  (** The prompt of a conversation only grows, whatever the outcome. *)
Definition no_system_in (messages : Messages) : Prop :=
    match messages with
    | Messages_Literal _ => True
    | Messages_Map l => no_system l
    end.

Lemma get_gen_prompt_grows c messages :
    no_system_in messages →
    ∃ s, get_prompt (get_gen_prompt c messages).1 = get_prompt c +:+ s.
  Proof.
    destruct messages as [l|msg]; simpl; intros Hns;
      [| exists ""; by rewrite string_app_nil_r].
    destruct (gen_messages_extends c l Hns) as [s1 Hs1].
    destruct (gen_messages c l) as [c' r]; simpl in *. destruct r; simpl; [| by exists s1].
    destruct (append_none_extends c' (get_roles c').2) as [s2 ->].
    rewrite Hs1. exists (s1 +:+ s2). apply string_app_assoc.
  Qed.

Lemma get_gen_prompt_extends c messages p :
    no_system messages → (get_gen_prompt c (Messages_Map messages)).2 = Ok p →
    ∃ s, p = get_prompt c +:+ s.
  Proof.
    intros Hns Hp. apply get_gen_prompt_prompt in Hp as ->.
    by apply (get_gen_prompt_grows c (Messages_Map messages)).
  Qed.

End GenPromptLemmas.

(** ** Properties *)

Section ServerProperties.
  Context {C : Type} `{ConversationLaws C}.
  Context (tokenize : string → result (list nat)).

  (** Requests leak into one another.  The conversation belongs to the
      pipeline and is never cleared: the prompt of a later request without a
      system message starts with the whole prompt of the request before it,
      whoever sent that one. *)
Theorem later_prompt_starts_with_earlier c messages1 messages2 p1 p2 :
    no_system messages2 →
    (get_gen_prompt c (Messages_Map messages1)).2 = Ok p1 →
    (get_gen_prompt (get_gen_prompt c (Messages_Map messages1)).1 (Messages_Map messages2)).2 = Ok p2 →
    ∃ s, p2 = p1 +:+ s.
  Proof.
    intros Hns Hp1 Hp2. apply get_gen_prompt_prompt in Hp1 as ->.
    by eapply get_gen_prompt_extends.
  Qed.

  (** C17: the length check, within the range of [usize]: an explicit [max_tokens]
      is accepted exactly when prompt and completion fit the model together; a
      missing one stands for all that is left and is always accepted. *)
Theorem check_length_in_range checks max_tokens prompt token_ids max_model_len :
    tokenize prompt = Ok token_ids → is_usize max_model_len →
    match max_tokens with
    | Some m => 0 ≤ m ∧ Z.of_nat (length token_ids) + m < usize_modulus
    | None => Z.of_nat (length token_ids) ≤ max_model_len
    end →
    ∃ r, check_length tokenize checks max_tokens prompt max_model_len = Some r ∧
      (∀ t, r = Ok t → t = token_ids) ∧
      (is_ok r = true ↔
       Z.of_nat (length token_ids) + default 0 max_tokens ≤ max_model_len).
  Proof.
    intros Htok Hmax Hr. unfold check_length. rewrite Htok. unfold is_usize in Hmax.
    destruct max_tokens as [m|]; simpl.
    - destruct Hr as [Hm Hlt]. rewrite usize_add_in_range by done.
      destruct (Z.ltb_spec max_model_len (Z.of_nat (length token_ids) + m)); simpl;
        eexists; (split; [done |]); split; [by intros | split; [done | lia] | congruence | done].
    - rewrite usize_sub_in_range by done. rewrite usize_add_in_range by lia.
      rewrite (proj2 (Z.ltb_ge _ _)) by lia. eexists. split; [done |].
      split; [congruence |]. split; [lia | done].
  Qed.

  (** A prompt longer than the model's context, without [max_tokens]: with
      overflow checks the request panics; in a release build the two wrap-arounds
      cancel and the prompt is accepted. *)
Theorem overlong_prompt prompt token_ids max_model_len :
    tokenize prompt = Ok token_ids → is_usize max_model_len →
    is_usize (Z.of_nat (length token_ids)) → max_model_len < Z.of_nat (length token_ids) →
    check_length tokenize true None prompt max_model_len = None ∧
    check_length tokenize false None prompt max_model_len = Some (Ok token_ids).
  Proof.
    intros Htok Hmax Hlen Hlt. unfold check_length. rewrite Htok. split.
    - unfold usize_sub. by rewrite (proj2 (Z.leb_gt _ _) Hlt).
    - destruct (usize_sub_add_cancels _ _ Hmax Hlen Hlt) as (d & -> & _ & ->).
      by rewrite Z.ltb_irrefl.
  Qed.

  (** So does an explicit [max_tokens] so large that the sum wraps: a release
      build accepts it if what remains fits. *)
Theorem huge_max_tokens_accepted prompt token_ids max_model_len m :
    tokenize prompt = Ok token_ids → is_usize m →
    usize_modulus ≤ Z.of_nat (length token_ids) + m →
    Z.of_nat (length token_ids) + m - usize_modulus ≤ max_model_len →
    is_usize (Z.of_nat (length token_ids)) →
    check_length tokenize false (Some m) prompt max_model_len = Some (Ok token_ids) ∧
    check_length tokenize true (Some m) prompt max_model_len = None.
  Proof.
    unfold is_usize. intros Htok Hm Hge Hle Hlen. unfold check_length. rewrite Htok.
    unfold usize_add. rewrite (proj2 (Z.ltb_ge _ _) Hge). split; [| done].
    assert (E : usize_wrap (Z.of_nat (length token_ids) + m) =
                Z.of_nat (length token_ids) + m - usize_modulus).
    { unfold usize_wrap.
      replace (Z.of_nat (length token_ids) + m)
        with (Z.of_nat (length token_ids) + m - usize_modulus + 1 * usize_modulus) at 1 by lia.
      rewrite Z.mod_add by done. apply Z.mod_small. lia. }
    rewrite E. by rewrite (proj2 (Z.ltb_ge _ _) Hle).
  Qed.

End ServerProperties.

(** *** Witnesses *)

Section ServerExamples.

  #[local] Existing Instance plain_format.

Definition user_message (content : string) : gmap string string :=
    {[ "role" := "user"; "content" := content ]}.

Lemma later_prompt_starts_with_earlier_witness :
    ∃ p1 p2 s,
      (get_gen_prompt llama_conversation (Messages_Map [user_message "my secret"])).2 = Ok p1 ∧
      (get_gen_prompt (get_gen_prompt llama_conversation
         (Messages_Map [user_message "my secret"])).1 (Messages_Map [user_message "hello"])).2 = Ok p2 ∧
      p2 = p1 +:+ s.
  Proof.
    eexists _, _. destruct (later_prompt_starts_with_earlier llama_conversation
      [user_message "my secret"] [user_message "hello"] _ _
      ltac:(apply Forall_singleton; vm_compute; congruence) eq_refl eq_refl) as [s E].
    exists s. split; [reflexivity | split; [reflexivity | exact E]].
  Defined.

  (** One token per character. *)
Definition char_tokens (s : string) : result (list nat) := Ok (replicate (String.length s) 0%nat).

Lemma check_length_in_range_witness :
    ∃ r, check_length char_tokens true (Some 16) "hello" 4096 = Some r ∧ is_ok r = true.
  Proof.
    destruct (check_length_in_range char_tokens true (Some 16) "hello" _ 4096 eq_refl
      ltac:(vm_compute; split; congruence) ltac:(vm_compute; split; congruence))
      as (r & E & _ & Hok).
    exists r. split; [exact E |]. apply Hok. vm_compute. congruence.
  Defined.

Lemma overlong_prompt_witness :
    check_length char_tokens true None "hello" 4 = None ∧
    check_length char_tokens false None "hello" 4 = Some (Ok [0; 0; 0; 0; 0]%nat).
  Proof.
    apply (overlong_prompt char_tokens "hello" _ 4); [reflexivity | ..];
      vm_compute; try split; congruence.
  Defined.

Lemma huge_max_tokens_accepted_witness :
    check_length char_tokens false (Some (2 ^ 64 - 1)) "hello" 4096 =
      Some (Ok [0; 0; 0; 0; 0]%nat) ∧
    check_length char_tokens true (Some (2 ^ 64 - 1)) "hello" 4096 = None.
  Proof.
    apply (huge_max_tokens_accepted char_tokens "hello"); [reflexivity | ..];
      vm_compute; try split; congruence.
  Defined.

End ServerExamples.
