(* ===== verification/Dialogue.v ===== *)
(** * The prompt of a dialogue

    [get_gen_prompt] of [src/openai/openai_server.rs] on the conversation that the
    loader of [src/openai/pipelines/llama.rs] gives the Llama pipeline: the text a
    dialogue becomes, as a function of the dialogue alone.  It is the text of this
    code, not the format of the model: the separator [ </s></s>] closes every answer
    twice, and no exchange after the first is opened with [<s>]. *)

From Stdlib Require Import ZArith SpecFloat Lia.
From stdpp Require Import base gmap sets strings pretty countable list.
From S2P Require Import Prelude Machine Api Conversation Server.

(** ** Dialogues and their text *)

(** A message of a request. *)
Definition chat_message (role content : string) : gmap string string :=
  {["role" := role; "content" := content]}.

(** A dialogue: a system message or none, exchanges of the user and the assistant,
    and the question of the user that is to be answered. *)
Definition dialogue (system : option string) (exchanges : list (string * string))
    (question : string) : list (gmap string string) :=
  match system with Some s => [chat_message "system" s] | None => [] end ++
  concat ((λ x, [chat_message "user" x.1; chat_message "assistant" x.2]) <$> exchanges) ++
  [chat_message "user" question].

(** What the user's turn is opened with: nothing at the start of the prompt, where
    the system prompt has opened it. *)
Definition opening (first : bool) : string := if first then "" else "[INST] ".

(** The text this code makes of the exchanges and the question. *)
Fixpoint dialogue_text (first : bool) (exchanges : list (string * string)) (question : string)
    : string :=
  match exchanges with
  | [] => opening first +:+ question +:+ " [/INST]"
  | (user, assistant) :: exchanges =>
      opening first +:+ user +:+ " [/INST] " +:+ assistant +:+ " </s></s>" +:+
      dialogue_text false exchanges question
  end.

(** A conversation with the style, roles and separators of the Llama pipeline, and an
    even number of messages: at its start, or after a dialogue.  A request that ends
    with an error, or whose roles do not alternate, can leave it elsewhere. *)
Record between_exchanges (c : DefaultConversation) : Prop := {
  be_style : dc_sep_style c = Llama2;
  be_roles : dc_roles c = ("[INST]", "[/INST]");
  be_sep : dc_sep c = " ";
  be_sep2 : dc_sep2 c = Some " </s></s>";
  be_even : Nat.Even (length (dc_messages c));
}.

Definition is_nil {A} (l : list A) : bool := match l with [] => true | _ => false end.

(** ** Lemmas *)

Section DialogueLemmas.
  Context `{DynFormat}.
  Implicit Types c : DefaultConversation.

Lemma get_prompt_append c m :
    DefaultConversation_get_prompt (with_messages c (dc_messages c ++ [m])) =
    DefaultConversation_get_prompt c +:+ style_turn c (length (dc_messages c)) m.
  Proof. unfold DefaultConversation_get_prompt. simpl. by rewrite fold_messages_snoc. Qed.

Lemma gen_messages_app c l1 l2 c' :
    gen_messages c l1 = (c', Ok tt) → gen_messages c (l1 ++ l2) = gen_messages c' l2.
  Proof.
    revert c. induction l1 as [|m l1 IH]; simpl; intros c E; [by injection E as -> |].
    destruct (gen_message c m); [by apply IH | done].
  Qed.

  (** What a turn of each side appends. *)
Lemma even_turn c role text :
    between_exchanges c →
    style_turn c (length (dc_messages c)) (mkMessage role (Some text)) =
    opening (is_nil (dc_messages c)) +:+ text +:+ " ".
  Proof.
    intros [Hst Hr Hs Hs2 [k Hk]]. unfold style_turn. rewrite Hst. unfold Llama2_turn. simpl.
    rewrite Hr, Hs, Hk. unfold nth2.
    rewrite (Nat.mul_comm 2 k), Nat.Div0.mod_mul. simpl.
    destruct (dc_messages c) as [|m l]; simpl in *.
    - by destruct k; [| lia].
    - destruct k; [lia |]. simpl. done.
  Qed.

Lemma odd_turn c k m :
    dc_sep_style c = Llama2 → dc_roles c = ("[INST]", "[/INST]") →
    dc_sep2 c = Some " </s></s>" →
    style_turn c (2 * k + 1) m =
    match msg_text m with
    | Some text => "[/INST] " +:+ text +:+ " </s></s>"
    | None => "[/INST]"
    end.
  Proof.
    intros Hst Hr Hs2. unfold style_turn. rewrite Hst. unfold Llama2_turn, nth2.
    rewrite Hr, Hs2. assert ((2 * k + 1) mod 2 = 1) as ->.
    { rewrite Nat.add_comm, (Nat.mul_comm 2), Nat.Div0.mod_add. done. }
    rewrite (proj2 (Nat.eqb_neq (2 * k + 1) 0)) by lia. simpl. by destruct (msg_text m).
  Qed.

  (** One message of each side. *)
Lemma gen_user c content :
    dc_roles c = ("[INST]", "[/INST]") →
    gen_message c (chat_message "user" content) =
    Ok (with_messages c (dc_messages c ++ [mkMessage "[INST]" (Some content)])).
  Proof.
    intros Hr. unfold gen_message, chat_message. rewrite lookup_insert_eq.
    rewrite lookup_insert_ne, lookup_singleton_eq by done. simpl.
    unfold DefaultConversation_append_message, DefaultConversation_get_roles. by rewrite Hr.
  Qed.

Lemma gen_assistant c content :
    dc_roles c = ("[INST]", "[/INST]") →
    gen_message c (chat_message "assistant" content) =
    Ok (with_messages c (dc_messages c ++ [mkMessage "[/INST]" (Some content)])).
  Proof.
    intros Hr. unfold gen_message, chat_message. rewrite lookup_insert_eq.
    rewrite lookup_insert_ne, lookup_singleton_eq by done. simpl.
    unfold DefaultConversation_append_message, DefaultConversation_get_roles. by rewrite Hr.
  Qed.

  (** Two more messages, the second of the assistant. *)
Lemma two_messages c text m :
    between_exchanges c →
    let c1 := with_messages c (dc_messages c ++ [mkMessage "[INST]" (Some text)]) in
    let c2 := with_messages c1 (dc_messages c1 ++ [mkMessage "[/INST]" m]) in
    between_exchanges c2 ∧ is_nil (dc_messages c2) = false ∧
    DefaultConversation_get_prompt c2 =
      DefaultConversation_get_prompt c +:+ opening (is_nil (dc_messages c)) +:+ text +:+ " " +:+
      match m with Some a => "[/INST] " +:+ a +:+ " </s></s>" | None => "[/INST]" end.
  Proof.
    intros Hc c1 c2. pose proof Hc as [Hst Hr Hs Hs2 [k Hk]].
    assert (Hl : length (dc_messages c1) = 2 * k + 1)
      by (simpl; rewrite length_app; simpl; lia).
    split_and!.
    - split; try done. exists (k + 1). simpl. rewrite !length_app. simpl. lia.
    - simpl. by destruct (dc_messages c).
    - unfold c2. rewrite get_prompt_append, Hl, (odd_turn c1 k) by done.
      unfold c1. rewrite get_prompt_append, even_turn by done.
      by rewrite !string_app_assoc.
  Qed.

Lemma exchange_step c user assistant :
    between_exchanges c →
    ∃ c', gen_messages c [chat_message "user" user; chat_message "assistant" assistant] = (c', Ok tt) ∧
      between_exchanges c' ∧ is_nil (dc_messages c') = false ∧
      DefaultConversation_get_prompt c' =
        DefaultConversation_get_prompt c +:+ opening (is_nil (dc_messages c)) +:+ user +:+
        " [/INST] " +:+ assistant +:+ " </s></s>".
  Proof.
    intros Hc. destruct (two_messages c user (Some assistant) Hc) as (Hc' & Hn & Hp).
    eexists. split; [| done]. cbn [gen_messages].
    rewrite gen_user by apply Hc. by rewrite gen_assistant by apply Hc.
  Qed.

Lemma question_step c question :
    between_exchanges c →
    ∃ c', get_gen_prompt c (Messages_Map [chat_message "user" question]) =
        (c', Ok (DefaultConversation_get_prompt c')) ∧
      between_exchanges c' ∧ is_nil (dc_messages c') = false ∧
      DefaultConversation_get_prompt c' =
        DefaultConversation_get_prompt c +:+ opening (is_nil (dc_messages c)) +:+ question +:+
        " [/INST]".
  Proof.
    intros Hc. destruct (two_messages c question None Hc) as (Hc' & Hn & Hp).
    eexists. split; [| done]. unfold get_gen_prompt. cbn [gen_messages].
    rewrite gen_user by apply Hc. simpl. unfold DefaultConversation_append_none_message,
      DefaultConversation_get_roles. simpl. by rewrite (be_roles _ Hc).
  Qed.

Lemma get_gen_prompt_app c l1 l2 c' :
    gen_messages c l1 = (c', Ok tt) →
    get_gen_prompt c (Messages_Map (l1 ++ l2)) = get_gen_prompt c' (Messages_Map l2).
  Proof. intros E. unfold get_gen_prompt. by rewrite (gen_messages_app _ _ l2 _ E). Qed.

Lemma dialogue_step c exchanges question :
    between_exchanges c →
    ∃ c', get_gen_prompt c (Messages_Map (dialogue None exchanges question)) =
        (c', Ok (DefaultConversation_get_prompt c')) ∧
      between_exchanges c' ∧ is_nil (dc_messages c') = false ∧
      DefaultConversation_get_prompt c' =
        DefaultConversation_get_prompt c +:+
        dialogue_text (is_nil (dc_messages c)) exchanges question.
  Proof.
    unfold dialogue. simpl. revert c.
    induction exchanges as [|[user assistant] exchanges IH]; intros c Hc.
    - by apply question_step.
    - destruct (exchange_step c user assistant Hc) as (c1 & E1 & Hc1 & Hn1 & Hp1).
      destruct (IH c1 Hc1) as (c2 & E2 & Hc2 & Hn2 & Hp2).
      exists c2. split_and!; [| done | done |].
      + change (get_gen_prompt c (Messages_Map ([chat_message "user" user;
          chat_message "assistant" assistant] ++
          (concat ((λ x, [chat_message "user" x.1; chat_message "assistant" x.2]) <$> exchanges) ++
           [chat_message "user" question]))) = (c2, Ok (DefaultConversation_get_prompt c2))).
        by rewrite (get_gen_prompt_app _ _ _ _ E1).
      + rewrite Hp2, Hp1, Hn1. simpl. by rewrite !string_app_assoc.
  Qed.

Lemma system_step c s :
    gen_messages c [chat_message "system" s] = (DefaultConversation_set_system_message c s, Ok tt).
  Proof.
    simpl. unfold gen_message, chat_message. rewrite lookup_insert_eq.
    by rewrite lookup_insert_ne, lookup_singleton_eq by done.
  Qed.

End DialogueLemmas.

(** ** Properties *)

Section DialogueProperties.
  Context `{DynFormat}.

  (** The conversation a request starts from, with the system message of the request
      if it has one. *)
Definition with_system (c : DefaultConversation) (system : option string) : DefaultConversation :=
    match system with
    | Some s => DefaultConversation_set_system_message c s
    | None => c
    end.

  (** C28: the prompt of a dialogue in closed form.  On a conversation of the Llama
      pipeline that is between two exchanges, as it is when it is fresh and after every
      request that was such a dialogue, the messages of a dialogue are accepted; the
      prompt is the text of the conversation so far, with the system message of the
      request if it has one, followed by [dialogue_text] of the dialogue; and the
      conversation is then between two exchanges again. *)
Theorem dialogue_prompt c system exchanges question :
    between_exchanges c →
    ∃ c', get_gen_prompt c (Messages_Map (dialogue system exchanges question)) =
        (c', Ok (DefaultConversation_get_prompt (with_system c system) +:+
                 dialogue_text (is_nil (dc_messages c)) exchanges question)) ∧
      between_exchanges c' ∧ dc_messages c' ≠ [].
  Proof.
    intros Hc. assert (Hs : between_exchanges (with_system c system)).
    { destruct system as [s|]; [| done]. destruct Hc. by split. }
    destruct (dialogue_step _ exchanges question Hs) as (c' & E & Hc' & Hn & Hp).
    exists c'. split_and!; [| done | by destruct (dc_messages c')].
    rewrite Hp in E.
    replace (is_nil (dc_messages (with_system c system))) with (is_nil (dc_messages c)) in E
      by (by destruct system). rewrite <- E.
    destruct system as [s|]; [| done].
    exact (get_gen_prompt_app c [chat_message "system" s] (dialogue None exchanges question) _
             (system_step c s)).
  Qed.

End DialogueProperties.

(** *** Witnesses *)

Section DialogueExamples.

  #[local] Existing Instance plain_format.

Lemma llama_between_exchanges : between_exchanges llama_conversation.
  Proof. split; try done. by exists 0. Qed.

Lemma dialogue_prompt_witness :
    ∃ c', get_gen_prompt llama_conversation
        (Messages_Map (dialogue (Some "Be brief.") [("Hi", "Hello.")] "Who are you?")) =
      (c', Ok ("[INST] <<SYS>>" +:+ nl +:+ "Be brief." +:+ nl +:+ "<</SYS>>" +:+ nlnl +:+
               "Hi [/INST] Hello. </s></s>[INST] Who are you? [/INST]")).
  Proof.
    destruct (dialogue_prompt llama_conversation (Some "Be brief.") [("Hi", "Hello.")]
      "Who are you?" llama_between_exchanges) as (c' & E & _).
    exists c'. exact E.
  Defined.

End DialogueExamples.
