(* ===== verification/Engine.v ===== *)
(** * The engine

    [src/openai/pipelines/llm_engine.rs] and the padding of
    [src/openai/pipelines/mod.rs]: a request becomes a sequence group, the
    scheduled groups become the inputs of the model, and the sampled tokens go
    back to the sequences. *)

From Stdlib Require Import ZArith SpecFloat Lia.
From stdpp Require Import base gmap sets strings pretty countable list.
From S2P Require Import Prelude Machine Sequence BlockEngine CacheEngine Scheduler.
From S2P Require Import Api Candle Backend Attention Sampling Conversation.

(** ** Data *)

Section EngineData.
  Context `{LogprobsSig} `{Candle}.

Record PreparedInputs := mkPreparedInputs {
    pi_tokens : Tensor;
    pi_positions : Tensor;
    pi_metadata : InputMetadata;
  }.

  (** [TokenOrFinishReason] *)
Inductive TokenOrFinishReason :=
    | Left (logprobs : Logprobs)
    | Right (finish_reason : string).

End EngineData.

(** The trait [ModulePipeline]: the model, the tokenizer and the conversation
    behind the engine. *)
Class ModulePipeline (P C : Type) `{LogprobsSig} `{Candle} := {
  pl_forward : P → Tensor → Tensor → list KVCache → InputMetadata → St Memory (result Tensor * P);
  pl_sample : P → Tensor → SamplingParams → list (nat * seq_ptr) →
              M (result (list TokenOrFinishReason) * P);
  pl_name : P → string;
  pl_tokenize : P → string → result (list nat);
  pl_detokenize : P → list nat → result string;
  pl_conversation : P → C;
  pl_set_conversation : P → C → P;
  pl_model_config : P → ConfigLike;
  (** [None]: a panic *)
  pl_dtype : P → option DType;
}.

(** What [get_conversation], a mutable borrow, promises: what is written through it
    is what is read from it next, and nothing else of the pipeline changes. *)
Class PipelineLaws (P C : Type) `{ModulePipeline P C} : Prop := {
  pl_conversation_set (p : P) (c : C) : pl_conversation (pl_set_conversation p c) = c;
  pl_name_set (p : P) (c : C) : pl_name (pl_set_conversation p c) = pl_name p;
  pl_tokenize_set (p : P) (c : C) : pl_tokenize (pl_set_conversation p c) = pl_tokenize p;
}.

Section Engine.
  Context `{LogprobsSig} `{HashOrder} `{Candle} {P C : Type} `{!ModulePipeline P C}.
  Context `{Conversation C}.

  (** [memory] is the device the caches live on. *)
Record LLMEngine := mkLLMEngine {
    pipeline : P;
    scheduler : Scheduler;
    next_seq_id : nat;
    cache_config : CacheConfig;
    next_group_id : nat;
    cache_engine : CacheEngine;
    sliding_window : option nat;
    memory : Memory;
  }.

Definition set_scheduler (self : LLMEngine) (s : Scheduler) : LLMEngine :=
    mkLLMEngine (pipeline self) s (next_seq_id self) (cache_config self) (next_group_id self)
      (cache_engine self) (sliding_window self) (memory self).

Definition set_memory (self : LLMEngine) (m : Memory) : LLMEngine :=
    mkLLMEngine (pipeline self) (scheduler self) (next_seq_id self) (cache_config self)
      (next_group_id self) (cache_engine self) (sliding_window self) m.

Definition set_pipeline (self : LLMEngine) (p : P) : LLMEngine :=
    mkLLMEngine p (scheduler self) (next_seq_id self) (cache_config self)
      (next_group_id self) (cache_engine self) (sliding_window self) (memory self).

  (** A call on the device, from the engine. *)
Definition on_device {A} (self : LLMEngine) (m : St Memory A) : M (A * LLMEngine) := λ w,
    match m (memory self) with
    | Done a mem => Done (a, set_memory self mem) w
    | Panic => Panic
    | Hang => Hang
    end.

Definition LLMEngine_new (pipeline : P) (scheduler_config : SchedulerConfig)
    (cache_config : CacheConfig) (mem : Memory) : M (result LLMEngine) :=
    let! dtype := st_unwrap (pl_dtype pipeline) in
    match CacheEngine_new (pl_model_config pipeline) cache_config dtype mem with
    | Done (Ok cache_engine) mem =>
        let! s := Scheduler_new scheduler_config cache_config in
        st_ret (Ok (mkLLMEngine pipeline s 0 cache_config 0 cache_engine
                      (get_sliding_window (pl_model_config pipeline)) mem))
    | Done (Err e) _ => st_ret (Err e)
    | Panic => st_panic
    | Hang => st_hang
    end.

  (** *** Inputs *)

Definition _PAD_SLOT_ID : Z := -1.

  (** One row of [_make_tensor_with_pad]. *)
Definition pad_row (max_len : nat) (pad : Z) (x_i : list Z) : M (result Tensor) :=
    let! _ := st_assert (length x_i <=? max_len) in
    let x_i := x_i ++ replicate (max_len - length x_i) pad in
    let!? dev := st_ret new_cuda_0 in
    st_ret (t_from_vec x_i dev).

Definition _make_tensor_with_pad (x : list (list Z)) (max_len : nat) (pad : Z)
    : M (result Tensor) :=
    let!? padded_x := st_try_map (pad_row max_len pad) x in
    st_ret (t_cat padded_x).

  (** [iter().max()] *)
Definition list_max (l : list nat) : option nat :=
    match l with [] => None | x :: l => Some (foldr Nat.max x l) end.

  (** The slot of position [i] in the pages [table]. *)
Definition slot_of (block_size : nat) (table : list nat) (i : nat) : M nat :=
    let! page := st_unwrap (nat_div i block_size) in
    let! block_number := st_unwrap (table !! page) in
    let block_offset := i mod block_size in
    st_ret (block_number * block_size + block_offset).

  (** [table.iter().map(|block| block.deref_mut().block_id).collect()] *)
Definition table_ids (table : list block_ptr) : M (list nat) :=
    st_map (λ p, let! b := block_read p in st_ret (block_id b)) table.

  (** [0.min(prompt_len - sliding_window)]; [checks] as in [usize_sub]. *)
Definition prompt_start_idx (checks : bool) (sliding_window : option nat) (prompt_len : nat)
    : M nat :=
    match sliding_window with
    | Some sliding_window =>
        let! d := st_unwrap (usize_sub checks (Z.of_nat prompt_len) (Z.of_nat sliding_window)) in
        st_ret (Z.to_nat (Z.min 0 d))
    | None => st_ret 0
    end.

  (** The body of the loop over the positions of a prompt. *)
Definition prompt_slot_turn (block_size start_idx : nat) (table : list nat)
    (slot_mapping : list Z) (i : nat) : M (list Z) :=
    let slot_mapping := if i <? start_idx then slot_mapping ++ [_PAD_SLOT_ID] else slot_mapping in
    let! slot := slot_of block_size table i in
    st_ret (slot_mapping ++ [Z.of_nat slot]).

Record prompt_acc := mkPromptAcc {
    pa_prompt_lens : list nat;
    pa_tokens : list (list nat);
    pa_positions : list (list nat);
    pa_slots : list (list Z);
  }.

Definition prompt_seq_turn (checks : bool) (self : LLMEngine) (acc : prompt_acc) (p : seq_ptr)
    : M prompt_acc :=
    let! prompt_ids := on_seq p (_Sequence_get_token_ids p) in
    let prompt_len := length prompt_ids in
    let prompt_lens := pa_prompt_lens acc ++ [prompt_len] in
    let tokens := pa_tokens acc ++ [prompt_ids] in
    let positions := pa_positions acc ++ [seq 0 prompt_len] in
    let! id := on_seq_pure p _Sequence_get_id in
    match block_tables (block_engine (scheduler self)) !! id with
    | None =>
        st_ret (mkPromptAcc prompt_lens tokens positions
                  (pa_slots acc ++ [replicate prompt_len _PAD_SLOT_ID]))
    | Some table =>
        let! table := table_ids table in
        let! start_idx := prompt_start_idx checks (sliding_window self) prompt_len in
        let! slot_mapping :=
          st_fold (prompt_slot_turn (cfg_block_size (cache_config self)) start_idx table) []
            (seq 0 prompt_len) in
        st_ret (mkPromptAcc prompt_lens tokens positions (pa_slots acc ++ [slot_mapping]))
    end.

  (** The sequences of the groups, in the order the loops visit them. *)
Definition group_seqs (groups : list SequenceGroup) : list seq_ptr :=
    concat ((λ g, hash_values (seqs g)) <$> groups).

Definition as_i64 (l : list (list nat)) : list (list Z) := map (map Z.of_nat) l.

Definition LLMEngine_prepare_prompt (checks : bool) (self : LLMEngine)
    (groups : list SequenceGroup) : M (result PreparedInputs) :=
    let! acc := st_fold (prompt_seq_turn checks self) (mkPromptAcc [] [] [] [])
                  (group_seqs groups) in
    let! max_prompt_len := st_unwrap (list_max (pa_prompt_lens acc)) in
    let!? input_tokens := _make_tensor_with_pad (as_i64 (pa_tokens acc)) max_prompt_len 0 in
    let!? input_positions := _make_tensor_with_pad (as_i64 (pa_positions acc)) max_prompt_len 0 in
    let!? slot_mapping := _make_tensor_with_pad (pa_slots acc) max_prompt_len _PAD_SLOT_ID in
    st_ret (Ok (mkPreparedInputs input_tokens input_positions
      (mkInputMetadata (pa_prompt_lens acc) None None None slot_mapping None true "auto"))).

Record decode_acc := mkDecodeAcc {
    da_tokens : list (list nat);
    da_positions : list (list nat);
    da_context_lens : list nat;
    da_slots : list (list nat);
    da_tables : list (list nat);
  }.

Definition decode_seq_turn (checks : bool) (self : LLMEngine) (acc : decode_acc) (p : seq_ptr)
    : M decode_acc :=
    let block_size := cfg_block_size (cache_config self) in
    let! last_token_id := on_seq p (_Sequence_get_last_token_id p) in
    let! len := on_seq p (_Sequence_get_len p) in
    let! position := st_unwrap (usize_sub checks (Z.of_nat len) 1) in
    let position := Z.to_nat position in
    let! len := on_seq p (_Sequence_get_len p) in
    let context_len := match sliding_window self with Some s => Nat.min len s | None => len end in
    let! id := on_seq_pure p _Sequence_get_id in
    let! table := st_unwrap (block_tables (block_engine (scheduler self)) !! id) in
    let! table := table_ids table in
    let! slot := slot_of block_size table position in
    let! block_table :=
      match sliding_window self with
      | Some sliding_window =>
          let! sliding_window_blocks := st_unwrap (nat_div sliding_window block_size) in
          if sliding_window_blocks <=? length table
          then st_ret (drop (length table - sliding_window_blocks) table)
          else st_panic
      | None => st_ret table
      end in
    st_ret (mkDecodeAcc (da_tokens acc ++ [[last_token_id]]) (da_positions acc ++ [[position]])
              (da_context_lens acc ++ [context_len]) (da_slots acc ++ [[slot]])
              (da_tables acc ++ [block_table])).

Definition LLMEngine_prepare_decode (checks : bool) (self : LLMEngine)
    (groups : list SequenceGroup) : M (result PreparedInputs) :=
    let! acc := st_fold (decode_seq_turn checks self) (mkDecodeAcc [] [] [] [] [])
                  (group_seqs groups) in
    let!? input_tokens := _make_tensor_with_pad (as_i64 (da_tokens acc)) 1 0 in
    let!? input_positions := _make_tensor_with_pad (as_i64 (da_positions acc)) 1 0 in
    let!? slot_mapping := _make_tensor_with_pad (as_i64 (da_slots acc)) 1 _PAD_SLOT_ID in
    let! max_context_len := st_unwrap (list_max (da_context_lens acc)) in
    let!? dev := st_ret new_cuda_0 in
    let!? context_lens := st_ret (t_from_vec (Z.of_nat <$> da_context_lens acc) dev) in
    let! max_block_table_len := st_unwrap (list_max (length <$> da_tables acc)) in
    let!? block_tables := _make_tensor_with_pad (as_i64 (da_tables acc)) max_block_table_len 0 in
    st_ret (Ok (mkPreparedInputs input_tokens input_positions
      (mkInputMetadata [] (Some max_context_len) (Some block_tables) (Some context_lens)
         slot_mapping None false "auto"))).

  (** *** Requests *)

Definition LLMEngine_execute_scheduler_ops (self : LLMEngine) (out : SchedulerOutput)
    : M (result unit * LLMEngine) :=
    on_device self (
      let!? _ := CacheEngine_swap_in (cache_engine self) (blocks_to_swap_in out) in
      let!? _ := CacheEngine_swap_out (cache_engine self) (blocks_to_swap_out out) in
      let!? _ := CacheEngine_copy (cache_engine self) (blocks_to_copy out) in
      st_ret (Ok tt)).

  (** [now] is the clock. *)
Definition LLMEngine_add_request (self : LLMEngine) (prompt : list nat) (request_id : string)
    (created now : nat) : M LLMEngine :=
    let! q := st_unwrap (_Sequence_new prompt (next_seq_id self)
                           (cfg_block_size (cache_config self))) in
    let! sq := seq_alloc q in
    let! seq_group := SequenceGroup_new [sq] now (next_group_id self) request_id created in
    st_ret (mkLLMEngine (pipeline self) (Scheduler_add_sequence (scheduler self) seq_group)
              (next_seq_id self + 1) (cache_config self) (next_group_id self + 1)
              (cache_engine self) (sliding_window self) (memory self)).

  (** *** The generation loop *)

  (** [zip(result, seqs)]: a token or a finish reason per sequence. *)
Definition apply_result (r : TokenOrFinishReason * (nat * seq_ptr)) : M unit :=
    match r.1 with
    | Left logprobs => on_seq r.2.2 (_Sequence_add_token r.2.2 logprobs)
    | Right finish_reason => on_seq r.2.2 (_Sequence_set_finish_reason r.2.2 finish_reason)
    end.

  (** [seqs.sort_by(..)] by descending cumulative log-probability; a comparison
      with a [NaN] is a panic, and a sort of at least two elements compares every
      one of them. *)
Definition f32_is_nan (x : f32) : bool := match x with S754_nan => true | _ => false end.

Fixpoint insert_by_logprob (x : f32 * seq_ptr) (l : list (f32 * seq_ptr))
    : list (f32 * seq_ptr) :=
    match l with
    | [] => [x]
    | y :: l' => if SFltb (x.1) (y.1) then y :: insert_by_logprob x l' else x :: l
    end.

Definition sort_by_logprob (l : list seq_ptr) : M (list seq_ptr) :=
    let! keyed := st_map (λ p,
      let! c := on_seq p (_Sequence_get_cumulative_logprob p) in st_ret (c, p)) l in
    if (1 <? length keyed) && existsb (λ x, f32_is_nan x.1) keyed then st_panic
    else st_ret (foldr insert_by_logprob [] keyed).*2.

  (** One choice of a response; [u32::try_from] of a token is a panic above
      [2^32 - 1].  The finish reason is read while the choice is built. *)
Definition make_choice (self : LLMEngine) (p : seq_ptr) (index : nat) : M (result ChatChoice) :=
    let! outputs := on_seq p (_Sequence_get_output_tokens p) in
    let! _ := st_assert (forallb (λ x, (Z.of_nat (token x) <? 2 ^ 32)%Z) outputs) in
    let!? data := st_ret (pl_detokenize (pipeline self) (token <$> outputs)) in
    let! reason := on_seq p (_Sequence_get_finish_reason p) in
    st_ret (Ok (mkChoice
      (mkChoiceData (Some data) (get_roles (pl_conversation (pipeline self))).1)
      (Some reason) index (Some (mkWrapperLogprobs outputs)))).

  (** [seq.deref_mut().get_len() - seq.deref_mut().get_prompt_len()]: the first
      guard lives until the end of the subtraction. *)
Definition generated_len (checks : bool) (p : seq_ptr) : M nat :=
    on_seq p (
      let! len := _Sequence_get_len p in
      on_seq p (
        let! prompt_len := _Sequence_get_prompt_len p in
        let! d := st_unwrap (usize_sub checks (Z.of_nat len) (Z.of_nat prompt_len)) in
        st_ret (Z.to_nat d))).

Definition make_usage (checks : bool) (top_n : list seq_ptr) : M ChatCompletionUsageResponse :=
    let! completion := st_map (generated_len checks) top_n in
    let! first := st_unwrap (head top_n) in
    let! prompt := on_seq first (_Sequence_get_prompt_len first) in
    let! total := st_map (generated_len checks) top_n in
    let! prompt' := on_seq first (_Sequence_get_prompt_len first) in
    st_ret (mkUsage (sum_list completion) prompt (sum_list total + prompt')).

Definition response : Type := list ChatChoice * ChatCompletionUsageResponse.

  (** The response of a finished group. *)
Definition make_response (checks : bool) (self : LLMEngine) (params : SamplingParams)
    (group : SequenceGroup) : M (result response) :=
    let! sorted := sort_by_logprob (hash_values (seqs group)) in
    let! _ := st_assert (sp_n params <=? Z.of_nat (length sorted))%Z in
    let top_n := take (Z.to_nat (sp_n params)) sorted in
    let!? choices := st_try_map (λ '(index, p), make_choice self p index) (imap pair top_n) in
    let! usage := make_usage checks top_n in
    st_ret (Ok (choices, usage)).

Definition response_turn (checks : bool) (self : LLMEngine) (params : SamplingParams)
    (responses : result (gmap nat response)) (group : SequenceGroup)
    : M (result (gmap nat response)) :=
    match responses with
    | Err e => st_ret (Err e)
    | Ok responses =>
        let! fin := SequenceGroup_is_finished group in
        if fin && negb (bool_decide (is_Some (responses !! group_id group))) then
          let!? r := make_response checks self params group in
          st_ret (Ok (<[group_id group:=r]> responses))
        else st_ret (Ok responses)
    end.

  (** One turn of [while self.scheduler.has_unfinished_sequences()]. *)
Definition generate_turn (checks : bool) (self : LLMEngine) (params : SamplingParams)
    (responses : gmap nat response) : M (result (gmap nat response) * LLMEngine) :=
    let! (out, s) := Scheduler_schedule (scheduler self) in
    let self := set_scheduler self s in
    let! _ := st_assert (match ignored_seq_groups out with [] => true | _ => false end) in
    let! (ops, self) := LLMEngine_execute_scheduler_ops self out in
    match ops with
    | Err e => st_ret (Err e, self)
    | Ok _ =>
        let scheduled := scheduled out in
        let sqs := concat ((λ g, hash_iter (seqs g)) <$> scheduled) in
        let! front := st_unwrap (head scheduled) in
        let! first := st_unwrap (head (hash_values (seqs front))) in
        let! prompt := on_seq first (_Sequence_is_prompt first) in
        let! inputs := if prompt : bool then LLMEngine_prepare_prompt checks self scheduled
                       else LLMEngine_prepare_decode checks self scheduled in
        match inputs with
        | Err e => st_ret (Err e, self)
        | Ok inputs =>
            let! (fwd, self) := on_device self (
              pl_forward (pipeline self) (pi_tokens inputs) (pi_positions inputs)
                (gpu_cache (cache_engine self)) (pi_metadata inputs)) in
            let '(logits, pl) := fwd in
            let self := set_pipeline self pl in
            match logits with
            | Err e => st_ret (Err e, self)
            | Ok logits =>
                let! (result, pl) := pl_sample (pipeline self) logits params sqs in
                let self := set_pipeline self pl in
                match result with
                | Err e => st_ret (Err e, self)
                | Ok result =>
                    let! _ := st_fold (λ _ r, apply_result r) tt (zip result sqs) in
                    let! s := Scheduler_free_finished_sequence_groups (scheduler self) in
                    let self := set_scheduler self s in
                    let! responses :=
                      st_fold (response_turn checks self params) (Ok responses) scheduled in
                    st_ret (responses, self)
                end
            end
        end
    end.

  (** The loop, with fuel for its turns. *)
Fixpoint generate_loop (checks : bool) (fuel : nat) (self : LLMEngine) (params : SamplingParams)
    (responses : gmap nat response) : M (result (gmap nat response) * LLMEngine) :=
    if negb (Scheduler_has_unfinished_sequences (scheduler self))
    then st_ret (Ok responses, self)
    else match fuel with
    | 0 => st_hang
    | S fuel =>
        let! (r, self) := generate_turn checks self params responses in
        match r with
        | Err e => st_ret (Err e, self)
        | Ok responses => generate_loop checks fuel self params responses
        end
    end.

Definition LLMEngine_generate (checks : bool) (fuel : nat) (self : LLMEngine) (prompt : list nat)
    (request_id : string) (created now : nat) (params : SamplingParams)
    : M (result (list response) * LLMEngine) :=
    let! self := LLMEngine_add_request self prompt request_id created now in
    let! (r, self) := generate_loop checks fuel self params ∅ in
    st_ret (match r with
            | Ok responses => Ok (hash_values responses)
            | Err e => Err e
            end, self).

End Engine.
