(* ===== verification/EngineSpec.v ===== *)
(** * The engine: properties

    What the engine computes for a prompt, and where its loop stops. *)

From Stdlib Require Import ZArith SpecFloat Lia.
From stdpp Require Import base gmap sets strings pretty countable list.
From S2P Require Import Prelude Machine Sequence BlockEngine BlockEngineSpec CacheEngine.
From S2P Require Import Scheduler SchedulerInv.
From S2P Require Import Api Candle Backend Attention Sampling Conversation Engine.

(** ** Lemmas *)

Section EngineLemmas.
  Context `{LogprobsSig} `{HashOrder} `{Candle} {P C : Type} `{!ModulePipeline P C}.
  Context `{Conversation C}.
  Implicit Types w : World.
  Implicit Types self : LLMEngine (P := P).

  (** The slot of a position, as a function of the pages. *)
Definition slot_at (block_size : nat) (table : list nat) (i : nat) : nat :=
    default 0 (table !! (i / block_size)) * block_size + i mod block_size.

Lemma slot_of_eq bs table i w :
    0 < bs → i < bs * length table → slot_of bs table i w = Done (slot_at bs table i) w.
  Proof.
    intros Hbs Hi. unfold slot_of, nat_div, slot_at.
    destruct (Nat.eqb_spec bs 0) as [|_]; [lia |]. unfold st_bind; simpl.
    destruct (lookup_lt_is_Some_2 table (i / bs)) as [b ->]; [| done].
    by apply Nat.div_lt_upper_bound; lia.
  Qed.

Lemma table_ids_eq t w :
    blocks_unlocked w → (∀ p, p ∈ t → is_Some (w_blocks w !! p)) →
    table_ids t w = Done (number_of w <$> t) w.
  Proof.
    intros Hu Ht. unfold table_ids. apply wp_map_pure. intros p Hp.
    destruct (Ht p Hp) as [b Hb]. unfold st_bind. rewrite (block_read_eq p w b) by done.
    unfold number_of. by rewrite Hb.
  Qed.

Lemma prompt_slots_eq bs table n acc w :
    0 < bs → n ≤ bs * length table →
    st_fold (prompt_slot_turn bs 0 table) acc (seq 0 n) w =
    Done (acc ++ ((λ i, Z.of_nat (slot_at bs table i)) <$> seq 0 n)) w.
  Proof.
    intros Hbs Hn.
    assert (Hgen : ∀ k m acc, k + m ≤ bs * length table →
      st_fold (prompt_slot_turn bs 0 table) acc (seq k m) w =
      Done (acc ++ ((λ i, Z.of_nat (slot_at bs table i)) <$> seq k m)) w).
    { intros k m. revert k. induction m as [|m IH]; intros k acc' Hk.
      - simpl. by rewrite app_nil_r.
      - cbn [seq st_fold].
        assert (Ht : prompt_slot_turn bs 0 table acc' k w =
                     Done (acc' ++ [Z.of_nat (slot_at bs table k)]) w).
        { unfold prompt_slot_turn. rewrite (st_bind_done _ _ _ _ _ (slot_of_eq bs table k w Hbs
            ltac:(lia))). done. }
        rewrite (st_bind_done _ _ _ _ _ Ht), IH by lia. by rewrite <- app_assoc. }
    apply (Hgen 0 n acc). lia.
  Qed.

  (** Two positions of one table never share a slot if its blocks are distinct. *)
Lemma slot_at_inj bs table i j :
    0 < bs → NoDup table → i < bs * length table → j < bs * length table →
    slot_at bs table i = slot_at bs table j → i = j.
  Proof.
    intros Hbs Hnd Hi Hj. unfold slot_at.
    destruct (lookup_lt_is_Some_2 table (i / bs)) as [a Ha];
      [by apply Nat.div_lt_upper_bound; lia |].
    destruct (lookup_lt_is_Some_2 table (j / bs)) as [b Hb];
      [by apply Nat.div_lt_upper_bound; lia |].
    rewrite Ha, Hb. simpl. intros E.
    pose proof (Nat.mod_upper_bound i bs ltac:(lia)). pose proof (Nat.mod_upper_bound j bs ltac:(lia)).
    assert (a = b) as -> by nia. assert (Em : i mod bs = j mod bs) by lia.
    assert (Ed : i / bs = j / bs) by by eapply NoDup_lookup.
    rewrite (Nat.div_mod_eq i bs), (Nat.div_mod_eq j bs). by rewrite Em, Ed.
  Qed.

Lemma slot_at_bound bs table i n :
    0 < bs → (∀ b, b ∈ table → b < n) → i < bs * length table → slot_at bs table i < n * bs.
  Proof.
    intros Hbs Hb Hi. unfold slot_at.
    destruct (lookup_lt_is_Some_2 table (i / bs)) as [a Ha];
      [by apply Nat.div_lt_upper_bound; lia |].
    rewrite Ha. simpl. pose proof (Hb a (list_elem_of_lookup_2 _ _ _ Ha)).
    pose proof (Nat.mod_upper_bound i bs ltac:(lia)). nia.
  Qed.

Lemma get_token_ids_eq p q w :
    seq_unlocked p w → w_seqs w !! p = Some q →
    on_seq p (_Sequence_get_token_ids p) w = Done (token_ids (data q)) w.
  Proof.
    intros [Hl Hd] Hq. apply on_seq_read; [done |]. unfold _Sequence_get_token_ids.
    set (w' := set_held (λ h, {[LSeq p]} ∪ h) w).
    assert (Hd' : LData p ∉ w_held w') by (simpl; set_solver).
    assert (E1 : with_data p (λ d, st_ret (prompt_token_ids d)) w' =
                 Done (prompt_token_ids (data q)) w') by by eapply with_data_eq.
    assert (E2 : with_data p (λ d, st_ret (token <$> output_token_ids d)) w' =
                 Done (token <$> output_token_ids (data q)) w') by by eapply with_data_eq.
    rewrite (st_bind_done _ _ _ _ _ E1), (st_bind_done _ _ _ _ _ E2). done.
  Qed.

  (** [get_len] never returns. *)
Lemma get_len_never p w a w' : _Sequence_get_len p w ≠ Done a w'.
  Proof.
    unfold _Sequence_get_len, with_data, with_guard at 1.
    case_decide; [done |]. unfold st_bind at 1. unfold seq_get at 1. simpl.
    destruct (w_seqs w !! p) as [q|]; simpl; [| done].
    unfold with_guard. rewrite decide_True by (simpl; set_solver). done.
  Qed.

Lemma generated_len_never checks p w a w' : generated_len checks p w ≠ Done a w'.
  Proof.
    unfold generated_len, on_seq, with_guard at 1. case_decide; [done |]. unfold st_bind at 1.
    destruct (_Sequence_get_len p _) as [n w1| |] eqn:E; [by apply get_len_never in E | done ..].
  Qed.

Lemma make_usage_never checks top_n w a w' : make_usage checks top_n w ≠ Done a w'.
  Proof.
    unfold make_usage. destruct top_n as [|p top_n]; [done |]. simpl. unfold st_bind at 1 2.
    destruct (generated_len checks p w) as [n w1| |] eqn:E;
      [by apply generated_len_never in E | done ..].
  Qed.

Lemma get_last_token_ok p q w :
    seq_unlocked p w → w_seqs w !! p = Some q → token_ids (data q) ≠ [] →
    ∃ t, on_seq p (_Sequence_get_last_token_id p) w = Done t w.
  Proof.
    intros [Hl Hd] Hq Hne.
    set (w' := set_held (λ h, {[LSeq p]} ∪ h) w).
    assert (Hd' : LData p ∉ w_held w') by (simpl; set_solver).
    assert (Hq' : w_seqs w' !! p = Some q) by done.
    assert (Hread : ∀ {A} (f : SequenceData → A),
              with_data p (λ d, st_ret (f d)) w' = Done (f (data q)) w')
      by (intros A f; by eapply with_data_eq).
    assert (Hun : ∀ {A} (f : SequenceData → option A) a, f (data q) = Some a →
              with_data p (λ d, st_unwrap (f d)) w' = Done a w').
    { intros A f a Hf. eapply with_data_eq; [done .. |]. intros w2. by rewrite Hf. }
    destruct (output_token_ids (data q)) as [|x l _] eqn:Eo using rev_ind.
    - unfold token_ids in Hne. rewrite Eo in Hne. simpl in Hne. rewrite app_nil_r in Hne.
      destruct (last (prompt_token_ids (data q))) as [t|] eqn:El; [| by apply last_None in El].
      exists t. apply on_seq_read; [done |]. unfold _Sequence_get_last_token_id.
      rewrite (st_bind_done _ _ _ _ _ (Hread _ _)). rewrite Eo. by apply Hun.
    - exists (token x). apply on_seq_read; [done |]. unfold _Sequence_get_last_token_id.
      rewrite (st_bind_done _ _ _ _ _ (Hread _ _)). rewrite Eo.
      destruct (l ++ [x]) eqn:Elx; [by destruct l |]. rewrite <- Elx in Eo.
      eapply with_data_eq; [done .. |]. intros w2. by rewrite Eo, last_snoc.
  Qed.

Lemma pad_row_eq max_len pad row dev t w :
    new_cuda_0 = Ok dev →
    t_from_vec (row ++ replicate (max_len - length row) pad) dev = Ok t →
    pad_row max_len pad row w =
    (if decide (length row ≤ max_len) then Done (Ok t) w else Panic).
  Proof.
    intros Hdev Hv. unfold pad_row.
    destruct (Nat.leb_spec (length row) max_len) as [Hle|Hgt].
    - rewrite (st_bind_done _ _ _ tt w) by done. rewrite decide_True by done.
      rewrite (st_try_done _ _ _ dev w) by (unfold st_ret; by rewrite Hdev).
      unfold st_ret. by rewrite Hv.
    - rewrite decide_False by lia. by apply st_bind_panic.
  Qed.

  (** What a new request does to an idle engine. *)
Lemma add_request_nonempty self prompt rid created now w :
    prompt ≠ [] → LLMEngine_add_request self prompt rid created now w = Panic.
  Proof.
    intros Hp. unfold LLMEngine_add_request.
    assert (E : _Sequence_new prompt (next_seq_id self) (cfg_block_size (cache_config self)) = None).
    { destruct prompt as [|t prompt]; [done |]. unfold _Sequence_new.
      cbn [_Sequence_append_tokens_to_blocks]. by rewrite append_token_no_blocks. }
    by rewrite E.
  Qed.

Lemma group_new_single p q w now gid rid created :
    LSeq p ∉ w_held w → w_seqs w !! p = Some q →
    SequenceGroup_new [p] now gid rid created w =
    Done {| seqs := {[seq_id q := p]}; arrival_time := now; group_id := gid;
            request_id := rid; created := created |} w.
  Proof.
    intros Hl Hq. unfold SequenceGroup_new. simpl. unfold st_bind at 1 2 3.
    by rewrite (on_seq_pure_eq p _ w q Hl Hq).
  Qed.

Lemma add_request_empty self rid created now w :
    w_held w = ∅ →
    ∃ self' w' g, LLMEngine_add_request self [] rid created now w = Done self' w' ∧
      running (scheduler self') = running (scheduler self) ∧
      waiting (scheduler self') = waiting (scheduler self) ++ [g] ∧
      pipeline self' = pipeline self ∧ w_held w' = ∅.
  Proof.
    intros Hh. unfold LLMEngine_add_request, _Sequence_new. simpl.
    unfold st_bind at 1. simpl. unfold st_bind at 1. unfold seq_alloc at 1.
    set (p := fresh (dom (w_seqs w))).
    set (q := {| data := SequenceData_new []; seq_id := next_seq_id self;
                 logical_token_blocks := [];
                 seq_block_size := cfg_block_size (cache_config self) |}).
    set (w1 := set_seqs <[p:=q]> w).
    rewrite (st_bind_done _ _ _ _ _ (group_new_single p q w1 now (next_group_id self) rid created
      ltac:(simpl; rewrite Hh; apply not_elem_of_empty) (lookup_insert_eq _ _ _))).
    eexists _, w1, _. split_and!; [done | done | done | done | done].
  Qed.

  (** Nothing runs, so the loop is over before it starts. *)
Lemma generate_loop_idle checks fuel self params responses w :
    running (scheduler self) = [] →
    generate_loop checks fuel self params responses w = Done (Ok responses, self) w.
  Proof.
    intros Hr. destruct fuel; simpl; unfold Scheduler_has_unfinished_sequences; by rewrite Hr.
  Qed.

Lemma hash_values_empty {A} : hash_values (∅ : gmap nat A) = [].
  Proof.
    unfold hash_values. pose proof (hash_iter_perm (∅ : gmap nat A)) as Hp.
    rewrite map_to_list_empty in Hp. by apply Permutation_nil_r in Hp as ->.
  Qed.

Lemma generate_idle_empty checks fuel self rid created now params w :
    running (scheduler self) = [] → w_held w = ∅ →
    ∃ self' w' g,
      LLMEngine_generate checks fuel self [] rid created now params w = Done (Ok [], self') w' ∧
      waiting (scheduler self') = waiting (scheduler self) ++ [g] ∧
      running (scheduler self') = [] ∧ pipeline self' = pipeline self ∧ w_held w' = ∅.
  Proof.
    intros Hr Hh. unfold LLMEngine_generate.
    destruct (add_request_empty self rid created now w Hh)
      as (self' & w' & g & E & E1 & E2 & E3 & E4).
    rewrite (st_bind_done _ _ _ _ _ E).
    rewrite (st_bind_done _ _ _ _ _ (generate_loop_idle checks fuel self' params ∅ w'
      ltac:(by rewrite E1))). exists self', w', g.
    split_and!; [by rewrite hash_values_empty | done | by rewrite E1 | done | done].
  Qed.

Lemma generate_idle_nonempty checks fuel self prompt rid created now params w :
    prompt ≠ [] → LLMEngine_generate checks fuel self prompt rid created now params w = Panic.
  Proof. intros Hp. by apply st_bind_panic, add_request_nonempty. Qed.

End EngineLemmas.

(** ** Properties *)

Section EngineProperties.
  Context `{LogprobsSig} `{HashOrder} `{Candle} {P C : Type} `{!ModulePipeline P C}.
  Context `{Conversation C}.
  Implicit Types w : World.
  Implicit Types self : LLMEngine (P := P).

  (** C26: an idle engine generates nothing.  A request with a prompt panics while
      its sequence is built; a request with an empty prompt is answered at once,
      with no response, because the loop only asks whether something runs: the
      request stays in the waiting queue. *)
Theorem generate_never_generates checks fuel self prompt rid created now params w :
    running (scheduler self) = [] → w_held w = ∅ →
    if decide (prompt = []) then
      ∃ self' w' g,
        LLMEngine_generate checks fuel self prompt rid created now params w =
          Done (Ok [], self') w' ∧
        waiting (scheduler self') = waiting (scheduler self) ++ [g] ∧
        Scheduler_has_unfinished_sequences (scheduler self') = false
    else LLMEngine_generate checks fuel self prompt rid created now params w = Panic.
  Proof.
    intros Hr Hh. case_decide as Hp; [subst | by apply generate_idle_nonempty].
    destruct (generate_idle_empty checks fuel self rid created now params w Hr Hh)
      as (self' & w' & g & E & Ew & Er & _).
    exists self', w', g. split_and!; [done | done |].
    unfold Scheduler_has_unfinished_sequences. by rewrite Er.
  Qed.

  (** C8: what the engine prepares for the prompt of a sequence whose table covers
      it: all its tokens, their positions, and for every position the slot of its
      page, a slot of the pool ([num_gpu_blocks * block_size]) that no other
      position has. *)
Theorem prompt_slots_valid checks self acc p q t w :
    let bs := cfg_block_size (cache_config self) in
    let n := length (token_ids (data q)) in
    engine_inv (block_engine (scheduler self)) w → seq_unlocked p w → w_seqs w !! p = Some q →
    seq_wf q → seq_block_size q = bs → sliding_window self = None →
    block_tables (block_engine (scheduler self)) !! seq_id q = Some t →
    length (logical_token_blocks q) ≤ length t →
    NoDup (number_of w <$> t) →
    Forall (λ b, b < num_gpu_blocks (block_engine (scheduler self))) (number_of w <$> t) →
    ∃ slots, prompt_seq_turn checks self acc p w =
        Done (mkPromptAcc (pa_prompt_lens acc ++ [n]) (pa_tokens acc ++ [token_ids (data q)])
                (pa_positions acc ++ [seq 0 n]) (pa_slots acc ++ [slots])) w ∧
      length slots = n ∧ NoDup slots ∧
      ∀ i z, slots !! i = Some z →
        z = Z.of_nat (slot_at bs (number_of w <$> t) i) ∧
        (0 ≤ z < Z.of_nat (num_gpu_blocks (block_engine (scheduler self)) * bs))%Z.
  Proof.
    intros bs n [HB Hf Hu] Hl Hq Hwf Hbs Hsw Ht Hcov Hnd Hlt.
    pose proof (seq_wf_bs _ Hwf) as Hpos. rewrite Hbs in Hpos.
    assert (Hn : n ≤ bs * length (number_of w <$> t)).
    { rewrite length_fmap. pose proof (seq_wf_capacity q Hwf) as Hc. rewrite Hbs in Hc.
      fold n in Hc. nia. }
    exists ((λ i, Z.of_nat (slot_at bs (number_of w <$> t) i)) <$> seq 0 n). split_and!.
    - unfold prompt_seq_turn. rewrite (st_bind_done _ _ _ _ _ (get_token_ids_eq p q w Hl Hq)).
      rewrite (st_bind_done _ _ _ _ _ (on_seq_pure_eq p _ w q (proj1 Hl) Hq)).
      unfold _Sequence_get_id at 1. rewrite Ht.
      rewrite (st_bind_done _ _ _ _ _ (table_ids_eq t w Hu ltac:(intros x Hx;
        apply (bi_dom _ _ _ _ HB); eapply table_in_refs; [exact Ht | exact Hx]))).
      unfold prompt_start_idx. rewrite Hsw. rewrite (st_bind_done _ _ _ 0 w) by done.
      rewrite (st_bind_done _ _ _ _ _ (prompt_slots_eq bs _ n [] w Hpos Hn)). done.
    - by rewrite length_fmap, length_seq.
    - apply NoDup_fmap_2_strong; [| apply NoDup_seq].
      intros i j Hi%elem_of_seq Hj%elem_of_seq E%Nat2Z.inj.
      eapply slot_at_inj; [exact Hpos | exact Hnd | lia | lia | exact E].
    - intros i z Hz. rewrite list_lookup_fmap in Hz.
      destruct (seq 0 n !! i) as [j|] eqn:Hj; [| done]. injection Hz as <-.
      apply lookup_seq in Hj as [-> Hi]. simpl. split; [done |].
      pose proof (slot_at_bound bs (number_of w <$> t) i _ Hpos
        (proj1 (Forall_forall _ _) Hlt) ltac:(lia)). lia.
  Qed.

  (** A sliding window never hides a position of a prompt.  The index at which
      the slots should start is [0.min(prompt_len - window)], an unsigned number:
      it is zero whenever it is computed at all, and a prompt shorter than the
      window panics when overflow is checked. *)
Theorem sliding_window_never_masks checks window prompt_len w :
    prompt_start_idx checks (Some window) prompt_len w =
    if checks && (prompt_len <? window) then Panic else Done 0 w.
  Proof.
    unfold prompt_start_idx, usize_sub.
    destruct (Z.leb_spec (Z.of_nat window) (Z.of_nat prompt_len)), (Nat.ltb_spec prompt_len window);
      try lia; destruct checks; simpl; unfold st_bind, st_unwrap, st_ret; try done.
    - rewrite Z.min_l by lia. done.
    - rewrite Z.min_l by lia. done.
    - rewrite Z.min_l; [done |]. by apply Z.mod_pos_bound.
  Qed.

  (** After the first token there is no second one.  The inputs of a decoding
      step are never prepared: the length of the first sequence is asked for, and
      [get_len] takes the lock of its data twice. *)
Theorem prepare_decode_hangs checks self g groups p q w :
    single g p q w → token_ids (data q) ≠ [] →
    LLMEngine_prepare_decode checks self (g :: groups) w = Hang.
  Proof.
    intros Hs Hne. unfold LLMEngine_prepare_decode. apply st_bind_hang.
    unfold group_seqs. cbn [fmap list_fmap concat]. rewrite (single_values _ _ _ _ Hs).
    simpl. apply st_bind_hang. unfold decode_seq_turn.
    destruct (get_last_token_ok p q w (single_unlocked _ _ _ _ Hs) (single_lookup _ _ _ _ Hs) Hne)
      as [t E].
    rewrite (st_bind_done _ _ _ _ _ E). apply st_bind_hang. unfold on_seq, with_guard.
    rewrite decide_False by apply (single_unlocked _ _ _ _ Hs).
    rewrite (get_len_hang p _ q); [done |]. apply (single_lookup _ _ _ _ Hs).
  Qed.

  (** No response is ever built: for every finished group, the usage asks for
      the length of a sequence and never gets it; the call panics, hangs or
      returns an error. *)
Theorem response_never_built checks self params g w r w' :
    make_response checks self params g w ≠ Done (Ok r) w'.
  Proof.
    unfold make_response, st_try. unfold st_bind at 1.
    destruct (sort_by_logprob _ w) as [sorted w1| |]; [| done ..].
    unfold st_bind at 1. destruct (st_assert _ w1) as [[] w2| |]; [| done ..].
    unfold st_bind at 1. destruct (st_try_map _ _ w2) as [[choices|e] w3| |]; [| done ..].
    unfold st_bind. destruct (make_usage checks _ w3) as [u w4| |] eqn:E; [| done ..].
    by apply make_usage_never in E.
  Qed.

  (** Padding.  When every row fits, the tensor is built from the rows, each
      filled up to [max_len] with the padding value; a row that is too long is a
      panic. *)
Theorem padding_pads_to_max rows max_len pad dev ts t w :
    new_cuda_0 = Ok dev →
    mapM (λ row, match t_from_vec (row ++ replicate (max_len - length row) pad) dev with
                 | Ok t => Some t | Err _ => None end) rows = Some ts →
    t_cat ts = Ok t →
    if decide (Forall (λ row, length row ≤ max_len) rows)
    then _make_tensor_with_pad rows max_len pad w = Done (Ok t) w
    else _make_tensor_with_pad rows max_len pad w = Panic.
  Proof.
    intros Hdev Hts Ht. unfold _make_tensor_with_pad.
    assert (Hrows : st_try_map (pad_row max_len pad) rows w =
      if decide (Forall (λ row, length row ≤ max_len) rows) then Done (Ok ts) w else Panic).
    { clear Ht. revert ts Hts. induction rows as [|row rows IH]; intros ts Hts.
      - by injection Hts as <-.
      - apply mapM_Some in Hts. inversion Hts as [|? t1 ? ts1 Hrow Hrest]; subst.
        destruct (t_from_vec _ dev) as [t'|] eqn:Ev in Hrow; [| done]. injection Hrow as ->.
        specialize (IH ts1 (proj2 (mapM_Some _ _ _) Hrest)). cbn [st_try_map].
        pose proof (pad_row_eq max_len pad row dev t1 w Hdev Ev) as Hp.
        destruct (decide (length row ≤ max_len)).
        + rewrite (st_try_done _ _ _ _ _ Hp).
          destruct (decide (Forall (λ row, length row ≤ max_len) rows)).
          * rewrite (st_try_done _ _ _ _ _ IH), decide_True by auto. done.
          * rewrite (st_try_panic _ _ _ IH), decide_False; [done |]. intros ?. by decompose_Forall.
        + rewrite (st_try_panic _ _ _ Hp), decide_False; [done |]. intros ?. by decompose_Forall. }
    destruct (decide (Forall (λ row, length row ≤ max_len) rows)).
    - rewrite (st_try_done _ _ _ _ _ Hrows). unfold st_ret. by rewrite Ht.
    - by apply st_try_panic.
  Qed.

End EngineProperties.

(** *** Witnesses *)

Section EngineExamples.

  #[local] Existing Instance plain_logprobs.
  #[local] Existing Instance canonical_order.
  #[local] Existing Instance plain_candle.
  #[local] Existing Instance plain_format.

  (** A pipeline whose model computes nothing and whose tokenizer makes one token
      of every character. *)
Definition plain_pipeline : ModulePipeline DefaultConversation DefaultConversation :=
    {| pl_forward p tokens _ _ _ := st_ret (Ok tokens, p);
       pl_sample p _ _ _ := st_ret (Ok [], p);
       pl_name _ := "llama";
       pl_tokenize _ s := Ok (replicate (String.length s) 0);
       pl_detokenize _ _ := Ok "";
       pl_conversation p := p;
       pl_set_conversation _ c := c;
       pl_model_config _ := ex_config;
       pl_dtype _ := Some U8 |}.

  #[local] Existing Instance plain_pipeline.

  (** The engine around a block engine, nothing running. *)
Definition ex_engine (e : BlockEngine) : LLMEngine (P := DefaultConversation) :=
    mkLLMEngine llama_conversation (mkScheduler [] [] [] {| max_num_seqs := 8 |} e) 0
      (mkCacheConfig 2 (Some 4) (Some 4) true) 0 (mkCacheEngine [] [] 0) None no_copies.

Lemma generate_never_generates_witness :
    LLMEngine_generate false 5 (ex_engine no_engine) [1; 2] "cmpl" 0 0 (ex_params (-1))
      empty_world = Panic ∧
    ∃ self' w', LLMEngine_generate false 5 (ex_engine no_engine) [] "cmpl" 0 0 (ex_params (-1))
      empty_world = Done (Ok [], self') w'.
  Proof.
    split.
    - exact (generate_never_generates false 5 (ex_engine no_engine) [1; 2] "cmpl" 0 0
        (ex_params (-1)) empty_world eq_refl eq_refl).
    - destruct (generate_never_generates false 5 (ex_engine no_engine) [] "cmpl" 0 0
        (ex_params (-1)) empty_world eq_refl eq_refl) as (self' & w' & g & E & _). eauto.
  Defined.

Lemma prompt_slots_valid_witness :
    ∃ slots, prompt_seq_turn false (ex_engine ex_e1) (mkPromptAcc [] [] [] []) 0 ex_w1 =
      Done (mkPromptAcc [3] [[5; 6; 7]] [[0; 1; 2]] [slots]) ex_w1 ∧ length slots = 3.
  Proof.
    destruct ex_allocated as (HI & [_ Hq Hl] & Ht & _).
    destruct (prompt_slots_valid false (ex_engine ex_e1) (mkPromptAcc [] [] [] []) 0 ex_seq [3; 2]
      ex_w1 HI Hl Hq ex_seq_wf eq_refl eq_refl Ht) as (slots & E & Hn & _).
    - vm_compute. lia.
    - by_compute.
    - by_compute.
    - exists slots. split; [exact E | exact Hn].
  Defined.

Lemma prepare_decode_hangs_witness :
    LLMEngine_prepare_decode false (ex_engine ex_e1) [ex_group] ex_w1 = Hang.
  Proof.
    destruct ex_allocated as (_ & Hs & _).
    exact (prepare_decode_hangs false (ex_engine ex_e1) ex_group [] 0 ex_seq ex_w1 Hs
             ltac:(discriminate)).
  Defined.

Lemma padding_pads_to_max_witness :
    _make_tensor_with_pad [[1; 2]; [3]]%Z 2 (-1)%Z ex_w1 =
      Done (Ok ([4], [1; 2; 3; -1]%Z)) ex_w1.
  Proof.
    exact (padding_pads_to_max [[1; 2]; [3]]%Z 2 (-1)%Z true _ _ ex_w1 eq_refl eq_refl eq_refl).
  Defined.

End EngineExamples.
