(* ===== verification/EngineRound.v ===== *)
(** * The engine: one round of generation

    A turn of the loop of [LLMEngine::generate] hands the scheduler's groups to
    the pipeline and applies what comes back: this file follows the scheduler and
    the sequences through such a round, whatever the pipeline answers, and
    through the first token after a prompt. *)

From Stdlib Require Import ZArith SpecFloat Lia.
From stdpp Require Import base gmap sets strings pretty countable list.
From S2P Require Import Prelude Machine Sequence BlockEngine BlockEngineSwap BlockEngineSpec.
From S2P Require Import CacheEngine Scheduler SchedulerInv SchedulerWaiting SchedulerSpec.
From S2P Require Import SchedulerTrace Api Candle Backend Attention Sampling Conversation.
From S2P Require Import Engine EngineSpec.

#[local] Existing Instance pages_cover.

(** ** Lemmas *)

Section RoundLemmas.
  Context `{LogprobsSig} `{HashOrder}.
  Implicit Types w : World.
  Implicit Types self : Scheduler.
  Implicit Types g : SequenceGroup.

  (** The sequences of the scheduled groups, under their ids. *)
Definition scheduled_seqs (l : list SequenceGroup) : list (nat * seq_ptr) :=
    concat ((λ g, hash_iter (seqs g)) <$> l).

  (** One result, for the next group that is ready. *)
Lemma apply_result_ok e wt act rdy g p q (r : TokenOrFinishReason) w :
    queues_inv e wt act (g :: rdy) w → heap_wf w → single g p q w →
    wp (apply_result (r, (seq_id q, p))) (λ _ w', queues_inv e wt (g :: act) rdy w' ∧ heap_wf w') w.
  Proof.
    intros HQ Hwf Hs. destruct (qi_single _ _ _ _ _ HQ g) as (p0 & q0 & Hs0 & Hne); [set_solver |].
    destruct (single_unique _ _ _ _ _ _ Hs Hs0) as [-> ->].
    pose proof Hs as [_ Hq Hl]. destruct r as [lp|reason]; unfold apply_result; simpl.
    - destruct (add_token_ok p w q lp Hl Hq (Hwf p q Hq) Hne)
        as (q' & E & Hwf' & Hid & _ & _ & Hlen).
      unfold wp. rewrite E. split; [by eapply token_step | by apply heap_wf_insert].
    - destruct (finish_queues _ _ _ _ _ p q reason HQ Hl Hq) as (w' & E & HQ' & Hf).
      unfold wp. rewrite E. split; [by apply queues_unready | by eapply heap_wf_frame].
  Qed.

  (** All of them. *)
Lemma apply_results_ok e wt act rdy (results : list TokenOrFinishReason) w :
    queues_inv e wt act rdy w → heap_wf w → length results = length rdy →
    wp (st_fold (λ _ r, apply_result r) tt (zip results (scheduled_seqs rdy)))
      (λ _ w', queues_inv e wt (act ++ rdy) [] w' ∧ heap_wf w') w.
  Proof.
    revert act results w. induction rdy as [|g rdy IH]; intros act results w HQ Hwf Hlen.
    - destruct results; [| done]. apply wp_ret. by rewrite app_nil_r.
    - destruct results as [|r results]; [done |]. injection Hlen as Hlen.
      destruct (qi_single _ _ _ _ _ HQ g) as (p & q & Hs & _); [set_solver |].
      unfold scheduled_seqs. cbn [fmap list_fmap concat].
      rewrite (single_seqs _ _ _ _ Hs), hash_iter_singleton. simpl. apply wp_bind.
      eapply wp_mono; [by eapply apply_result_ok |]. intros [] w1 [HQ1 Hwf1].
      eapply wp_mono; [by apply (IH (g :: act)) |]. intros _ w2 [HQ2 Hwf2].
      split; [| done]. by rewrite <- Permutation_middle.
  Qed.

End RoundLemmas.

(** ** Lemmas: what the engine does are calls *)

Section EngineCalls.
  Context `{LogprobsSig} `{HashOrder}.
  Implicit Types w : World.

Lemma apply_results_calls self (results : list TokenOrFinishReason) l w w' :
    l ⊆ running self →
    st_fold (λ _ r, apply_result r) tt (zip results (scheduled_seqs l)) w = Done tt w' →
    rtc call (self, w) (self, w').
  Proof.
    intros Hl.
    assert (Hs : ∀ x, x ∈ scheduled_seqs l → ∃ g, g ∈ running self ∧ x.2 ∈ hash_values (seqs g)).
    { intros x (xs & Hxs & Hx)%list_elem_of_In%List.in_concat. apply list_elem_of_In in Hxs, Hx.
      apply list_elem_of_fmap in Hxs as (g & -> & Hg). exists g. split; [by apply Hl |].
      unfold hash_values. by apply list_elem_of_fmap_2. }
    revert results w Hs. generalize (scheduled_seqs l). intros sqs.
    induction sqs as [|x sqs IH]; intros [|r results] w Hs; simpl; intros E;
      [by injection E as <- ..|].
    apply st_bind_Done in E as ([] & w1 & E1 & E). eapply rtc_l; [| by eapply IH; set_solver].
    destruct (Hs x) as (g & Hg & Hp); [set_solver |]. unfold apply_result in E1. simpl in E1.
    destruct r as [lp|reason]; [by eapply call_token | by eapply call_finish].
  Qed.

  (** A round of [generate], over prompts or decoding, whatever the pipeline answers. *)
Lemma rounds_stay_reachable cfg c self w out self1 w1 (results : list TokenOrFinishReason) w2 self3 w3 :
    reachable cfg c (self, w) → Scheduler_schedule self w = Done (out, self1) w1 →
    st_fold (λ _ r, apply_result r) tt (zip results (scheduled_seqs (scheduled out))) w1 =
      Done tt w2 →
    Scheduler_free_finished_sequence_groups self1 w2 = Done self3 w3 →
    reachable cfg c (self3, w3).
  Proof.
    intros Hr E1 E2 E3. destruct (reachable_trace_inv _ _ _ _ Hr) as [HI _ _ _ _].
    destruct (schedule_moves self w out self1 w1 HI E1) as (_ & _ & _ & _ & Hsub & _).
    eapply reachable_steps; [exact Hr |]. eapply rtc_l; [by eapply call_schedule |].
    etrans; [by eapply apply_results_calls | by apply rtc_once, call_free].
  Qed.

  Context `{Candle} {P C : Type} `{!ModulePipeline P C} `{Conversation C}.

  (** A request, while no lock is held; the sequence it brings has no page, because the
      prompt has no token. *)
Lemma add_request_call (self : LLMEngine (P := P)) prompt rid created now self' w w' :
    LLMEngine_add_request self prompt rid created now w = Done self' w' → w_held w = ∅ →
    0 < cfg_block_size (cache_config self) →
    next_seq_id self ∉ group_seq_ids (waiting (scheduler self) ++ running (scheduler self)) →
    call (scheduler self, w) (scheduler self', w').
  Proof.
    intros E Hh Hbs Hid. destruct prompt as [|t prompt];
      [| by rewrite add_request_nonempty in E].
    unfold LLMEngine_add_request in E. rewrite sequence_new_panics in E.
    apply st_bind_Done in E as (q & w0 & [= <- <-] & E).
    apply st_bind_Done in E as (p & w1 & [= <- <-] & E).
    set (q := {| data := SequenceData_new []; seq_id := next_seq_id self;
                 logical_token_blocks := []; seq_block_size := cfg_block_size (cache_config self) |}) in *.
    set (p := fresh (dom (w_seqs w))) in *.
    rewrite (st_bind_done _ _ _ _ _ (group_new_single p q (set_seqs <[p:=q]> w) now
      (next_group_id self) rid created ltac:(simpl; rewrite Hh; apply not_elem_of_empty)
      (lookup_insert_eq _ _ _))) in E. injection E as <- <-.
    simpl. apply call_add.
    - done.
    - apply not_elem_of_dom, is_fresh.
    - split; rewrite Hh; apply not_elem_of_empty.
    - split; [done | constructor | done].
    - exact Hid.
  Qed.

End EngineCalls.

(** ** Properties *)

Section RoundProperties.
  Context `{LogprobsSig} `{HashOrder}.
  Implicit Types w : World.
  Implicit Types self : Scheduler.
  Implicit Types g : SequenceGroup.

  (** C5: a whole decoding round is safe.  From a state of the invariant in which no
      waiting group is admitted, and for any token or finish reason per scheduled
      sequence, [schedule], the application of the results and the freeing of
      what is finished all return, re-establish the invariant, leave every
      sequence well formed and no finished group running, and drop only finished
      groups. *)
Theorem decode_round_safe self w :
    sched_inv self w → heap_wf w → admitted self w = Some 0 →
    ∃ out self1 w1, Scheduler_schedule self w = Done (out, self1) w1 ∧
      ∀ results : list TokenOrFinishReason, length results = length (scheduled out) →
        ∃ w2 self3 w3,
          st_fold (λ _ r, apply_result r) tt (zip results (scheduled_seqs (scheduled out))) w1 =
            Done tt w2 ∧
          Scheduler_free_finished_sequence_groups self1 w2 = Done self3 w3 ∧
          sched_inv self3 w3 ∧ heap_wf w3 ∧ waiting self3 = waiting self1 ∧
          running self3 = filter (λ g, group_finished w2 g = false) (scheduled out).
  Proof.
    intros HI Hwf Ha. pose proof (schedule_ok self w HI) as Hok. rewrite Ha in Hok.
    apply wp_done in Hok as ([out self1] & w1 & E & [D1 D2 D3 D4 _ D6]). simpl in *. subst out.
    eexists _, self1, w1. split; [done |]. simpl. intros results Hlen.
    destruct (proj1 (wp_done _ _ _) (apply_results_ok _ _ [] _ results w1 D6
      (heap_wf_frame _ _ D4 Hwf) Hlen)) as ([] & w2 & E2 & HQ2 & Hwf2). simpl in HQ2.
    assert (HI2 : sched_inv self1 w2) by by split.
    destruct (proj1 (wp_done _ _ _) (free_finished_ok self1 w2 HI2))
      as (self3 & w3 & E3 & e3 & -> & HQ3 & Hf3).
    eexists w2, _, w3. split_and!; [done | exact E3 | by split | by eapply heap_wf_frame | done ..].
  Qed.

  (** C38: the first token can outgrow the table.  A prompt that fills its last page
      is admitted with one block per page; [add_token] then opens a page, but the
      next step asks only whether a further page is due: it adds no block, and
      computing the slot of the new token panics. *)
Theorem first_token_outgrows_table self g p q t lp w :
    sched_inv self w → heap_wf w → g ∈ running self → single g p q w →
    block_tables (block_engine self) !! seq_id q = Some t →
    length t = length (logical_token_blocks q) → 2 ≤ seq_block_size q →
    length (token_ids (data q)) = seq_block_size q * length (logical_token_blocks q) →
    ∃ q', on_seq p (_Sequence_add_token p lp) w = Done tt (set_seqs <[p:=q']> w) ∧
      let w' := set_seqs <[p:=q']> w in
      BlockEngine_append_token_slot_to_seq (block_engine self) p w' =
        Done (None, block_engine self) w' ∧
      slot_of (seq_block_size q) (number_of w' <$> t) (length (token_ids (data q')) - 1) w' = Panic.
  Proof.
    intros HI Hwf Hg Hs Ht Hlen Hbs Hfull. pose proof HI as [HQ _].
    destruct (qi_single _ _ _ _ _ HQ g) as (p0 & q0 & Hs0 & Hne); [set_solver |].
    destruct (single_unique _ _ _ _ _ _ Hs Hs0) as [-> ->]. pose proof Hs as [_ Hq Hl].
    pose proof (Hwf p q Hq) as Hwfq.
    destruct (add_token_appended p w q lp Hl Hq Hwfq Hne) as (q1 & [E1 E2 E3 Hwf1 Hc1 Hn1] & E).
    destruct (add_token_ok p w q lp Hl Hq Hwfq Hne) as (q' & E' & Hwf' & Hid & _ & Htok & Hlen').
    rewrite E' in E. injection E as E. apply (f_equal (lookup p)) in E.
    rewrite !lookup_insert_eq in E. injection E as E.
    assert (Ebs : seq_block_size q' = seq_block_size q) by (rewrite E; exact E3).
    rewrite (blocks_to_add_spec q), decide_True in Hlen' by done.
    exists q'. split; [done |]. split.
    - destruct t as [|l t _] using rev_ind.
      { pose proof (need_pos q Hne). simpl in *. lia. }
      apply (append_slot_space _ p q' t l).
      + apply (engine_inv_ext _ w); [done .. |]. apply HQ.
      + done.
      + simpl. apply lookup_insert_eq.
      + by rewrite Hid.
      + rewrite blocks_to_add_spec, decide_False; [done | | done |].
        * rewrite Htok, Ebs, Hlen', length_app. simpl. nia.
        * intros Hnil. rewrite Hnil in Hlen'. simpl in Hlen'. lia.
      + apply occ_NoDup; [apply HQ |]. eapply table_in_refs; [done |]. set_solver.
    - rewrite Htok, length_app, Hfull. unfold slot_of, nat_div. simpl.
      replace (_ + 1 - 1) with (length (logical_token_blocks q) * seq_block_size q) by lia.
      destruct (Nat.eqb_spec (seq_block_size q) 0); [lia |]. unfold st_bind; simpl.
      rewrite Nat.div_mul by done. rewrite lookup_ge_None_2; [done |]. rewrite length_fmap. lia.
  Qed.

End RoundProperties.

(** *** Witnesses *)

Section RoundExamples.

  #[local] Existing Instance plain_logprobs.
  #[local] Existing Instance canonical_order.

Definition ex_answer : TokenOrFinishReason := Left (9, f32_zero).

  (** [ex_group] runs; one token is generated for it. *)
Lemma decode_round_safe_witness :
    ∃ out self1 w1 w2 self3 w3, Scheduler_schedule ex_t2 ex_tw2 = Done (out, self1) w1 ∧
      st_fold (λ _ r, apply_result r) tt
        (zip [ex_answer] (scheduled_seqs (scheduled out))) w1 = Done tt w2 ∧
      Scheduler_free_finished_sequence_groups self1 w2 = Done self3 w3 ∧ sched_inv self3 w3.
  Proof.
    destruct ex_t2_inv as [HI Hwf].
    assert (Ha : admitted ex_t2 ex_tw2 = Some 0) by by vm_compute.
    destruct (decode_round_safe ex_t2 ex_tw2 HI Hwf Ha) as (out & self1 & w1 & E & Hround).
    assert (Ho : (λ r, length (scheduled r.1)) <$>
              match Scheduler_schedule ex_t2 ex_tw2 with Done r _ => Some r | _ => None end = Some 1)
      by by vm_compute.
    rewrite E in Ho. injection Ho as Ho.
    destruct (Hround [ex_answer] ltac:(by rewrite Ho)) as (w2 & self3 & w3 & E2 & E3 & HI3 & _).
    exists out, self1, w1, w2, self3, w3. split; [exact E |]. split; [exact E2 |]. by split.
  Defined.

  (** [ex_full] fills its two pages. *)
Definition ex_u1 : Scheduler := Scheduler_add_sequence ex_t0 ex_group_full.

Definition ex_uw1 : World := set_seqs <[1:=ex_full]> ex_tw0.

Definition ex_u2 : Scheduler :=
    (result_of (ex_out0, no_scheduler) (Scheduler_schedule ex_u1 ex_uw1)).2.

Definition ex_uw2 : World := world_of (Scheduler_schedule ex_u1 ex_uw1).

Lemma ex_full_reachable : reachable ex_limit ex_cache (ex_u2, ex_uw2).
  Proof.
    eapply reachable_step.
    - eapply reachable_step; [exact ex_new_reachable |].
      apply (call_add ex_t0 ex_tw0 ex_group_full 1 ex_full); [done | by vm_compute | | |].
      + assert (Hh : w_held ex_tw0 = ∅) by by vm_compute.
        split; rewrite Hh; apply not_elem_of_empty.
      + destruct ex_full_wf as [H1 H2 H3]. by split.
      + by_compute.
    - eapply (call_schedule ex_u1 ex_uw1 (mkSchedulerOutput [ex_group_full] ∅ ∅ ∅ [])).
      by vm_compute.
  Qed.

Lemma first_token_outgrows_table_witness :
    ∃ q', on_seq 1 (_Sequence_add_token 1 (9, f32_zero)) ex_uw2 =
        Done tt (set_seqs <[1:=q']> ex_uw2) ∧
      slot_of 2 (number_of (set_seqs <[1:=q']> ex_uw2) <$> [3; 2])
        (length (token_ids (data q')) - 1) (set_seqs <[1:=q']> ex_uw2) = Panic.
  Proof.
    destruct (reachable_trace_inv _ _ _ _ ex_full_reachable) as [_ Hwf _ _ _].
    assert (HI : sched_inv ex_u2 ex_uw2).
    { apply (admitted_inv ex_u1 ex_uw1 0); [by apply (added_inv ex_group_full 1 ex_full) | by vm_compute]. }
    destruct (first_token_outgrows_table ex_u2 ex_group_full 1 ex_full_running [3; 2]
      (9, f32_zero) ex_uw2 HI Hwf) as (q' & E & _ & Hslot).
    - vm_compute. left.
    - assert (Hh : w_held ex_uw2 = ∅) by by vm_compute.
      split; [done | by vm_compute | split; rewrite Hh; apply not_elem_of_empty].
    - by vm_compute.
    - done.
    - simpl. lia.
    - done.
    - exists q'. split; [exact E | exact Hslot].
  Defined.

End RoundExamples.
