(* ===== verification/Handler.v ===== *)
(** * The request handler

    [chat_completions] of [src/openai/openai_server.rs]: the whole path from a
    request to its answer, over the engine. *)

From Stdlib Require Import ZArith SpecFloat Lia.
From stdpp Require Import base gmap sets strings pretty countable list.
From S2P Require Import Prelude Machine Sequence BlockEngine BlockEngineSpec CacheEngine Scheduler.
From S2P Require Import Api Candle Backend Attention Sampling Conversation Server Engine EngineSpec.

Section Handler.
  Context `{LogprobsSig} `{HashOrder} `{Candle} {P C : Type} `{!ModulePipeline P C}.
  Context `{Conversation C} `{FloatDisplay}.

  (** What the handler answers with.  A streaming answer is a body that the
      spawned thread feeds; the job of the thread is [stream_job] below. *)
Inductive Reply :=
    | Json (r : result ChatCompletionResponse)
    | EventStream (token_ids : list nat) (request_id : string) (created : nat)
        (params : SamplingParams).

  (** What the environment provides: [Uuid::new_v4] and the clock, read twice. *)
Record Environment := mkEnvironment {
    env_uuid : string;
    env_created : nat;
    env_now : nat;
  }.

Definition request_sampling_params (request : ChatCompletionRequest) : result SamplingParams :=
    SamplingParams_new
      (default 1%Z (req_n request))
      (req_best_of request)
      (default f32_zero (req_presence_penalty request))
      (default f32_zero (req_frequency_penalty request))
      f32_one
      (default f32_0_7 (req_temperature request))
      (default f32_one (req_top_p request))
      (default (-1)%Z (req_top_k request))
      (default false (req_use_beam_search request))
      f32_one
      UnlikelyBetterCandidates
      (req_stop request)
      (default [] (req_stop_token_ids request))
      (default false (req_ignore_eos request))
      (default 16%Z (req_max_tokens request))
      None
      None
      (default true (req_skip_special_tokens request)).

  (** [request.logit_bias.as_ref().is_some_and(|x| !x.is_empty())] *)
Definition has_logit_bias (request : ChatCompletionRequest) : bool :=
    match req_logit_bias request with
    | Some m => negb (bool_decide (m = ∅))
    | None => false
    end.

Definition make_chat_response (request : ChatCompletionRequest) (request_id : string)
    (created : nat) (l : list response) : ChatCompletionResponse :=
    mkResponse request_id (concat l.*1) created (req_model request) "chat.completion"
      (mkUsage (sum_list (completion_tokens <$> l.*2)) (sum_list (prompt_tokens <$> l.*2))
         (sum_list (total_tokens <$> l.*2))).

  (** The prompt of the request, out of the conversation of the pipeline. *)
Definition engine_gen_prompt (self : LLMEngine (P := P)) (messages : Messages)
    : LLMEngine (P := P) * result string :=
    let '(c, r) := get_gen_prompt (pl_conversation (pipeline self)) messages in
    (set_pipeline self (pl_set_conversation (pipeline self) c), r).

Definition chat_completions (checks : bool) (fuel : nat) (env : Environment)
    (max_model_len : Z) (self : LLMEngine (P := P)) (request : ChatCompletionRequest)
    : M (Reply * LLMEngine (P := P)) :=
    match verify_model (pl_name (pipeline self)) (req_model request) with
    | Err e => st_ret (Json (Err e), self)
    | Ok _ =>
        if has_logit_bias request then
          st_ret (Json (Err (APIError_new_str "`logit_bias` is not currently supported.")), self)
        else
          let '(self, prompt) := engine_gen_prompt self (req_messages request) in
          match prompt with
          | Err e => st_ret (Json (Err e), self)
          | Ok prompt =>
              let! token_ids := st_unwrap (check_length (pl_tokenize (pipeline self)) checks
                                  (req_max_tokens request) prompt max_model_len) in
              match token_ids with
              | Err e => st_ret (Json (Err e), self)
              | Ok token_ids =>
                  let request_id := "cmpl-" +:+ env_uuid env in
                  match request_sampling_params request with
                  | Err e => st_ret (Json (Err e), self)
                  | Ok sampling_params =>
                      let created := env_created env in
                      if default false (req_stream request) then
                        st_ret (EventStream token_ids request_id created sampling_params, self)
                      else
                        let! (result, self) :=
                          LLMEngine_generate checks fuel self token_ids request_id created
                            (env_now env) sampling_params in
                        match result with
                        | Err e => st_ret (Json (Err e), self)
                        | Ok l => st_ret (Json (Ok (make_chat_response request request_id created l)),
                                          self)
                        end
                  end
              end
          end
    end.

  (** The thread of a streaming request: what it sends is the error, if there is
      one, and nothing else. *)
Definition stream_job (checks : bool) (fuel : nat) (now : nat) (self : LLMEngine (P := P))
    (token_ids : list nat) (request_id : string) (created : nat) (params : SamplingParams)
    : M (list APIError * LLMEngine (P := P)) :=
    let! (result, self) :=
      LLMEngine_generate checks fuel self token_ids request_id created now params in
    st_ret (match result with Err e => [e] | Ok _ => [] end, self).

  (** ** Properties *)

  (** On an idle engine, no request is ever answered with a choice: if the
      handler answers a non-streaming request with a response at all, the prompt
      had no tokens and the list of choices is empty. *)
Theorem no_request_gets_a_choice checks fuel env max_len self request resp self' w w' :
    running (scheduler self) = [] → w_held w = ∅ →
    chat_completions checks fuel env max_len self request w = Done (Json (Ok resp), self') w' →
    resp_choices resp = [] ∧ total_tokens (resp_usage resp) = 0 ∧
    ∃ prompt, (engine_gen_prompt self (req_messages request)).2 = Ok prompt ∧
      pl_tokenize (pipeline (engine_gen_prompt self (req_messages request)).1) prompt = Ok [].
  Proof.
    intros Hr Hh E. unfold chat_completions in E.
    destruct (verify_model _ _); [| done]. destruct (has_logit_bias request); [done |].
    assert (Hr' : running (scheduler (engine_gen_prompt self (req_messages request)).1) = []).
    { unfold engine_gen_prompt. by destruct (get_gen_prompt _ _). }
    destruct (engine_gen_prompt self (req_messages request)) as [self1 [prompt|e]]; [| done].
    simpl in *. unfold st_bind at 1 in E.
    destruct (check_length _ _ _ _ _) as [[token_ids|e]|] eqn:Hc; [| done ..]. simpl in E.
    destruct (request_sampling_params request) as [params|e]; [| done].
    destruct (default false (req_stream request)); [done |].
    assert (Htok : pl_tokenize (pipeline self1) prompt = Ok token_ids)
      by (by eapply check_length_tokens).
    destruct (decide (token_ids = [])) as [->|Hne].
    - destruct (generate_idle_empty checks fuel self1 ("cmpl-" +:+ env_uuid env) (env_created env)
        (env_now env) params w Hr' Hh) as (self2 & w2 & g & Eg & _).
      rewrite (st_bind_done _ _ _ _ _ Eg) in E. injection E as <- <- <-.
      split_and!; [done | done | by exists prompt].
    - by rewrite (st_bind_panic _ _ _ (generate_idle_nonempty checks fuel self1 token_ids
        ("cmpl-" +:+ env_uuid env) (env_created env) (env_now env) params w Hne)) in E.
  Qed.

End Handler.

(** *** Witnesses *)

Section HandlerExamples.

  #[local] Existing Instance plain_logprobs.
  #[local] Existing Instance canonical_order.
  #[local] Existing Instance plain_candle.
  #[local] Existing Instance plain_format.
  #[local] Existing Instance plain_pipeline.
  #[local] Existing Instance plain_display.

  (** A request with an empty literal prompt. *)
Definition ex_request : ChatCompletionRequest := {|
    req_model := "llama"; req_messages := Messages_Literal "";
    req_temperature := None; req_top_p := None; req_n := None; req_max_tokens := None;
    req_stop := None; req_stream := None; req_presence_penalty := None;
    req_frequency_penalty := None; req_logit_bias := None; req_user := None; req_top_k := None;
    req_best_of := None; req_use_beam_search := None; req_ignore_eos := None;
    req_skip_special_tokens := None; req_stop_token_ids := None |}.

Definition ex_env : Environment := mkEnvironment "uuid" 7 7.

Definition ex_reply : outcome World (Reply * LLMEngine (P := DefaultConversation)) :=
    chat_completions false 5 ex_env 4096 (ex_engine no_engine) ex_request empty_world.

Lemma no_request_gets_a_choice_witness :
    resp_choices (make_chat_response ex_request "cmpl-uuid" 7 []) = [].
  Proof.
    refine (proj1 (no_request_gets_a_choice false 5 ex_env 4096 (ex_engine no_engine) ex_request
      (make_chat_response ex_request "cmpl-uuid" 7 [])
      (result_of (EventStream [] "" 0 (ex_params 0), ex_engine no_engine) ex_reply).2
      empty_world (world_of ex_reply) eq_refl eq_refl _)).
    vm_compute. reflexivity.
  Defined.

End HandlerExamples.
