(* ===== verification/Serving.v ===== *)
(** * The server: requests in flight

    The engine is shared, an [Arc<Mutex<LLMEngine>>] ([src/openai/mod.rs]): the
    workers of the HTTP server run the handlers of several requests at once, each
    of which takes the mutex four times ([src/openai/openai_server.rs]), and a
    streaming request spawns a thread that takes it once more.  This file cuts the
    handler at its [data.model.lock().unwrap()]: a turn of a job is one critical
    section together with the code after it, and any interleaving of turns is
    possible.

    The mutex is the one of the standard library.  A thread that panics while it
    holds the guard poisons it, and [lock().unwrap()] panics from then on; a
    thread that never returns holds it forever, and the others wait. *)

From Stdlib Require Import ZArith SpecFloat Lia.
From stdpp Require Import base gmap sets strings pretty countable list relations.
From S2P Require Import Prelude Machine Sequence BlockEngine BlockEngineSpec CacheEngine Scheduler.
From S2P Require Import Api Candle Backend Attention Sampling Conversation Server Engine EngineSpec.
From S2P Require Import Handler.

(** How a critical section ends for the thread that runs it. *)
Inductive Section_end (A : Type) :=
  | Returned (a : A)
  | Panicked
  | Spins.
Arguments Returned {A} a.
Arguments Panicked {A}.
Arguments Spins {A}.

Section Serving.
  Context `{LogprobsSig} `{HashOrder} `{Candle} {P C : Type} `{!ModulePipeline P C}.
  Context `{Conversation C} `{FloatDisplay}.
  Context (checks : bool) (fuel : nat) (max_model_len : Z).

  (** ** The shared engine *)

  (** The data under the mutex, its poison flag, and whether a thread that never
      returns holds it.  What a panic leaves behind in the data is out of reach,
      because every use of the mutex unwraps its lock: the data is left as it was. *)
Record SharedEngine := mkShared {
    sh_engine : LLMEngine (P := P);
    sh_world : World;
    sh_poisoned : bool;
    sh_taken : bool;
  }.

  (** [let model = data.model.lock().unwrap(); k(model)]; [None]: the lock is not
      available. *)
Definition lock_model {A} (k : LLMEngine (P := P) → M (A * LLMEngine (P := P)))
    (s : SharedEngine) : option (Section_end A * SharedEngine) :=
    if sh_taken s then None
    else if sh_poisoned s then Some (Panicked, s)
    else match k (sh_engine s) (sh_world s) with
         | Done (a, e) w => Some (Returned a, mkShared e w false false)
         | Panic => Some (Panicked, mkShared (sh_engine s) (sh_world s) true false)
         | Hang => Some (Spins, mkShared (sh_engine s) (sh_world s) false true)
         end.

  (** ** The turns of a handler *)

  (** Where the handler of a request is: before its first, second, third or fourth
      critical section, or at its end; the thread of a streaming request is a job
      of its own. *)
Inductive Stage :=
    | AtVerify
    | AtPrompt
    | AtLength (prompt : string)
    | AtGenerate (token_ids : list nat) (request_id : string) (params : SamplingParams)
    | AtStream (token_ids : list nat) (request_id : string) (created : nat)
        (params : SamplingParams)
    | Replied (reply : Reply)
    | ThreadDone (sent : list APIError)
    | Crashed
    | Spinning.

  (** A turn, the stages of the threads it spawns, and the engine after it. *)
Definition turn {A} (r : option (Section_end A * SharedEngine)) (k : A → Stage * list Stage)
    : option (Stage * list Stage * SharedEngine) :=
    match r with
    | None => None
    | Some (Returned a, s) => Some (k a, s)
    | Some (Panicked, s) => Some (Crashed, [], s)
    | Some (Spins, s) => Some (Spinning, [], s)
    end.

  (** After [verify_model]: the answer, or on to the prompt. *)
Definition after_verify (request : ChatCompletionRequest) (current_name : string) : Stage :=
    match verify_model current_name (req_model request) with
    | Err e => Replied (Json (Err e))
    | Ok _ =>
        if has_logit_bias request then
          Replied (Json (Err (APIError_new_str "`logit_bias` is not currently supported.")))
        else AtPrompt
    end.

  (** After the tokenizer: the check of the length, the parameters, and for a
      streaming request the thread and the answer. *)
Definition after_tokenize (request : ChatCompletionRequest) (env : Environment) (prompt : string)
    (tokens : result (list nat)) : Stage * list Stage :=
    match check_length (λ _, tokens) checks (req_max_tokens request) prompt max_model_len with
    | None => (Crashed, [])
    | Some (Err e) => (Replied (Json (Err e)), [])
    | Some (Ok token_ids) =>
        let request_id := "cmpl-" +:+ env_uuid env in
        match request_sampling_params request with
        | Err e => (Replied (Json (Err e)), [])
        | Ok params =>
            if default false (req_stream request) then
              (Replied (EventStream token_ids request_id (env_created env) params),
               [AtStream token_ids request_id (env_created env) params])
            else (AtGenerate token_ids request_id params, [])
        end
    end.

Definition after_generate (request : ChatCompletionRequest) (env : Environment)
    (request_id : string) (r : result (list response)) : Stage :=
    match r with
    | Err e => Replied (Json (Err e))
    | Ok l => Replied (Json (Ok (make_chat_response request request_id (env_created env) l)))
    end.

  (** The next turn of a job; [None]: it is at its end, or waits for the mutex. *)
Definition stage_step (request : ChatCompletionRequest) (env : Environment) (s : SharedEngine)
    (st : Stage) : option (Stage * list Stage * SharedEngine) :=
    match st with
    | AtVerify =>
        turn (lock_model (λ e, st_ret (pl_name (pipeline e), e)) s)
          (λ name, (after_verify request name, []))
    | AtPrompt =>
        turn (lock_model (λ e, st_ret (prod_swap (engine_gen_prompt e (req_messages request)))) s)
          (λ r, (match r with Err e => Replied (Json (Err e)) | Ok prompt => AtLength prompt end, []))
    | AtLength prompt =>
        turn (lock_model (λ e, st_ret (pl_tokenize (pipeline e) prompt, e)) s)
          (after_tokenize request env prompt)
    | AtGenerate token_ids request_id params =>
        turn (lock_model (λ e, LLMEngine_generate checks fuel e token_ids request_id
                                 (env_created env) (env_now env) params) s)
          (λ r, (after_generate request env request_id r, []))
    | AtStream token_ids request_id created params =>
        turn (lock_model (λ e, stream_job checks fuel (env_now env) e token_ids request_id created
                                 params) s)
          (λ sent, (ThreadDone sent, []))
    | _ => None
    end.

  (** One handler with the engine to itself: the stage it ends at within [n]
      turns, the threads it has spawned, and the engine. *)
Fixpoint run_alone (n : nat) (request : ChatCompletionRequest) (env : Environment)
    (s : SharedEngine) (st : Stage) : Stage * list Stage * SharedEngine :=
    match n with
    | 0 => (st, [], s)
    | S n =>
        match stage_step request env s st with
        | None => (st, [], s)
        | Some (st, spawned, s) =>
            let '(st, spawned', s) := run_alone n request env s st in (st, spawned ++ spawned', s)
        end
    end.

  (** ** The server *)

Record Job := mkJob {
    job_request : ChatCompletionRequest;
    job_env : Environment;
    job_stage : Stage;
  }.

Definition at_stage (j : Job) (st : Stage) : Job := mkJob (job_request j) (job_env j) st.

  (** The engine and the jobs, in the order in which they came to be. *)
Definition serving : Type := SharedEngine * list Job.

  (** A request arrives: [HttpServer] calls the handler. *)
Inductive arrives : serving → serving → Prop :=
    | arrives_intro s jobs request env :
        arrives (s, jobs) (s, jobs ++ [mkJob request env AtVerify]).

  (** One of the jobs takes its turn. *)
Inductive takes_turn : serving → serving → Prop :=
    | takes_turn_intro s jobs i j st spawned s' :
        jobs !! i = Some j →
        stage_step (job_request j) (job_env j) s (job_stage j) = Some (st, spawned, s') →
        takes_turn (s, jobs) (s', <[i:=at_stage j st]> jobs ++ (at_stage j <$> spawned)).

Definition serves (c c' : serving) : Prop := arrives c c' ∨ takes_turn c c'.

  (** The turns of the jobs in a given order. *)
Definition exec_turn (c : serving) (i : nat) : option serving :=
    j ← c.2 !! i;
    '(st, spawned, s) ← stage_step (job_request j) (job_env j) c.1 (job_stage j);
    Some (s, <[i:=at_stage j st]> c.2 ++ (at_stage j <$> spawned)).

Fixpoint exec_turns (order : list nat) (c : serving) : option serving :=
    match order with
    | [] => Some c
    | i :: order => c ← exec_turn c i; exec_turns order c
    end.

  (** What a job has answered. *)
Definition reply_of (j : Job) : option Reply :=
    match job_stage j with Replied r => Some r | _ => None end.

Definition reply_at (c : serving) (i : nat) : option Reply := c.2 !! i ≫= reply_of.

  (** The threads that an answer leaves running. *)
Definition threads_of (reply : Reply) : list Stage :=
    match reply with
    | Json _ => []
    | EventStream token_ids request_id created params =>
        [AtStream token_ids request_id created params]
    end.

  (** The mutex is free and not poisoned. *)
Definition available (s : SharedEngine) : Prop := sh_poisoned s = false ∧ sh_taken s = false.

  (** ** Lemmas: one turn *)

Lemma lock_available {A} (k : LLMEngine (P := P) → M (A * LLMEngine (P := P))) e w :
    lock_model k (mkShared e w false false) =
    match k e w with
    | Done (a, e) w => Some (Returned a, mkShared e w false false)
    | Panic => Some (Panicked, mkShared e w true false)
    | Hang => Some (Spins, mkShared e w false true)
    end.
  Proof. done. Qed.

  (** A poisoned mutex is no use to anybody. *)
Lemma poisoned_turn request env s st :
    sh_poisoned s = true → sh_taken s = false →
    stage_step request env s st =
    match st with
    | AtVerify | AtPrompt | AtLength _ | AtGenerate _ _ _ | AtStream _ _ _ _ =>
        Some (Crashed, [], s)
    | _ => None
    end.
  Proof.
    intros Hp Ht. destruct st; simpl; unfold lock_model; rewrite ?Ht, ?Hp; done.
  Qed.

Lemma taken_turn request env s st : sh_taken s = true → stage_step request env s st = None.
  Proof. intros Ht. destruct st; simpl; unfold lock_model; by rewrite ?Ht. Qed.

  (** A stage at which a job can never take a turn again. *)
Definition is_final (st : Stage) : bool :=
    match st with
    | Replied _ | ThreadDone _ | Crashed | Spinning => true
    | _ => false
    end.

  (** ** Lemmas: executions *)

Lemma exec_turn_turn c i c' : exec_turn c i = Some c' → takes_turn c c'.
  Proof.
    intros E. apply bind_Some in E as (j & Hj & E).
    apply bind_Some in E as ([[st sp] s] & Hst & [= <-]). destruct c. by econstructor.
  Qed.

Lemma exec_turns_serve order c c' : exec_turns order c = Some c' → rtc serves c c'.
  Proof.
    revert c. induction order as [|i order IH]; simpl; intros c E; [by simplify_eq |].
    apply bind_Some in E as (c1 & E1 & E). eapply rtc_l; [right | by apply IH].
    by eapply exec_turn_turn.
  Qed.

Lemma arrivals_serve s jobs0 jobs :
    Forall (λ j, job_stage j = AtVerify) jobs → rtc serves (s, jobs0) (s, jobs0 ++ jobs).
  Proof.
    revert jobs0. induction jobs as [|[r v st] jobs IH]; intros jobs0 Hj; [by rewrite app_nil_r |].
    apply Forall_cons in Hj as [Hst Hj]. simpl in Hst. subst st.
    rewrite cons_middle, (assoc_L (++)).
    eapply rtc_l; [left; constructor | by apply IH].
  Qed.

  (** ** Lemmas: no service after a panic *)

  (** The mutex is poisoned and nobody holds it. *)
Definition dead (s : SharedEngine) : Prop := sh_poisoned s = true ∧ sh_taken s = false.

  (** No job answers that had not answered before. *)
Definition no_new_reply (c c' : serving) : Prop :=
    ∀ i r, reply_at c' i = Some r → reply_at c i = Some r.

#[export] Instance no_new_reply_preorder : PreOrder no_new_reply.
  Proof. split; [by intros c i r | intros c1 c2 c3 H12 H23 i r Hr; auto]. Qed.

Lemma reply_at_arrival s s' jobs request env i :
    reply_at (s', jobs ++ [mkJob request env AtVerify]) i = reply_at (s, jobs) i.
  Proof.
    unfold reply_at. simpl. destruct (decide (i < length jobs)) as [Hi|Hi].
    - by rewrite lookup_app_l.
    - rewrite lookup_app_r, (lookup_ge_None_2 jobs) by lia.
      by destruct (i - length jobs) as [|[|]].
  Qed.

  (** Where a reply after a turn comes from. *)
Lemma reply_at_turn s s' jobs i j st spawned k r :
    jobs !! i = Some j → Forall (λ x, is_final x = false) spawned →
    reply_at (s', <[i:=at_stage j st]> jobs ++ (at_stage j <$> spawned)) k = Some r →
    k = i ∧ st = Replied r ∨ k ≠ i ∧ reply_at (s, jobs) k = Some r.
  Proof.
    intros Hi Hsp. unfold reply_at. simpl. pose proof (lookup_lt_Some _ _ _ Hi) as Hlt.
    destruct (decide (k < length jobs)) as [Hk|Hk].
    - rewrite lookup_app_l by (by rewrite length_insert).
      destruct (decide (k = i)) as [->|Hne].
      + rewrite list_lookup_insert_eq by done. simpl. unfold reply_of. simpl.
        destruct st; naive_solver.
      + rewrite list_lookup_insert_ne by done. auto.
    - rewrite lookup_app_r by (rewrite length_insert; lia). rewrite list_lookup_fmap.
      destruct (spawned !! _) as [x|] eqn:Ex; simpl; [| done].
      pose proof (proj1 (Forall_lookup _ _) Hsp _ _ Ex) as Hx. unfold reply_of. simpl.
      by destruct x.
  Qed.

Lemma turn_spawned request env s st st' spawned s' :
    stage_step request env s st = Some (st', spawned, s') →
    Forall (λ x, is_final x = false) spawned.
  Proof.
    destruct st; simpl; try done;
      (destruct (lock_model _ _) as [[[a| |] s1]|]; simpl; [| by intros [= <- <- <-] ..| done]);
      intros E; try by injection E as <- <- <-.
    unfold after_tokenize in E. destruct (check_length _ _ _ _ _) as [[l|e]|];
      [| by injection E as <- <- <- ..].
    destruct (request_sampling_params request); [| by injection E as <- <- <-].
    destruct (default false (req_stream request)); injection E as <- <- <-; by repeat constructor.
  Qed.

Lemma dead_step c c' : serves c c' → dead c.1 → c'.1 = c.1 ∧ no_new_reply c c'.
  Proof.
    intros [Hs|Hs] [Hp Ht]; [destruct Hs as [s jobs request env]
                            |destruct Hs as [s jobs i j st spawned s' Hi E]]; simpl in *.
    - split; [done |]. intros k r. by rewrite (reply_at_arrival s).
    - pose proof (turn_spawned _ _ _ _ _ _ _ E) as Hsp. rewrite poisoned_turn in E by done.
      assert (st = Crashed ∧ spawned = [] ∧ s' = s) as (-> & -> & ->)
        by (destruct (job_stage j); by simplify_eq). split; [done |]. intros k r Hk.
      by destruct (reply_at_turn s s jobs i j Crashed [] k r Hi Hsp Hk) as [[_ ?]|[_ ?]].
  Qed.

Lemma dead_forever c c' : rtc serves c c' → dead c.1 → dead c'.1 ∧ no_new_reply c c'.
  Proof.
    induction 1 as [c|c1 c2 c3 Hs _ IH]; [done |]. intros Hd.
    destruct (dead_step _ _ Hs Hd) as [E Hn]. rewrite <- E in Hd.
    destruct (IH Hd) as [Hd' Hn']. split; [done | by etransitivity].
  Qed.

  (** ** Lemmas: an idle engine *)

  (** Nothing runs and no lock is held. *)
Definition idle (e : LLMEngine (P := P)) (w : World) : Prop :=
    running (scheduler e) = [] ∧ w_held w = ∅.

  (** Nobody holds the mutex, and what can be reached through it is idle. *)
Definition calm (s : SharedEngine) : Prop :=
    sh_taken s = false ∧ (sh_poisoned s = false → idle (sh_engine s) (sh_world s)).

  (** The turns a job has left, the ones of its thread included. *)
Definition stage_rank (st : Stage) : nat :=
    match st with
    | AtVerify => 4
    | AtPrompt => 3
    | AtLength _ => 2
    | AtGenerate _ _ _ | AtStream _ _ _ _ => 1
    | _ => 0
    end.

Definition work (jobs : list Job) : nat := sum_list ((λ j, stage_rank (job_stage j)) <$> jobs).

  (** A reply without choices, an error, a stream, or a stream at its end that
      nothing was sent to. *)
Definition choiceless (st : Stage) : Prop :=
    match st with
    | Replied (Json (Ok resp)) => resp_choices resp = []
    | ThreadDone sent => sent = []
    | Spinning => False
    | _ => True
    end.

  (** What a turn promises, from a calm server. *)
Record turn_ok (s s' : SharedEngine) (st st' : Stage) (spawned : list Stage) : Prop := {
    to_calm : calm s';
    to_choiceless : choiceless st';
    to_rank : stage_rank st' + sum_list (stage_rank <$> spawned) < stage_rank st;
    to_spawned : Forall choiceless spawned;
  }.

  (** A critical section that only looks at the engine, or keeps its scheduler. *)
Lemma calm_section {A} (k : LLMEngine (P := P) → A * LLMEngine (P := P)) s :
    calm s → (∀ e, scheduler (k e).2 = scheduler e) →
    ∃ r s', lock_model (λ e, st_ret (k e)) s = Some (r, s') ∧ calm s' ∧
      (r = Panicked ∨ r = Returned (k (sh_engine s)).1).
  Proof.
    intros Hc Hk. pose proof Hc as [Ht Hi]. unfold lock_model. rewrite Ht.
    destruct (sh_poisoned s) eqn:Hp; [exists Panicked, s; by auto |]. simpl.
    destruct (k (sh_engine s)) as [a e] eqn:Ek. eexists _, _. split; [done |].
    split; [| by right]. split; [done |]. intros _. destruct (Hi eq_refl) as [Hr Hh].
    split; [| done]. simpl. specialize (Hk (sh_engine s)). rewrite Ek in Hk. simpl in Hk.
    by rewrite Hk.
  Qed.

  (** A request that reaches an idle engine: no prompt, no response; a prompt, a
      panic. *)
Lemma calm_generate s token_ids request_id created now params :
    calm s →
    ∃ r s', lock_model (λ e, LLMEngine_generate checks fuel e token_ids request_id created now
                               params) s = Some (r, s') ∧ calm s' ∧
      (r = Panicked ∧ sh_poisoned s' = true ∨
       r = Returned (Ok []) ∧ token_ids = [] ∧ sh_poisoned s' = false ∧
       pipeline (sh_engine s') = pipeline (sh_engine s)).
  Proof.
    intros Hc. pose proof Hc as [Ht Hi]. unfold lock_model. rewrite Ht.
    destruct (sh_poisoned s) eqn:Hp; [exists Panicked, s; by auto |].
    destruct (Hi eq_refl) as [Hr Hh]. destruct token_ids as [|t token_ids].
    - destruct (generate_idle_empty checks fuel (sh_engine s) request_id created now params
        (sh_world s) Hr Hh) as (e' & w' & g & -> & _ & Hr' & Hpl & Hh').
      eexists _, _. split; [done |]. split; [by split | by right].
    - rewrite generate_idle_nonempty by done. eexists _, _. split; [done |].
      split; [by split | by left].
  Qed.

Lemma turn_crashed {A} (k : A → Stage * list Stage) s s' st :
    calm s' → 0 < stage_rank st →
    ∃ st' spawned s'', turn (Some (Panicked, s')) k = Some (st', spawned, s'') ∧
      turn_ok s s'' st st' spawned.
  Proof. intros Hc Hst. eexists _, _, _. by split; [| split]. Qed.

Lemma turn_returned {A} (k : A → Stage * list Stage) a s s' st :
    calm s' → choiceless (k a).1 → stage_rank (k a).1 + sum_list (stage_rank <$> (k a).2) < stage_rank st →
    Forall choiceless (k a).2 →
    ∃ st' spawned s'', turn (Some (Returned a, s')) k = Some (st', spawned, s'') ∧
      turn_ok s s'' st st' spawned.
  Proof. intros. exists (k a).1, (k a).2, s'. split; [| done]. simpl. by destruct (k a). Qed.

  (** What a critical section does with the result of a call. *)
Lemma lock_bind {A B} (k : LLMEngine (P := P) → M (A * LLMEngine (P := P))) (f : A → B) s :
    lock_model (λ e, let! (a, e) := k e in st_ret (f a, e)) s =
    match lock_model k s with
    | Some (Returned a, s) => Some (Returned (f a), s)
    | Some (Panicked, s) => Some (Panicked, s)
    | Some (Spins, s) => Some (Spins, s)
    | None => None
    end.
  Proof.
    unfold lock_model, st_bind. destruct (sh_taken s), (sh_poisoned s); try done.
    by destruct (k _ _) as [[]| |].
  Qed.

Lemma after_tokenize_ok request env prompt tokens :
    let '(st, spawned) := after_tokenize request env prompt tokens in
    choiceless st ∧ stage_rank st + sum_list (stage_rank <$> spawned) ≤ 1 ∧ Forall choiceless spawned.
  Proof.
    unfold after_tokenize. destruct (check_length _ _ _ _ _) as [[l|e]|];
      [| simpl; by split_and?; try lia ..].
    destruct (request_sampling_params request); [| simpl; by split_and?; try lia].
    destruct (default false (req_stream request)); simpl; by split_and?; try lia; repeat constructor.
  Qed.

Lemma generate_keeps_pipeline s token_ids request_id created now params r s' :
    calm s →
    lock_model (λ e, LLMEngine_generate checks fuel e token_ids request_id created now params) s =
      Some (r, s') →
    sh_engine s' = sh_engine s ∨ pipeline (sh_engine s') = pipeline (sh_engine s).
  Proof.
    intros Hc E. destruct (calm_generate s token_ids request_id created now params Hc)
      as (r1 & s1 & E1 & _ & [[-> Hp] | (_ & _ & _ & Hpl)]); rewrite E in E1; injection E1 as -> ->;
      [left | by right].
    unfold lock_model in E. destruct (sh_taken s), (sh_poisoned s); try done; [by injection E as <- |].
    destruct (LLMEngine_generate _ _ _ _ _ _ _ _ _) as [[] ?| |]; try done; by injection E as <-.
  Qed.

Lemma calm_turn request env s st :
    calm s → is_final st = false →
    ∃ st' spawned s', stage_step request env s st = Some (st', spawned, s') ∧
      turn_ok s s' st st' spawned.
  Proof.
    intros Hc Hst. destruct st as [| |prompt|token_ids rid params|token_ids rid created params| | | |];
      try done; cbn [stage_step].
    - destruct (calm_section (λ e, (pl_name (pipeline e), e)) s Hc)
        as (r & s' & -> & Hc' & [-> | ->]); [done | apply turn_crashed; simpl; auto; lia |].
      apply turn_returned; [done | | | done]; unfold after_verify;
        destruct (verify_model _ _); simpl; try destruct (has_logit_bias request); simpl; auto; lia.
    - destruct (calm_section (λ e, prod_swap (engine_gen_prompt e (req_messages request))) s Hc)
        as (r & s' & -> & Hc' & [-> | ->]); [| apply turn_crashed; simpl; auto; lia |].
      + intros e. unfold engine_gen_prompt. by destruct (get_gen_prompt _ _).
      + apply turn_returned; [done | | | done]; destruct (prod_swap _).1; simpl; auto; lia.
    - destruct (calm_section (λ e, (pl_tokenize (pipeline e) prompt, e)) s Hc)
        as (r & s' & -> & Hc' & [-> | ->]); [done | apply turn_crashed; simpl; auto; lia |].
      pose proof (after_tokenize_ok request env prompt (pl_tokenize (pipeline (sh_engine s)) prompt)).
      apply turn_returned; [done | ..]; simpl; destruct (after_tokenize _ _ _ _) as [st sp];
        destruct_and!; simpl; auto; lia.
    - destruct (calm_generate s token_ids rid (env_created env) (env_now env) params Hc)
        as (r & s' & -> & Hc' & [[-> _] | (-> & _)]); [apply turn_crashed; simpl; auto; lia |].
      apply turn_returned; simpl; auto; lia.
    - destruct (calm_generate s token_ids rid created (env_now env) params Hc)
        as (r & s' & E & Hc' & Hr).
      unfold stream_job. rewrite lock_bind, E.
      destruct Hr as [[-> _] | (-> & _)]; [apply turn_crashed; simpl; auto; lia |].
      apply turn_returned; simpl; auto; lia.
  Qed.

  (** ** Lemmas: runs *)

  (** The invariant of every interleaving. *)
Record sound (c : serving) : Prop := {
    so_calm : calm c.1;
    so_jobs : Forall (λ j, choiceless (job_stage j)) c.2;
  }.

Lemma final_no_turn request env s st :
    is_final st = true → stage_step request env s st = None.
  Proof. by destruct st. Qed.

  (** What a turn of a sound server is. *)
Lemma turn_inv c c' :
    takes_turn c c' → sound c →
    ∃ i j st spawned, c.2 !! i = Some j ∧
      stage_step (job_request j) (job_env j) c.1 (job_stage j) = Some (st, spawned, c'.1) ∧
      c'.2 = <[i:=at_stage j st]> c.2 ++ (at_stage j <$> spawned) ∧
      turn_ok c.1 c'.1 (job_stage j) st spawned.
  Proof.
    intros Ht [Hc _]. destruct Ht as [s jobs i j st spawned s' Hi E]. simpl in *.
    exists i, j, st, spawned. split_and!; try done.
    destruct (is_final (job_stage j)) eqn:Hf; [by rewrite final_no_turn in E |].
    destruct (calm_turn (job_request j) (job_env j) s (job_stage j) Hc Hf)
      as (st1 & sp1 & s1 & E1 & Hok). rewrite E in E1. by injection E1 as <- <- <-.
  Qed.

Lemma sound_step c c' : serves c c' → sound c → sound c'.
  Proof.
    intros [Ha|Ht] Hs.
    - destruct Ha. destruct Hs as [Hc Hj]. split; [done |]. simpl in *.
      apply Forall_app. split; [done | by repeat constructor].
    - destruct (turn_inv _ _ Ht Hs) as (i & j & st & spawned & Hi & _ & E & Hok).
      destruct Hs as [_ Hj], Hok as [Hc Hst _ Hsp]. split; [done |]. rewrite E.
      apply Forall_app. split; [by apply Forall_insert |]. by apply Forall_fmap.
  Qed.

Lemma sound_reach c c' : rtc serves c c' → sound c → sound c'.
  Proof. induction 1; eauto using sound_step. Qed.

Lemma turn_works c c' : takes_turn c c' → sound c → work c'.2 < work c.2.
  Proof.
    intros Ht Hs. destruct (turn_inv _ _ Ht Hs) as (i & j & st & spawned & Hi & _ & -> & Hok).
    pose proof (to_rank _ _ _ _ _ Hok) as Hr. unfold work.
    rewrite fmap_app, sum_list_with_app.
    pose proof (sum_list_fmap_insert (λ j, stage_rank (job_stage j)) c.2 i j (at_stage j st) Hi).
    simpl in *. rewrite <- list_fmap_compose. unfold compose. simpl.
    change (λ x, stage_rank x) with stage_rank. lia.
  Qed.

Lemma turns_work n c c' : nsteps takes_turn n c c' → sound c → n + work c'.2 ≤ work c.2.
  Proof.
    induction 1 as [c|n c1 c2 c3 Ht _ IH]; intros Hs; [done |].
    pose proof (turn_works _ _ Ht Hs). specialize (IH (sound_step _ _ (or_intror Ht) Hs)). lia.
  Qed.

Lemma work_bound jobs : work jobs ≤ 4 * length jobs.
  Proof.
    induction jobs as [|j jobs IH]; [done |]. unfold work in *. csimpl.
    assert (stage_rank (job_stage j) ≤ 4) by (destruct (job_stage j); simpl; lia). lia.
  Qed.

Lemma stuck_final c :
    sound c → (∀ c', ¬ takes_turn c c') → Forall (λ j, is_final (job_stage j) = true) c.2.
  Proof.
    intros [Hc _] Hn. apply Forall_lookup. intros i j Hi.
    destruct (is_final (job_stage j)) eqn:Hf; [done |]. exfalso.
    destruct (calm_turn (job_request j) (job_env j) c.1 (job_stage j) Hc Hf)
      as (st & sp & s' & E & _). destruct c as [s jobs]. eapply Hn. by econstructor.
  Qed.

  (** The tokens a stage brings to the engine. *)
Definition tokens_of (st : Stage) : option (list nat) :=
    match st with
    | AtGenerate token_ids _ _ | AtStream token_ids _ _ _ => Some token_ids
    | _ => None
    end.

Lemma generate_crashes request env s st t token_ids :
    available s → tokens_of st = Some (t :: token_ids) →
    ∃ s', stage_step request env s st = Some (Crashed, [], s') ∧ dead s'.
  Proof.
    intros [Hp Ht] Htok.
    destruct st as [| | |l rid params|l rid created params| | | |]; try done;
      injection Htok as ->; cbn [stage_step]; unfold lock_model, stream_job;
      rewrite Ht, Hp, ?(st_bind_panic _ _ _ (generate_idle_nonempty checks fuel (sh_engine s)
        (t :: token_ids) rid created (env_now env) params (sh_world s) ltac:(done)));
      rewrite ?generate_idle_nonempty by done; eexists; by split.
  Qed.

  (** ** Lemmas: the shared conversation *)

  (** What the conversation of the pipeline prints. *)
Definition shared_prompt (s : SharedEngine) : string :=
    get_prompt (pl_conversation (pipeline (sh_engine s))).

  (** The turn at which the messages of job [i], a list, become the prompt [p]. *)
Record prompted (c c' : serving) (i : nat) (p : string) : Prop := {
    pr_turn : takes_turn c c';
    pr_before : ∃ j messages, c.2 !! i = Some j ∧ job_stage j = AtPrompt ∧
      req_messages (job_request j) = Messages_Map messages;
    pr_after : ∃ j, c'.2 !! i = Some j ∧ job_stage j = AtLength p;
  }.

  (** The requests of the jobs stay. *)
Lemma requests_stay (Q : ChatCompletionRequest → Prop) c c' :
    serves c c' → Forall (λ j, Q (job_request j)) c'.2 → Forall (λ j, Q (job_request j)) c.2.
  Proof.
    intros [[s jobs r v]|[s jobs i j st spawned s' Hi _]] [Hf _]%Forall_app; [done |].
    simpl. apply Forall_lookup. intros k x Hk. destruct (decide (k = i)) as [->|Hne].
    - rewrite Hi in Hk. injection Hk as <-.
      apply (proj1 (Forall_lookup _ _) Hf i (at_stage j st)).
      apply list_lookup_insert_eq. by eapply lookup_lt_Some.
    - apply (proj1 (Forall_lookup _ _) Hf k). by rewrite list_lookup_insert_ne.
  Qed.

  Context `{!ConversationLaws C} `{!PipelineLaws P C}.

Lemma prompt_grows_in_section e messages :
    no_system_in messages →
    ∃ x, get_prompt (pl_conversation (pipeline (engine_gen_prompt e messages).1)) =
         get_prompt (pl_conversation (pipeline e)) +:+ x.
  Proof.
    intros Hns. unfold engine_gen_prompt.
    destruct (get_gen_prompt_grows (pl_conversation (pipeline e)) messages Hns) as [x Hx].
    destruct (get_gen_prompt _ _) as [c r]. exists x. simpl. by rewrite pl_conversation_set.
  Qed.

  (** Looking at the engine does not change what is under the mutex. *)
Lemma lock_look {A} (f : LLMEngine (P := P) → A) s r s' :
    lock_model (λ e, st_ret (f e, e)) s = Some (r, s') → sh_engine s' = sh_engine s.
  Proof.
    unfold lock_model. destruct (sh_taken s), (sh_poisoned s); try done; by intros [= <- <-].
  Qed.

Lemma turn_engine {A} (r : option (Section_end A * SharedEngine)) k st sp s' :
    turn r k = Some (st, sp, s') → ∃ e, r = Some (e, s').
  Proof. destruct r as [[[a| |] s1]|]; simpl; [.. | done]; intros [=]; subst; eauto. Qed.

  (** The shared prompt grows with every turn. *)
Lemma prompt_grows request env s st st' sp s' :
    calm s → no_system_in (req_messages request) →
    stage_step request env s st = Some (st', sp, s') →
    ∃ x, shared_prompt s' = shared_prompt s +:+ x.
  Proof.
    intros Hc Hns E. unfold shared_prompt.
    assert (Hsame : sh_engine s' = sh_engine s ∨ pipeline (sh_engine s') = pipeline (sh_engine s) →
      ∃ x, shared_prompt s' = shared_prompt s +:+ x).
    { unfold shared_prompt. intros [-> | ->]; exists ""; by rewrite string_app_nil_r. }
    destruct st as [| |prompt|l rid params|l rid created params| | | |]; try done;
      cbn [stage_step] in E; apply turn_engine in E as [r E].
    - apply Hsame. left. exact (lock_look (λ e, pl_name (pipeline e)) _ _ _ E).
    - unfold lock_model in E. destruct (sh_taken s); [done |].
      destruct (sh_poisoned s); [injection E as <- <-; apply Hsame; auto |].
      injection E as <- <-. by apply prompt_grows_in_section.
    - apply Hsame. left. exact (lock_look (λ e, pl_tokenize (pipeline e) prompt) _ _ _ E).
    - apply Hsame, (generate_keeps_pipeline _ _ _ _ _ _ _ _ Hc E).
    - unfold stream_job in E. rewrite lock_bind in E.
      destruct (lock_model _ s) as [[r1 s1]|] eqn:E1; [| done].
      assert (s1 = s') as -> by (destruct r1; by injection E).
      apply Hsame, (generate_keeps_pipeline _ _ _ _ _ _ _ _ Hc E1).
  Qed.

Lemma prompt_grows_step c c' :
    sound c → serves c c' → Forall (λ j, no_system_in (req_messages (job_request j))) c'.2 →
    ∃ x, shared_prompt c'.1 = shared_prompt c.1 +:+ x.
  Proof.
    intros [Hc _] Hs Hf. pose proof (requests_stay (λ r, no_system_in (req_messages r)) _ _ Hs Hf) as Hj.
    destruct Hs as [Hs|Hs]; [destruct Hs as [s jobs r v] | destruct Hs as [s jobs i j st sp s' Hi E]];
      simpl in *.
    - exists "". by rewrite string_app_nil_r.
    - eapply prompt_grows; [exact Hc | | exact E]. by apply (proj1 (Forall_lookup _ _) Hj i j).
  Qed.

Lemma prompt_grows_reach c c' :
    rtc serves c c' → sound c → Forall (λ j, no_system_in (req_messages (job_request j))) c'.2 →
    (∃ x, shared_prompt c'.1 = shared_prompt c.1 +:+ x) ∧
    Forall (λ j, no_system_in (req_messages (job_request j))) c.2.
  Proof.
    induction 1 as [c|c1 c2 c3 Hs _ IH]; intros Hc Hf.
    - split; [exists ""; by rewrite string_app_nil_r | done].
    - destruct (IH (sound_step _ _ Hs Hc) Hf) as [[x Hx] Hf2].
      destruct (prompt_grows_step _ _ Hc Hs Hf2) as [y Hy].
      split; [exists (y +:+ x); by rewrite Hx, Hy, string_app_assoc |].
      by apply (requests_stay (λ r, no_system_in (req_messages r)) _ _ Hs).
  Qed.

  (** The prompt of that turn is the one of the shared conversation. *)
Lemma prompted_shared c c' i p : sound c → prompted c c' i p → p = shared_prompt c'.1.
  Proof.
    intros Hs [Ht (j & messages & Hj & Hst & Hm) (j' & Hj' & Hst')].
    destruct (turn_inv _ _ Ht Hs) as (k & q & st & sp & Hk & E & E' & _).
    rewrite E' in Hj'. rewrite lookup_app_l in Hj'
      by (rewrite length_insert; by eapply lookup_lt_Some).
    destruct (decide (i = k)) as [<-|Hne].
    - rewrite Hj in Hk. injection Hk as <-.
      rewrite list_lookup_insert_eq in Hj' by (by eapply lookup_lt_Some). injection Hj' as <-.
      simpl in Hst'. subst st. rewrite Hst in E. cbn [stage_step] in E.
      unfold lock_model in E. destruct (sh_taken c.1), (sh_poisoned c.1); try done.
      unfold shared_prompt, engine_gen_prompt in *. rewrite Hm in E.
      destruct (get_gen_prompt (pl_conversation (pipeline (sh_engine c.1))) (Messages_Map messages))
        as [cv r] eqn:Eg. simpl in E.
      assert (Hr : r = Ok p ∧ c'.1 = mkShared (set_pipeline (sh_engine c.1)
        (pl_set_conversation (pipeline (sh_engine c.1)) cv)) (sh_world c.1) false false)
        by (destruct r; by simplify_eq).
      destruct Hr as [-> ->]. simpl. rewrite pl_conversation_set.
      pose proof (get_gen_prompt_prompt (pl_conversation (pipeline (sh_engine c.1))) messages p) as Hg.
      rewrite Eg in Hg. by apply Hg.
    - rewrite list_lookup_insert_ne, Hj in Hj' by done. injection Hj' as <-. congruence.
  Qed.

End Serving.

(** ** Properties *)

Section ServingProperties.
  Context `{LogprobsSig} `{HashOrder} `{Candle} {P C : Type} `{!ModulePipeline P C}.
  Context `{Conversation C} `{FloatDisplay}.
  Context (checks : bool) (fuel : nat) (max_model_len : Z).

  (** A check of the model: the turns add up to the handler.  A request that is alone
      with the engine takes at most four turns; they end with the answer of
      [chat_completions], its engine and its heap, and leave the thread of a streaming
      answer to run; or in a crash where it panics, or in a lock that is never given
      back where it never returns. *)
Theorem handler_alone request env e w :
    let '(st, spawned, s) := run_alone checks fuel max_model_len 4 request env
                               (mkShared e w false false) AtVerify in
    match chat_completions checks fuel env max_model_len e request w with
    | Done (reply, e') w' =>
        st = Replied reply ∧ spawned = threads_of reply ∧ s = mkShared e' w' false false
    | Panic => st = Crashed ∧ spawned = []
    | Hang => st = Spinning ∧ spawned = [] ∧ sh_taken s = true
    end.
  Proof.
    unfold chat_completions. cbn [run_alone stage_step]. rewrite lock_available. simpl.
    unfold after_verify. destruct (verify_model _ _) as [[]|err]; [| done].
    destruct (has_logit_bias request); [done |]. cbn [stage_step]. rewrite lock_available.
    destruct (engine_gen_prompt e (req_messages request)) as [e1 [prompt|err]]; [| done].
    simpl. unfold after_tokenize, check_length.
    destruct (pl_tokenize (pipeline e1) prompt) as [tokens|err]; [| done].
    destruct (match req_max_tokens request with Some _ => _ | None => _ end) as [m|]; [| done].
    destruct (usize_add _ _ _) as [total|]; [| done].
    destruct (max_model_len <? total)%Z; [done |]. unfold st_bind at 1. simpl.
    destruct (request_sampling_params request) as [params|err]; [| done].
    destruct (default false (req_stream request)); [done |]. cbn [stage_step].
    rewrite lock_available. unfold st_bind.
    by destruct (LLMEngine_generate _ _ _ _ _ _ _ _ w) as [[[l|err] e2] w2| |].
  Qed.

  (** C22: one prompt ends the service.  The handler, or the thread of a stream, that
      brings a prompt with a token to the engine panics while it holds the mutex.
      From then on, whatever arrives and however the turns interleave, no request
      is answered that had not been answered before, not even with an error: every
      job that is not at its end can take its turn, and crashes. *)
Theorem one_prompt_stops_service s jobs i j t token_ids :
    available s → jobs !! i = Some j → tokens_of (job_stage j) = Some (t :: token_ids) →
    ∃ s', stage_step checks fuel max_model_len (job_request j) (job_env j) s (job_stage j) =
        Some (Crashed, [], s') ∧
      ∀ c, rtc (serves checks fuel max_model_len) (s', <[i:=at_stage j Crashed]> jobs) c →
        no_new_reply (s, jobs) c ∧
        ∀ k j', c.2 !! k = Some j' → is_final (job_stage j') = false →
          stage_step checks fuel max_model_len (job_request j') (job_env j') c.1 (job_stage j') =
            Some (Crashed, [], c.1).
  Proof.
    intros Hav Hi Ht. destruct (generate_crashes checks fuel max_model_len (job_request j) (job_env j)
      s (job_stage j) t token_ids Hav Ht) as (s' & E & Hd).
    exists s'. split; [done |]. intros c Hc.
    destruct (dead_forever checks fuel max_model_len _ _ Hc Hd) as [[Hp Hk] Hn]. split.
    - etransitivity; [| exact Hn]. intros k r Hr.
      rewrite <- (app_nil_r (<[i:=_]> jobs)) in Hr.
      by destruct (reply_at_turn s s' jobs i j Crashed [] k r Hi (Forall_nil_2 _) Hr)
        as [[_ ?]|[_ ?]].
    - intros k j' _ Hf. rewrite poisoned_turn by done. by destruct (job_stage j').
  Qed.

  (** C23: no interleaving helps.  On a server whose engine is idle and whose mutex is
      free, whatever requests arrive and in whatever order their turns come, no
      request is ever answered with a choice, nothing is ever sent to a stream, and no
      thread keeps the mutex. *)
Theorem no_choice_in_any_interleaving s c :
    available s → idle (sh_engine s) (sh_world s) →
    rtc (serves checks fuel max_model_len) (s, []) c →
    sh_taken c.1 = false ∧
    ∀ i j, c.2 !! i = Some j → job_stage j ≠ Spinning ∧
      (∀ sent, job_stage j = ThreadDone sent → sent = []) ∧
      ∀ resp, reply_of j = Some (Json (Ok resp)) → resp_choices resp = [].
  Proof.
    intros [Hp Ht] Hi Hc.
    assert (sound c) as [[Htk _] Hj].
    { eapply sound_reach; [exact Hc |]. by split; [split |]. }
    split; [done |]. intros i j Hij. pose proof (proj1 (Forall_lookup _ _) Hj i j Hij) as Hch.
    unfold reply_of. simpl in Hch. destruct (job_stage j) as [| | | | |[[resp|e]|] | | |]; try done;
      (split_and!; [done | |]; intros ? [=]; by subst).
  Qed.

  (** C24: the server never gets stuck.  From any state that requests and turns reach
      on an idle engine, and in every order of the turns, at most four turns per job
      remain; and when no turn is possible any more, every job is at its end. *)
Theorem turns_terminate s c n c' :
    available s → idle (sh_engine s) (sh_world s) →
    rtc (serves checks fuel max_model_len) (s, []) c →
    nsteps (takes_turn checks fuel max_model_len) n c c' →
    n ≤ 4 * length c.2 ∧
    ((∀ c'', ¬ takes_turn checks fuel max_model_len c' c'') →
     Forall (λ j, is_final (job_stage j) = true) c'.2).
  Proof.
    intros [Hp Ht] Hi Hc Hn.
    assert (sound c) as Hs.
    { eapply sound_reach; [exact Hc |]. by split; [split |]. }
    split.
    - pose proof (turns_work checks fuel max_model_len n c c' Hn Hs).
      pose proof (work_bound c.2). lia.
    - intros Hno. eapply stuck_final; [| exact Hno].
      eapply sound_reach; [| exact Hs]. apply rtc_nsteps_2 in Hn.
      eapply rtc_subrel; [| exact Hn]. intros ? ? ?. by right.
  Qed.

  Context `{!ConversationLaws C} `{!PipelineLaws P C}.

  (** C25: conversations leak between concurrent requests.  For two requests that give
      their messages as a list ([prompted]; a request that gives a literal prompt gets
      that prompt), while no request sends a system message (which would rewrite the
      start of the conversation): whatever the interleaving, the prompt of the later
      one starts with the whole prompt of the earlier one, whoever sent it. *)
Theorem prompts_leak_in_every_interleaving s c1 c2 c3 c4 i1 i2 p1 p2 :
    available s → idle (sh_engine s) (sh_world s) →
    rtc (serves checks fuel max_model_len) (s, []) c1 →
    prompted checks fuel max_model_len c1 c2 i1 p1 →
    rtc (serves checks fuel max_model_len) c2 c3 →
    prompted checks fuel max_model_len c3 c4 i2 p2 →
    Forall (λ j, no_system_in (req_messages (job_request j))) c4.2 →
    ∃ x, p2 = p1 +:+ x.
  Proof.
    intros [Hp Ht] Hi R1 Hp1 R2 Hp2 Hns.
    assert (sound c1) as Hs1.
    { eapply sound_reach; [exact R1 |]. by split; [split |]. }
    pose proof (sound_step _ _ _ _ _ (or_intror (pr_turn _ _ _ _ _ _ _ Hp1)) Hs1) as Hs2.
    pose proof (sound_reach _ _ _ _ _ R2 Hs2) as Hs3.
    pose proof (or_intror (pr_turn _ _ _ _ _ _ _ Hp2) : serves checks fuel max_model_len c3 c4) as R3.
    destruct (prompt_grows_reach _ _ _ c2 c4 ltac:(by eapply rtc_r) Hs2 Hns) as [[x Hx] _].
    rewrite (prompted_shared _ _ _ _ _ _ _ Hs1 Hp1), (prompted_shared _ _ _ _ _ _ _ Hs3 Hp2).
    by exists x.
  Qed.

End ServingProperties.

(** *** Witnesses *)

Section ServingExamples.

  #[local] Existing Instance plain_logprobs.
  #[local] Existing Instance canonical_order.
  #[local] Existing Instance plain_candle.
  #[local] Existing Instance plain_format.
  #[local] Existing Instance plain_pipeline.
  #[local] Existing Instance plain_display.

Lemma plain_pipeline_laws : PipelineLaws DefaultConversation DefaultConversation.
  Proof. by split. Qed.

  #[local] Existing Instance plain_pipeline_laws.

Definition ex_shared : SharedEngine (P := DefaultConversation) :=
    mkShared (ex_engine no_engine) empty_world false false.

  (** The state after the turns of [order], from a server with the jobs given. *)
Definition ex_run (jobs : list Job) (order : list nat) : serving (P := DefaultConversation) :=
    default (ex_shared, []) (exec_turns false 5 4096 order (ex_shared, jobs)).

  (** A job that has a prompt of two tokens. *)
Definition ex_job : Job :=
    mkJob ex_request ex_env (AtGenerate [1; 2] "cmpl-uuid" (ex_params (-1))).

Definition ex_arrived : Job := mkJob ex_request ex_env AtVerify.

Lemma one_prompt_stops_service_witness :
    ∃ s', stage_step false 5 4096 ex_request ex_env ex_shared (job_stage ex_job) =
        Some (Crashed, [], s') ∧
      stage_step false 5 4096 ex_request ex_env s' AtVerify = Some (Crashed, [], s').
  Proof.
    destruct (one_prompt_stops_service false 5 4096 ex_shared [ex_job] 0 ex_job 1 [2]
      (conj eq_refl eq_refl) eq_refl eq_refl) as (s' & E & Hc).
    exists s'. split; [exact E |].
    refine (proj2 (Hc (s', [at_stage ex_job Crashed] ++ [ex_arrived]) _) 1 ex_arrived eq_refl eq_refl).
    apply rtc_once. left. constructor.
  Defined.

Lemma ex_reached jobs order :
    Forall (λ j, job_stage j = AtVerify) jobs →
    is_Some (exec_turns false 5 4096 order (ex_shared, jobs)) →
    rtc (serves false 5 4096) (ex_shared, []) (ex_run jobs order).
  Proof.
    intros Hj [c E]. unfold ex_run. rewrite E. simpl.
    etransitivity; [by apply arrivals_serve | by eapply exec_turns_serve].
  Qed.

Lemma no_choice_in_any_interleaving_witness :
    sh_taken (ex_run [ex_arrived; ex_arrived] [0; 1; 1; 0; 0; 1; 1; 0]).1 = false.
  Proof.
    refine (proj1 (no_choice_in_any_interleaving false 5 4096 ex_shared _ (conj eq_refl eq_refl)
      (conj eq_refl eq_refl) (ex_reached [ex_arrived; ex_arrived] [0; 1; 1; 0; 0; 1; 1; 0] _ _))).
    - repeat constructor.
    - vm_compute. eauto.
  Defined.

Lemma turns_terminate_witness :
    ∃ c', nsteps (takes_turn false 5 4096) 2 (ex_shared, [ex_arrived; ex_arrived]) c' ∧
      2 ≤ 4 * length [ex_arrived; ex_arrived].
  Proof.
    assert (Hc : rtc (serves false 5 4096) (ex_shared, []) (ex_shared, [ex_arrived; ex_arrived])).
    { apply (arrivals_serve false 5 4096 ex_shared []). by repeat constructor. }
    assert (Hn : nsteps (takes_turn false 5 4096) 2 (ex_shared, [ex_arrived; ex_arrived])
      (ex_run [ex_arrived; ex_arrived] [0; 1])).
    { eapply nsteps_l; [by apply (exec_turn_turn false 5 4096 _ 0) |].
      eapply nsteps_l; [by apply (exec_turn_turn false 5 4096 _ 1) |]. constructor. }
    exists (ex_run [ex_arrived; ex_arrived] [0; 1]). split; [exact Hn |].
    exact (proj1 (turns_terminate false 5 4096 ex_shared (ex_shared, [ex_arrived; ex_arrived]) 2 _
      (conj eq_refl eq_refl) (conj eq_refl eq_refl) Hc Hn)).
  Defined.

  (** A request with one message of a user. *)
Definition ex_chat (content : string) : Job :=
    mkJob {| req_model := "llama";
             req_messages := Messages_Map [{["role" := "user"; "content" := content]}];
             req_temperature := None; req_top_p := None; req_n := None; req_max_tokens := None;
             req_stop := None; req_stream := None; req_presence_penalty := None;
             req_frequency_penalty := None; req_logit_bias := None; req_user := None;
             req_top_k := None; req_best_of := None; req_use_beam_search := None;
             req_ignore_eos := None; req_skip_special_tokens := None;
             req_stop_token_ids := None |} ex_env AtVerify.

Definition ex_chats (order : list nat) : serving (P := DefaultConversation) :=
    ex_run [ex_chat "What is Rust?"; ex_chat "Tell me a secret."] order.

Lemma ex_prompted order i :
    ∀ c c', c = ex_chats order → c' = ex_chats (order ++ [i]) →
    exec_turn false 5 4096 c i = Some c' →
    match c.2 !! i, c'.2 !! i with
    | Some j, Some j' =>
        job_stage j = AtPrompt ∧ (∃ l, req_messages (job_request j) = Messages_Map l) ∧
        job_stage j' = AtLength (shared_prompt c'.1)
    | _, _ => False
    end →
    prompted false 5 4096 c c' i (shared_prompt c'.1).
  Proof.
    intros c c' _ _ E Hm. destruct (c.2 !! i) as [j|] eqn:Hj, (c'.2 !! i) as [j'|] eqn:Hj'; try done.
    destruct Hm as (Hst & [l Hl] & Hst'). split; [by eapply exec_turn_turn | by eauto ..].
  Qed.

Lemma prompts_leak_in_every_interleaving_witness :
    ∃ x, shared_prompt (ex_chats [0; 1; 1; 0]).1 = shared_prompt (ex_chats [0; 1; 1]).1 +:+ x.
  Proof.
    refine (prompts_leak_in_every_interleaving false 5 4096 ex_shared (ex_chats [0; 1])
      (ex_chats [0; 1; 1]) (ex_chats [0; 1; 1]) (ex_chats [0; 1; 1; 0]) 1 0 _ _
      (conj eq_refl eq_refl) (conj eq_refl eq_refl) _ _ _ _ _).
    - apply ex_reached; [by repeat constructor | vm_compute; eauto].
    - apply (ex_prompted [0; 1] 1 _ _ eq_refl eq_refl); vm_compute; eauto.
    - reflexivity.
    - apply (ex_prompted [0; 1; 1] 0 _ _ eq_refl eq_refl); vm_compute; eauto.
    - vm_compute. repeat constructor; by intros [=].
  Defined.

End ServingExamples.
