(* ===== verification/ServingSpec.v ===== *)
(** * The server: what it comes down to

    An abstract specification of the server of [Serving]: a service with a name, a
    tokenizer and a conversation, which is alive until the first prompt with a
    token reaches it.  It has no engine, no scheduler and no heap; the theorem says
    that on an idle engine nothing of them shows. *)

From Stdlib Require Import ZArith SpecFloat Lia.
From stdpp Require Import base gmap sets strings pretty countable list relations.
From S2P Require Import Prelude Machine Sequence BlockEngine BlockEngineSpec CacheEngine Scheduler.
From S2P Require Import Api Candle Backend Attention Sampling Conversation Server Engine EngineSpec.
From S2P Require Import Handler Serving.

Section ServingSpec.
  Context `{LogprobsSig} `{HashOrder} `{Candle} {P C : Type} `{!ModulePipeline P C}.
  Context `{Conversation C} `{FloatDisplay}.
  Context (checks : bool) (fuel : nat) (max_model_len : Z).

  (** ** The specification *)

Record Service := mkService {
    sv_name : string;
    sv_tokenize : string → result (list nat);
    sv_conversation : C;
    sv_alive : bool;
  }.

Definition service_step (request : ChatCompletionRequest) (env : Environment) (sv : Service)
    (st : Stage) : option (Stage * list Stage * Service) :=
    if is_final st then None
    else if negb (sv_alive sv) then Some (Crashed, [], sv)
    else
      match st with
      | AtVerify => Some (after_verify request (sv_name sv), [], sv)
      | AtPrompt =>
          let '(c, r) := get_gen_prompt (sv_conversation sv) (req_messages request) in
          Some (match r with Err e => Replied (Json (Err e)) | Ok prompt => AtLength prompt end, [],
                mkService (sv_name sv) (sv_tokenize sv) c true)
      | AtLength prompt =>
          Some (after_tokenize checks max_model_len request env prompt (sv_tokenize sv prompt), sv)
      | AtGenerate [] request_id _ => Some (after_generate request env request_id (Ok []), [], sv)
      | AtStream [] _ _ _ => Some (ThreadDone [], [], sv)
      | _ => Some (Crashed, [], mkService (sv_name sv) (sv_tokenize sv) (sv_conversation sv) false)
      end.

  (** Arrivals and turns. *)
Inductive service_serves : Service * list Job → Service * list Job → Prop :=
    | service_arrival sv jobs request env :
        service_serves (sv, jobs) (sv, jobs ++ [mkJob request env AtVerify])
    | service_turn sv jobs i j st spawned sv' :
        jobs !! i = Some j →
        service_step (job_request j) (job_env j) sv (job_stage j) = Some (st, spawned, sv') →
        service_serves (sv, jobs) (sv', <[i:=at_stage j st]> jobs ++ (at_stage j <$> spawned)).

  (** What shows of the shared engine. *)
Definition service_of (s : SharedEngine (P := P)) : Service :=
    let p := pipeline (sh_engine s) in
    mkService (pl_name p) (pl_tokenize p) (pl_conversation p) (negb (sh_poisoned s)).

  (** ** Lemmas *)

  Context `{!PipelineLaws P C}.

Lemma service_of_killed e w b :
    service_of (mkShared e w true b) =
    mkService (pl_name (pipeline e)) (pl_tokenize (pipeline e)) (pl_conversation (pipeline e)) false.
  Proof. done. Qed.

  (** A generation, on an engine that is alive. *)
Lemma generate_service s token_ids rid created now params :
    calm s → sh_poisoned s = false →
    ∃ s', lock_model (λ e, LLMEngine_generate checks fuel e token_ids rid created now params) s =
        Some (if decide (token_ids = []) then Returned (Ok []) else Panicked, s') ∧
      service_of s' = if decide (token_ids = []) then service_of s
                      else mkService (sv_name (service_of s)) (sv_tokenize (service_of s))
                             (sv_conversation (service_of s)) false.
  Proof.
    intros [Ht Hi] Hp. destruct (Hi Hp) as [Hr Hh]. unfold lock_model. rewrite Ht, Hp.
    case_decide as Hn; [subst token_ids | rewrite generate_idle_nonempty by done; by eexists].
    destruct (generate_idle_empty checks fuel (sh_engine s) rid created now params
      (sh_world s) Hr Hh) as (e' & w' & g & -> & _ & _ & Hpl & _).
    eexists. split; [done |]. unfold service_of. simpl. by rewrite Hpl, Hp.
  Qed.

  (** The turns correspond, one by one. *)
Lemma stage_step_service request env s st :
    calm s →
    match service_step request env (service_of s) st with
    | None => stage_step checks fuel max_model_len request env s st = None
    | Some (st', spawned, sv) =>
        ∃ s', stage_step checks fuel max_model_len request env s st = Some (st', spawned, s') ∧
              service_of s' = sv
    end.
  Proof.
    intros Hc. pose proof Hc as [Ht Hi]. unfold service_step.
    destruct (is_final st) eqn:Hf; [by apply final_no_turn |]. simpl.
    destruct (sh_poisoned s) eqn:Hp; simpl.
    { exists s. rewrite poisoned_turn by done. split; [by destruct st |].
      unfold service_of. by rewrite Hp. }
    destruct st as [| |prompt|token_ids rid params|token_ids rid created params| | | |]; try done.
    - exists (mkShared (sh_engine s) (sh_world s) false false). cbn [stage_step].
      unfold lock_model. rewrite Ht, Hp. simpl. split; [done |]. unfold service_of. simpl. by rewrite Hp.
    - cbn [stage_step]. unfold lock_model, engine_gen_prompt. rewrite Ht, Hp.
      destruct (get_gen_prompt _ _) as [c r]. simpl. eexists. split; [done |].
      unfold service_of. simpl. by rewrite pl_name_set, pl_tokenize_set, pl_conversation_set.
    - cbn [stage_step]. unfold lock_model. rewrite Ht, Hp. simpl.
      destruct (after_tokenize _ _ _ _ _ _) as [st' spawned].
      exists (mkShared (sh_engine s) (sh_world s) false false). split; [done |].
      unfold service_of. simpl. by rewrite Hp.
    - destruct (generate_service s token_ids rid (env_created env) (env_now env) params Hc Hp)
        as (s' & E & Es). cbn [stage_step]. rewrite E.
      destruct token_ids as [|t token_ids]; simpl in *; by exists s'.
    - destruct (generate_service s token_ids rid created (env_now env) params Hc Hp) as (s' & E & Es).
      cbn [stage_step]. unfold stream_job. rewrite lock_bind, E.
      destruct token_ids as [|t token_ids]; simpl in *; by exists s'.
  Qed.

  (** One step of the server is one step of the service. *)
Lemma serves_service c c' :
    sound c → serves checks fuel max_model_len c c' →
    service_serves (service_of c.1, c.2) (service_of c'.1, c'.2).
  Proof.
    intros [Hc _] [Hs|Hs]; [destruct Hs; constructor |].
    destruct Hs as [s jobs i j st spawned s' Hi E]. simpl in *. apply service_turn; [done |].
    pose proof (stage_step_service (job_request j) (job_env j) s (job_stage j) Hc) as Hsp.
    rewrite E in Hsp. destruct (service_step _ _ _ _) as [[[st1 sp1] sv]|]; [| done].
    destruct Hsp as (s1 & [= -> -> ->] & <-). done.
  Qed.

  (** And the other way round. *)
Lemma service_serves_server s jobs c' :
    sound (s, jobs) → service_serves (service_of s, jobs) c' →
    ∃ s', serves checks fuel max_model_len (s, jobs) (s', c'.2) ∧ service_of s' = c'.1.
  Proof.
    intros [Hc _] Hs. inversion Hs as [sv js request env|sv js i j st spawned sv' Hi E]; subst; simpl.
    - exists s. split; [left; constructor | done].
    - pose proof (stage_step_service (job_request j) (job_env j) s (job_stage j) Hc) as Hsp.
      rewrite E in Hsp. destruct Hsp as (s' & E' & <-). exists s'. split; [right | done].
      by constructor.
  Qed.

End ServingSpec.

(** ** Properties *)

Section ServingSpecProperties.
  Context `{LogprobsSig} `{HashOrder} `{Candle} {P C : Type} `{!ModulePipeline P C}.
  Context `{Conversation C} `{FloatDisplay} `{!PipelineLaws P C}.
  Context (checks : bool) (fuel : nat) (max_model_len : Z).

  (** C21: on an idle engine the server is the service of the specification, for every
      order of arrivals and turns.  Every run of the server is a run of the service
      with the same jobs at the same stages, and every run of the service is one of
      the server: of the engine, its scheduler and its heap nothing shows but the
      name, the tokenizer, the conversation, and whether a prompt with a token has
      reached it. *)
Theorem server_refines_service s :
    available s → idle (sh_engine s) (sh_world s) →
    (∀ c, rtc (serves checks fuel max_model_len) (s, []) c →
       rtc (service_serves checks max_model_len) (service_of s, []) (service_of c.1, c.2)) ∧
    (∀ sv jobs, rtc (service_serves checks max_model_len) (service_of s, []) (sv, jobs) →
       ∃ s', rtc (serves checks fuel max_model_len) (s, []) (s', jobs) ∧ service_of s' = sv).
  Proof.
    intros [Hp Ht] Hi. assert (Hs : sound (s, [])) by by split; [split |]. clear Hi. split.
    - intros c Hr. change (service_of s, []) with (service_of (s, @nil Job).1, (s, @nil Job).2).
      revert Hs. induction Hr as [c|c1 c2 c3 H12 _ IH]; intros Hs; [done |].
      eapply rtc_l; [by eapply serves_service | apply IH; by eapply sound_step].
    - intros sv jobs Hr. remember (service_of s, []) as c eqn:Ec. remember (sv, jobs) as c' eqn:Ec'.
      assert (Hgen : ∀ js, sound (s, js) → c = (service_of s, js) →
        ∃ s', rtc (serves checks fuel max_model_len) (s, js) (s', c'.2) ∧ service_of s' = c'.1).
      { clear Hp Ht Hs Ec Ec' sv jobs. revert s.
        induction Hr as [c|c1 c2 c3 H12 _ IH]; intros s js Hs ->; [by exists s |].
        destruct (service_serves_server _ fuel _ s js c2 Hs H12) as (s2 & Hstep & E2).
        destruct (IH s2 c2.2) as (s3 & Hr3 & E3).
        - by eapply sound_step.
        - rewrite E2. by destruct c2.
        - exists s3. split; [by eapply rtc_l | done]. }
      destruct (Hgen [] Hs Ec) as (s' & Hr' & E'). subst c'. by exists s'.
  Qed.

End ServingSpecProperties.

(** *** Witnesses *)

Section ServingSpecExamples.

  #[local] Existing Instance plain_logprobs.
  #[local] Existing Instance canonical_order.
  #[local] Existing Instance plain_candle.
  #[local] Existing Instance plain_format.
  #[local] Existing Instance plain_pipeline.
  #[local] Existing Instance plain_display.
  #[local] Existing Instance plain_pipeline_laws.

  (** Two chats, the second of which is verified and becomes a prompt in between. *)
Lemma server_refines_service_witness :
    rtc (service_serves false 4096) (service_of ex_shared, [])
      (service_of (ex_chats [0; 1; 1; 0]).1, (ex_chats [0; 1; 1; 0]).2).
  Proof.
    refine (proj1 (server_refines_service false 5 4096 ex_shared (conj eq_refl eq_refl)
      (conj eq_refl eq_refl)) _ _).
    apply ex_reached; [by repeat constructor | vm_compute; eauto].
  Defined.

End ServingSpecExamples.
