(* ===== verification/Streaming.v ===== *)
(** * Streams and the clock

    [src/openai/streaming.rs], the thread of a streaming request
    ([src/openai/openai_server.rs]) and [src/openai/utils.rs].  The thread feeds a
    bounded channel of [tokio], and the HTTP server polls the other end. *)

From Stdlib Require Import ZArith Lia.
From Stdlib Require Import Strings.Byte.
From stdpp Require Import base gmap sets strings countable list relations.
From S2P Require Import Prelude Machine Sequence BlockEngine BlockEngineSpec CacheEngine Scheduler.
From S2P Require Import Api Candle Backend Attention Sampling Conversation Server Engine EngineSpec.
From S2P Require Import Handler Serving.

(** ** The clock *)

(** [get_created_time_secs]; the time is in nanoseconds since the epoch, and [None] is
    the panic before it. *)
Definition get_created_time_secs (now : Z) : option Z :=
  if (now <? 0)%Z then None else Some (now / 10 ^ 9)%Z.

(** What the handler reads off the clock: [created], and the time of arrival that
    [add_request] gives the group. *)
Definition read_environment (uuid : string) (created now : Z) : option Environment :=
  created ← get_created_time_secs created;
  now ← get_created_time_secs now;
  Some (mkEnvironment uuid (Z.to_nat created) (Z.to_nat now)).

(** A group arrives no earlier than its request was created, if the clock is not set
    back in between. *)
Lemma arrival_after_creation uuid created now env :
  (created ≤ now)%Z → read_environment uuid created now = Some env → env_created env ≤ env_now env.
Proof.
  intros Hle E. unfold read_environment, get_created_time_secs in E.
  destruct (created <? 0)%Z; [done |]. destruct (now <? 0)%Z; [done |]. injection E as <-. simpl.
  assert (created `div` 10 ^ 9 ≤ now `div` 10 ^ 9)%Z by (by apply Z.div_le_mono). lia.
Qed.

(** ** The channel of tokio *)

Inductive Poll (A : Type) :=
  | Ready (a : A)
  | Pending.
Arguments Ready {A} a.
Arguments Pending {A}.

(** [tokio::sync::mpsc] with one sender.  The future of [send] is ready with [true]
    when the value is accepted and with [false] when the receiver is gone. *)
Class Channel (A : Type) := {
  Chan : Type;
  channel : nat → Chan;
  chan_send : A → Chan → Poll bool * Chan;
  poll_recv : Chan → Poll (option A) * Chan;
  drop_sender : Chan → Chan;
  drop_receiver : Chan → Chan;
}.

(** What the documentation promises: a bounded queue with two ends. *)
Record Contents (A : Type) := mkContents {
  queued : list A;
  capacity : nat;
  sender_alive : bool;
  receiver_alive : bool;
}.
Arguments mkContents {A} _ _ _ _.
Arguments queued {A} _.
Arguments capacity {A} _.
Arguments sender_alive {A} _.
Arguments receiver_alive {A} _.

Definition contents_send {A} (a : A) (v : Contents A) : Poll bool * Contents A :=
  if negb (receiver_alive v) then (Ready false, v)
  else if decide (length (queued v) < capacity v) then
    (Ready true, mkContents (queued v ++ [a]) (capacity v) (sender_alive v) true)
  else (Pending, v).

Definition contents_recv {A} (v : Contents A) : Poll (option A) * Contents A :=
  match queued v with
  | a :: q => (Ready (Some a), mkContents q (capacity v) (sender_alive v) (receiver_alive v))
  | [] => (if sender_alive v then Pending else Ready None, v)
  end.

Class ChannelLaws (A : Type) `{Channel A} := {
  contents : Chan → Contents A;
  contents_channel n : 0 < n → contents (channel n) = mkContents [] n true true;
  contents_chan_send a c : prod_map id contents (chan_send a c) = contents_send a (contents c);
  contents_poll_recv c : prod_map id contents (poll_recv c) = contents_recv (contents c);
  contents_drop_sender c : contents (drop_sender c) =
    mkContents (queued (contents c)) (capacity (contents c)) false (receiver_alive (contents c));
  contents_drop_receiver c : contents (drop_receiver c) =
    mkContents [] (capacity (contents c)) (sender_alive (contents c)) false;
}.

Definition Bytes : Type := list byte.

(** What else the thread uses: whether [tokio] can build a runtime, and
    [serde_json::to_vec]. *)
Class StreamHost := {
  runtime_builds : bool;
  to_vec : APIError → option Bytes;
}.

Section Streaming.
  Context `{LogprobsSig} {SenderError : Type}.

  (** The items of a stream. *)
Definition Item : Type := Bytes + SenderError.

  Context `{!Channel Item} `{!StreamHost}.

  (** Both ends of the channel; [Client] is the receiving one. *)
Definition new_streaming_conn : Chan := channel 128.

Definition Client_poll_next (c : Chan) : Poll (option Item) * Chan := poll_recv c.

  (** ** The thread and its client *)

  (** The thread of a streaming request: it generates under the mutex, waits for
      [send], or is at its end, regularly, by a panic, or in a loop forever. *)
Inductive StreamThread :=
    | Generating
    | Sending (bytes : Bytes)
    | Finished
    | Unwound
    | Looping.

  (** What the thread does with what [generate] comes to. *)
Definition after_stream_generate (model_res : Section_end (result (list response)))
    : StreamThread :=
    match model_res with
    | Returned (Ok _) => Finished
    | Returned (Err e) =>
        if negb runtime_builds then Unwound
        else match to_vec e with Some bytes => Sending bytes | None => Unwound end
    | Panicked => Unwound
    | Spins => Looping
    end.

  (** A thread that is at its end has dropped its sender. *)
Definition leave_thread (t : StreamThread) (c : Chan) : Chan :=
    match t with Finished | Unwound => drop_sender c | _ => c end.

  (** A stream, with what the client has received, whether it has seen the end, and
      whether it is still there. *)
Record Stream := mkStream {
    stream_chan : Chan;
    stream_thread : StreamThread;
    stream_received : list Item;
    stream_ended : bool;
    stream_connected : bool;
  }.

Definition stream_start : Stream := mkStream new_streaming_conn Generating [] false true.

  (** One step of the thread or of the client.  A poll that is [Pending] changes
      nothing of the client. *)
Inductive stream_step (model_res : Section_end (result (list response))) : Stream → Stream → Prop :=
    | stream_generated c rs ended conn :
        let t := after_stream_generate model_res in
        stream_step model_res (mkStream c Generating rs ended conn)
          (mkStream (leave_thread t c) t rs ended conn)
    | stream_sent c bytes rs ended conn accepted c' :
        chan_send (inl bytes) c = (Ready accepted, c') →
        stream_step model_res (mkStream c (Sending bytes) rs ended conn)
          (mkStream (leave_thread Finished c') Finished rs ended conn)
    | stream_item c t rs a c' :
        Client_poll_next c = (Ready (Some a), c') →
        stream_step model_res (mkStream c t rs false true) (mkStream c' t (rs ++ [a]) false true)
    | stream_end c t rs c' :
        Client_poll_next c = (Ready None, c') →
        stream_step model_res (mkStream c t rs false true) (mkStream c' t rs true true)
    | stream_pending c t rs c' :
        Client_poll_next c = (Pending, c') →
        stream_step model_res (mkStream c t rs false true) (mkStream c' t rs false true)
    | stream_disconnected c t rs ended :
        stream_step model_res (mkStream c t rs ended true)
          (mkStream (drop_receiver c) t rs ended false).

  (** ** The specification *)

  (** The body of the answer. *)
Definition stream_body (model_res : Section_end (result (list response))) : list Item :=
    match model_res with
    | Returned (Err e) =>
        match to_vec e with Some bytes => if runtime_builds then [inl bytes] else [] | None => [] end
    | _ => []
    end.

  Context `{!ChannelLaws Item}.

Definition stream_inv (r : Section_end (result (list response))) (s : Stream) : Prop :=
    let v := contents (stream_chan s) in
    0 < capacity v ∧ receiver_alive v = stream_connected s ∧
    match stream_thread s with
    | Finished | Unwound =>
        r ≠ Spins ∧ sender_alive v = false ∧ stream_received s `prefix_of` stream_body r ∧
        (stream_connected s = true → stream_received s ++ queued v = stream_body r) ∧
        (stream_ended s = true → stream_received s = stream_body r)
    | t =>
        sender_alive v = true ∧ queued v = [] ∧ stream_received s = [] ∧ stream_ended s = false ∧
        match t with
        | Sending bytes => stream_body r = [inl bytes]
        | Looping => r = Spins
        | _ => True
        end
    end.

  (** ** Lemmas *)

Lemma send_view a c p c' :
    chan_send a c = (p, c') → contents_send a (contents c) = (p, contents c').
  Proof. intros E. pose proof (contents_chan_send a c) as L. by rewrite E in L. Qed.

Lemma recv_view c p c' :
    Client_poll_next c = (p, c') → contents_recv (contents c) = (p, contents c').
  Proof. intros E. pose proof (contents_poll_recv c) as L. unfold Client_poll_next in E. by rewrite E in L. Qed.

Lemma stream_start_inv r : stream_inv r stream_start.
  Proof.
    unfold stream_inv, stream_start, new_streaming_conn. simpl.
    rewrite contents_channel by lia. simpl. split_and!; try done; lia.
  Qed.

Lemma generated_inv r c rs ended conn :
    stream_inv r (mkStream c Generating rs ended conn) →
    stream_inv r (mkStream (leave_thread (after_stream_generate r) c) (after_stream_generate r)
                    rs ended conn).
  Proof.
    unfold stream_inv. simpl. intros (Hc & Hr & Hs & Hq & -> & -> & _).
    destruct r as [[l|e]| |]; simpl; rewrite ?contents_drop_sender; simpl; rewrite ?Hq;
      try by split_and!.
    destruct runtime_builds, (to_vec e); simpl; rewrite ?contents_drop_sender; simpl;
      rewrite ?Hq; by split_and!.
  Qed.

Lemma sent_inv r c bytes rs ended conn accepted c' :
    chan_send (inl bytes) c = (Ready accepted, c') →
    stream_inv r (mkStream c (Sending bytes) rs ended conn) →
    stream_inv r (mkStream (drop_sender c') Finished rs ended conn).
  Proof.
    unfold stream_inv. simpl. intros E%send_view (Hc & Hr & Hs & Hq & -> & -> & Hb).
    rewrite contents_drop_sender. simpl. unfold contents_send in E. rewrite Hr, Hq in E.
    assert (r ≠ Spins) by (intros ->; done).
    destruct conn; simpl in E; [case_decide; [| done] |]; injection E as <- <-; simpl;
      rewrite Hb; split_and!; try done; by apply prefix_nil.
  Qed.

Lemma polled_inv r c t rs p c' :
    Client_poll_next c = (p, c') → stream_inv r (mkStream c t rs false true) →
    match p with
    | Ready (Some a) => stream_inv r (mkStream c' t (rs ++ [a]) false true)
    | Ready None => stream_inv r (mkStream c' t rs true true)
    | Pending => stream_inv r (mkStream c' t rs false true)
    end.
  Proof.
    unfold stream_inv. simpl. intros E%recv_view (Hc & Hr & Ht). unfold contents_recv in E.
    destruct t; (destruct (queued (contents c)) as [|a q] eqn:Hq; [| try (by naive_solver)]).
    all: try (destruct Ht as (Hs & _ & -> & _ & Hb); rewrite Hs in E; injection E as <- <-;
      by rewrite Hq).
    all: destruct Ht as (Hn & Hs & Hp & Hb & _); specialize (Hb eq_refl); rewrite ?Hs in E;
      injection E as <- <-; simpl.
    all: rewrite ?app_nil_r in Hb; rewrite ?Hq, <- ?Hb, <- ?(assoc_L (++)), ?app_nil_r; simpl.
    all: split_and!; try done; try (by eexists); exists q; by rewrite <- (assoc_L (++)).
  Qed.

Lemma disconnected_inv r c t rs ended :
    stream_inv r (mkStream c t rs ended true) →
    stream_inv r (mkStream (drop_receiver c) t rs ended false).
  Proof.
    unfold stream_inv. simpl. rewrite contents_drop_receiver. simpl.
    intros (Hc & _ & Ht). split_and!; [done | done |]. destruct t; naive_solver.
  Qed.

Lemma stream_step_inv r s s' : stream_step r s s' → stream_inv r s → stream_inv r s'.
  Proof.
    destruct 1 as [| |c t rs a c' E|c t rs c' E|c t rs c' E|]; intros Hi.
    - by apply generated_inv.
    - by eapply sent_inv.
    - exact (polled_inv _ _ _ _ _ _ E Hi).
    - exact (polled_inv _ _ _ _ _ _ E Hi).
    - exact (polled_inv _ _ _ _ _ _ E Hi).
    - by apply disconnected_inv.
  Qed.

Lemma stream_reachable_inv r s : rtc (stream_step r) stream_start s → stream_inv r s.
  Proof.
    intros Hr. assert (Hgen : ∀ s0, rtc (stream_step r) s0 s → stream_inv r s0 → stream_inv r s).
    { clear Hr. induction 1; eauto using stream_step_inv. }
    eapply Hgen; [done | apply stream_start_inv].
  Qed.

  (** The thread never waits for its client. *)
Lemma send_ready r s bytes :
    stream_inv r s → stream_thread s = Sending bytes →
    ∃ c, chan_send (inl bytes) (stream_chan s) = (Ready (stream_connected s), c).
  Proof.
    unfold stream_inv. intros (Hc & Hr & Ht) E. rewrite E in Ht. destruct Ht as (_ & Hq & _).
    destruct (chan_send (inl bytes) (stream_chan s)) as [p c] eqn:Es. exists c. f_equal.
    apply send_view in Es. unfold contents_send in Es. rewrite Hq, Hr in Es.
    destruct (stream_connected s); simpl in Es; [| by injection Es].
    destruct (decide _) as [_|Hn]; [by injection Es | simpl in Hn; lia].
  Qed.

  (** What the client has received. *)
Lemma received_prefix r s : stream_inv r s → stream_received s `prefix_of` stream_body r.
  Proof.
    intros (_ & _ & Ht). destruct (stream_thread s); [| |by apply Ht ..|];
      destruct Ht as (_ & _ & -> & _); apply prefix_nil.
  Qed.

Lemma ended_body r s :
    stream_inv r s → stream_ended s = true → r ≠ Spins ∧ stream_received s = stream_body r.
  Proof.
    intros (_ & _ & Ht) He. destruct (stream_thread s); [| |split; by apply Ht ..|];
      destruct Ht as (_ & _ & _ & Hn & _); by rewrite He in Hn.
  Qed.

  (** A finished thread's client can be served to the end. *)
Lemma drain r s :
    stream_inv r s → stream_thread s = Finished ∨ stream_thread s = Unwound →
    stream_connected s = true →
    ∃ s', rtc (stream_step r) s s' ∧ stream_ended s' = true.
  Proof.
    destruct s as [c t rs ended conn]. simpl. intros Hi Ht ->.
    remember (queued (contents c)) as q eqn:Hq. revert c rs Hi Hq.
    induction q as [|a q IH]; intros c rs Hi Hq;
      (destruct ended; [by eexists; split; [reflexivity |] |]);
      destruct (Client_poll_next c) as [p c'] eqn:E; pose proof (recv_view _ _ _ E) as Ev;
      unfold contents_recv in Ev; rewrite <- Hq in Ev.
    - assert (sender_alive (contents c) = false) as Hs.
      { destruct Hi as (_ & _ & Hi). destruct Ht as [-> | ->]; apply Hi. }
      rewrite Hs in Ev. injection Ev as <- _. eexists.
      split; [apply rtc_once; by eapply stream_end | done].
    - injection Ev as <- Ev. pose proof (stream_item r c t rs a c' E) as Hstep.
      destruct (IH c' (rs ++ [a])) as (s' & Hr & He).
      + exact (polled_inv _ _ _ _ _ _ E Hi).
      + by rewrite <- Ev.
      + exists s'. split; [by eapply rtc_l | done].
  Qed.

Lemma stream_can_end r s :
    stream_inv r s → r ≠ Spins → stream_connected s = true →
    ∃ s', rtc (stream_step r) s s' ∧ stream_ended s' = true.
  Proof.
    assert (Hsend : ∀ s, stream_inv r s → stream_connected s = true →
      (∃ b, stream_thread s = Sending b) ∨ stream_thread s = Finished ∨ stream_thread s = Unwound →
      ∃ s', rtc (stream_step r) s s' ∧ stream_ended s' = true).
    { clear s. intros s Hi Hc [[b Hb]|Ht]; [| by apply (drain r)].
      destruct (send_ready r s b Hi Hb) as [c E]. destruct s as [c0 t rs ended conn]. simpl in *.
      subst. pose proof (stream_sent r c0 b rs ended true true c E) as Hs.
      destruct (drain r _ (stream_step_inv _ _ _ Hs Hi)) as (s' & Hr & He); [auto | done |].
      exists s'. split; [by eapply rtc_l | done]. }
    intros Hi Hr Hc. destruct s as [c t rs ended conn]. simpl in *. subst conn.
    destruct t as [|b| | |]; [| by apply Hsend; eauto ..| by destruct Hi as (_ & _ & ? & ? & ? & ? & ?)].
    pose proof (stream_generated r c rs ended true) as Hs. simpl in Hs.
    destruct (Hsend _ (stream_step_inv _ _ _ Hs Hi)) as (s' & Hr' & He); [done | |].
    - simpl. destruct r as [[l|e]| |]; simpl; [by auto | | by auto | done].
      destruct runtime_builds, (to_vec e); simpl; eauto.
    - exists s'. split; [by eapply rtc_l | done].
  Qed.

End Streaming.

(** ** Properties *)

Section StreamingProperties.
  Context `{LogprobsSig} {SenderError : Type}.
  Context `{!Channel (Item (SenderError := SenderError))} `{!StreamHost} `{!ChannelLaws Item}.

  (** C27: in every interleaving of the thread of a streaming request with its client,
      which may go away at any time: the thread, which still holds the mutex of the
      engine, never waits for its client; the client receives a prefix of the body, and
      the whole body when it sees the end; and a client that stays can see the end
      unless the generation never returns, in which case nobody does. *)
Theorem stream_delivers r s :
    rtc (stream_step r) stream_start s →
    (∀ bytes, stream_thread s = Sending bytes →
       ∃ c, chan_send (inl bytes) (stream_chan s) = (Ready (stream_connected s), c)) ∧
    stream_received s `prefix_of` stream_body r ∧
    (stream_ended s = true → r ≠ Spins ∧ stream_received s = stream_body r) ∧
    (r ≠ Spins → stream_connected s = true →
       ∃ s', rtc (stream_step r) s s' ∧ stream_ended s' = true).
  Proof.
    intros Hi%stream_reachable_inv. split_and!.
    - intros bytes. exact (send_ready r s bytes Hi).
    - exact (received_prefix r s Hi).
    - exact (ended_body r s Hi).
    - exact (stream_can_end r s Hi).
  Qed.

  (** ** The stream of an idle engine *)

  Context `{HashOrder} `{Candle} {P C : Type} `{!ModulePipeline P C}.
  Context `{Conversation C}.

  (** What [Serving] says the thread sends is the body, where the runtime can be
      built and an error can be serialised. *)
Lemma stream_job_body checks fuel token_ids rid created now params (json : APIError → Bytes)
      (s : SharedEngine (P := P)) sent s' :
    runtime_builds = true → (∀ e, to_vec e = Some (json e)) →
    lock_model (λ e, stream_job checks fuel now e token_ids rid created params) s =
      Some (Returned sent, s') →
    ∃ r, lock_model (λ e, LLMEngine_generate checks fuel e token_ids rid created now params) s =
           Some (Returned r, s') ∧
         stream_body (SenderError := SenderError) (Returned r) = (inl ∘ json) <$> sent.
  Proof.
    intros Hb Hj. unfold stream_job. rewrite lock_bind.
    destruct (lock_model _ s) as [[[r| |] s1]|]; intros [= <- <-]. exists r. split; [done |].
    simpl. destruct r as [l|err]; [done |]. by rewrite Hj, Hb.
  Qed.

  (** On an idle engine the body of a stream is empty, whether the generation panics
      or returns, and the client gets to its end: it cannot tell the two apart. *)
Theorem idle_stream_is_empty checks fuel token_ids rid created now params
      (s : SharedEngine (P := P)) r s' t :
    available s → idle (sh_engine s) (sh_world s) →
    lock_model (λ e, LLMEngine_generate checks fuel e token_ids rid created now params) s =
      Some (r, s') →
    rtc (stream_step r) stream_start t → stream_connected t = true →
    (r = Panicked ↔ token_ids ≠ []) ∧
    ∃ t', rtc (stream_step r) t t' ∧ stream_ended t' = true ∧ stream_received t' = [].
  Proof.
    intros [Hp Ht] [Hr Hh] E Hreach Hconn.
    assert (r = if decide (token_ids = []) then Returned (Ok []) else Panicked) as Er.
    { unfold lock_model in E. rewrite Hp, Ht in E. case_decide as Hn; [subst token_ids |].
      - destruct (generate_idle_empty checks fuel (sh_engine s) rid created now params
          (sh_world s) Hr Hh) as (e' & w' & g & Eg & _). rewrite Eg in E. by injection E as <- _.
      - rewrite generate_idle_nonempty in E by done. by injection E as <- _. }
    split; [rewrite Er; by case_decide |].
    assert (r ≠ Spins ∧ stream_body (SenderError := SenderError) r = []) as [Hs Hb] by (rewrite Er; by case_decide).
    destruct (stream_can_end r t (stream_reachable_inv r t Hreach) Hs Hconn) as (t' & Htt & He).
    exists t'. split_and!; [done | done |]. rewrite <- Hb.
    apply ended_body; [| done]. apply stream_reachable_inv. by etransitivity.
  Qed.

End StreamingProperties.

(** *** Witnesses *)

Section StreamingExamples.

  #[local] Existing Instance plain_logprobs.

  (** The bounded queue itself is a channel, and a host that writes the letter x. *)
#[local] Instance plain_channel A : Channel A := {|
    Chan := Contents A;
    channel n := mkContents [] n true true;
    chan_send := contents_send;
    poll_recv := contents_recv;
    drop_sender v := mkContents (queued v) (capacity v) false (receiver_alive v);
    drop_receiver v := mkContents [] (capacity v) (sender_alive v) false;
  |}.

#[local] Instance plain_channel_laws A : ChannelLaws A.
  Proof.
    refine {| contents := (id : Chan → Contents A) |}; [done | ..| done | done].
    - intros a c. unfold chan_send. simpl. by destruct (contents_send a c).
    - intros c. unfold poll_recv. simpl. by destruct (contents_recv c).
  Defined.

#[local] Instance plain_stream_host : StreamHost := {|
    runtime_builds := true;
    to_vec e := Some [x78];
  |}.

Definition ex_failed : Section_end (result (list response)) :=
    Returned (Err (APIError_new "no cache")).

  (** The error is sent and received before the client sees the end. *)
Lemma stream_delivers_witness :
    ∃ s : Stream (SenderError := Empty_set),
      stream_ended s = true ∧ stream_received s = [inl [x78]].
  Proof.
    assert (rtc (stream_step ex_failed) (stream_start (SenderError := Empty_set))
      (mkStream (mkContents [] 128 false true) Finished [inl [x78]] false true)) as Hr.
    { eapply rtc_l; [apply stream_generated |].
      eapply rtc_l; [by eapply (stream_sent _ _ _ _ _ _ true) |].
      apply rtc_once. by eapply (stream_item _ _ _ [] (inl [x78])). }
    destruct (stream_delivers ex_failed _ Hr) as (_ & _ & _ & Hend).
    destruct (Hend ltac:(done) eq_refl) as (s & Hs & He). exists s. split; [exact He |].
    refine (proj2 (proj1 (proj2 (proj2 (stream_delivers ex_failed s _))) He)).
    by etransitivity.
  Defined.

End StreamingExamples.
