(* ===== verification/Pipeline.v ===== *)
(** * The Llama pipeline

    [src/openai/pipelines/llama.rs]: the one implementation of the trait
    [ModulePipeline] the engine is written against, its sampling of a batch, and
    what the engine does with it.  The sampler of [candle_sampling] and the
    tokenizer are parameters. *)

From Stdlib Require Import ZArith SpecFloat Lia.
From stdpp Require Import base gmap sets strings pretty countable list.
From S2P Require Import Prelude Machine Sequence BlockEngine BlockEngineSpec CacheEngine Scheduler.
From S2P Require Import Api Candle Backend Attention Llama Sampling Conversation.
From S2P Require Import Engine EngineSpec.

(** ** External code *)

(** The tokenizer ([encode] and [decode], with the text of their error on the right,
    [token_to_id] and [id_to_token]), the
    logits processor of [candle_sampling] with its state, and three operations on
    tensors: [t.dim(d)], [t.i((i, j))] and [apply_repeat_penalty]. *)
Class Sampler `{LogprobsSig} `{Candle} := {
  Tokenizer : Type;
  encode : Tokenizer → string → bool → list nat + string;
  decode : Tokenizer → list nat → bool → string + string;
  token_to_id : Tokenizer → string → option nat;
  id_to_token : Tokenizer → Z → option string;
  LogitsProcessor : Type;
  LogitsProcessor_new : Z → option spec_float → SamplingMethod → Z → Tokenizer → LogitsProcessor;
  LogitsProcessor_sample : LogitsProcessor → Tensor → result Logprobs * LogitsProcessor;
  t_dim : Tensor → nat → result nat;
  t_index_2 : Tensor → nat → nat → result Tensor;
  apply_repeat_penalty : Tensor → f32 → list Z → result Tensor;
}.

(** ** The pipeline *)

Definition EOS_TOKEN : string := "</s>".

Definition SAMPLING_SEED : Z := 299792458.

Record LlamaSpecificConfig := LlamaSpecificConfig_new { repeat_last_n : nat }.

Section Pipeline.
  Context `{LogprobsSig} `{NN} `{!Sampler}.

  (** [TokenizerWrapper] for [Tokenizer] ([openai/mod.rs]): no special tokens are
      added, and none are skipped. *)
Definition Tokenizer_tokenize (self : Tokenizer) (input : string) : result (list nat) :=
    match encode self input false with
    | inl ids => Ok ids
    | inr e => Err (APIError_from e)
    end.

Definition Tokenizer_detokenize (self : Tokenizer) (input : list nat) : result string :=
    match decode self input false with
    | inl s => Ok s
    | inr e => Err (APIError_from e)
    end.

Record LlamaPipeline := mkLlamaPipeline {
    llama : Llama;
    args : LlamaSpecificConfig;
    tokenizer : Tokenizer;
    conversation : DefaultConversation;
    name : string;
  }.

  (** [x as u32] *)
Definition as_u32 (x : nat) : Z := (Z.of_nat x mod 2 ^ 32)%Z.

  (** [sampling_params.stop], as the list it is compared with. *)
Definition stop_strings (sampling_params : SamplingParams) : list string :=
    match sp_stop sampling_params with
    | Some (StopTokens_Multi multi) => multi
    | Some (StopTokens_Single single) => [single]
    | None => []
    end.

  (** The text of a token, with its word boundaries and line feeds. *)
Definition token_text (self : LlamaPipeline) (tok : nat) : option string :=
    match id_to_token (tokenizer self) (as_u32 tok) with
    | Some text => Some (str_replace (str_replace text "▁" " ") "<0x0A>" nl)
    | None => None
    end.

  (** What becomes of a sampled token. *)
Definition accept_token (self : LlamaPipeline) (sampling_params : SamplingParams)
    (tokens_generated : nat) (next_token : Logprobs) : TokenOrFinishReason :=
    let eos_token_id := token_to_id (tokenizer self) EOS_TOKEN in
    let stop_tokens := stop_strings sampling_params in
    let stopped := match token_text self (token next_token) with
                   | Some text => bool_decide (text ∈ stop_tokens)
                   | None => false
                   end in
    if stopped then Right "stop"
    else if bool_decide (Some (token next_token) = eos_token_id) then Right "stop"
    else if (sp_max_tokens sampling_params <=? Z.of_nat tokens_generated)%Z then Right "length"
    else Left next_token.

  (** [&tokens[len.saturating_sub(n)..]] *)
Definition last_tokens (n : nat) (tokens : list Z) : list Z := drop (length tokens - n) tokens.

  (** The body of the loop over the sequences; the processor keeps its state. *)
Definition sample_turn (checks : bool) (self : LlamaPipeline) (sampling_params : SamplingParams)
    (logits : Tensor) (acc : LogitsProcessor * list TokenOrFinishReason)
    (x : nat * (nat * seq_ptr)) : M (result (LogitsProcessor * list TokenOrFinishReason)) :=
    let '(logits_processor, res) := acc in
    let '(seq_n, (_, sequence)) := x in
    let!? dim := st_ret (t_dim logits 1) in
    let! row := st_unwrap (usize_sub checks (Z.of_nat dim) 1) in
    let!? logits := st_ret (t_index_2 logits seq_n (Z.to_nat row)) in
    let! tokens := on_seq sequence (_Sequence_get_token_ids sequence) in
    let tokens := as_u32 <$> tokens in
    let! tokens_generated := generated_len checks sequence in
    let!? logits :=
      if f32_eqb (sp_repetition_penalty sampling_params) f32_one then st_ret (Ok logits)
      else st_ret (apply_repeat_penalty logits (sp_repetition_penalty sampling_params)
                     (last_tokens (repeat_last_n (args self)) tokens)) in
    let '(next_token, logits_processor) := LogitsProcessor_sample logits_processor logits in
    let!? next_token := st_ret next_token in
    st_ret (Ok (logits_processor,
                res ++ [accept_token self sampling_params tokens_generated next_token])).

Definition LlamaPipeline_sample (checks : bool) (self : LlamaPipeline) (logits : Tensor)
    (sampling_params : SamplingParams) (sqs : list (nat * seq_ptr))
    : M (result (list TokenOrFinishReason)) :=
    let! (temperature, method) := st_unwrap (SamplingParams_get_logits_processor sampling_params) in
    let logits_processor := LogitsProcessor_new SAMPLING_SEED (Some temperature) method
                              (default 1%Z (sp_logprobs sampling_params)) (tokenizer self) in
    let! n_seqs := st_unwrap (t_dims logits !! 0) in
    let!? (logits_processor, res) :=
      st_try_fold (sample_turn checks self sampling_params logits) (logits_processor, [])
        (zip (seq 0 n_seqs) sqs) in
    st_ret (Ok res).

  (** [impl ModulePipeline for LlamaPipeline]; [get_dtype] is a [todo!()]. *)
Definition LlamaPipeline_module (checks : bool) : ModulePipeline LlamaPipeline DefaultConversation := {|
    pl_forward self tokens positions caches md mem :=
      match Llama_forward checks (llama self) tokens positions (Some caches) (mem, md) with
      | Done r (mem, _) => Done (r, self) mem
      | Panic => Panic
      | Hang => Hang
      end;
    pl_sample self logits params sqs :=
      let! r := LlamaPipeline_sample checks self logits params sqs in st_ret (r, self);
    pl_name := name;
    pl_tokenize self := Tokenizer_tokenize (tokenizer self);
    pl_detokenize self := Tokenizer_detokenize (tokenizer self);
    pl_conversation := conversation;
    pl_set_conversation self c := mkLlamaPipeline (llama self) (args self) (tokenizer self) c (name self);
    pl_model_config self := Config_ConfigLike (Llama_get_config (llama self));
    pl_dtype _ := None;
  |}.

  (** The conversation of the pipeline is kept as it is written: the prompts of the
      Llama pipeline leak as [Serving] says. *)
Lemma LlamaPipeline_laws checks :
    PipelineLaws (H1 := LlamaPipeline_module checks) LlamaPipeline DefaultConversation.
  Proof. by split. Qed.

End Pipeline.

(** ** Properties *)

Section PipelineProperties.
  Context `{LogprobsSig} `{NN} `{!Sampler}.

Lemma sample_turn_never checks (self : LlamaPipeline) params logits acc x w :
    ¬ succeeds (sample_turn checks self params logits acc x) w.
  Proof.
    destruct acc as [lp res], x as [n [id p]]. unfold sample_turn. intros Hs.
    apply st_try_succeeds in Hs as (dim & w1 & _ & Hs).
    apply st_bind_succeeds in Hs as (row & w2 & _ & Hs).
    apply st_try_succeeds in Hs as (l & w3 & _ & Hs).
    apply st_bind_succeeds in Hs as (toks & w4 & _ & Hs).
    apply st_bind_succeeds in Hs as (g & w5 & E & _). by apply generated_len_never in E.
  Qed.

  (** What the answers of a call satisfy, in whatever state it is made. *)
Definition answers {S A} (m : St S (result A)) (Q : A → Prop) : Prop :=
    ∀ s, wlp m (λ r _, ∀ a, r = Ok a → Q a) s.

Lemma answers_ret {S A} (r : result A) (Q : A → Prop) :
    (∀ a, r = Ok a → Q a) → answers (S := S) (st_ret r) Q.
  Proof. by intros HQ s. Qed.

Lemma answers_bind {S A B} (m : St S A) (k : A → St S (result B)) (Q : B → Prop) :
    (∀ a, answers (k a) Q) → answers (st_bind m k) Q.
  Proof. intros Hk s. unfold wlp, st_bind. destruct (m s); [apply Hk | done ..]. Qed.

Lemma answers_try {S A B} (P : A → Prop) (m : St S (result A)) (k : A → St S (result B)) (Q : B → Prop) :
    answers m P → (∀ a, P a → answers (k a) Q) → answers (st_try m k) Q.
  Proof.
    intros Hm Hk s. specialize (Hm s). unfold wlp, st_try, st_bind in *.
    destruct (m s) as [[a|e] s'| |]; [by apply Hk, Hm | done ..].
  Qed.

Lemma answers_any {S A} (m : St S (result A)) : answers m (λ _, True).
  Proof. intros s. unfold wlp. by destruct (m s). Qed.

Lemma answers_map {S A B} (f : A → St S (result B)) (Q : B → Prop) l :
    (∀ x, answers (f x) Q) → answers (st_try_map f l) (Forall Q).
  Proof.
    intros Hf. induction l as [|x l IH]; simpl.
    - apply answers_ret. intros ? [= <-]. by constructor.
    - eapply answers_try; [apply Hf |]. intros y Hy. eapply answers_try; [apply IH |].
      intros ys Hys. apply answers_ret. intros ? [= <-]. by constructor.
  Qed.

  (** The tensors the engine prepares have a dimension; the slots of its inputs are
      one of them. *)
Lemma make_tensor_with_pad_dims `{!TensorLaws} rows max_len pad :
    answers (_make_tensor_with_pad rows max_len pad) (λ t, t_dims t ≠ []).
  Proof.
    eapply (answers_try (Forall (λ t, t_dims t ≠ []))).
    - apply answers_map. intros row. apply answers_bind. intros _.
      eapply answers_try; [apply answers_any |]. intros dev _. apply answers_ret.
      intros t E. by rewrite (from_vec_dims _ _ _ E).
    - intros ts Hts. apply answers_ret. intros t E. by apply (cat_dims ts).
  Qed.

Lemma prepared_slots `{!TensorLaws} `{HashOrder} {P C} `{!ModulePipeline P C} `{Conversation C} checks
      (self : LLMEngine (P := P)) groups (prompt : bool) :
    answers (if prompt then LLMEngine_prepare_prompt checks self groups
             else LLMEngine_prepare_decode checks self groups)
      (λ i, t_dims (md_slot_mapping (pi_metadata i)) ≠ []).
  Proof.
    unfold LLMEngine_prepare_prompt, LLMEngine_prepare_decode. destruct prompt; repeat match goal with
      | |- answers (st_try (_make_tensor_with_pad _ _ _) _) _ =>
          eapply answers_try; [apply make_tensor_with_pad_dims | intros ? ?]
      | |- answers (st_try _ _) _ => eapply answers_try; [apply answers_any | intros ? _]
      | |- answers (st_bind _ _) _ => apply answers_bind; intros ?
      | |- answers (st_ret _) _ => apply answers_ret; by intros ? [= <-]
      end.
  Qed.

  (** What a turn of the loop that returns an answer has done: a forward pass of the
      pipeline over the caches of the engine, with slots of some shape, that returned
      logits. *)
Lemma generate_turn_forward `{!TensorLaws} `{HashOrder} {P C} `{!ModulePipeline P C} `{Conversation C} checks
      (self : LLMEngine (P := P)) params responses r self' w w' :
    generate_turn checks self params responses w = Done (Ok r, self') w' →
    ∃ tokens positions md mem logits pl mem',
      t_dims (md_slot_mapping md) ≠ [] ∧
      pl_forward (pipeline self) tokens positions (gpu_cache (cache_engine self)) md mem =
      Done (Ok logits, pl) mem'.
  Proof.
    unfold generate_turn. unfold st_bind at 1.
    destruct (Scheduler_schedule _ w) as [[out s] w1| |]; [| done ..].
    unfold st_bind at 1. destruct (st_assert _ w1) as [[] w2| |]; [| done ..].
    unfold st_bind at 1, LLMEngine_execute_scheduler_ops, on_device at 1.
    destruct (st_try _ _ _) as [ops mem| |]; [| done ..].
    destruct ops as [[]|]; [| done]. cbn [set_memory set_scheduler].
    unfold st_bind at 1. destruct (st_unwrap _ w2) as [front w3| |]; [| done ..].
    unfold st_bind at 1. destruct (st_unwrap _ w3) as [first w4| |]; [| done ..].
    unfold st_bind at 1. destruct (on_seq first _ w4) as [prompt w5| |]; [| done ..].
    unfold st_bind at 1.
    match goal with |- context [match ?m w5 with _ => _ end] =>
      destruct (m w5) as [[inputs|] w6| |] eqn:Ei; [| done ..] end.
    assert (Hi := wlp_done _ _ _ _ _ (prepared_slots checks _ _ prompt w5) Ei _ eq_refl).
    unfold st_bind at 1, on_device at 1. cbn [pipeline cache_engine memory].
    destruct (pl_forward _ _ _ _ _ _) as [[[logits|] pl] mem'| |] eqn:Ef; [| done ..].
    intros _. eexists _, _, _, _, _, _, _. split; [exact Hi | exact Ef].
  Qed.

  (** The sampling of a batch never answers.  Whatever the logits, the parameters,
      the tokenizer and the sampler are: for a batch of at least one sequence with at
      least one row of logits [sample] never returns tokens or finish reasons; it
      returns an error, panics or spins on the lock of the sequence. *)
Theorem sample_never_answers checks (self : LlamaPipeline) logits params sqs w :
    sqs ≠ [] → t_dims logits !! 0 ≠ Some 0 →
    ∀ res w', LlamaPipeline_sample checks self logits params sqs w ≠ Done (Ok res) w'.
  Proof.
    intros Hsq Hrows res w' E.
    assert (Hs : succeeds (LlamaPipeline_sample checks self logits params sqs) w)
      by (by exists res, w').
    unfold LlamaPipeline_sample in Hs.
    apply st_bind_succeeds in Hs as ([temperature method] & w1 & _ & Hs).
    apply st_bind_succeeds in Hs as (n & w2 & En & Hs).
    destruct (t_dims logits !! 0) as [n'|]; [| done]. injection En as -> ->.
    destruct n as [|n]; [done |]. destruct sqs as [|x sqs]; [done |].
    apply st_try_succeeds in Hs as (lr & w3 & El & _).
    assert (Hf := try_fold_first (sample_turn checks self params logits) _ (0, x)
      (zip (seq 1 n) sqs) w2 (ex_intro _ lr (ex_intro _ w3 El))).
    by apply sample_turn_never in Hf.
  Qed.

  (** The parameters with another list of stop tokens and another choice for the end
      of the text. *)
Definition with_stop_ids (p : SamplingParams) (ids : list nat) (ignore : bool) : SamplingParams :=
    mkSamplingParams (sp_n p) (sp_best_of p) (sp_presence_penalty p) (sp_frequency_penalty p)
      (sp_repetition_penalty p) (sp_temperature p) (sp_top_p p) (sp_top_k p)
      (sp_use_beam_search p) (sp_length_penalty p) (sp_early_stopping p) (sp_stop p) ids ignore
      (sp_max_tokens p) (sp_logprobs p) (sp_prompt_logprobs p) (sp_skip_special_tokens p).

  (** C31: which sampled tokens are kept.  A token goes on to its sequence only while
      the sequence has fewer generated tokens than [max_tokens] and the token is
      neither the end of the text nor, as text, one of the stop strings; otherwise
      the sequence finishes with "stop" for these two and with "length" when only
      the limit is reached.  [stop_token_ids] and [ignore_eos] change nothing: the end
      of the text always stops, and the tokens of the list are kept. *)
Theorem accept_token_exact (self : LlamaPipeline) params generated next :
    let is_stop := Some (token next) = token_to_id (tokenizer self) EOS_TOKEN ∨
      ∃ text, token_text self (token next) = Some text ∧ text ∈ stop_strings params in
    (match accept_token self params generated next with
     | Left t => t = next ∧ (Z.of_nat generated < sp_max_tokens params)%Z ∧ ¬ is_stop
     | Right r => r = "stop" ∧ is_stop ∨
         r = "length" ∧ (sp_max_tokens params ≤ Z.of_nat generated)%Z ∧ ¬ is_stop
     end) ∧
    ∀ ids ignore, accept_token self (with_stop_ids params ids ignore) generated next =
      accept_token self params generated next.
  Proof.
    intros is_stop. split; [| done]. unfold accept_token.
    assert (Hstop : is_stop ↔ match token_text self (token next) with
      | Some text => text ∈ stop_strings params | None => False end ∨
      Some (token next) = token_to_id (tokenizer self) EOS_TOKEN).
    { unfold is_stop. destruct (token_text self (token next)); naive_solver. }
    destruct (token_text self (token next)) as [text|];
      [destruct (bool_decide_reflect (text ∈ stop_strings params)) |];
      destruct (bool_decide_reflect (Some (token next) = token_to_id (tokenizer self) EOS_TOKEN));
      try destruct (Z.leb_spec (sp_max_tokens params) (Z.of_nat generated)); naive_solver.
  Qed.

  (** The forward pass of the pipeline, on caches. *)
Lemma llama_pl_forward_never `{!TensorLaws} checks (self : LlamaPipeline) tokens positions caches md
      mem logits pl mem' :
    blocks (llama self) ≠ [] → caches ≠ [] → t_dims (md_slot_mapping md) ≠ [] →
    pl_forward (ModulePipeline := LlamaPipeline_module checks) self tokens positions caches md mem ≠
    Done (Ok logits, pl) mem'.
  Proof.
    intros Hb Hc Hs. simpl.
    destruct (Llama_forward checks (llama self) tokens positions (Some caches) (mem, md))
      as [r [mem1 md1]| |] eqn:E; [| done ..]. intros [= -> <- <-].
    apply (llama_forward_never checks (llama self) tokens positions (Some caches) (mem, md));
      [done | congruence | exact Hs |]. by eexists _, _.
  Qed.

  (** The engine never generates with the Llama pipeline.  Whatever is running or
      waiting, and whatever the state of the scheduler: with a model and caches of at
      least one layer, a call of [generate] that returns without an error returns no
      response, because it did not enter its loop; and no turn of the loop ends in an
      answer. *)
Theorem llama_engine_never_generates `{!TensorLaws} `{HashOrder} `{DynFormat} checks fuel
      (self : LLMEngine (P := LlamaPipeline)) prompt request_id created now params rs self' w w' :
    blocks (llama (pipeline self)) ≠ [] → gpu_cache (cache_engine self) ≠ [] →
    LLMEngine_generate (ModulePipeline0 := LlamaPipeline_module checks) checks fuel self prompt
      request_id created now params w = Done (Ok rs, self') w' →
    rs = [] ∧ running (scheduler self') = [].
  Proof.
    intros Hb Hc E. unfold LLMEngine_generate in E. unfold st_bind at 1 in E.
    destruct (LLMEngine_add_request _ _ _ _ _ w) as [self1 w1| |] eqn:Ea; [| done ..].
    assert (pipeline self1 = pipeline self ∧ cache_engine self1 = cache_engine self) as [Hp He].
    { unfold LLMEngine_add_request in Ea. repeat
        (apply st_bind_Done in Ea as (? & ? & _ & Ea)). by injection Ea as <- _. }
    unfold st_bind in E.
    destruct (generate_loop _ _ _ _ _ w1) as [[[responses|] self2] w2| |] eqn:El; [| done ..].
    injection E as <- <- _.
    assert (responses = ∅ ∧ self2 = self1 ∧ running (scheduler self1) = []) as (-> & -> & Hr).
    { destruct fuel as [|fuel]; cbn [generate_loop] in El; unfold Scheduler_has_unfinished_sequences in El;
        destruct (running (scheduler self1)) eqn:Er; simpl in El; try done;
        try (by injection El as <- <- _).
      unfold st_bind in El.
      destruct (generate_turn _ _ _ _ w1) as [[[r|] self3] w3| |] eqn:Et; [| done ..].
      apply generate_turn_forward in Et as (tk & ps & md & mem & lg & pl & mem' & Hs & Ef).
      rewrite Hp, He in Ef. by apply llama_pl_forward_never in Ef. }
    split; [| done]. unfold hash_values.
    pose proof (hash_iter_perm (∅ : gmap nat response)) as Hperm.
    rewrite map_to_list_empty in Hperm. by apply Permutation_nil_r in Hperm as ->.
  Qed.

End PipelineProperties.

(** *** Witnesses *)

Section PipelineExamples.

  #[local] Existing Instance plain_logprobs.
  #[local] Existing Instance plain_candle.

  (** A tokenizer with the one token [</s>], and a sampler that always takes it. *)
Definition plain_sampler : Sampler := {|
    Tokenizer := unit;
    encode _ s _ := inl (replicate (String.length s) 1);
    decode _ _ _ := inl "";
    token_to_id _ s := if bool_decide (s = EOS_TOKEN) then Some 2 else None;
    id_to_token _ i := if (i =? 2)%Z then Some EOS_TOKEN else None;
    LogitsProcessor := unit;
    LogitsProcessor_new _ _ _ _ _ := tt;
    LogitsProcessor_sample lp _ := (Ok (2, f32_zero), lp);
    t_dim t d := match t_dims t !! d with Some n => Ok n | None => Err (APIError_new "dim") end;
    t_index_2 t _ _ := Ok t;
    apply_repeat_penalty t _ _ := Ok t;
  |}.

  #[local] Existing Instance plain_sampler.
  #[local] Existing Instance plain_tensors.
  #[local] Existing Instance plain_tensor_laws.
  #[local] Existing Instance plain_nn.

Definition ex_pipeline : LlamaPipeline :=
    mkLlamaPipeline ex_llama (LlamaSpecificConfig_new 64) tt llama_conversation "llama7b".

  (** One row of logits, and the sequence of the engine's examples. *)
Definition ex_logits : Tensor := ([1; 3], [0; 0; 1]%Z).

Lemma sample_never_answers_witness :
    ¬ succeeds (LlamaPipeline_sample false ex_pipeline ex_logits (ex_params (-1)) [(0, 0)]) ex_w1.
  Proof.
    intros (res & w' & E).
    exact (sample_never_answers false ex_pipeline ex_logits (ex_params (-1)) [(0, 0)] ex_w1
             ltac:(discriminate) ltac:(discriminate) res w' E).
  Defined.

  (** It spins. *)
Example sample_hangs :
    LlamaPipeline_sample false ex_pipeline ex_logits (ex_params (-1)) [(0, 0)] ex_w1 = Hang.
  Proof. vm_compute. reflexivity. Qed.

  #[local] Existing Instance canonical_order.
  #[local] Existing Instance plain_format.

Definition ex_kv : KVCache := (([3; 4; 1; 16; 2], []), ([3; 4; 8; 16], [])).

  (** An idle engine around the model of one layer. *)
Definition ex_llama_engine : LLMEngine (P := LlamaPipeline) :=
    mkLLMEngine ex_pipeline (mkScheduler [] [] [] {| max_num_seqs := 8 |} no_engine) 0
      (mkCacheConfig 2 (Some 4) (Some 4) true) 0 (mkCacheEngine [ex_kv] [ex_kv] 1) None no_copies.

Definition ex_generated : outcome World (result (list response) * LLMEngine (P := LlamaPipeline)) :=
    LLMEngine_generate (ModulePipeline0 := LlamaPipeline_module true) true 5 ex_llama_engine []
      "cmpl" 0 0 (ex_params (-1)) empty_world.

Lemma llama_engine_never_generates_witness :
    ∃ self' w', ex_generated = Done (Ok [], self') w' ∧ running (scheduler self') = [].
  Proof.
    destruct ex_generated as [[[rs|e] self'] w'| |] eqn:E;
      [| exfalso; vm_compute in E; discriminate ..].
    destruct (llama_engine_never_generates true 5 ex_llama_engine [] "cmpl" 0 0 (ex_params (-1))
      rs self' empty_world w' ltac:(discriminate) ltac:(discriminate) E) as [-> Hr].
    by exists self', w'.
  Defined.

End PipelineExamples.
