(* ===== verification/Startup.v ===== *)
(** * Start-up

    [src/main.rs], [src/lib.rs], the loader of [src/openai/pipelines/llama.rs]
    and [get_token] of [src/openai/pipelines/mod.rs]: from the command line to the
    data of the server.  The hub, the file system and the environment are
    parameters. *)

From Stdlib Require Import ZArith SpecFloat Lia.
From stdpp Require Import base gmap sets strings pretty countable list.
From S2P Require Import Prelude Machine Sequence BlockEngine BlockEngineSpec CacheEngine Scheduler.
From S2P Require Import Api Candle Backend Attention Llama Sampling Conversation.
From S2P Require Import Engine EngineSpec Pipeline.

(** ** The command line *)

Inductive ModelSelected :=
  | Llama7b (repeat_last_n : nat)
  | Llama13b (repeat_last_n : nat)
  | Llama70b (repeat_last_n : nat).

Definition ModelSelected_to_string (self : ModelSelected) : string :=
  match self with
  | Llama7b _ => "llama7b"
  | Llama13b _ => "llama13b"
  | Llama70b _ => "llama70b"
  end.

Record Args := mkArgs {
  hf_token : option string;
  hf_token_path : option string;
  port : nat;
  verbose : bool;
  command : ModelSelected;
  args_max_num_seqs : nat;
  args_block_size : nat;
}.

Record LlamaLoader := LlamaLoader_new { ll_config : LlamaSpecificConfig; ll_name : string }.

Definition get_model_loader (selected_model : ModelSelected) : LlamaLoader * string :=
  match selected_model with
  | Llama7b repeat_last_n =>
      (LlamaLoader_new (LlamaSpecificConfig_new repeat_last_n) "llama7b",
       "meta-llama/Llama-2-7b-chat-hf")
  | Llama13b repeat_last_n =>
      (LlamaLoader_new (LlamaSpecificConfig_new repeat_last_n) "llama13b",
       "meta-llama/Llama-2-13b-chat-hf")
  | Llama70b repeat_last_n =>
      (LlamaLoader_new (LlamaSpecificConfig_new repeat_last_n) "llama70b",
       "meta-llama/Llama-2-70b-chat-hf")
  end.

(** The loader is named after the selection. *)
Lemma get_model_loader_name m : ll_name (get_model_loader m).1 = ModelSelected_to_string m.
Proof. by destruct m. Qed.

(** ** The outside *)

(** The environment and the files; the hub of the models: [ApiBuilder] with a
    token, a repository at a revision, and its files; [serde_json] on the
    configuration, the weights, and the files of tokenizers. *)
Class Host `{NN} `{!LogprobsSig} `{!Sampler} := {
  env_var : string → result string;
  read_to_string : string → result string;
  home_dir : option string;
  HubApi : Type;
  HubRepo : Type;
  hub_build : string → result HubApi;
  hub_repo : HubApi → string → string → HubRepo;
  repo_get : HubRepo → string → result string;
  repo_siblings : HubRepo → result (list string);
  read_file : string → result string;
  parse_config : string → result LlamaConfig;
  from_mmaped_safetensors : list string → DType → Device → result VarBuilder;
  Tokenizer_from_file : string → result Tokenizer;
}.

Section Startup.
  Context `{LogprobsSig} `{HashOrder} `{NN} `{!Sampler} `{DynFormat} `{!Host}.

  (** ** Loading *)

Definition get_token (token path : option string) : result string :=
    match token, path with
    | Some envvar, None => env_var envvar
    | None, Some path => read_to_string path
    | None, None =>
        match home_dir with
        | Some home => read_to_string (home +:+ "/.cache/huggingface/token")
        | None => Err (APIError_new "No home directory")
        end
    | Some _, Some _ =>
        Err (APIError_new "Do not specify `hf_token` and `hf_token_path` at the same time.")
    end.

Record LlamaModelPaths := mkLlamaModelPaths {
    tokenizer_filename : string;
    config_filename : string;
    filenames : list string;
  }.

  (** [x.ends_with(pat)] *)
Definition ends_with (pat s : string) : bool :=
    String.prefix (String.rev pat) (String.rev s).

  (** [for f in l { v.push(api.get(f)?) }] *)
Fixpoint get_files (repo : HubRepo) (l : list string) : result (list string) :=
    match l with
    | [] => Ok []
    | f :: l => let? x := repo_get repo f in let? xs := get_files repo l in Ok (x :: xs)
    end.

Definition LlamaLoader_download_model (model_id : string) (revision token token_path : option string)
    : result LlamaModelPaths :=
    let? tok := get_token token token_path in
    let? api := hub_build tok in
    let revision := default "main" revision in
    let repo := hub_repo api model_id revision in
    let? tokenizer_filename := repo_get repo "tokenizer.json" in
    let? config_filename := repo_get repo "config.json" in
    let? siblings := repo_siblings repo in
    let? filenames := get_files repo (filter (λ x, ends_with ".safetensors" x = true) siblings) in
    Ok (mkLlamaModelPaths tokenizer_filename config_filename filenames).

Record PipelineConfig := mkPipelineConfig { max_model_len : nat }.

  (** [None] is a panic. *)
Definition LlamaLoader_load_model (self : LlamaLoader) (paths : LlamaModelPaths) (dtype : DType)
    (device : Device) : fallible (LlamaPipeline * PipelineConfig) :=
    match (let? bytes := read_file (config_filename paths) in
           let? config := parse_config bytes in
           let? vb := from_mmaped_safetensors (filenames paths) dtype device in
           Ok (LlamaConfig_into_config config, vb)) with
    | Err e => Some (Err e)
    | Ok (config, vb) =>
        match Llama_load vb config dtype device with
        | None => None
        | Some (Err e) => Some (Err e)
        | Some (Ok llama) =>
            Some (let? tokenizer := Tokenizer_from_file (tokenizer_filename paths) in
                  Ok (mkLlamaPipeline llama (ll_config self) tokenizer llama_conversation
                        (ll_name self), mkPipelineConfig 4096))
        end
    end.

  (** ** The server *)

Record OpenAIServerData := mkServerData {
    sd_model : LLMEngine (P := LlamaPipeline);
    sd_pipeline_config : PipelineConfig;
    sd_device : Device;
  }.

  (** The configuration the program is started with. *)
Definition main_cache_config (args : Args) : CacheConfig :=
    mkCacheConfig (args_block_size args) None None false.

  (** [main], up to the line that says that the server is started. *)
Definition main_startup (checks : bool) (args : Args) (mem : Memory) : M (result OpenAIServerData) :=
    let '(loader, model_id) := get_model_loader (command args) in
    let!? paths := st_ret (LlamaLoader_download_model model_id None (hf_token args)
                             (hf_token_path args)) in
    let! model := st_unwrap (LlamaLoader_load_model loader paths F16 Cpu) in
    let!? (pipeline, pipeline_config) := st_ret model in
    let!? llm_engine :=
      LLMEngine_new (ModulePipeline0 := LlamaPipeline_module checks)
        pipeline {| max_num_seqs := args_max_num_seqs args |} (main_cache_config args) mem in
    st_ret (Ok (mkServerData llm_engine pipeline_config Cpu)).

  (** The HTTP server: [bind] to an address and a port, and [run] to its end, with
      the data every worker gets a clone of, and with the logger or not. *)
  Context {Listener : Type} (http_bind : string → nat → result Listener).
  Context (http_run : Listener → OpenAIServerData → bool → result unit).

  (** [main].  Its lines of output are left out. *)
Definition main (checks : bool) (args : Args) (mem : Memory) : M (result unit) :=
    let!? server_data := main_startup checks args mem in
    if verbose args then
      let!? server := st_ret (http_bind "127.0.0.1" (port args)) in
      let!? _ := st_ret (http_run server server_data true) in
      st_ret (Ok tt)
    else
      let!? server := st_ret (http_bind "127.0.0.1" (port args)) in
      let!? _ := st_ret (http_run server server_data false) in
      st_ret (Ok tt).

End Startup.

(** ** Properties *)

Section StartupProperties.
  Context `{LogprobsSig} `{HashOrder} `{NN} `{!Sampler} `{DynFormat} `{!Host}.

  (** The cache engine refuses the configuration of [main], whatever the pipeline. *)
Lemma main_config_refused {P C} `{!ModulePipeline P C} (p : P) sc args mem w :
    LLMEngine_new p sc (main_cache_config args) mem w = Panic.
  Proof.
    unfold LLMEngine_new. destruct (pl_dtype p) as [dtype|]; [| done].
    unfold st_bind, st_unwrap, st_ret. by rewrite cache_new_uninit.
  Qed.

Lemma startup_never checks args mem w : ¬ succeeds (main_startup checks args mem) w.
  Proof.
    intros E. unfold main_startup in E. destruct (get_model_loader (command args)) as [loader model_id].
    apply st_try_succeeds in E as (paths & w1 & _ & E).
    apply st_bind_succeeds in E as (model & w2 & _ & E).
    apply st_try_succeeds in E as ([p n] & w3 & _ & E).
    apply st_try_succeeds in E as (engine & w4 & E & _). by rewrite main_config_refused in E.
  Qed.

  (** C37: the program never serves.  For every command line, and whatever the hub, the
      files, the model and the HTTP server are, [main] does not reach the line that
      starts the server, and it never ends well: it returns an error, panics or does
      not return.  No change of the pipeline helps: the engine panics on the cache
      configuration of [main], which never gets its numbers of blocks, for every
      implementation of [ModulePipeline]. *)
Theorem startup_never_serves {L} (http_bind : string → nat → result L)
      (http_run : L → OpenAIServerData → bool → result unit) checks args mem w :
    (∀ data w', main_startup checks args mem w ≠ Done (Ok data) w') ∧
    (∀ w', main http_bind http_run checks args mem w ≠ Done (Ok tt) w') ∧
    (∀ (P C : Type) (pipeline : ModulePipeline P C) (p : P) sc,
       LLMEngine_new p sc (main_cache_config args) mem w = Panic).
  Proof.
    split_and!; [| | intros P C pipeline p sc; apply main_config_refused].
    - intros data w' E. eapply (startup_never checks args mem w). by exists data, w'.
    - intros w' E.
      assert (Hs : succeeds (main http_bind http_run checks args mem) w) by (by exists tt, w').
      apply st_try_succeeds in Hs as (data & w1 & E1 & _).
      eapply (startup_never checks args mem w). by exists data, w1.
  Qed.

End StartupProperties.
