(* ===== verification/Build.v ===== *)
(** * The build script

    [build.rs]: which compute capability the kernels are compiled for, and their
    compilation by [nvcc], by [main] itself or by threads.  The processes it runs,
    the environment and the directory are parameters; the texts they answer with
    are parsed by the functions of the standard library, modelled on bytes.  The
    [cargo:] lines it prints are left out. *)

From Stdlib Require Import ZArith Ascii Lia.
From stdpp Require Import base strings pretty sorting countable list relations.
From S2P Require Import Prelude.

#[local] Open Scope string_scope.
#[local] Open Scope N_scope.

Definition OPT_LEVEL : N := 2.

Definition CPP_STD : N := 17.

Definition WORKERS : nat := 4.

(** ** Strings *)

(** [s.split(c)], never empty *)
Fixpoint split_char (c : ascii) (s : string) : list string :=
  match s with
  | "" => [""]
  | String a s =>
      if decide (a = c) then "" :: split_char c s
      else match split_char c s with
           | x :: l => String a x :: l
           | [] => [String a ""]
           end
  end.

(** A line without the carriage return at its end. *)
Fixpoint strip_cr (s : string) : string :=
  match s with
  | "" => ""
  | String a "" => if decide (a = "013"%char) then "" else String a ""
  | String a s => String a (strip_cr s)
  end.

(** [s.lines()]: the pieces between the newlines, without what is after the last
    newline when that is empty. *)
Fixpoint lines_of (pieces : list string) : list string :=
  match pieces with
  | [] | [""] => []
  | [x] => [x]
  | x :: l => strip_cr x :: lines_of l
  end.

Definition lines (s : string) : list string := lines_of (split_char "010" s).

(** [s.replace(c, "")] *)
Fixpoint remove_char (c : ascii) (s : string) : string :=
  match s with
  | "" => ""
  | String a s => if decide (a = c) then remove_char c s else String a (remove_char c s)
  end.

(** [s.parse::<usize>()]: an optional plus sign, at least one digit, and no
    overflow. *)
Definition digit (c : ascii) : option N :=
  let n := N_of_ascii c in
  if (48 <=? n) && (n <=? 57) then Some (n - 48) else None.

Fixpoint parse_digits (s : string) (acc : N) : option N :=
  match s with
  | "" => Some acc
  | String c s =>
      d ← digit c;
      let acc := 10 * acc + d in
      if acc <? 2 ^ 64 then parse_digits s acc else None
  end.

Definition parse_usize (s : string) : option N :=
  match s with
  | "" => None
  | String c s' =>
      if decide (c = "+"%char) then if decide (s' = "") then None else parse_digits s' 0
      else parse_digits s 0
  end.

(** [std::str::from_utf8]: whether bytes are UTF-8. *)
Definition in_range (lo hi b : N) : bool := (lo <=? b) && (b <=? hi).

Definition continuation : N → bool := in_range 0x80 0xBF.

Definition two_bytes (b0 b1 : N) : bool := in_range 0xC2 0xDF b0 && continuation b1.

Definition three_bytes (b0 b1 b2 : N) : bool :=
  (((b0 =? 0xE0) && in_range 0xA0 0xBF b1) || (in_range 0xE1 0xEC b0 && continuation b1) ||
   ((b0 =? 0xED) && in_range 0x80 0x9F b1) || (in_range 0xEE 0xEF b0 && continuation b1)) &&
  continuation b2.

Definition four_bytes (b0 b1 b2 b3 : N) : bool :=
  (((b0 =? 0xF0) && in_range 0x90 0xBF b1) || (in_range 0xF1 0xF3 b0 && continuation b1) ||
   ((b0 =? 0xF4) && in_range 0x80 0x8F b1)) &&
  continuation b2 && continuation b3.

Fixpoint utf8_bytes (l : list N) : bool :=
  match l with
  | [] => true
  | b0 :: l0 =>
      if b0 <? 0x80 then utf8_bytes l0
      else match l0 with
           | [] => false
           | b1 :: l1 =>
               if two_bytes b0 b1 then utf8_bytes l1
               else match l1 with
                    | [] => false
                    | b2 :: l2 =>
                        if three_bytes b0 b1 b2 then utf8_bytes l2
                        else match l2 with
                             | [] => false
                             | b3 :: l3 => four_bytes b0 b1 b2 b3 && utf8_bytes l3
                             end
                    end
           end
  end.

Definition from_utf8 (s : string) : option string :=
  if utf8_bytes (N_of_ascii <$> String.list_ascii_of_string s) then Some s else None.

(** [path.extension()] of a path that ends in the file name [s]: what follows the
    last dot, when something comes before it. *)
Fixpoint rsplit_dot (s : string) : option (string * string) :=
  match s with
  | "" => None
  | String a s' =>
      match rsplit_dot s' with
      | Some (before, after) => Some (String a before, after)
      | None => if decide (a = "."%char) then Some ("", s') else None
      end
  end.

Definition extension (s : string) : option string :=
  if decide (s = "..") then None
  else match rsplit_dot s with
       | Some ("", _) | None => None
       | Some (_, after) => Some after
       end.

(** ** The outside *)

(** What the script asks of the system: the variable, the two queries ([None]: the
    program cannot be started; otherwise its standard output), the directory of
    the kernels (an entry can fail to be read), and [nvcc] on a command line, after
    the commands started so far: whether it starts, and how it ends ([None]: it
    cannot be waited for; otherwise whether it succeeds). *)
Class BuildHost := {
  env_compute_cap : option string;
  nvidia_smi : option string;
  nvcc_list_gpu_code : option string;
  kernels_dir : option (list (option string));
  nvcc_starts : list (list string) → list string → bool;
  nvcc_ends : list (list string) → list string → option bool;
}.

Section Build.
  Context `{BuildHost}.

  (** ** The compute capability *)

  (** The capability asked for, by the variable or by the GPU; [None] is a panic. *)
Definition requested_cap : option N :=
    match env_compute_cap with
    | Some compute_cap_str => parse_usize compute_cap_str
    | None =>
        stdout ← nvidia_smi;
        out ← from_utf8 stdout;
        match lines out with
        | header :: cap :: _ =>
            if decide (header = "compute_cap") then parse_usize (remove_char "." cap) else None
        | _ => None
        end
    end.

  (** One line of [nvcc --list-gpu-code]: its number, if it has one; a line that is
      [sm] alone is an index out of range. *)
Definition gpu_code (code : string) : option (option N) :=
    let parts := split_char "_" code in
    if decide ("sm" ∈ parts) then parse_usize <$> parts !! 1%nat else Some None.

Fixpoint gpu_codes (out : list string) : option (list N) :=
    match out with
    | [] => Some []
    | code :: out =>
        num ← gpu_code code;
        codes ← gpu_codes out;
        Some (match num with Some num => num :: codes | None => codes end)
    end.

Definition supported_codes : option (list N) :=
    stdout ← nvcc_list_gpu_code;
    out ← from_utf8 stdout;
    codes ← gpu_codes (lines out);
    Some (merge_sort (≤) codes).

  (** [None] is a panic; the function never returns an error. *)
Definition compute_cap : option N :=
    compute_cap ← requested_cap;
    codes ← supported_codes;
    max_nvcc_code ← last codes;
    if decide (compute_cap ∈ codes) then
      if max_nvcc_code <? compute_cap then None else Some compute_cap
    else None.

  (** ** The kernels *)

  (** The names of the [.cu] files; [None] is a panic. *)
Fixpoint cu_files (entries : list (option string)) : option (list string) :=
    match entries with
    | [] => Some []
    | file :: entries =>
        file ← file;
        ext ← extension file;
        if decide (ext = "cu") then
          file ← from_utf8 file;
          files ← cu_files entries;
          Some (file :: files)
        else cu_files entries
    end.

Definition nvcc_command (compute_cap : N) (file : string) : list string :=
    ["nvcc"; "--gpu-architecture=sm_" +:+ pretty compute_cap; "--ptx"; "--use_fast_math";
     "-std=c++" +:+ pretty CPP_STD; "-O"; pretty OPT_LEVEL;
     "--default-stream"; "per-thread"; "--output-directory"; "kernels/"; "kernels/" +:+ file].

  (** [compile_files], one file after the other: whether it returns (otherwise it
      panics), and the commands that were started. *)
Fixpoint compile_files (files : list string) (compute_cap : N) (log : list (list string))
    : bool * list (list string) :=
    match files with
    | [] => (true, log)
    | file :: files =>
        let command := nvcc_command compute_cap file in
        if nvcc_starts log command then
          let log := (log ++ [command])%list in
          match nvcc_ends log command with
          | Some true => compile_files files compute_cap log
          | _ => (false, log)
          end
        else (false, log)
    end.

  (** [files.chunks(n)], which panics for [n = 0]; [build_plan] uses it only when
      there are more files than workers. *)
Fixpoint chunks_go {A} (fuel n : nat) (l : list A) : list (list A) :=
    match fuel, l with
    | S fuel, _ :: _ => take n l :: chunks_go fuel n (drop n l)
    | _, _ => []
    end.

Definition chunks {A} (n : nat) (l : list A) : list (list A) := chunks_go (length l) n l.

  (** What [main] does before it compiles: it panics ([None]), compiles all files
      itself, or spawns a thread for every chunk. *)
Inductive Plan :=
    | Alone (files : list string) (compute_cap : N)
    | Threads (chunked_files : list (list string)) (compute_cap : N).

Definition build_plan : option Plan :=
    compute_cap ← compute_cap;
    if compute_cap <? 70 then None
    else
      entries ← kernels_dir;
      files ← cu_files entries;
      if decide (length files ≤ WORKERS)%nat then Some (Alone files compute_cap)
      else Some (Threads (chunks (length files / WORKERS) files) compute_cap).

  (** ** The threads *)

  (** A thread with files left, one that waits for [nvcc], and one that is finished
      ([is_finished]), by a panic or not. *)
Inductive Worker :=
    | Compiling (files : list string)
    | Waiting (file : string) (files : list string)
    | Ended (panicked : bool).

Definition is_finished (w : Worker) : bool :=
    match w with Ended _ => true | _ => false end.

  (** The next step of a thread. *)
Definition worker_step (compute_cap : N) (log : list (list string)) (w : Worker)
    : option (Worker * list (list string)) :=
    match w with
    | Compiling [] => Some (Ended false, log)
    | Compiling (file :: files) =>
        let command := nvcc_command compute_cap file in
        if nvcc_starts log command then Some (Waiting file files, (log ++ [command])%list)
        else Some (Ended true, log)
    | Waiting file files =>
        match nvcc_ends log (nvcc_command compute_cap file) with
        | Some true => Some (Compiling files, log)
        | _ => Some (Ended true, log)
        end
    | Ended _ => None
    end.

  (** One thread goes on. *)
Inductive threads_step (compute_cap : N)
    : list Worker * list (list string) → list Worker * list (list string) → Prop :=
    | threads_step_intro ws log i w w' log' :
        ws !! i = Some w → worker_step compute_cap log w = Some (w', log') →
        threads_step compute_cap (ws, log) (<[i:=w']> ws, log').

  (** How [main] ends: with the commands it has started, or with a panic.  The loop
      at its end waits for all threads to be finished, and asks no more. *)
Inductive main_ends : option (list (list string)) → Prop :=
    | ends_without_plan : build_plan = None → main_ends None
    | ends_alone files cap ok log :
        build_plan = Some (Alone files cap) → compile_files files cap [] = (ok, log) →
        main_ends (if ok : bool then Some log else None)
    | ends_threads chunked cap ws log :
        build_plan = Some (Threads chunked cap) →
        rtc (threads_step cap) (Compiling <$> chunked, []) (ws, log) →
        forallb is_finished ws = true →
        main_ends (Some log).

  (** The files of a plan, in the order in which they are handed out, and its
      capability. *)
Definition plan_files (p : Plan) : list string :=
    match p with Alone files _ => files | Threads chunked _ => concat chunked end.

Definition plan_cap (p : Plan) : N :=
    match p with Alone _ cap | Threads _ cap => cap end.

End Build.

(** ** Lemmas: numbers as text *)

#[local] Close Scope string_scope.
#[local] Open Scope nat_scope.
#[local] Open Scope list_scope.

Lemma pretty_N_char_digit x : (x < 10)%N → digit (pretty_N_char x) = Some x.
Proof.
  intros Hx. assert (x = 0 ∨ x = 1 ∨ x = 2 ∨ x = 3 ∨ x = 4 ∨ x = 5 ∨ x = 6 ∨ x = 7 ∨ x = 8 ∨ x = 9)%N
    as Hc by lia. by repeat destruct Hc as [-> | Hc]; [.. | subst].
Qed.

Lemma pretty_N_char_not_plus x : pretty_N_char x ≠ "+"%char.
Proof. unfold pretty_N_char. by repeat case_match. Qed.

(** The digits of [x] put before a text leave [x] in the accumulator. *)
Lemma parse_pretty_go x s :
  (x < 2 ^ 64)%N → parse_digits (pretty_N_go x s) 0 = parse_digits s x.
Proof.
  revert s. induction (N.lt_wf_0 x) as [x _ IH]; intros s Hx.
  destruct (decide (x = 0)%N) as [->|Hne]; [by rewrite pretty_N_go_0 |].
  assert (x `div` 10 < x)%N by (apply N.div_lt; lia).
  rewrite pretty_N_go_step, IH by lia. cbn [parse_digits].
  rewrite pretty_N_char_digit by (apply N.mod_lt; lia). simpl.
  rewrite <- (N.div_mod x 10) by lia. by rewrite (proj2 (N.ltb_lt _ _)).
Qed.

Lemma pretty_N_go_head x s :
  (0 < x)%N → ∃ d s', pretty_N_go x s = String (pretty_N_char d) s'.
Proof.
  revert s. induction (N.lt_wf_0 x) as [x _ IH]; intros s Hx. rewrite pretty_N_go_step by done.
  destruct (decide (x `div` 10 = 0)%N) as [->|Hne]; [rewrite pretty_N_go_0; eauto |].
  apply IH; [apply N.div_lt; lia | by apply N.neq_0_lt_0].
Qed.

(** ** Lemmas: chunks *)

Section Chunks.
  Context {A : Type}.
  Implicit Types l : list A.

Lemma chunks_go_spec fuel n l :
    0 < n → length l ≤ fuel →
    concat (chunks_go fuel n l) = l ∧
    Forall (λ c, c ≠ [] ∧ length c ≤ n) (chunks_go fuel n l) ∧
    n * length (chunks_go fuel n l) < length l + n ∧
    length l ≤ n * length (chunks_go fuel n l).
  Proof.
    intros Hn. revert l. induction fuel as [|fuel IH]; intros [|x l] Hl; simpl in Hl;
      try (cbn; split_and!; [done | constructor | lia | lia]); [lia |].
    cbn [chunks_go concat length]. destruct (IH (drop n (x :: l))) as (Hc & Hf & Hlt & Hle).
    { rewrite length_drop. simpl. lia. }
    rewrite Hc, take_drop. rewrite length_drop in Hlt, Hle. simpl in Hlt, Hle. split_and!.
    - done.
    - constructor; [| done]. split; [| rewrite length_take; lia].
      destruct n; [lia | done].
    - destruct (decide (n ≤ S (length l))); [nia |].
      rewrite (proj2 (Nat.sub_0_le _ _)) in Hlt by lia.
      assert (length (chunks_go fuel n (drop n (x :: l))) = 0) by nia. nia.
    - nia.
  Qed.

  (** Chunks of a non-zero size. *)
Lemma chunks_spec n l :
    0 < n →
    concat (chunks n l) = l ∧ Forall (λ c, c ≠ [] ∧ length c ≤ n) (chunks n l) ∧
    n * length (chunks n l) < length l + n ∧ length l ≤ n * length (chunks n l).
  Proof. intros Hn. by apply chunks_go_spec. Qed.

Lemma quarter_pos l : WORKERS < length l → 0 < length l / WORKERS.
  Proof. intros Hl. apply Nat.div_str_pos. unfold WORKERS in *. lia. Qed.

  (** The number of chunks of a quarter, rounded down. *)
Lemma quarter_chunks l :
    WORKERS < length l →
    WORKERS ≤ length (chunks (length l / WORKERS) l) < 2 * WORKERS.
  Proof.
    unfold WORKERS. intros Hl. pose proof (Nat.div_mod_eq (length l) 4) as Hd.
    pose proof (Nat.mod_upper_bound (length l) 4 ltac:(done)) as Hm.
    assert (1 ≤ length l / 4) by (apply Nat.div_le_lower_bound; lia).
    destruct (chunks_spec (length l / 4) l ltac:(lia)) as (_ & _ & Hlt & Hle).
    set (k := length l / 4) in *. set (m := length l mod 4) in *. split; nia.
  Qed.

End Chunks.

(** ** Lemmas: the capability *)

Section BuildLemmas.
  Context `{BuildHost}.

Lemma gpu_codes_spec out codes :
    gpu_codes out = Some codes →
    Forall (λ l, is_Some (gpu_code l)) out ∧
    ∀ cap, cap ∈ codes ↔ ∃ line, line ∈ out ∧ gpu_code line = Some (Some cap).
  Proof.
    revert codes. induction out as [|line out IH]; simpl; intros codes E.
    - injection E as <-. split; [done | set_solver].
    - apply bind_Some in E as (num & Hn & E). apply bind_Some in E as (codes1 & Hc & [= <-]).
      destruct (IH _ Hc) as [Hf Hin]. split; [by constructor |]. intros cap. split.
      + destruct num as [num|].
        * intros [->|Hcap]%elem_of_cons; [exists line; set_solver |].
          apply Hin in Hcap as (l & ? & ?). exists l. set_solver.
        * intros Hcap. apply Hin in Hcap as (l & ? & ?). exists l. set_solver.
      + intros (l & [->|Hl]%elem_of_cons & El).
        * rewrite Hn in El. injection El as ->. set_solver.
        * assert (cap ∈ codes1) by (apply Hin; eauto). destruct num; set_solver.
  Qed.

Lemma gpu_codes_total out :
    Forall (λ l, is_Some (gpu_code l)) out → is_Some (gpu_codes out).
  Proof.
    induction 1 as [|line out [num Hn] _ [codes Hc]]; simpl; [by eexists |].
    rewrite Hn, Hc. by eexists.
  Qed.

  (** The last of the sorted codes is the greatest. *)
Lemma last_sorted_max (l : list N) x m :
    x ∈ l → last (merge_sort (≤)%N l) = Some m → (x ≤ m)%N.
  Proof.
    intros Hx Hl. rewrite <- (merge_sort_Permutation (≤)%N l) in Hx.
    pose proof (StronglySorted_merge_sort (≤)%N l) as Hs.
    apply last_Some in Hl as [l' E]. rewrite E in Hs, Hx.
    apply elem_of_app in Hx as [Hx|Hx]; [| by apply list_elem_of_singleton in Hx as ->].
    apply (StronglySorted_app_1_elem_of _ _ _ x m Hs Hx). by left.
  Qed.

End BuildLemmas.

(** ** Lemmas: the threads *)

Section ThreadLemmas.
  Context `{BuildHost} (cap : N).

  (** The files a thread has not started. *)
Definition pending (w : Worker) : list string :=
    match w with Compiling files | Waiting _ files => files | Ended _ => [] end.

Definition all_pending (ws : list Worker) : list string := concat (pending <$> ws).

  (** The steps a thread has left, at most. *)
Definition weight (w : Worker) : nat :=
    match w with
    | Compiling files => 2 * length files + 1
    | Waiting _ files => 2 * length files + 2
    | Ended _ => 0
    end.

Definition total_weight (ws : list Worker) : nat := sum_list (weight <$> ws).

  (** Every compilation succeeds. *)
Definition nvcc_reliable : Prop :=
    ∀ log command, nvcc_starts log command = true ∧ nvcc_ends log command = Some true.

  (** No compilation succeeds. *)
Definition nvcc_broken : Prop := ∀ log command, nvcc_ends log command ≠ Some true.

Lemma worker_step_spec log w w' log' :
    worker_step cap log w = Some (w', log') →
    weight w' < weight w ∧
    ∃ dropped, log' ++ (nvcc_command cap <$> pending w') ++ (nvcc_command cap <$> dropped) ≡ₚ
      log ++ (nvcc_command cap <$> pending w) ∧ (nvcc_reliable → dropped = []).
  Proof.
    intros E. destruct w as [[|file files]|file files|b]; simpl in E.
    - injection E as <- <-. split; [simpl; lia |]. by exists [].
    - destruct (nvcc_starts _ _) eqn:Es; injection E as <- <-; simpl; (split; [lia |]).
      + exists []. split; [| done]. by rewrite app_nil_r, <- (assoc_L (++)).
      + exists (file :: files). split; [done |]. intros Hr. by rewrite (proj1 (Hr _ _)) in Es.
    - destruct (nvcc_ends _ _) as [[]|] eqn:Ee; injection E as <- <-; simpl; (split; [lia |]).
      1: { exists []. by rewrite app_nil_r. }
      all: exists files; split; [done |]; intros Hr; by rewrite (proj2 (Hr _ _)) in Ee.
    - done.
  Qed.

Lemma worker_goes_on log w : is_finished w = false → is_Some (worker_step cap log w).
  Proof.
    destruct w as [[|file files]|file files|b]; simpl; intros Hw; try done.
    - destruct (nvcc_starts _ _); by eexists.
    - destruct (nvcc_ends _ _) as [[]|]; by eexists.
  Qed.

Lemma all_pending_insert ws i w w' :
    ws !! i = Some w →
    all_pending (<[i:=w']> ws) ++ pending w ≡ₚ all_pending ws ++ pending w'.
  Proof.
    intros Hi. unfold all_pending. rewrite <- (take_drop_middle ws i w Hi) at 2.
    rewrite insert_take_drop by (by eapply lookup_lt_Some).
    rewrite !fmap_app, !fmap_cons, !concat_app. simpl.
    rewrite <- !(assoc_L (++)), (Permutation_app_comm (pending w')).
    rewrite (Permutation_app_comm (concat _) (pending w)) at 1. solve_Permutation.
  Qed.

  (** What a step keeps: the commands started and the files still to come are the
      ones before it, without what a failing thread drops. *)
Lemma threads_step_spec c c' :
    threads_step cap c c' →
    total_weight c'.1 < total_weight c.1 ∧ length c'.1 = length c.1 ∧
    ∃ dropped, c'.2 ++ (nvcc_command cap <$> all_pending c'.1) ++ (nvcc_command cap <$> dropped) ≡ₚ
      c.2 ++ (nvcc_command cap <$> all_pending c.1) ∧ (nvcc_reliable → dropped = []).
  Proof.
    intros Hs. destruct Hs as [ws log i w w' log' Hi E]. simpl.
    destruct (worker_step_spec _ _ _ _ E) as (Hw & dropped & Hd & Hr).
    split_and!; [| by rewrite length_insert |].
    - unfold total_weight. pose proof (sum_list_fmap_insert weight ws i w w' Hi). lia.
    - exists dropped. split; [| done].
      pose proof (fmap_Permutation (nvcc_command cap) _ _ (all_pending_insert ws i w w' Hi)) as Hp.
      rewrite !fmap_app in Hp.
      apply (Permutation_app_inv_l (nvcc_command cap <$> pending w)).
      trans ((log ++ (nvcc_command cap <$> pending w)) ++ (nvcc_command cap <$> all_pending ws));
        [| solve_Permutation].
      rewrite <- Hd.
      trans (log' ++ (nvcc_command cap <$> dropped) ++
             ((nvcc_command cap <$> all_pending (<[i:=w']> ws)) ++ (nvcc_command cap <$> pending w)));
        [solve_Permutation | rewrite Hp; solve_Permutation].
  Qed.

Lemma threads_reach c c' :
    rtc (threads_step cap) c c' →
    length c'.1 = length c.1 ∧
    ∃ dropped, c'.2 ++ (nvcc_command cap <$> all_pending c'.1) ++ (nvcc_command cap <$> dropped) ≡ₚ
      c.2 ++ (nvcc_command cap <$> all_pending c.1) ∧ (nvcc_reliable → dropped = []).
  Proof.
    induction 1 as [c|c1 c2 c3 Hs _ (Hl & d2 & Hd2 & Hr2)].
    - split; [done |]. exists []. by rewrite app_nil_r.
    - destruct (threads_step_spec _ _ Hs) as (_ & Hl1 & d1 & Hd1 & Hr1).
      split; [congruence |]. exists (d2 ++ d1). split.
      + rewrite fmap_app, (assoc_L (++) (nvcc_command cap <$> all_pending c3.1)).
        rewrite (assoc_L (++) c3.2), Hd2, <- (assoc_L (++)). exact Hd1.
      + intros Hr. by rewrite Hr1, Hr2.
  Qed.

Lemma threads_nsteps n c c' :
    nsteps (threads_step cap) n c c' → n + total_weight c'.1 ≤ total_weight c.1.
  Proof.
    induction 1 as [c|n c1 c2 c3 Hs _ IH]; [done |].
    destruct (threads_step_spec _ _ Hs) as (Hw & _). lia.
  Qed.

Lemma all_finished_or_step c :
    forallb is_finished c.1 = true ∨ ∃ c', threads_step cap c c'.
  Proof.
    destruct c as [ws log]. destruct (forallb is_finished ws) eqn:E; [by left |]. right.
    assert (∃ i w, ws !! i = Some w ∧ is_finished w = false) as (i & w & Hi & Hw).
    { induction ws as [|w ws IH]; [done |]. simpl in E. apply andb_false_iff in E as [E|E].
      - by exists 0, w.
      - destruct (IH E) as (i & x & ? & ?). by exists (S i), x. }
    destruct (worker_goes_on log w Hw) as [[w' log'] Es].
    exists (<[i:=w']> ws, log'). by econstructor.
  Qed.

  (** The threads always come to an end. *)
Lemma threads_finish c :
    ∃ c', rtc (threads_step cap) c c' ∧ forallb is_finished c'.1 = true.
  Proof.
    remember (total_weight c.1) as n eqn:Hn. revert c Hn.
    induction (lt_wf n) as [n _ IH]. intros c ->.
    destruct (all_finished_or_step c) as [Hf|[c1 Hs]]; [by exists c |].
    destruct (threads_step_spec _ _ Hs) as (Hw & _).
    destruct (IH _ Hw c1 eq_refl) as (c2 & Hr & Hf). exists c2. split; [by eapply rtc_l | done].
  Qed.

Lemma finished_pending ws : forallb is_finished ws = true → all_pending ws = [].
  Proof.
    unfold all_pending. induction ws as [|[| |b] ws IH]; simpl; [done ..|]. exact IH.
  Qed.

Lemma start_pending (chunked : list (list string)) :
    all_pending (Compiling <$> chunked) = concat chunked.
  Proof. unfold all_pending. by rewrite <- list_fmap_compose, list_fmap_id. Qed.

Lemma start_weight (chunked : list (list string)) :
    total_weight (Compiling <$> chunked) = 2 * length (concat chunked) + length chunked.
  Proof.
    unfold total_weight. induction chunked as [|c chunked IH]; [done |]. csimpl.
    unfold id in *. rewrite IH, length_app. lia.
  Qed.

  (** The threads that have not started a compilation yet. *)
Definition fresh_threads (ws : list Worker) : nat :=
    sum_list ((λ w, match w with Compiling _ => 1 | _ => 0 end) <$> ws).

  (** If no compilation succeeds, a thread starts at most one. *)
Lemma broken_step c c' :
    nvcc_broken → threads_step cap c c' →
    length c'.2 + fresh_threads c'.1 ≤ length c.2 + fresh_threads c.1.
  Proof.
    intros Hb Hs. destruct Hs as [ws log i w w' log' Hi E]. simpl. unfold fresh_threads.
    pose proof (sum_list_fmap_insert (λ w, match w with Compiling _ => 1 | _ => 0 end) ws i w w' Hi)
      as Hsum.
    destruct w as [[|file files]|file files|b]; simpl in E.
    - injection E as <- <-. lia.
    - destruct (nvcc_starts _ _); injection E as <- <-; rewrite ?length_app; simpl in *; lia.
    - destruct (nvcc_ends _ _) as [[]|] eqn:Ee; [by apply Hb in Ee | ..];
        injection E as <- <-; lia.
    - done.
  Qed.

Lemma broken_reach c c' :
    nvcc_broken → rtc (threads_step cap) c c' →
    length c'.2 + fresh_threads c'.1 ≤ length c.2 + fresh_threads c.1.
  Proof.
    intros Hb. induction 1 as [|c1 c2 c3 Hs _ IH]; [done |].
    pose proof (broken_step _ _ Hb Hs). lia.
  Qed.

  (** [main] on its own. *)
Lemma compile_files_reliable files log :
    nvcc_reliable → compile_files files cap log = (true, log ++ (nvcc_command cap <$> files)).
  Proof.
    intros Hr. revert log. induction files as [|file files IH]; intros log; simpl;
      [by rewrite app_nil_r |].
    destruct (Hr log (nvcc_command cap file)) as [-> _].
    destruct (Hr (log ++ [nvcc_command cap file]) (nvcc_command cap file)) as [_ ->].
    by rewrite IH, <- (assoc_L (++)).
  Qed.

Lemma compile_files_broken file files log :
    nvcc_broken → (compile_files (file :: files) cap log).1 = false.
  Proof.
    intros Hb. simpl. destruct (nvcc_starts _ _); [| done].
    destruct (nvcc_ends _ _) as [[]|] eqn:E; [by apply Hb in E | done | done].
  Qed.

Lemma start_fresh (chunked : list (list string)) :
    fresh_threads (Compiling <$> chunked) = length chunked.
  Proof.
    unfold fresh_threads. induction chunked as [|c chunked IH]; [done |]. csimpl.
    unfold id in *. by rewrite IH.
  Qed.

  (** ** Lemmas: the plan *)

Lemma plan_alone_few files c : build_plan = Some (Alone files c) → length files ≤ WORKERS.
  Proof.
    intros E. apply bind_Some in E as (c' & _ & E). destruct (c' <? 70)%N; [done |].
    apply bind_Some in E as (entries & _ & E). apply bind_Some in E as (fs & _ & E).
    case_decide; [by injection E as <- <- | done].
  Qed.

Lemma plan_threads chunked c :
    build_plan = Some (Threads chunked c) →
    ∃ entries files, kernels_dir = Some entries ∧ cu_files entries = Some files ∧
      compute_cap = Some c ∧ (70 ≤ c)%N ∧ WORKERS < length files ∧
      chunked = chunks (length files / WORKERS) files.
  Proof.
    intros E. apply bind_Some in E as (c' & Hc & E). destruct (N.ltb_spec c' 70); [done |].
    apply bind_Some in E as (entries & He & E). apply bind_Some in E as (fs & Hf & E).
    case_decide as Hw; [done |]. injection E as <- <-. exists entries, fs.
    split_and!; try done. lia.
  Qed.

  (** How a plan with threads shares out the files. *)
Lemma plan_threads_many chunked c :
    build_plan = Some (Threads chunked c) →
    WORKERS < length (concat chunked) ∧ WORKERS ≤ length chunked < 2 * WORKERS.
  Proof.
    intros E. destruct (plan_threads _ _ E) as (_ & files & _ & _ & _ & _ & Hw & ->).
    destruct (chunks_spec _ files (quarter_pos _ Hw)) as (-> & _). split; [done | by apply quarter_chunks].
  Qed.

  (** *** The kernels of the directory *)

Definition is_cu (name : string) : Prop := extension name = Some "cu"%string.

#[local] Instance is_cu_dec name : Decision (is_cu name) := ltac:(unfold is_cu; apply _).

  (** A file name the script can take: it has an extension, and is text when the
      extension is [cu]. *)
Definition readable_name (name : string) : Prop :=
    is_Some (extension name) ∧ (is_cu name → is_Some (from_utf8 name)).

  (** What [main] needs: a capability that [compute_cap] accepts and that is not below
      70, and a directory whose entries can be read, with the names given. *)
Definition can_build (c : N) (names : list string) : Prop :=
    compute_cap = Some c ∧ (70 ≤ c)%N ∧ kernels_dir = Some (Some <$> names) ∧
    Forall readable_name names.

Lemma from_utf8_same s s' : from_utf8 s = Some s' → s' = s.
  Proof. unfold from_utf8. by case_match; intros [= <-]. Qed.

Lemma cu_files_iff entries files :
    cu_files entries = Some files ↔
    ∃ names, entries = Some <$> names ∧ Forall readable_name names ∧ files = filter is_cu names.
  Proof.
    revert files. induction entries as [|[name|] entries IH]; intros files; simpl.
    - split; [intros [= <-]; by exists [] |]. by intros ([|??] & ? & _ & ->).
    - split.
      + intros E. apply bind_Some in E as (ext & Hx & E). case_decide as Hcu.
        * subst ext. apply bind_Some in E as (s & Hu & E).
          apply bind_Some in E as (fs & Hfs & [= <-]).
          apply IH in Hfs as (names & -> & Hn & ->). exists (name :: names).
          rewrite filter_cons_True, (from_utf8_same _ _ Hu) by done. split_and!; [done | | done].
          constructor; [| done]. by split; eexists.
        * apply IH in E as (names & -> & Hn & ->). exists (name :: names).
          assert (¬ is_cu name) by (unfold is_cu; by rewrite Hx; intros [= ?]).
          rewrite filter_cons_False by done. split_and!; [done | | done].
          constructor; [| done]. by split; [eexists | intros ?].
      + intros ([|n names] & [= <- Hn] & Hr & ->). apply Forall_cons in Hr as [[[ext Hx] Hu] Hr].
        assert (Hfs : cu_files entries = Some (filter is_cu names)) by (apply IH; eauto).
        rewrite Hx. simpl. case_decide as Hcu.
        * subst ext. destruct (Hu Hx) as [s Hs]. rewrite Hs, Hfs. simpl.
          by rewrite filter_cons_True, (from_utf8_same _ _ Hs).
        * rewrite filter_cons_False; [done |]. unfold is_cu. by rewrite Hx; intros [= ?].
    - split; [done |]. by intros ([|??] & ? & _).
  Qed.

  (** The plan hands out the kernels of the directory, each once, and there is a plan
      when [main] has what it needs. *)
Lemma build_plan_files p :
    build_plan = Some p →
    ∃ names, can_build (plan_cap p) names ∧ plan_files p = filter is_cu names.
  Proof.
    intros E. apply bind_Some in E as (c & Hc & E). destruct (N.ltb_spec c 70); [done |].
    apply bind_Some in E as (entries & He & E). apply bind_Some in E as (files & Hf & E).
    apply cu_files_iff in Hf as (names & -> & Hr & ->). exists names.
    case_decide as Hw; injection E as <-; cbn [plan_cap plan_files];
      (split; [by split_and! |]); [done |].
    exact (proj1 (chunks_spec _ _ (quarter_pos _ (proj1 (Nat.nle_gt _ _) Hw)))).
  Qed.

Lemma can_build_plan c names : can_build c names → is_Some build_plan.
  Proof.
    intros (Hc & Hge & Hd & Hr). unfold build_plan. rewrite Hc. simpl.
    rewrite (proj2 (N.ltb_ge _ _)), Hd by done. simpl.
    assert (cu_files (Some <$> names) = Some (filter is_cu names)) as -> by (apply cu_files_iff; eauto).
    simpl. case_decide; by eexists.
  Qed.

End ThreadLemmas.

(** ** Properties *)

Section BuildProperties.
  Context `{BuildHost}.

  (** A number that is printed is read back, as long as it is a [usize]. *)
Theorem parse_usize_pretty n :
    (n < 2 ^ 64)%N → parse_usize (pretty n) = Some n.
  Proof.
    intros Hn. destruct (decide (n = 0)%N) as [->|Hne]; [done |].
    assert (E : pretty n = pretty_N_go n "") by (unfold pretty, pretty_N; by rewrite decide_False).
    rewrite E. destruct (pretty_N_go_head n "" ltac:(lia)) as (d & s' & Es).
    unfold parse_usize. rewrite Es, decide_False by apply pretty_N_char_not_plus.
    rewrite <- Es. by apply parse_pretty_go.
  Qed.

  (** Which capability is accepted: the one that is asked for, exactly when the
      answer of [nvcc] is text every line of which can be read, and one of the lines
      names it.  The comparison with the greatest code never rejects anything. *)
Theorem compute_cap_accepts_iff cap :
    compute_cap = Some cap ↔
    requested_cap = Some cap ∧
    ∃ stdout out, nvcc_list_gpu_code = Some stdout ∧ from_utf8 stdout = Some out ∧
      Forall (λ line, is_Some (gpu_code line)) (lines out) ∧
      ∃ line, line ∈ lines out ∧ gpu_code line = Some (Some cap).
  Proof.
    unfold compute_cap, supported_codes. split.
    - intros E. apply bind_Some in E as (c & Hr & E). apply bind_Some in E as (codes & Hs & E).
      apply bind_Some in E as (m & Hm & E). case_decide as Hin; [| done].
      destruct (m <? c)%N; [done |]. injection E as <-. split; [done |].
      apply bind_Some in Hs as (stdout & Ho & Hs). apply bind_Some in Hs as (out & Hu & Hs).
      apply bind_Some in Hs as (l & Hl & [= <-]). exists stdout, out.
      destruct (gpu_codes_spec _ _ Hl) as [Hf Hc]. split_and!; try done.
      apply Hc. by rewrite <- (merge_sort_Permutation (≤)%N l).
    - intros (-> & stdout & out & -> & Hu & Hf & Hline). simpl. rewrite Hu. simpl.
      destruct (gpu_codes_total _ Hf) as [l Hl]. rewrite Hl. simpl.
      apply (gpu_codes_spec _ _ Hl) in Hline as Hin.
      pose proof Hin as Hin'. rewrite <- (merge_sort_Permutation (≤)%N l) in Hin'.
      destruct (last (merge_sort (≤)%N l)) as [m|] eqn:Hm.
      + simpl. rewrite decide_True by done.
        pose proof (last_sorted_max l cap m Hin Hm). by rewrite (proj2 (N.ltb_ge _ _)).
      + apply last_None in Hm. rewrite Hm in Hin'. by apply elem_of_nil in Hin'.
  Qed.

  (** C35: the threads share out the kernels.  With more kernels than workers, every
      kernel of the directory is in exactly one chunk, in the order of the directory,
      no chunk is empty, and there are at least [WORKERS] threads and fewer than
      twice as many: more than [WORKERS] whenever the count is not right. *)
Theorem threads_cover_kernels chunked cap :
    build_plan = Some (Threads chunked cap) →
    (70 ≤ cap)%N ∧ compute_cap = Some cap ∧
    ∃ entries, kernels_dir = Some entries ∧ cu_files entries = Some (concat chunked) ∧
      WORKERS < length (concat chunked) ∧ Forall (λ c, c ≠ []) chunked ∧
      WORKERS ≤ length chunked < 2 * WORKERS.
  Proof.
    intros E. destruct (plan_threads _ _ E) as (entries & files & He & Hf & Hc & Hge & Hw & Ech).
    destruct (chunks_spec _ files (quarter_pos _ Hw)) as (Hcc & Hne & _). rewrite <- Ech in Hcc, Hne.
    destruct (plan_threads_many _ _ E) as [_ Hl].
    split_and!; [done | done |]. exists entries. rewrite Hcc. split_and!; [done .. | | lia | lia].
    eapply Forall_impl; [exact Hne |]. by intros ? [].
  Qed.

  (** C33: every kernel is compiled once.  With a compiler that works, every end of
      [main], alone or with threads and whatever their interleaving, is of one of two
      kinds.  It returns after one command for every file of the directory whose
      extension is [cu], and for no other file; then the capability is accepted and at
      least 70, every entry can be read, every name has an extension, and the names of
      the kernels are text.  Or it panics, and then one of these is not the case. *)
Theorem every_kernel_compiled_once r :
    nvcc_reliable → main_ends r →
    match r with
    | Some log => ∃ cap names, can_build cap names ∧
        log ≡ₚ nvcc_command cap <$> filter is_cu names
    | None => ∀ cap names, ¬ can_build cap names
    end.
  Proof.
    intros Hr Hm. destruct Hm as [E|files cap ok log E Hc|chunked cap ws log E Hs Hf].
    - intros cap names Hb. destruct (can_build_plan _ _ Hb) as [p Ep]. congruence.
    - rewrite (compile_files_reliable cap files [] Hr) in Hc. injection Hc as <- <-.
      destruct (build_plan_files _ E) as (names & Hb & Efs). exists cap, names.
      split; [done |]. simpl in Efs. by rewrite Efs.
    - destruct (build_plan_files _ E) as (names & Hb & Efs). exists cap, names. split; [done |].
      destruct (threads_reach cap _ _ Hs) as (_ & dropped & Hd & Hdr).
      rewrite (Hdr Hr) in Hd. simpl in Hd, Efs.
      rewrite (finished_pending _ Hf), start_pending in Hd. rewrite !app_nil_r in Hd.
      by rewrite Hd, Efs.
  Qed.

  (** The build ends.  However its threads interleave they take at most two steps
      per kernel and one per thread, they can always go on until all of them are
      finished, and so [main] always comes to an end. *)
Theorem build_terminates :
    (∃ r, main_ends r) ∧
    ∀ chunked cap n c, build_plan = Some (Threads chunked cap) →
      nsteps (threads_step cap) n (Compiling <$> chunked, []) c →
      n ≤ 2 * length (concat chunked) + length chunked ∧
      (forallb is_finished c.1 = true ∨ ∃ c', threads_step cap c c').
  Proof.
    split.
    - destruct build_plan as [[files cap|chunked cap]|] eqn:E.
      + destruct (compile_files files cap []) as [ok log] eqn:Ec. eexists. by eapply ends_alone.
      + destruct (threads_finish cap (Compiling <$> chunked, [])) as ([ws log] & Hs & Hf).
        eexists. by eapply ends_threads.
      + eexists. by apply ends_without_plan.
    - intros chunked cap n c _ Hn. split; [| apply all_finished_or_step].
      pose proof (threads_nsteps cap n _ _ Hn) as Hw. simpl in Hw. rewrite start_weight in Hw. lia.
  Qed.

  (** C34: a failure in a thread goes unnoticed.  With a compiler that compiles
      nothing, [main] panics exactly when it compiles the kernels itself; when there
      are more kernels than workers it returns, after at most one attempt per
      thread, as if the kernels were there. *)
Theorem failures_in_threads_unnoticed plan r :
    nvcc_broken → build_plan = Some plan → plan_files plan ≠ [] → main_ends r →
    if decide (length (plan_files plan) ≤ WORKERS) then r = None
    else ∃ log, r = Some log ∧ length log < 2 * WORKERS.
  Proof.
    intros Hb Hp Hne Hm. destruct Hm as [E|files cap ok log E Hc|chunked cap ws log E Hs Hf];
      rewrite Hp in E; [done | injection E as -> ..]; simpl in *.
    - rewrite decide_True by (by eapply plan_alone_few). destruct files as [|file files]; [done |].
      pose proof (compile_files_broken cap file files [] Hb) as Hk. rewrite Hc in Hk.
      simpl in Hk. by subst ok.
    - destruct (plan_threads_many chunked cap Hp) as [Hlt Hn].
      rewrite decide_False by lia. exists log. split; [done |].
      pose proof (broken_reach cap _ _ Hb Hs) as Hl. simpl in Hl.
      rewrite start_fresh in Hl. unfold WORKERS in *. lia.
  Qed.

End BuildProperties.

(** *** Witnesses *)

Section BuildExamples.

Definition newline : string := String "010" "".

  (** A host with one GPU and the kernels given, whose compiler answers [ok]. *)
Definition plain_host (kernels : list string) (ok : bool) : BuildHost := {|
    env_compute_cap := None;
    nvidia_smi := Some ("compute_cap" +:+ newline +:+ "8.6" +:+ newline);
    nvcc_list_gpu_code := Some ("sm_70" +:+ newline +:+ "sm_90a" +:+ newline +:+ "sm_86" +:+ newline);
    kernels_dir := Some (Some <$> kernels);
    nvcc_starts _ _ := true;
    nvcc_ends _ _ := Some ok |}.

  (** The kernels of the repository, and two more than workers. *)
Definition ex_kernels : list string :=
    ["attention_kernel.cu"; "copy_blocks_kernel.cu"; "reshape_and_cache_kernel.cu";
     "rotary_embedding_kernel.cu"].

Definition ex_many : list string := ex_kernels ++ ["notes.txt"; "a.cu"; "b.cu"].

Lemma parse_usize_pretty_witness : (86 < 2 ^ 64)%N ∧ parse_usize "86" = Some 86%N.
  Proof. split; [done | exact (parse_usize_pretty 86 eq_refl)]. Defined.

Lemma threads_cover_kernels_witness :
    build_plan (H := plain_host ex_many true) =
      Some (Threads [["attention_kernel.cu"]; ["copy_blocks_kernel.cu"];
        ["reshape_and_cache_kernel.cu"]; ["rotary_embedding_kernel.cu"]; ["a.cu"]; ["b.cu"]] 86) ∧
    (70 ≤ 86)%N.
  Proof.
    assert (E : build_plan (H := plain_host ex_many true) =
      Some (Threads [["attention_kernel.cu"]; ["copy_blocks_kernel.cu"];
        ["reshape_and_cache_kernel.cu"]; ["rotary_embedding_kernel.cu"]; ["a.cu"]; ["b.cu"]] 86))
      by (vm_compute; reflexivity).
    split; [exact E |]. exact (proj1 (threads_cover_kernels (H := plain_host ex_many true) _ _ E)).
  Defined.

  (** Six kernels in six threads, and a directory with a file that has no extension. *)
Lemma every_kernel_compiled_once_witness :
    (∃ log, main_ends (H := plain_host ex_many true) (Some log) ∧ length log = 6) ∧
    main_ends (H := plain_host ["README"] true) None ∧
    ¬ can_build (H := plain_host ["README"] true) 86 ["README"].
  Proof.
    split.
    - set (chunked := chunks 1 (ex_kernels ++ ["a.cu"; "b.cu"])).
      assert (E : build_plan (H := plain_host ex_many true) = Some (Threads chunked 86))
        by (vm_compute; reflexivity).
      destruct (threads_finish (H := plain_host ex_many true) 86 (Compiling <$> chunked, []))
        as ([ws log] & Hs & Hf).
      assert (Hm : main_ends (H := plain_host ex_many true) (Some log))
        by exact (ends_threads (H := plain_host ex_many true) chunked 86 ws log E Hs Hf).
      exists log. split; [exact Hm |].
      destruct (every_kernel_compiled_once (H := plain_host ex_many true) (Some log)
        ltac:(by split) Hm) as (cap & names & (_ & _ & En & _) & Hp).
      assert (names = ex_many) as ->
        by (apply (inj (fmap Some)); injection En as En; symmetry; exact En).
      apply Permutation_length in Hp. exact Hp.
    - assert (Hm : main_ends (H := plain_host ["README"] true) None)
        by (apply ends_without_plan; vm_compute; reflexivity).
      split; [exact Hm |].
      exact (every_kernel_compiled_once (H := plain_host ["README"] true) None
        ltac:(by split) Hm 86%N ["README"]).
  Defined.

Lemma build_terminates_witness :
    0 ≤ 2 * length ex_kernels + length (chunks 1 ex_many) ∧
    ∃ r, main_ends (H := plain_host ex_many false) r.
  Proof. split; [lia | exact (proj1 (build_terminates (H := plain_host ex_many false)))]. Defined.

Lemma failures_in_threads_unnoticed_witness :
    (∃ log, main_ends (H := plain_host ex_many false) (Some log) ∧ length log < 8) ∧
    main_ends (H := plain_host ex_kernels false) None.
  Proof.
    split; [| apply (ends_alone (H := plain_host ex_kernels false) ex_kernels 86 false
                [nvcc_command 86 "attention_kernel.cu"]); vm_compute; reflexivity].
    set (chunked := chunks 1 (ex_kernels ++ ["a.cu"; "b.cu"])).
    assert (E : build_plan (H := plain_host ex_many false) = Some (Threads chunked 86))
      by (vm_compute; reflexivity).
    destruct (threads_finish (H := plain_host ex_many false) 86 (Compiling <$> chunked, []))
      as ([ws log] & Hs & Hf).
    assert (Hm : main_ends (H := plain_host ex_many false) (Some log))
      by exact (ends_threads (H := plain_host ex_many false) chunked 86 ws log E Hs Hf).
    destruct (failures_in_threads_unnoticed (H := plain_host ex_many false) (Threads chunked 86)
      (Some log) ltac:(done) E ltac:(done) Hm) as (log' & E' & Hl).
    injection E' as <-. exists log. split; [exact Hm | exact Hl].
  Defined.

End BuildExamples.
